(** * Tile residency engine of SamplerFeedbackStreaming

    A shallow embedding of [TileUpdateManager/StreamingResource.cpp] and
    [StreamingResource.h] (class [StreamingResourceBase] with its nested
    classes [TileMappingState] and [EvictionDelay]), followed by the
    properties of the residency engine that are established on it.

    Conventions of the embedding.
    - [UINT] values that are only used as vector indices, loop counters or
      vector sizes are [nat]; the vectors of the program hold far fewer
      than 2^32 elements, so the casts [(UINT)v.size()] preserve the value.
    - [UINT32] values on which the program does arithmetic that may wrap
      (reference counts, the copy budget of a batch) are [Z], and the
      wrap-around is written out with [u32].
    - [UINT8] mip levels are [nat]; the narrowing casts of the program are
      written out with [u8].
    - A [std::vector] is a [list]; [v[i] = x] is [<[i:=x]> v].  Indexing a
      vector out of range is undefined behaviour in the program; in the
      embedding an out of range write leaves the vector unchanged and an
      out of range read yields a default value.  Statements that depend on
      a tile carry the hypothesis that it lies inside the grids. *)

From stdpp Require Import base numbers option list.

(** ** Machine integers *)

Definition u32 (z : Z) : Z := (z mod 4294967296)%Z.

Definition u8 (n : nat) : nat := n mod 256.

(** [UINT8(n - 1)]: the subtraction is done on [int] and narrowed back. *)
Definition u8_pred (n : nat) : nat := u8 (n + 255).

(** ** Tile coordinates

    [D3D12_TILED_RESOURCE_COORDINATE{ x, y, 0, s }]: the third component is
    the depth slice, always 0 for the 2-D textures of the program, and is
    left out. *)

Record D3D12_TILED_RESOURCE_COORDINATE := Coord {
  X : nat;
  Y : nat;
  Subresource : nat
}.

#[global] Instance coord_eq_dec : EqDecision D3D12_TILED_RESOURCE_COORDINATE.
Proof. solve_decision. Defined.

(** ** Three-level grids: [TileLayer<T> = vector<vector<vector<T>>>],
    indexed [layer[s][y][x]]. *)

Abbreviation TileRow A := (list A) (only parsing).
Abbreviation TileY A := (list (list A)) (only parsing).
Abbreviation TileLayer A := (list (list (list A))) (only parsing).

Definition layer_lookup {A} (l : TileLayer A) (x y s : nat) : option A :=
  match l !! s with
  | Some plane =>
      match plane !! y with
      | Some row => row !! x
      | None => None
      end
  | None => None
  end.

(** [layer[s][y][x]] as an rvalue. *)
Definition layer_get {A} (d : A) (l : TileLayer A) (x y s : nat) : A :=
  default d (layer_lookup l x y s).

(** [layer[s][y][x] = v]. *)
Definition layer_set {A} (l : TileLayer A) (x y s : nat) (v : A) : TileLayer A :=
  alter (alter (λ row, <[x:=v]> row) y) s l.

(** [v.back()] *)
Definition back {A} (d : A) (v : list A) : A := default d (last v).

(** ** TileMappingState *)

Inductive Residency :=
  | NotResident
  | Resident
  | Evicting
  | Loading.

#[global] Instance Residency_eq_dec : EqDecision Residency.
Proof. solve_decision. Defined.

Record TileMappingState := {
  m_resident : TileLayer Residency;
  m_refcounts : TileLayer Z;
  m_heapIndices : TileLayer Z
}.

Definition GetNumSubresources (tms : TileMappingState) : nat :=
  length (m_refcounts tms).

Definition GetWidth (tms : TileMappingState) (in_s : nat) : nat :=
  length (default [] (default [] (m_resident tms !! in_s) !! 0)).

Definition GetHeight (tms : TileMappingState) (in_s : nat) : nat :=
  length (default [] (m_resident tms !! in_s)).

Definition GetResidency (tms : TileMappingState) (c : D3D12_TILED_RESOURCE_COORDINATE) : Residency :=
  layer_get NotResident (m_resident tms) (X c) (Y c) (Subresource c).

Definition GetResident (tms : TileMappingState) (x y s : nat) : bool :=
  bool_decide (layer_get NotResident (m_resident tms) x y s = Resident).

Definition set_residency (r : Residency) (tms : TileMappingState) (x y s : nat) : TileMappingState :=
  {| m_resident := layer_set (m_resident tms) x y s r;
     m_refcounts := m_refcounts tms;
     m_heapIndices := m_heapIndices tms |}.

Definition SetResident := set_residency Resident.
Definition SetNotResident := set_residency NotResident.
Definition SetLoading := set_residency Loading.
Definition SetEvicting := set_residency Evicting.

Definition GetRefCount (tms : TileMappingState) (x y s : nat) : Z :=
  layer_get 0%Z (m_refcounts tms) x y s.

Definition SetRefCount (tms : TileMappingState) (x y s : nat) (v : Z) : TileMappingState :=
  {| m_resident := m_resident tms;
     m_refcounts := layer_set (m_refcounts tms) x y s v;
     m_heapIndices := m_heapIndices tms |}.

(** [GetAnyRefCount]: scans the last (coarsest) tracked mip only. *)
Definition GetAnyRefCount (tms : TileMappingState) : bool :=
  let lastMip := back [] (m_refcounts tms) in
  existsb (λ y, existsb (λ x, bool_decide (x ≠ 0%Z)) y) lastMip.

(** [GetMinResidentMip]: scans the last (coarsest) tracked mip only. *)
Definition GetMinResidentMip (tms : TileMappingState) : nat :=
  let minResidentMip := u8 (length (m_resident tms)) in
  let lastMip := back [] (m_resident tms) in
  if existsb (λ y, existsb (λ x, bool_decide (Resident ≠ x)) y) lastMip
  then minResidentMip
  else u8_pred minResidentMip.

(** ** EvictionDelay

    [m_mappings] is a vector of buckets; [Append] pushes on bucket 0 and
    [GetReadyToEvict] is the last bucket. *)

Abbreviation MappingCoords := (list D3D12_TILED_RESOURCE_COORDINATE) (only parsing).

Module EvictionDelay.

Record t := Build { m_mappings : list MappingCoords }.

(** [EvictionDelay(in_numSwapBuffers)]: [m_mappings.resize(n)]. *)
Definition create (in_numSwapBuffers : nat) : t :=
  {| m_mappings := replicate in_numSwapBuffers [] |}.

(** [m_mappings[0].push_back(in_coord)] *)
Definition Append (in_coord : D3D12_TILED_RESOURCE_COORDINATE) (ed : t) : t :=
  {| m_mappings := alter (λ b, b ++ [in_coord]) 0 (m_mappings ed) |}.

(** [m_mappings.back()] *)
Definition GetReadyToEvict (ed : t) : MappingCoords :=
  back [] (m_mappings ed).

(** Assignment through the reference returned by [GetReadyToEvict]. *)
Definition SetReadyToEvict (b : MappingCoords) (ed : t) : t :=
  {| m_mappings := <[length (m_mappings ed) - 1 := b]> (m_mappings ed) |}.

(** [m[i].swap(m[j])] *)
Definition swap_buckets (i j : nat) (m : list MappingCoords) : list MappingCoords :=
  <[i := default [] (m !! j)]> (<[j := default [] (m !! i)]> m).

(** [for (UINT i = lastMapping; i > 0; i--) m[i].swap(m[i - 1]);] *)
Fixpoint swap_down (i : nat) (m : list MappingCoords) : list MappingCoords :=
  match i with
  | 0 => m
  | S i' => swap_down i' (swap_buckets i i' m)
  end.

Definition NextFrame (ed : t) : t :=
  let m := m_mappings ed in
  let lastMapping := length m - 1 in
  let m1 := swap_down lastMapping m in
  (* m.back().insert(m.back().end(), m[0].begin(), m[0].end()) *)
  let m2 := alter (λ b, b ++ default [] (m1 !! 0)) (length m1 - 1) m1 in
  (* m[0].clear() *)
  {| m_mappings := <[0 := []]> m2 |}.

Definition Clear (ed : t) : t :=
  {| m_mappings := map (λ _, []) (m_mappings ed) |}.

(** One step of the inner loop of [Rescue], at position [j] of the bucket:
    [if (GetRefCount(c)) { c = evictions[skippedIndex]; skippedIndex++; }] *)
Definition Rescue_body (tms : TileMappingState) (st : MappingCoords * nat) (j : nat)
    : MappingCoords * nat :=
  let '(evictions, skippedIndex) := st in
  match evictions !! j with
  | Some c =>
      if bool_decide (GetRefCount tms (X c) (Y c) (Subresource c) ≠ 0%Z)
      then (<[j := default c (evictions !! skippedIndex)]> evictions, S skippedIndex)
      else st
  | None => st
  end.

(** The body of the outer loop of [Rescue] for one bucket. *)
Definition Rescue_bucket (tms : TileMappingState) (evictions : MappingCoords) : MappingCoords :=
  let '(evictions', skippedIndex) :=
    foldl (Rescue_body tms) (evictions, 0) (seq 0 (length evictions)) in
  (* evictions.erase(begin, begin + skippedIndex), nothing if 0 *)
  drop skippedIndex evictions'.

Definition Rescue (in_tileMappingState : TileMappingState) (ed : t) : t :=
  {| m_mappings := map (Rescue_bucket in_tileMappingState) (m_mappings ed) |}.

End EvictionDelay.

(** ** HeapAllocator *)

Module HeapAllocator.

(** Modelled from the spec: [HeapAllocator.h] is not part of the sources
    at hand.  "A fixed-capacity pool of page indices 0..N-1.  allocate()
    returns a free index or INVALID when exhausted; free(i) returns it.
    num_free() and the INVALID sentinel are observable."  The pool is the
    list of the indices that are free. *)
Record t := Build { m_free : list Z }.

(** Modelled from the spec: [GetNumFree], "num_free()", the number of the
    free indices. *)
Definition GetNumFree (h : t) : nat := length (m_free h).

(** Modelled from the spec: [Free], "free(i) returns it" to the pool. *)
Definition Free (i : Z) (h : t) : t := {| m_free := i :: m_free h |}.

(** Modelled from the spec: [Allocate], "allocate() returns a free index
    or INVALID when exhausted", given the sentinel. *)
Definition Allocate (invalid : Z) (h : t) : Z * t :=
  match m_free h with
  | [] => (invalid, h)
  | i :: rest => (i, {| m_free := rest |})
  end.

End HeapAllocator.

(** ** UpdateList *)

Module UpdateList.

(** Modelled from the spec: [UpdateList.h] is not part of the sources at
    hand.  An UpdateList "owns vectors of load-coords with heap-indices
    and evict-coords"; the fields are named as the program uses them. *)
Record t := Build {
  m_coords : list D3D12_TILED_RESOURCE_COORDINATE;
  m_heapIndices : list Z;
  m_evictCoords : list D3D12_TILED_RESOURCE_COORDINATE
}.

(** Modelled from the spec: the UpdateList that [AllocateUpdateList]
    returns, with nothing recorded. *)
Definition empty : t := {| m_coords := []; m_heapIndices := []; m_evictCoords := [] |}.

(** Modelled from the spec: [AddUpdate(coord, heapIndex)] records a
    load-coord with its heap index. *)
Definition AddUpdate (c : D3D12_TILED_RESOURCE_COORDINATE) (heapIndex : Z) (u : t) : t :=
  {| m_coords := m_coords u ++ [c];
     m_heapIndices := m_heapIndices u ++ [heapIndex];
     m_evictCoords := m_evictCoords u |}.

(** [m_evictCoords.push_back(coord)], as [QueuePendingTileEvictions] does
    it on the vector of evict-coords. *)
Definition AddEviction (c : D3D12_TILED_RESOURCE_COORDINATE) (u : t) : t :=
  {| m_coords := m_coords u;
     m_heapIndices := m_heapIndices u;
     m_evictCoords := m_evictCoords u ++ [c] |}.

End UpdateList.

(** ** StreamingResourceBase: the state the residency engine works on *)

Record QueuedFeedback := {
  m_renderFenceForFeedback : Z;
  m_feedbackQueued : bool
}.

Record StreamingResourceBase := {
  m_tileMappingState : TileMappingState;
  m_pendingEvictions : EvictionDelay.t;
  m_pendingTileLoads : list D3D12_TILED_RESOURCE_COORDINATE;
  m_tileReferences : list nat;
  m_tileReferencesWidth : nat;
  m_tileReferencesHeight : nat;
  m_maxMip : nat;
  m_minMipMap : list nat;
  m_queuedFeedback : list QueuedFeedback;
  m_setZeroRefCounts : bool;
  m_refCountsZero : bool;
  m_tileResidencyChanged : bool;
  m_residencyMapOffsetBase : nat;
  m_readbackIndex : nat
}.

Definition GetNumTilesWidth (r : StreamingResourceBase) : nat := m_tileReferencesWidth r.
Definition GetNumTilesHeight (r : StreamingResourceBase) : nat := m_tileReferencesHeight r.

(** Field updates of [StreamingResourceBase]. *)

Definition set_tileMappingState (v : TileMappingState) (r : StreamingResourceBase) :=
  {| m_tileMappingState := v; m_pendingEvictions := m_pendingEvictions r;
     m_pendingTileLoads := m_pendingTileLoads r; m_tileReferences := m_tileReferences r;
     m_tileReferencesWidth := m_tileReferencesWidth r;
     m_tileReferencesHeight := m_tileReferencesHeight r; m_maxMip := m_maxMip r;
     m_minMipMap := m_minMipMap r; m_queuedFeedback := m_queuedFeedback r;
     m_setZeroRefCounts := m_setZeroRefCounts r; m_refCountsZero := m_refCountsZero r;
     m_tileResidencyChanged := m_tileResidencyChanged r;
     m_residencyMapOffsetBase := m_residencyMapOffsetBase r;
     m_readbackIndex := m_readbackIndex r |}.

Definition set_pendingEvictions (v : EvictionDelay.t) (r : StreamingResourceBase) :=
  {| m_tileMappingState := m_tileMappingState r; m_pendingEvictions := v;
     m_pendingTileLoads := m_pendingTileLoads r; m_tileReferences := m_tileReferences r;
     m_tileReferencesWidth := m_tileReferencesWidth r;
     m_tileReferencesHeight := m_tileReferencesHeight r; m_maxMip := m_maxMip r;
     m_minMipMap := m_minMipMap r; m_queuedFeedback := m_queuedFeedback r;
     m_setZeroRefCounts := m_setZeroRefCounts r; m_refCountsZero := m_refCountsZero r;
     m_tileResidencyChanged := m_tileResidencyChanged r;
     m_residencyMapOffsetBase := m_residencyMapOffsetBase r;
     m_readbackIndex := m_readbackIndex r |}.

Definition set_pendingTileLoads (v : list D3D12_TILED_RESOURCE_COORDINATE)
    (r : StreamingResourceBase) :=
  {| m_tileMappingState := m_tileMappingState r; m_pendingEvictions := m_pendingEvictions r;
     m_pendingTileLoads := v; m_tileReferences := m_tileReferences r;
     m_tileReferencesWidth := m_tileReferencesWidth r;
     m_tileReferencesHeight := m_tileReferencesHeight r; m_maxMip := m_maxMip r;
     m_minMipMap := m_minMipMap r; m_queuedFeedback := m_queuedFeedback r;
     m_setZeroRefCounts := m_setZeroRefCounts r; m_refCountsZero := m_refCountsZero r;
     m_tileResidencyChanged := m_tileResidencyChanged r;
     m_residencyMapOffsetBase := m_residencyMapOffsetBase r;
     m_readbackIndex := m_readbackIndex r |}.

Definition set_tileReferences (v : list nat) (r : StreamingResourceBase) :=
  {| m_tileMappingState := m_tileMappingState r; m_pendingEvictions := m_pendingEvictions r;
     m_pendingTileLoads := m_pendingTileLoads r; m_tileReferences := v;
     m_tileReferencesWidth := m_tileReferencesWidth r;
     m_tileReferencesHeight := m_tileReferencesHeight r; m_maxMip := m_maxMip r;
     m_minMipMap := m_minMipMap r; m_queuedFeedback := m_queuedFeedback r;
     m_setZeroRefCounts := m_setZeroRefCounts r; m_refCountsZero := m_refCountsZero r;
     m_tileResidencyChanged := m_tileResidencyChanged r;
     m_residencyMapOffsetBase := m_residencyMapOffsetBase r;
     m_readbackIndex := m_readbackIndex r |}.

Definition set_minMipMap (v : list nat) (r : StreamingResourceBase) :=
  {| m_tileMappingState := m_tileMappingState r; m_pendingEvictions := m_pendingEvictions r;
     m_pendingTileLoads := m_pendingTileLoads r; m_tileReferences := m_tileReferences r;
     m_tileReferencesWidth := m_tileReferencesWidth r;
     m_tileReferencesHeight := m_tileReferencesHeight r; m_maxMip := m_maxMip r;
     m_minMipMap := v; m_queuedFeedback := m_queuedFeedback r;
     m_setZeroRefCounts := m_setZeroRefCounts r; m_refCountsZero := m_refCountsZero r;
     m_tileResidencyChanged := m_tileResidencyChanged r;
     m_residencyMapOffsetBase := m_residencyMapOffsetBase r;
     m_readbackIndex := m_readbackIndex r |}.

Definition set_queuedFeedback (v : list QueuedFeedback) (r : StreamingResourceBase) :=
  {| m_tileMappingState := m_tileMappingState r; m_pendingEvictions := m_pendingEvictions r;
     m_pendingTileLoads := m_pendingTileLoads r; m_tileReferences := m_tileReferences r;
     m_tileReferencesWidth := m_tileReferencesWidth r;
     m_tileReferencesHeight := m_tileReferencesHeight r; m_maxMip := m_maxMip r;
     m_minMipMap := m_minMipMap r; m_queuedFeedback := v;
     m_setZeroRefCounts := m_setZeroRefCounts r; m_refCountsZero := m_refCountsZero r;
     m_tileResidencyChanged := m_tileResidencyChanged r;
     m_residencyMapOffsetBase := m_residencyMapOffsetBase r;
     m_readbackIndex := m_readbackIndex r |}.

Definition set_setZeroRefCounts (v : bool) (r : StreamingResourceBase) :=
  {| m_tileMappingState := m_tileMappingState r; m_pendingEvictions := m_pendingEvictions r;
     m_pendingTileLoads := m_pendingTileLoads r; m_tileReferences := m_tileReferences r;
     m_tileReferencesWidth := m_tileReferencesWidth r;
     m_tileReferencesHeight := m_tileReferencesHeight r; m_maxMip := m_maxMip r;
     m_minMipMap := m_minMipMap r; m_queuedFeedback := m_queuedFeedback r;
     m_setZeroRefCounts := v; m_refCountsZero := m_refCountsZero r;
     m_tileResidencyChanged := m_tileResidencyChanged r;
     m_residencyMapOffsetBase := m_residencyMapOffsetBase r;
     m_readbackIndex := m_readbackIndex r |}.

Definition set_refCountsZero (v : bool) (r : StreamingResourceBase) :=
  {| m_tileMappingState := m_tileMappingState r; m_pendingEvictions := m_pendingEvictions r;
     m_pendingTileLoads := m_pendingTileLoads r; m_tileReferences := m_tileReferences r;
     m_tileReferencesWidth := m_tileReferencesWidth r;
     m_tileReferencesHeight := m_tileReferencesHeight r; m_maxMip := m_maxMip r;
     m_minMipMap := m_minMipMap r; m_queuedFeedback := m_queuedFeedback r;
     m_setZeroRefCounts := m_setZeroRefCounts r; m_refCountsZero := v;
     m_tileResidencyChanged := m_tileResidencyChanged r;
     m_residencyMapOffsetBase := m_residencyMapOffsetBase r;
     m_readbackIndex := m_readbackIndex r |}.

Definition set_tileResidencyChanged (v : bool) (r : StreamingResourceBase) :=
  {| m_tileMappingState := m_tileMappingState r; m_pendingEvictions := m_pendingEvictions r;
     m_pendingTileLoads := m_pendingTileLoads r; m_tileReferences := m_tileReferences r;
     m_tileReferencesWidth := m_tileReferencesWidth r;
     m_tileReferencesHeight := m_tileReferencesHeight r; m_maxMip := m_maxMip r;
     m_minMipMap := m_minMipMap r; m_queuedFeedback := m_queuedFeedback r;
     m_setZeroRefCounts := m_setZeroRefCounts r; m_refCountsZero := m_refCountsZero r;
     m_tileResidencyChanged := v;
     m_residencyMapOffsetBase := m_residencyMapOffsetBase r;
     m_readbackIndex := m_readbackIndex r |}.

(** [SetResidencyChanged]; the call that forwards the notice to the
    TileUpdateManager concerns a collaborator outside this class. *)
Definition SetResidencyChanged (r : StreamingResourceBase) : StreamingResourceBase :=
  set_tileResidencyChanged true r.

(** ** Reference adjustment *)

Definition AddTileRef (in_x in_y in_s : nat) (r : StreamingResourceBase) : StreamingResourceBase :=
  let refCount := GetRefCount (m_tileMappingState r) in_x in_y in_s in
  let r1 :=
    if bool_decide (0%Z = refCount)
    then set_pendingTileLoads (m_pendingTileLoads r ++ [Coord in_x in_y in_s]) r
    else r in
  set_tileMappingState
    (SetRefCount (m_tileMappingState r1) in_x in_y in_s (u32 (refCount + 1))) r1.

Definition DecTileRef (in_x in_y in_s : nat) (r : StreamingResourceBase) : StreamingResourceBase :=
  let refCount := GetRefCount (m_tileMappingState r) in_x in_y in_s in
  let r1 :=
    if bool_decide (1%Z = refCount)
    then set_pendingEvictions
           (EvictionDelay.Append (Coord in_x in_y in_s) (m_pendingEvictions r)) r
    else r in
  set_tileMappingState
    (SetRefCount (m_tileMappingState r1) in_x in_y in_s (u32 (refCount - 1))) r1.

(** [while (s > in_s) { s -= 1; AddTileRef(in_x >> s, in_y >> s, s); }],
    by recursion on the counter [s], which the loop decrements.  The result
    carries the final value of [s]. *)
Fixpoint SetMinMip_addrefs (s in_x in_y in_s : nat) (r : StreamingResourceBase)
    : nat * StreamingResourceBase :=
  match s with
  | 0 => (0, r)
  | S s' =>
      if bool_decide (in_s < s)
      then SetMinMip_addrefs s' in_x in_y in_s
             (AddTileRef (Nat.shiftr in_x s') (Nat.shiftr in_y s') s' r)
      else (s, r)
  end.

(** [while (s < in_s) { DecTileRef(in_x >> s, in_y >> s, s); s++; }],
    by recursion on the distance [in_s - s], which the loop decrements. *)
Fixpoint SetMinMip_decrefs (dist s in_x in_y : nat) (r : StreamingResourceBase)
    : StreamingResourceBase :=
  match dist with
  | 0 => r
  | S dist' =>
      SetMinMip_decrefs dist' (S s) in_x in_y
        (DecTileRef (Nat.shiftr in_x s) (Nat.shiftr in_y s) s r)
  end.

Definition SetMinMip (in_current in_x in_y in_s : nat) (r : StreamingResourceBase)
    : StreamingResourceBase :=
  let '(s, r1) := SetMinMip_addrefs in_current in_x in_y in_s r in
  SetMinMip_decrefs (in_s - s) s in_x in_y r1.

(** ** AbandonPending

    [for (UINT i = 0; i < numPending;)], by recursion on [numPending - i],
    which either branch of the body decrements.  The result is the vector
    and the final [numPending]. *)
Fixpoint AbandonPending_loop (tms : TileMappingState) (dist i : nat)
    (loads : list D3D12_TILED_RESOURCE_COORDINATE)
    : list D3D12_TILED_RESOURCE_COORDINATE * nat :=
  match dist with
  | 0 => (loads, i)
  | S dist' =>
      match loads !! i with
      | Some c =>
          if bool_decide (GetRefCount tms (X c) (Y c) (Subresource c) ≠ 0%Z)
          then AbandonPending_loop tms dist' (S i) loads
          else
            (* numPending--; c = m_pendingTileLoads[numPending]; *)
            let numPending := i + dist' in
            AbandonPending_loop tms dist' i (<[i := default c (loads !! numPending)]> loads)
      | None => (loads, i + dist)
      end
  end.

Definition AbandonPending (r : StreamingResourceBase) : StreamingResourceBase :=
  let loads := m_pendingTileLoads r in
  let '(loads', numPending) :=
    AbandonPending_loop (m_tileMappingState r) (length loads) 0 loads in
  (* m_pendingTileLoads.resize(numPending) *)
  set_pendingTileLoads (take numPending loads') r.

Definition GetHeapIndex (tms : TileMappingState) (c : D3D12_TILED_RESOURCE_COORDINATE) : Z :=
  layer_get 0%Z (m_heapIndices tms) (X c) (Y c) (Subresource c).

Definition SetHeapIndex (tms : TileMappingState) (c : D3D12_TILED_RESOURCE_COORDINATE) (v : Z)
    : TileMappingState :=
  {| m_resident := m_resident tms;
     m_refcounts := m_refcounts tms;
     m_heapIndices := layer_set (m_heapIndices tms) (X c) (Y c) (Subresource c) v |}.

Section Engine.

(** [Streaming::HeapAllocator::InvalidIndex]: its declaration is not part
    of the sources at hand, so the sentinel is a parameter. *)
Variable InvalidIndex : Z.

(** The macro [RESOLVE_TO_TEXTURE], defined outside the sources at hand. *)
Variable RESOLVE_TO_TEXTURE : bool.

(** [m_pTileUpdateManager->GetMaxTileCopiesPerBatch()], a [UINT] of the
    configuration. *)
Variable GetMaxTileCopiesPerBatch : Z.

(** *** TileMappingState::Init and the constructor

    [in_pTiling] is the list of [(WidthInTiles, HeightInTiles)] per mip. *)
Definition Init (in_numMips : nat) (in_pTiling : list (nat * nat)) : TileMappingState :=
  let dims := (λ mip, default (0, 0) (in_pTiling !! mip)) <$> seq 0 in_numMips in
  {| m_resident := (λ d, replicate (snd d) (replicate (fst d) NotResident)) <$> dims;
     m_refcounts := (λ d, replicate (snd d) (replicate (fst d) 0%Z)) <$> dims;
     m_heapIndices := (λ d, replicate (snd d) (replicate (fst d) InvalidIndex)) <$> dims |}.

Definition FreeHeapAllocations (in_pHeap : HeapAllocator.t) (tms : TileMappingState)
    : TileMappingState * HeapAllocator.t :=
  let valid := filter (λ i, InvalidIndex ≠ i) (concat (concat (m_heapIndices tms))) in
  ({| m_resident := m_resident tms;
      m_refcounts := m_refcounts tms;
      m_heapIndices := map (map (map (λ _, InvalidIndex))) (m_heapIndices tms) |},
   foldl (λ h i, HeapAllocator.Free i h) in_pHeap valid).

(** The constructor, given [GetNumSwapBuffers()], [NumStandardMips], the
    tiling and the size of the finest tile grid. *)
Definition create (numSwapBuffers numStandardMips : nat) (tiling : list (nat * nat))
    (numTilesWidth numTilesHeight : nat) : StreamingResourceBase :=
  let tms := Init numStandardMips tiling in
  let maxMip := u8 (GetNumSubresources tms) in
  {| m_tileMappingState := tms;
     m_pendingEvictions := EvictionDelay.create (numSwapBuffers + 1);
     m_pendingTileLoads := [];
     m_tileReferences := replicate (numTilesWidth * numTilesHeight) maxMip;
     m_tileReferencesWidth := numTilesWidth;
     m_tileReferencesHeight := numTilesHeight;
     m_maxMip := maxMip;
     m_minMipMap := replicate (numTilesWidth * numTilesHeight) maxMip;
     m_queuedFeedback :=
       replicate numSwapBuffers
         {| m_renderFenceForFeedback := 4294967295; m_feedbackQueued := false |};
     m_setZeroRefCounts := false;
     m_refCountsZero := true;
     m_tileResidencyChanged := false;
     m_residencyMapOffsetBase := 0;
     m_readbackIndex := 0 |}.

(** *** ProcessFeedback *)

(** The body of the innermost loop of the zero-refcount path. *)
Definition ProcessFeedback_zero_body (s y : nat) (st : StreamingResourceBase * bool) (x : nat)
    : StreamingResourceBase * bool :=
  let '(r, changed) := st in
  let refCount := GetRefCount (m_tileMappingState r) x y s in
  if bool_decide (refCount ≠ 0%Z)
  then
    let r1 := set_tileMappingState (SetRefCount (m_tileMappingState r) x y s 0%Z) r in
    (set_pendingEvictions (EvictionDelay.Append (Coord x y s) (m_pendingEvictions r1)) r1,
     true)
  else st.

Definition ProcessFeedback_zero_loops (st : StreamingResourceBase * bool)
    : StreamingResourceBase * bool :=
  foldl (λ st s,
    foldl (λ st y,
      foldl (ProcessFeedback_zero_body s y) st
        (seq 0 (GetWidth (m_tileMappingState (fst st)) s)))
      st (seq 0 (GetHeight (m_tileMappingState (fst st)) s)))
    st (seq 0 (m_maxMip (fst st))).

(** The body of the loop that determines the feedback to process; the
    state is the queue, [feedbackIndex] and [latestFeedbackFenceValue]. *)
Definition ProcessFeedback_select_body (in_frameFenceCompletedValue : Z)
    (st : list QueuedFeedback * nat * Z) (i : nat) : list QueuedFeedback * nat * Z :=
  let '(q, feedbackIndex, latestFeedbackFenceValue) := st in
  match q !! i with
  | Some f =>
      if m_feedbackQueued f
      then
        let feedbackFenceValue := m_renderFenceForFeedback f in
        if bool_decide (feedbackFenceValue ≤ in_frameFenceCompletedValue)%Z
           && (bool_decide (feedbackIndex = 0)
               || bool_decide (latestFeedbackFenceValue ≤ feedbackFenceValue)%Z)
        then (<[i := {| m_renderFenceForFeedback := feedbackFenceValue;
                        m_feedbackQueued := false |}]> q,
              i + 1, feedbackFenceValue)
        else st
      else st
  | None => st
  end.

(** The body of the loop over [x]; [pTileRow] and [pResolvedRow] are the
    offsets of the current row in [m_tileReferences] and in the mapped
    feedback. *)
Definition ProcessFeedback_update_body (pResolvedData : list nat)
    (pResolvedRow pTileRow y : nat) (st : StreamingResourceBase * bool) (x : nat)
    : StreamingResourceBase * bool :=
  let '(r, changed) := st in
  let desired := min (default 0 (pResolvedData !! (pResolvedRow + x))) (m_maxMip r) in
  let initialValue := default 0 (m_tileReferences r !! (pTileRow + x)) in
  let changed := if bool_decide (desired ≠ initialValue) then true else changed in
  let r1 := SetMinMip initialValue x y desired r in
  (set_tileReferences (<[pTileRow + x := desired]> (m_tileReferences r1)) r1, changed).

Definition ProcessFeedback_rowPitch (width : nat) : nat :=
  if RESOLVE_TO_TEXTURE then max 256 width else width.

(** The loop over [y]; the state also carries the two row offsets. *)
Definition ProcessFeedback_update_row (pResolvedData : list nat) (width : nat)
    (st : StreamingResourceBase * bool * nat * nat) (y : nat)
    : StreamingResourceBase * bool * nat * nat :=
  let '(r, changed, pTileRow, pResolvedRow) := st in
  let '(r1, changed1) :=
    foldl (ProcessFeedback_update_body pResolvedData pResolvedRow pTileRow y)
      (r, changed) (seq 0 width) in
  (r1, changed1, pTileRow + width, pResolvedRow + ProcessFeedback_rowPitch width).

(** The loops that update the reference count of each tile from the mapped
    feedback; the result is the resource and [changed]. *)
Definition ProcessFeedback_update_loops (pResolvedData : list nat) (width height : nat)
    (r : StreamingResourceBase) : StreamingResourceBase * bool :=
  let '(r1, changed, _, _) :=
    foldl (ProcessFeedback_update_row pResolvedData width) (r, false, 0, 0) (seq 0 height) in
  (r1, changed).

(** [ProcessFeedback]; [resolved i] is the content of the readback buffer
    [GetResolvedReadback(i)], written by the GPU. *)
Definition ProcessFeedback (in_frameFenceCompletedValue : Z) (resolved : nat → list nat)
    (r : StreamingResourceBase) : StreamingResourceBase :=
  let width := GetNumTilesWidth r in
  let height := GetNumTilesHeight r in
  if m_setZeroRefCounts r
  then
    let r := set_setZeroRefCounts false r in
    if m_refCountsZero r
    then r
    else
      let r := set_refCountsZero true r in
      let r := set_queuedFeedback
                 ((λ f, {| m_renderFenceForFeedback := m_renderFenceForFeedback f;
                           m_feedbackQueued := false |}) <$> m_queuedFeedback r) r in
      (* memset(m_tileReferences.data(), m_maxMip, m_tileReferences.size()) *)
      let r := set_tileReferences ((λ _, m_maxMip r) <$> m_tileReferences r) r in
      let '(r, changed) := ProcessFeedback_zero_loops (r, false) in
      let r := set_pendingTileLoads [] r in
      if changed then SetResidencyChanged r else r
  else
    let '(q, feedbackIndex, _) :=
      foldl (ProcessFeedback_select_body in_frameFenceCompletedValue)
        (m_queuedFeedback r, 0, 0%Z) (seq 0 (length (m_queuedFeedback r))) in
    let r := set_queuedFeedback q r in
    if bool_decide (feedbackIndex = 0)
    then r
    else
      let pResolvedData := resolved (feedbackIndex - 1) in
      let '(r, changed) := ProcessFeedback_update_loops pResolvedData width height r in
      let r := if changed then set_refCountsZero false r else r in
      let r := AbandonPending r in
      let r := set_pendingEvictions
                 (EvictionDelay.Rescue (m_tileMappingState r) (m_pendingEvictions r)) r in
      if changed then SetResidencyChanged r else r.

(** *** The reference update with the assertions of the debug build

    [ASSERT(e)] stops the program when [e] is false; the functions below
    are [AddTileRef], [DecTileRef], [SetMinMip] and the update loops of
    [ProcessFeedback] with their assertions active, [None] standing for a
    failed assertion. *)

Definition AddTileRef_checked (in_x in_y in_s : nat) (r : StreamingResourceBase)
    : option StreamingResourceBase :=
  let refCount := GetRefCount (m_tileMappingState r) in_x in_y in_s in
  (* ASSERT(~refCount) *)
  if bool_decide (u32 (Z.lnot refCount) ≠ 0%Z)
  then Some (AddTileRef in_x in_y in_s r)
  else None.

Definition DecTileRef_checked (in_x in_y in_s : nat) (r : StreamingResourceBase)
    : option StreamingResourceBase :=
  let refCount := GetRefCount (m_tileMappingState r) in_x in_y in_s in
  (* ASSERT(0 != refCount) *)
  if bool_decide (0%Z ≠ refCount)
  then Some (DecTileRef in_x in_y in_s r)
  else None.

Fixpoint SetMinMip_addrefs_checked (s in_x in_y in_s : nat) (r : StreamingResourceBase)
    : option (nat * StreamingResourceBase) :=
  match s with
  | 0 => Some (0, r)
  | S s' =>
      if bool_decide (in_s < s)
      then
        match AddTileRef_checked (Nat.shiftr in_x s') (Nat.shiftr in_y s') s' r with
        | Some r1 => SetMinMip_addrefs_checked s' in_x in_y in_s r1
        | None => None
        end
      else Some (s, r)
  end.

Fixpoint SetMinMip_decrefs_checked (dist s in_x in_y : nat) (r : StreamingResourceBase)
    : option StreamingResourceBase :=
  match dist with
  | 0 => Some r
  | S dist' =>
      match DecTileRef_checked (Nat.shiftr in_x s) (Nat.shiftr in_y s) s r with
      | Some r1 => SetMinMip_decrefs_checked dist' (S s) in_x in_y r1
      | None => None
      end
  end.

Definition SetMinMip_checked (in_current in_x in_y in_s : nat) (r : StreamingResourceBase)
    : option StreamingResourceBase :=
  match SetMinMip_addrefs_checked in_current in_x in_y in_s r with
  | Some (s, r1) => SetMinMip_decrefs_checked (in_s - s) s in_x in_y r1
  | None => None
  end.

(** A loop over a list whose body may stop the program. *)
Fixpoint foldl_checked {A B : Type} (f : A → B → option A) (a : A) (l : list B) : option A :=
  match l with
  | [] => Some a
  | b :: l' =>
      match f a b with
      | Some a' => foldl_checked f a' l'
      | None => None
      end
  end.

Definition ProcessFeedback_update_body_checked (pResolvedData : list nat)
    (pResolvedRow pTileRow y : nat) (st : StreamingResourceBase * bool) (x : nat)
    : option (StreamingResourceBase * bool) :=
  let '(r, changed) := st in
  let desired := min (default 0 (pResolvedData !! (pResolvedRow + x))) (m_maxMip r) in
  let initialValue := default 0 (m_tileReferences r !! (pTileRow + x)) in
  let changed := if bool_decide (desired ≠ initialValue) then true else changed in
  match SetMinMip_checked initialValue x y desired r with
  | Some r1 =>
      Some (set_tileReferences (<[pTileRow + x := desired]> (m_tileReferences r1)) r1, changed)
  | None => None
  end.

Definition ProcessFeedback_update_row_checked (pResolvedData : list nat) (width : nat)
    (st : StreamingResourceBase * bool * nat * nat) (y : nat)
    : option (StreamingResourceBase * bool * nat * nat) :=
  let '(r, changed, pTileRow, pResolvedRow) := st in
  match foldl_checked (ProcessFeedback_update_body_checked pResolvedData pResolvedRow pTileRow y)
          (r, changed) (seq 0 width) with
  | Some (r1, changed1) =>
      Some (r1, changed1, pTileRow + width, pResolvedRow + ProcessFeedback_rowPitch width)
  | None => None
  end.

Definition ProcessFeedback_update_loops_checked (pResolvedData : list nat)
    (width height : nat) (r : StreamingResourceBase)
    : option (StreamingResourceBase * bool) :=
  match foldl_checked (ProcessFeedback_update_row_checked pResolvedData width)
          (r, false, 0, 0) (seq 0 height) with
  | Some (r1, changed, _, _) => Some (r1, changed)
  | None => None
  end.

(** [ProcessFeedback] of the debug build: the zero-refcount path and the
    selection of the feedback hold no assertion, the update loops hold the
    assertions of [AddTileRef] and [DecTileRef]. *)
Definition ProcessFeedback_checked (in_frameFenceCompletedValue : Z)
    (resolved : nat → list nat) (r : StreamingResourceBase)
    : option StreamingResourceBase :=
  let width := GetNumTilesWidth r in
  let height := GetNumTilesHeight r in
  if m_setZeroRefCounts r
  then Some (ProcessFeedback in_frameFenceCompletedValue resolved r)
  else
    let '(q, feedbackIndex, _) :=
      foldl (ProcessFeedback_select_body in_frameFenceCompletedValue)
        (m_queuedFeedback r, 0, 0%Z) (seq 0 (length (m_queuedFeedback r))) in
    let r := set_queuedFeedback q r in
    if bool_decide (feedbackIndex = 0)
    then Some r
    else
      let pResolvedData := resolved (feedbackIndex - 1) in
      match ProcessFeedback_update_loops_checked pResolvedData width height r with
      | Some (r, changed) =>
          let r := if changed then set_refCountsZero false r else r in
          let r := AbandonPending r in
          let r := set_pendingEvictions
                     (EvictionDelay.Rescue (m_tileMappingState r) (m_pendingEvictions r)) r in
          Some (if changed then SetResidencyChanged r else r)
      | None => None
      end.

(** *** QueuePendingTileEvictions *)

(** The state of the loop: the ready bucket [evictions], [numDelayed], the
    tile state, the heap and the UpdateList. *)
Definition EvictLoopState : Type :=
  MappingCoords * nat * TileMappingState * HeapAllocator.t * UpdateList.t.

(** The body of the loop for the element at position [j] of the bucket. *)
Definition QueuePendingTileEvictions_body (st : EvictLoopState) (j : nat) : EvictLoopState :=
  let '(evictions, numDelayed, tms, heap, ul) := st in
  match evictions !! j with
  | Some coord =>
      match GetResidency tms coord with
      | Resident =>
          let tms1 := SetEvicting tms (X coord) (Y coord) (Subresource coord) in
          let heapIndex := GetHeapIndex tms1 coord in
          (evictions, numDelayed,
           SetHeapIndex tms1 coord InvalidIndex,
           HeapAllocator.Free heapIndex heap,
           UpdateList.AddEviction coord ul)
      | Loading =>
          (<[numDelayed := coord]> evictions, S numDelayed, tms, heap, ul)
      | NotResident | Evicting => st
      end
  | None => st
  end.

Definition QueuePendingTileEvictions
    (st : StreamingResourceBase * HeapAllocator.t * UpdateList.t)
    : StreamingResourceBase * HeapAllocator.t * UpdateList.t :=
  let '(r, heap, ul) := st in
  let evictions := EvictionDelay.GetReadyToEvict (m_pendingEvictions r) in
  let '(evictions', numDelayed, tms, heap', ul') :=
    foldl QueuePendingTileEvictions_body
      (evictions, 0, m_tileMappingState r, heap, ul) (seq 0 (length evictions)) in
  (* evictions.resize(numDelayed) *)
  (set_pendingEvictions
     (EvictionDelay.SetReadyToEvict (take numDelayed evictions') (m_pendingEvictions r))
     (set_tileMappingState tms r),
   heap', ul').

(** *** QueuePendingTileLoads *)

(** The state of the loop: the vector [m_pendingTileLoads], [skippedIndex],
    [numConsumed], [maxCopies], the tile state, the heap and the
    UpdateList. *)
Definition LoadLoopState : Type :=
  list D3D12_TILED_RESOURCE_COORDINATE * nat * nat * Z
  * TileMappingState * HeapAllocator.t * UpdateList.t.

(** The range-for over [m_pendingTileLoads], by recursion on the number
    [n] of elements not yet visited; [j] is the position of the current
    element.  The [break] returns the state at once. *)
Fixpoint QueuePendingTileLoads_loop (n j : nat) (st : LoadLoopState) : LoadLoopState :=
  match n with
  | 0 => st
  | S n' =>
      let '(loads, skippedIndex, numConsumed, maxCopies, tms, heap, ul) := st in
      match loads !! j with
      | Some coord =>
          let numConsumed := S numConsumed in
          match GetResidency tms coord with
          | NotResident =>
              let tms1 := SetLoading tms (X coord) (Y coord) (Subresource coord) in
              let '(heapIndex, heap1) := HeapAllocator.Allocate InvalidIndex heap in
              let tms2 := SetHeapIndex tms1 coord heapIndex in
              let ul1 := UpdateList.AddUpdate coord heapIndex ul in
              let maxCopies := u32 (maxCopies - 1) in
              let st1 := (loads, skippedIndex, numConsumed, maxCopies, tms2, heap1, ul1) in
              if bool_decide (0 = maxCopies)%Z
              then st1
              else QueuePendingTileLoads_loop n' (S j) st1
          | Evicting =>
              QueuePendingTileLoads_loop n' (S j)
                (<[skippedIndex := coord]> loads, S skippedIndex, numConsumed, maxCopies,
                 tms, heap, ul)
          | Resident | Loading =>
              QueuePendingTileLoads_loop n' (S j)
                (loads, skippedIndex, numConsumed, maxCopies, tms, heap, ul)
          end
      | None => st
      end
  end.

Definition QueuePendingTileLoads
    (st : StreamingResourceBase * HeapAllocator.t * UpdateList.t)
    : StreamingResourceBase * HeapAllocator.t * UpdateList.t :=
  let '(r, heap, ul) := st in
  let loads := m_pendingTileLoads r in
  let maxCopies := Z.min (Z.of_nat (length loads)) GetMaxTileCopiesPerBatch in
  let maxCopies := Z.min maxCopies (Z.of_nat (HeapAllocator.GetNumFree heap)) in
  let '(loads', skippedIndex, numConsumed, _, tms, heap', ul') :=
    QueuePendingTileLoads_loop (length loads) 0
      (loads, 0, 0, maxCopies, m_tileMappingState r, heap, ul) in
  (* erase(begin + skippedIndex, begin + numConsumed), nothing if
     numConsumed is 0 *)
  (set_pendingTileLoads (take skippedIndex loads' ++ drop numConsumed loads')
     (set_tileMappingState tms r),
   heap', ul').

(** *** QueueTiles

    [avail] is the number of times [AllocateUpdateList] succeeds during
    the call; the loop ends when it fails.  The result also lists the
    UpdateLists passed to [SubmitUpdateList]. *)
Fixpoint QueueTiles (avail : nat) (st : StreamingResourceBase * HeapAllocator.t)
    : StreamingResourceBase * HeapAllocator.t * list UpdateList.t :=
  let '(r, heap) := st in
  let numEvictions := length (EvictionDelay.GetReadyToEvict (m_pendingEvictions r)) in
  let numLoads := length (m_pendingTileLoads r) in
  if bool_decide (numLoads ≠ 0) && bool_decide (HeapAllocator.GetNumFree heap ≠ 0)
     || bool_decide (numEvictions ≠ 0)
  then
    match avail with
    | 0 => (r, heap, [])
    | S avail' =>
        let st1 :=
          if bool_decide (numEvictions ≠ 0)
          then QueuePendingTileEvictions (r, heap, UpdateList.empty)
          else (r, heap, UpdateList.empty) in
        let st2 :=
          if bool_decide (numLoads ≠ 0)
             && bool_decide (HeapAllocator.GetNumFree (snd (fst st1)) ≠ 0)
          then QueuePendingTileLoads st1
          else st1 in
        let '(r2, heap2, ul) := st2 in
        if bool_decide (length (UpdateList.m_coords ul) ≠ 0)
           || bool_decide (length (UpdateList.m_evictCoords ul) ≠ 0)
        then
          let '(r3, heap3, submitted) := QueueTiles avail' (r2, heap2) in
          (r3, heap3, ul :: submitted)
        else (r2, heap2, [])
    end
  else (r, heap, []).

(** *** UpdateMinMipMap *)

(** [while (s > 0) { s--; if (GetResident(x >> s, y >> s, s)) minMip = s;
    else break; }], by recursion on [s]. *)
Fixpoint UpdateMinMipMap_walk (tms : TileMappingState) (x y s minMip : nat) : nat :=
  match s with
  | 0 => minMip
  | S s' =>
      if GetResident tms (Nat.shiftr x s') (Nat.shiftr y s') s'
      then UpdateMinMipMap_walk tms x y s' s'
      else minMip
  end.

(** The body of the loop over [x]; the state is [m_minMipMap] and
    [tileIndex]. *)
Definition UpdateMinMipMap_body (tms : TileMappingState) (minResidentMip y : nat)
    (st : list nat * nat) (x : nat) : list nat * nat :=
  let '(minMipMap, tileIndex) := st in
  let s := max minResidentMip (default 0 (minMipMap !! tileIndex)) in
  let minMip := UpdateMinMipMap_walk tms x y s s in
  (<[tileIndex := minMip]> minMipMap, S tileIndex).

(** [UpdateMinMipMap]; [residencyMap] is the shared buffer behind
    [GetResidencyMap()], into which the map is copied at
    [m_residencyMapOffsetBase]. *)
Definition UpdateMinMipMap (residencyMap : list nat) (r : StreamingResourceBase)
    : StreamingResourceBase * list nat :=
  if negb (m_tileResidencyChanged r)
  then (r, residencyMap)
  else
    let r := set_tileResidencyChanged false r in
    let tms := m_tileMappingState r in
    let minMipMap :=
      if GetAnyRefCount tms
      then
        let width := GetNumTilesWidth r in
        let height := GetNumTilesHeight r in
        let minResidentMip := GetMinResidentMip tms in
        fst (foldl (λ st y, foldl (UpdateMinMipMap_body tms minResidentMip y) st (seq 0 width))
               (m_minMipMap r, 0) (seq 0 height))
      else (λ _, m_maxMip r) <$> m_minMipMap r in
    (set_minMipMap minMipMap r,
     list_inserts (m_residencyMapOffsetBase r) minMipMap residencyMap).

(** *** ResolveFeedback: the part that records the queued feedback;
    [numSwapBuffers] and [frameFenceValue] are read from the
    TileUpdateManager. *)
Definition ResolveFeedback (numSwapBuffers : nat) (frameFenceValue : Z)
    (r : StreamingResourceBase) : StreamingResourceBase :=
  let readbackIndex := (m_readbackIndex r + 1) `mod` numSwapBuffers in
  let r1 :=
    set_queuedFeedback
      (<[readbackIndex := {| m_renderFenceForFeedback := frameFenceValue;
                             m_feedbackQueued := true |}]> (m_queuedFeedback r)) r in
  {| m_tileMappingState := m_tileMappingState r1;
     m_pendingEvictions := m_pendingEvictions r1;
     m_pendingTileLoads := m_pendingTileLoads r1;
     m_tileReferences := m_tileReferences r1;
     m_tileReferencesWidth := m_tileReferencesWidth r1;
     m_tileReferencesHeight := m_tileReferencesHeight r1;
     m_maxMip := m_maxMip r1;
     m_minMipMap := m_minMipMap r1;
     m_queuedFeedback := m_queuedFeedback r1;
     m_setZeroRefCounts := m_setZeroRefCounts r1;
     m_refCountsZero := m_refCountsZero r1;
     m_tileResidencyChanged := m_tileResidencyChanged r1;
     m_residencyMapOffsetBase := m_residencyMapOffsetBase r1;
     m_readbackIndex := readbackIndex |}.

(** *** NextFrame *)
Definition NextFrame (r : StreamingResourceBase) : StreamingResourceBase :=
  set_pendingEvictions (EvictionDelay.NextFrame (m_pendingEvictions r)) r.

(** *** Completion notices *)

(** Modelled from the spec: [NotifyEvicted] is declared outside the sources
    at hand.  "For each evict-coord: set_not_resident, mark
    residency-changed." *)
Definition NotifyEvicted (in_coords : list D3D12_TILED_RESOURCE_COORDINATE)
    (r : StreamingResourceBase) : StreamingResourceBase :=
  SetResidencyChanged
    (set_tileMappingState
       (foldl (λ tms c, SetNotResident tms (X c) (Y c) (Subresource c))
          (m_tileMappingState r) in_coords) r).

(** Modelled from the spec: [NotifyCopyComplete] is declared outside the
    sources at hand.  "For each loaded coord: set_resident, mark
    residency-changed." *)
Definition NotifyCopyComplete (in_coords : list D3D12_TILED_RESOURCE_COORDINATE)
    (r : StreamingResourceBase) : StreamingResourceBase :=
  SetResidencyChanged
    (set_tileMappingState
       (foldl (λ tms c, SetResident tms (X c) (Y c) (Subresource c))
          (m_tileMappingState r) in_coords) r).

(** The notices that the fence monitor of DataUploader.cpp sends for a
    completed UpdateList: evictions first, then the copied tiles. *)
Definition NotifyUpdateList (ul : UpdateList.t) (r : StreamingResourceBase)
    : StreamingResourceBase :=
  let r1 :=
    if bool_decide (length (UpdateList.m_evictCoords ul) ≠ 0)
    then NotifyEvicted (UpdateList.m_evictCoords ul) r
    else r in
  if bool_decide (length (UpdateList.m_coords ul) ≠ 0)
  then NotifyCopyComplete (UpdateList.m_coords ul) r1
  else r1.

End Engine.

(** ** SetResidencyMapOffsetBase

    [residencyMap] is the shared buffer behind [GetResidencyMap()]; the
    result is the resource and the buffer after the [memcpy]. *)
Definition SetResidencyMapOffsetBase (in_residencyMapOffsetBase : nat)
    (residencyMap : list nat) (r : StreamingResourceBase)
    : StreamingResourceBase * list nat :=
  let r :=
    {| m_tileMappingState := m_tileMappingState r;
       m_pendingEvictions := m_pendingEvictions r;
       m_pendingTileLoads := m_pendingTileLoads r;
       m_tileReferences := m_tileReferences r;
       m_tileReferencesWidth := m_tileReferencesWidth r;
       m_tileReferencesHeight := m_tileReferencesHeight r;
       m_maxMip := m_maxMip r;
       m_minMipMap := m_minMipMap r;
       m_queuedFeedback := m_queuedFeedback r;
       m_setZeroRefCounts := m_setZeroRefCounts r;
       m_refCountsZero := m_refCountsZero r;
       m_tileResidencyChanged := m_tileResidencyChanged r;
       m_residencyMapOffsetBase := in_residencyMapOffsetBase;
       m_readbackIndex := m_readbackIndex r |} in
  (r, list_inserts (m_residencyMapOffsetBase r) (m_minMipMap r) residencyMap).

(** ** PadPackedMips

    The footprints that [GetCopyableFootprints] returns are an input: for
    each packed subresource [i] its [numRows[i]], [rowSizeBytes[i]] and
    [srcLayout[i].Footprint.RowPitch], the three vectors of the program
    being one list of records here.  [BYTE] values are [Z].  The byte
    offsets are [nat]: the program computes them on pointers. *)
Record Footprint := {
  numRows : nat;
  rowSizeBytes : nat;
  RowPitch : nat
}.

(** [memcpy(dst + pDst, src + pSrc, n)].  Reading past the end of [src] or
    writing past the end of [dst] is undefined behaviour in the program; in
    the embedding the bytes that do not exist are not copied. *)
Definition memcpy (dst : list Z) (pDst : nat) (src : list Z) (pSrc n : nat) : list Z :=
  list_inserts pDst (take n (drop pSrc src)) dst.

(** The body of the loop over [r]; the state is [m_paddedPackedMips] and
    the offsets of [pDst] and [pSrc]. *)
Definition PadPackedMips_row (packedBits : list Z) (f : Footprint)
    (st : list Z * nat * nat) (r : nat) : list Z * nat * nat :=
  let '(padded, pDst, pSrc) := st in
  (memcpy padded pDst packedBits pSrc (rowSizeBytes f),
   pDst + RowPitch f,
   pSrc + rowSizeBytes f).

(** [PadPackedMips]: [packedBits] is the content behind [GetPackedBits]
    and the result is [m_paddedPackedMips], which the [resize] of the
    empty vector fills with zeros. *)
Definition PadPackedMips (footprints : list Footprint) (totalBytes : nat)
    (packedBits : list Z) : list Z :=
  let padded := replicate totalBytes 0%Z in
  fst (fst (foldl (λ st f, foldl (PadPackedMips_row packedBits f) st (seq 0 (numRows f)))
              (padded, 0, 0) footprints)).

(** ** The packed mips

    The part of the state of a [StreamingResourceBase] that
    [InitPackedMips] and [GetPackedMipsNeedTransition] work on. *)
Inductive PackedMipStatus :=
  | UNINITIALIZED
  | HEAP_RESERVED
  | REQUESTED
  | NEEDS_TRANSITION
  | RESIDENT.

#[global] Instance PackedMipStatus_eq_dec : EqDecision PackedMipStatus.
Proof. solve_decision. Defined.

(** The [UINT32] value of the enumerator. *)
Definition PackedMipStatus_value (s : PackedMipStatus) : nat :=
  match s with
  | UNINITIALIZED => 0
  | HEAP_RESERVED => 1
  | REQUESTED => 2
  | NEEDS_TRANSITION => 3
  | RESIDENT => 4
  end.

Record PackedMips := {
  m_packedMipStatus : PackedMipStatus;
  m_packedMipHeapIndices : list Z
}.

(** [while (m_packedMipHeapIndices.size() < numTiles)], by recursion on
    the number [dist] of the indices that are missing; the boolean is false
    when the loop is left by [return false]. *)
Fixpoint InitPackedMips_reserve (InvalidIndex : Z) (dist : nat) (indices : list Z)
    (heap : HeapAllocator.t) : bool * list Z * HeapAllocator.t :=
  match dist with
  | 0 => (true, indices, heap)
  | S dist' =>
      let '(heapIndex, heap1) := HeapAllocator.Allocate InvalidIndex heap in
      if bool_decide (InvalidIndex ≠ heapIndex)
      then InitPackedMips_reserve InvalidIndex dist' (indices ++ [heapIndex]) heap1
      else (false, indices, heap1)
  end.

(** [InitPackedMips].  [NumTilesForPackedMips] and [NumPackedMips] are
    read from [GetPackedMipInfo()]; [updateListAvailable] tells whether
    [AllocateUpdateList] returns an UpdateList.  The result is the value
    returned, the state, the heap and, when an UpdateList is submitted, its
    [m_heapIndices] and the number of its packed-mip request; the flag
    tells whether the [ASSERT] of the debug build holds when it is
    reached. *)
Definition InitPackedMips_flagged (InvalidIndex : Z)
    (NumTilesForPackedMips NumPackedMips : nat) (updateListAvailable : bool)
    (pm : PackedMips) (heap : HeapAllocator.t)
    : (bool * PackedMips * HeapAllocator.t * option (list Z * nat)) * bool :=
  if bool_decide (PackedMipStatus_value REQUESTED
                  ≤ PackedMipStatus_value (m_packedMipStatus pm))
  then (true, pm, heap, None, true)
  else
    let '(reserved, indices, heap1) :=
      if bool_decide (PackedMipStatus_value (m_packedMipStatus pm)
                      < PackedMipStatus_value HEAP_RESERVED)
      then InitPackedMips_reserve InvalidIndex
             (NumTilesForPackedMips - length (m_packedMipHeapIndices pm))
             (m_packedMipHeapIndices pm) heap
      else (true, m_packedMipHeapIndices pm, heap) in
    if reserved
    then
      let asserted := bool_decide (length indices = NumTilesForPackedMips) in
      if updateListAvailable
      then (true,
            {| m_packedMipStatus := REQUESTED; m_packedMipHeapIndices := indices |},
            heap1, Some (indices, NumPackedMips), asserted)
      else (false,
            {| m_packedMipStatus := HEAP_RESERVED; m_packedMipHeapIndices := indices |},
            heap1, None, asserted)
    else
      (false,
       {| m_packedMipStatus := m_packedMipStatus pm; m_packedMipHeapIndices := indices |},
       heap1, None, true).

Definition InitPackedMips (InvalidIndex : Z) (NumTilesForPackedMips NumPackedMips : nat)
    (updateListAvailable : bool) (pm : PackedMips) (heap : HeapAllocator.t)
    : bool * PackedMips * HeapAllocator.t * option (list Z * nat) :=
  fst (InitPackedMips_flagged InvalidIndex NumTilesForPackedMips NumPackedMips
         updateListAvailable pm heap).

(** [GetPackedMipsNeedTransition] *)
Definition GetPackedMipsNeedTransition (pm : PackedMips) : bool * PackedMips :=
  if bool_decide (NEEDS_TRANSITION = m_packedMipStatus pm)
  then (true, {| m_packedMipStatus := RESIDENT;
                 m_packedMipHeapIndices := m_packedMipHeapIndices pm |})
  else (false, pm).

(** ** DataUploader: the pool of UpdateLists and the two worker passes

    An embedding of [DataUploader.cpp].  Each function is embedded as one
    call that runs without interference of the other threads; the atomics
    are then plain variables. *)

Module DataUploader.

(** [UpdateList::State], by the names that [DataUploader.cpp] uses. *)
Inductive State :=
  | STATE_FREE
  | STATE_ALLOCATED
  | STATE_SUBMITTED
  | STATE_UPLOADING
  | STATE_COPY_PENDING
  | STATE_PACKED_MAPPING.

#[global] Instance State_eq_dec : EqDecision State.
Proof. solve_decision. Defined.

(** The members of an UpdateList that [DataUploader.cpp] reads and writes.
    [GetNumStandardUpdates()], [GetNumEvictions()] and
    [GetNumPackedUpdates()] are accessors declared in [UpdateList.h], which
    is not part of the sources at hand: the values that they return are
    fields here. *)
Module UL.

Record t := Build {
  m_executionState : State;
  m_mappingFenceValue : Z;
  m_copyFenceValid : bool;
  GetNumStandardUpdates : nat;
  GetNumEvictions : nat;
  GetNumPackedUpdates : nat
}.

Definition set_executionState (s : State) (u : t) : t :=
  {| m_executionState := s;
     m_mappingFenceValue := m_mappingFenceValue u;
     m_copyFenceValid := m_copyFenceValid u;
     GetNumStandardUpdates := GetNumStandardUpdates u;
     GetNumEvictions := GetNumEvictions u;
     GetNumPackedUpdates := GetNumPackedUpdates u |}.

Definition set_mappingFenceValue (v : Z) (u : t) : t :=
  {| m_executionState := m_executionState u;
     m_mappingFenceValue := v;
     m_copyFenceValid := m_copyFenceValid u;
     GetNumStandardUpdates := GetNumStandardUpdates u;
     GetNumEvictions := GetNumEvictions u;
     GetNumPackedUpdates := GetNumPackedUpdates u |}.

End UL.

Record t := Build {
  m_updateLists : list UL.t;
  m_updateListFreeCount : Z;
  m_updateListAllocIndex : nat;
  m_mappingFenceValue : Z
}.

Definition set_updateLists (v : list UL.t) (du : t) : t :=
  {| m_updateLists := v;
     m_updateListFreeCount := m_updateListFreeCount du;
     m_updateListAllocIndex := m_updateListAllocIndex du;
     m_mappingFenceValue := m_mappingFenceValue du |}.

Definition set_updateListFreeCount (v : Z) (du : t) : t :=
  {| m_updateLists := m_updateLists du;
     m_updateListFreeCount := v;
     m_updateListAllocIndex := m_updateListAllocIndex du;
     m_mappingFenceValue := m_mappingFenceValue du |}.

Definition set_updateListAllocIndex (v : nat) (du : t) : t :=
  {| m_updateLists := m_updateLists du;
     m_updateListFreeCount := m_updateListFreeCount du;
     m_updateListAllocIndex := v;
     m_mappingFenceValue := m_mappingFenceValue du |}.

Definition set_mappingFenceValue (v : Z) (du : t) : t :=
  {| m_updateLists := m_updateLists du;
     m_updateListFreeCount := m_updateListFreeCount du;
     m_updateListAllocIndex := m_updateListAllocIndex du;
     m_mappingFenceValue := v |}.

Section Pool.

(** [UpdateList::Reset], declared in [UpdateList.h]: it clears what the
    UpdateList records. *)
Variable Reset : UL.t → UL.t.

(** [compare_exchange_weak] may fail although the state is [STATE_FREE];
    [spurious k] tells whether it does so at the turn [k] of the loop. *)
Variable spurious : nat → bool.

(** [for (UINT i = 0; i < numLists; i++)], by recursion on the number [n]
    of the turns that are left; [k] is [i].  The result is the index of
    the UpdateList that [pUpdateList] points to, if any. *)
Fixpoint AllocateUpdateList_loop (n k : nat) (du : t) : option nat * t :=
  match n with
  | 0 => (None, du)
  | S n' =>
      let numLists := length (m_updateLists du) in
      let du := set_updateListAllocIndex ((m_updateListAllocIndex du + 1) `mod` numLists) du in
      match m_updateLists du !! m_updateListAllocIndex du with
      | Some p =>
          if bool_decide (UL.m_executionState p = STATE_FREE) && negb (spurious k)
          then
            (Some (m_updateListAllocIndex du),
             set_updateLists
               (<[m_updateListAllocIndex du := Reset (UL.set_executionState STATE_ALLOCATED p)]>
                  (m_updateLists du)) du)
          else AllocateUpdateList_loop n' (S k) du
      | None => AllocateUpdateList_loop n' (S k) du
      end
  end.

Definition AllocateUpdateList (du : t) : option nat * t :=
  if bool_decide (0 < m_updateListFreeCount du)%Z
  then
    let du := set_updateListFreeCount (m_updateListFreeCount du - 1) du in
    AllocateUpdateList_loop (length (m_updateLists du)) 0 du
  else (None, du).

End Pool.

(** [FreeUpdateList]; the UpdateList is given by its index in
    [m_updateLists]. *)
Definition FreeUpdateList (i : nat) (du : t) : t :=
  set_updateListFreeCount (m_updateListFreeCount du + 1)
    (set_updateLists (alter (UL.set_executionState STATE_FREE) i (m_updateLists du)) du).

(** [SubmitUpdateList]: the streaming of the tiles is started by the file
    streamer, which is not part of this state. *)
Definition SubmitUpdateList (i : nat) (du : t) : t :=
  set_updateLists (alter (UL.set_executionState STATE_SUBMITTED) i (m_updateLists du)) du.

(** The body of the loop of [SubmitThread]; the state is the UpdateList
    and [signalMap]. *)
Definition SubmitThread_body (mappingFenceValue : Z) (u : UL.t) : UL.t * bool :=
  match UL.m_executionState u with
  | STATE_SUBMITTED =>
      let u := UL.set_mappingFenceValue mappingFenceValue u in
      (if bool_decide (UL.GetNumStandardUpdates u ≠ 0)
       then UL.set_executionState STATE_UPLOADING u
       else if bool_decide (0 = UL.GetNumPackedUpdates u)
            then UL.set_executionState STATE_COPY_PENDING u
            else UL.set_executionState STATE_PACKED_MAPPING u,
       true)
  | _ => (u, false)
  end.

Definition SubmitThread (du : t) : t :=
  let res := SubmitThread_body (m_mappingFenceValue du) <$> m_updateLists du in
  let signalMap := existsb snd res in
  let du := set_updateLists (fst <$> res) du in
  if signalMap then set_mappingFenceValue (m_mappingFenceValue du + 1) du else du.

(** The notices that the fence monitor sends to the resource of an
    UpdateList, given by its index. *)
Inductive Notice :=
  | NotifyEvicted (i : nat)
  | NotifyCopyComplete (i : nat)
  | NotifyPackedMips (i : nat).

(** The body of the loop of [FenceMonitorThread] for the UpdateList [i].
    [completedValue] is [m_mappingFence->GetCompletedValue()] and
    [GetCompleted] is [m_pFileStreamer->GetCompleted(updateList)].  The
    result is the UpdateList, whether it is freed, the notices sent and
    [signalUpload]. *)
Definition FenceMonitorThread_body (completedValue : Z) (GetCompleted : nat → bool)
    (i : nat) (u : UL.t) : UL.t * bool * list Notice * bool :=
  match UL.m_executionState u with
  | STATE_PACKED_MAPPING =>
      if bool_decide (UL.m_mappingFenceValue u ≤ completedValue)%Z
      then (UL.set_executionState STATE_UPLOADING u, false, [], false)
      else (u, false, [], false)
  | STATE_UPLOADING =>
      if UL.m_copyFenceValid u
      then (UL.set_executionState STATE_COPY_PENDING u, false, [], true)
      else (u, false, [], false)
  | STATE_COPY_PENDING =>
      if bool_decide (UL.GetNumStandardUpdates u ≠ 0) && negb (GetCompleted i)
      then (u, false, [], false)
      else
        if (if bool_decide (0 = UL.GetNumPackedUpdates u)
            then bool_decide (completedValue < UL.m_mappingFenceValue u)%Z
            else negb (GetCompleted i))
        then (u, false, [], false)
        else
          (UL.set_executionState STATE_FREE u, true,
           (if bool_decide (UL.GetNumEvictions u ≠ 0) then [NotifyEvicted i] else [])
           ++ (if bool_decide (UL.GetNumStandardUpdates u ≠ 0)
               then [NotifyCopyComplete i] else [])
           ++ (if bool_decide (UL.GetNumPackedUpdates u ≠ 0)
               then [NotifyPackedMips i] else []),
           false)
  | _ => (u, false, [], false)
  end.

(** [FenceMonitorThread]: the result is the state, the notices in the
    order in which they are sent and [signalUpload]. *)
Definition FenceMonitorThread (completedValue : Z) (GetCompleted : nat → bool) (du : t)
    : t * list Notice * bool :=
  let res := imap (FenceMonitorThread_body completedValue GetCompleted) (m_updateLists du) in
  let freed := length (filter (λ x, snd (fst (fst x)) = true) res) in
  (set_updateListFreeCount (m_updateListFreeCount du + Z.of_nat freed)
     (set_updateLists ((λ x, fst (fst (fst x))) <$> res) du),
   concat ((λ x, snd (fst x)) <$> res),
   existsb snd res).

End DataUploader.

(** ** Vocabulary of the statements *)

(** The tile [(x, y, s)] lies inside the grids of a layer. *)
Definition layer_in_range {A} (l : TileLayer A) (x y s : nat) : Prop :=
  is_Some (layer_lookup l x y s).

(** Every tile of mip [s] is [Resident] (and [s] is a tracked mip). *)
Definition mip_fully_resident (tms : TileMappingState) (s : nat) : Prop :=
  ∃ plane, m_resident tms !! s = Some plane ∧ Forall (Forall (λ r, r = Resident)) plane.

(** [m] is the coarsest (greatest) mip every tile of which is [Resident], or
    the number of tracked mips when there is no such mip. *)
Definition coarsest_fully_resident_mip (tms : TileMappingState) (m : nat) : Prop :=
  (mip_fully_resident tms m ∧ ∀ s, mip_fully_resident tms s → s ≤ m)
  ∨ ((∀ s, ¬ mip_fully_resident tms s) ∧ m = length (m_resident tms)).

(** The tiles that the loops of the zero-refcount path of [ProcessFeedback]
    visit, in the order of the visit: mip by mip, row by row. *)
Definition tiles_of_mip (tms : TileMappingState) (s : nat)
    : list D3D12_TILED_RESOURCE_COORDINATE :=
  flat_map (λ y, (λ x, Coord x y s) <$> seq 0 (GetWidth tms s)) (seq 0 (GetHeight tms s)).

Definition tracked_tiles (r : StreamingResourceBase) : list D3D12_TILED_RESOURCE_COORDINATE :=
  flat_map (tiles_of_mip (m_tileMappingState r)) (seq 0 (m_maxMip r)).

(** The reference count of a tile is not 0. *)
Definition referenced (tms : TileMappingState) (c : D3D12_TILED_RESOURCE_COORDINATE) : Prop :=
  GetRefCount tms (X c) (Y c) (Subresource c) ≠ 0%Z.

#[global] Instance referenced_dec tms c : Decision (referenced tms c).
Proof. unfold referenced. apply _. Defined.

Definition referenced_tiles (r : StreamingResourceBase)
    : list D3D12_TILED_RESOURCE_COORDINATE :=
  filter (referenced (m_tileMappingState r)) (tracked_tiles r).

(** The body of the zero-refcount loops, as a function of the tile. *)
Definition ProcessFeedback_zero_step (st : StreamingResourceBase * bool)
    (c : D3D12_TILED_RESOURCE_COORDINATE) : StreamingResourceBase * bool :=
  ProcessFeedback_zero_body (Subresource c) (Y c) st (X c).

(** The tile state with the reference counts of the tiles of [K] set to 0. *)
Definition zero_refcounts (tms : TileMappingState)
    (K : list D3D12_TILED_RESOURCE_COORDINATE) : TileMappingState :=
  foldl (λ tms c, SetRefCount tms (X c) (Y c) (Subresource c) 0%Z) tms K.

(** The resource with the reference counts of the tiles of [K] set to 0 and
    the tiles of [K] appended to bucket 0 of the eviction delay. *)
Definition zero_result (r : StreamingResourceBase)
    (K : list D3D12_TILED_RESOURCE_COORDINATE) : StreamingResourceBase :=
  set_pendingEvictions
    (foldl (λ ed c, EvictionDelay.Append c ed) (m_pendingEvictions r) K)
    (set_tileMappingState (zero_refcounts (m_tileMappingState r) K) r).

(** The resource at the entry of the zero-refcount loops: the signal is
    lowered, [m_refCountsZero] is set, the queued flags are cleared and the
    tile references are set to [m_maxMip]. *)
Definition evict_all_prepare (r : StreamingResourceBase) : StreamingResourceBase :=
  let r := set_refCountsZero true (set_setZeroRefCounts false r) in
  let r := set_queuedFeedback
             ((λ f, {| m_renderFenceForFeedback := m_renderFenceForFeedback f;
                       m_feedbackQueued := false |}) <$> m_queuedFeedback r) r in
  set_tileReferences ((λ _, m_maxMip r) <$> m_tileReferences r) r.

(** What [QueuePendingTileEvictions] does with one tile of the ready bucket,
    by cases on the residency of the tile at the time of the visit; [kept]
    collects the tiles that stay in the bucket. *)
Definition evict_step (InvalidIndex : Z)
    (st : TileMappingState * HeapAllocator.t * UpdateList.t * MappingCoords)
    (coord : D3D12_TILED_RESOURCE_COORDINATE)
    : TileMappingState * HeapAllocator.t * UpdateList.t * MappingCoords :=
  let '(tms, heap, ul, kept) := st in
  match GetResidency tms coord with
  | Resident =>
      (SetHeapIndex (SetEvicting tms (X coord) (Y coord) (Subresource coord)) coord
         InvalidIndex,
       HeapAllocator.Free (GetHeapIndex tms coord) heap,
       UpdateList.AddEviction coord ul,
       kept)
  | Loading => (tms, heap, ul, kept ++ [coord])
  | NotResident | Evicting => st
  end.

(** What [QueuePendingTileLoads] does with one pending tile, by cases on the
    residency of the tile at the time of the visit; [kept] collects the tiles
    that stay pending. *)
Definition load_step (InvalidIndex : Z)
    (st : TileMappingState * HeapAllocator.t * UpdateList.t
          * list D3D12_TILED_RESOURCE_COORDINATE)
    (coord : D3D12_TILED_RESOURCE_COORDINATE)
    : TileMappingState * HeapAllocator.t * UpdateList.t
      * list D3D12_TILED_RESOURCE_COORDINATE :=
  let '(tms, heap, ul, kept) := st in
  match GetResidency tms coord with
  | NotResident =>
      let alloc := HeapAllocator.Allocate InvalidIndex heap in
      (SetHeapIndex (SetLoading tms (X coord) (Y coord) (Subresource coord)) coord (fst alloc),
       snd alloc,
       UpdateList.AddUpdate coord (fst alloc) ul,
       kept)
  | Evicting => (tms, heap, ul, kept ++ [coord])
  | Resident | Loading => st
  end.

(** The visit of the pending tiles with a budget of copies: each load takes
    one copy from the budget and the visit ends when the budget reaches 0.
    The second component is the list of the tiles that were not visited. *)
Fixpoint load_walk (InvalidIndex : Z) (budget : Z)
    (st : TileMappingState * HeapAllocator.t * UpdateList.t
          * list D3D12_TILED_RESOURCE_COORDINATE)
    (coords : list D3D12_TILED_RESOURCE_COORDINATE)
    : (TileMappingState * HeapAllocator.t * UpdateList.t
       * list D3D12_TILED_RESOURCE_COORDINATE)
      * list D3D12_TILED_RESOURCE_COORDINATE :=
  match coords with
  | [] => (st, [])
  | coord :: coords' =>
      let st1 := load_step InvalidIndex st coord in
      if decide (GetResidency (fst (fst (fst st))) coord = NotResident)
      then
        let budget' := u32 (budget - 1) in
        if decide (budget' = 0%Z) then (st1, coords')
        else load_walk InvalidIndex budget' st1 coords'
      else load_walk InvalidIndex budget st1 coords'
  end.

(** The index (plus one) of the feedback buffer that [ProcessFeedback]
    selects, 0 when there is none. *)
Definition ProcessFeedback_selected (in_frameFenceCompletedValue : Z)
    (r : StreamingResourceBase) : nat :=
  snd (fst (foldl (ProcessFeedback_select_body in_frameFenceCompletedValue)
              (m_queuedFeedback r, 0, 0%Z) (seq 0 (length (m_queuedFeedback r))))).

(** The regions [(x, y)] of a grid of [width] by [height] finest tiles, row
    by row: the order of the loops of [ProcessFeedback] and
    [UpdateMinMipMap]. *)
Definition grid_cells (width height : nat) : list (nat * nat) :=
  flat_map (λ y, (λ x, (x, y)) <$> seq 0 width) (seq 0 height).

(** The value that [UpdateMinMipMap] computes for the region [(x, y)] from
    the value [previous] of the last publication. *)
Definition min_mip_of_region (tms : TileMappingState) (minResidentMip : nat)
    (cell : nat * nat) (previous : nat) : nat :=
  let s := max minResidentMip previous in
  UpdateMinMipMap_walk tms (fst cell) (snd cell) s s.

(** The region [cell] of the finest grid lies over the tile [(x, y)] of
    mip [s]. *)
Definition covers (cell : nat * nat) (x y s : nat) : Prop :=
  Nat.shiftr (fst cell) s = x ∧ Nat.shiftr (snd cell) s = y.

(** The number of regions of a [width] by [height] grid that lie over the
    tile [(x, y, s)] and whose tile reference is at most [s]. *)
Definition region_count (refs : list nat) (width height : nat) (x y s : nat) : Z :=
  Z.of_nat
    (length
       (filter (λ cell, covers cell x y s
                        ∧ default 0 (refs !! (snd cell * width + fst cell)) ≤ s)
          (grid_cells width height))).

(** The number of regions of a [width] by [height] grid that lie over the
    tile [(x, y, s)]. *)
Definition covering_count (width height : nat) (x y s : nat) : Z :=
  Z.of_nat (length (filter (λ cell, covers cell x y s) (grid_cells width height))).

(** The reference count of every tracked tile is the number of the regions
    that lie over it and refer to its mip or to a finer one. *)
Definition refcount_invariant (r : StreamingResourceBase) : Prop :=
  ∀ x y s,
    s < m_maxMip r →
    layer_in_range (m_refcounts (m_tileMappingState r)) x y s →
    GetRefCount (m_tileMappingState r) x y s
    = region_count (m_tileReferences r) (GetNumTilesWidth r) (GetNumTilesHeight r) x y s.

(** The shape of a resource that the constructor establishes and that the
    engine keeps: one tile reference per region, none above [m_maxMip]; for
    every region and tracked mip the tile under the region lies inside the
    grid of reference counts; the grids of reference counts and of
    residencies cover the same tiles; the number of regions fits a [UINT]. *)
Record well_formed (r : StreamingResourceBase) : Prop := {
  wf_references_length :
    length (m_tileReferences r) = GetNumTilesWidth r * GetNumTilesHeight r;
  wf_references_bound :
    Forall (λ c, c ≤ m_maxMip r) (m_tileReferences r);
  wf_covering :
    ∀ u v s, u < GetNumTilesWidth r → v < GetNumTilesHeight r → s < m_maxMip r →
             layer_in_range (m_refcounts (m_tileMappingState r))
               (Nat.shiftr u s) (Nat.shiftr v s) s;
  wf_tracked :
    ∀ x y s, s < m_maxMip r →
             layer_in_range (m_refcounts (m_tileMappingState r)) x y s →
             Coord x y s ∈ tracked_tiles r;
  wf_regions :
    (Z.of_nat (GetNumTilesWidth r * GetNumTilesHeight r) < 4294967296)%Z
}.

(** Two resources agree on everything that the shape of a resource and the
    count of the regions depend on, the tile references apart. *)
Definition same_frame (r r' : StreamingResourceBase) : Prop :=
  GetNumTilesWidth r' = GetNumTilesWidth r
  ∧ GetNumTilesHeight r' = GetNumTilesHeight r
  ∧ m_maxMip r' = m_maxMip r
  ∧ m_resident (m_tileMappingState r') = m_resident (m_tileMappingState r)
  ∧ (∀ x y s, layer_in_range (m_refcounts (m_tileMappingState r')) x y s
              ↔ layer_in_range (m_refcounts (m_tileMappingState r)) x y s).

(** Two resources hold the same tile state, tile references and sizes:
    they differ at most in the queues and in the flags. *)
Definition same_counts (r r' : StreamingResourceBase) : Prop :=
  m_tileMappingState r' = m_tileMappingState r
  ∧ m_tileReferences r' = m_tileReferences r
  ∧ GetNumTilesWidth r' = GetNumTilesWidth r
  ∧ GetNumTilesHeight r' = GetNumTilesHeight r
  ∧ m_maxMip r' = m_maxMip r.

(** 1 when the proposition holds and 0 when it does not. *)
Definition indicator (P : Prop) `{Decision P} : Z := if decide P then 1%Z else 0%Z.

(** ** The residency of the tiles and the heap

    The tile [c] lies inside the grid of residencies. *)
Definition tile_in_range (tms : TileMappingState) (c : D3D12_TILED_RESOURCE_COORDINATE)
    : Prop :=
  layer_in_range (m_resident tms) (X c) (Y c) (Subresource c).

#[global] Instance tile_in_range_dec tms c : Decision (tile_in_range tms c).
Proof. unfold tile_in_range, layer_in_range. apply _. Defined.

(** The grids of heap indices and of residencies cover the same tiles. *)
Definition grids_aligned (tms : TileMappingState) : Prop :=
  ∀ x y s, layer_in_range (m_heapIndices tms) x y s ↔ layer_in_range (m_resident tms) x y s.

(** The heap index of a tile is valid exactly when the tile is [Resident]
    or [Loading]. *)
Definition heap_index_valid (InvalidIndex : Z) (tms : TileMappingState) : Prop :=
  ∀ c, tile_in_range tms c →
       (GetHeapIndex tms c ≠ InvalidIndex
        ↔ GetResidency tms c = Resident ∨ GetResidency tms c = Loading).

(** The tile state, the pool of free pages and the tiles of the UpdateLists
    in flight agree: the heap indices are valid exactly on the [Resident]
    and [Loading] tiles, no free page is the sentinel, the tiles being
    copied are [Loading], the tiles being unmapped are [Evicting], no tile
    is in flight twice, no page is twice in the pool, no tile holds a page
    of the pool and no two tiles hold the same page. *)
Record tiles_consistent (InvalidIndex : Z) (tms : TileMappingState) (heap : HeapAllocator.t)
    (loading evicting : list D3D12_TILED_RESOURCE_COORDINATE) : Prop := {
  tc_aligned : grids_aligned tms;
  tc_valid : heap_index_valid InvalidIndex tms;
  tc_free : InvalidIndex ∉ HeapAllocator.m_free heap;
  tc_loading : ∀ c, c ∈ loading → tile_in_range tms c → GetResidency tms c = Loading;
  tc_evicting : ∀ c, c ∈ evicting → tile_in_range tms c → GetResidency tms c = Evicting;
  tc_loading_once : NoDup (filter (tile_in_range tms) loading);
  tc_evicting_once : NoDup (filter (tile_in_range tms) evicting);
  tc_pool_once : NoDup (HeapAllocator.m_free heap);
  tc_pool_free : ∀ c, tile_in_range tms c → GetHeapIndex tms c ∉ HeapAllocator.m_free heap;
  tc_index_once :
    ∀ c c', tile_in_range tms c → tile_in_range tms c' →
            GetHeapIndex tms c ≠ InvalidIndex →
            GetHeapIndex tms c = GetHeapIndex tms c' → c = c'
}.

(** What one call of [QueuePendingTileLoads] does to a tile: nothing, or the
    tile was [NotResident], is now [Loading] and holds one of the pages
    [taken] from the pool. *)
Definition loads_only (tms tms' : TileMappingState) (taken : list Z) : Prop :=
  ∀ c, tile_in_range tms c →
       (GetResidency tms' c = GetResidency tms c ∧ GetHeapIndex tms' c = GetHeapIndex tms c)
       ∨ (GetResidency tms c = NotResident ∧ GetResidency tms' c = Loading
          ∧ GetHeapIndex tms' c ∈ taken).

(** What one call of [QueuePendingTileEvictions] does to a tile: nothing, or
    the tile was [Resident], is now [Evicting], its heap index is the
    sentinel, and the page it held is one of the pages [given] back to the
    pool. *)
Definition evictions_only (InvalidIndex : Z) (tms tms' : TileMappingState) (given : list Z)
    : Prop :=
  ∀ c, tile_in_range tms c →
       (GetResidency tms' c = GetResidency tms c ∧ GetHeapIndex tms' c = GetHeapIndex tms c)
       ∨ (GetResidency tms c = Resident ∧ GetResidency tms' c = Evicting
          ∧ GetHeapIndex tms' c = InvalidIndex ∧ GetHeapIndex tms c ∈ given).

(** Two tile states hold the same residencies and the same heap indices. *)
Definition same_residency (tms tms' : TileMappingState) : Prop :=
  m_resident tms' = m_resident tms ∧ m_heapIndices tms' = m_heapIndices tms.

(** The state of a visit of [QueuePendingTileEvictions] that started from
    the tile state [tms0] and the pool [heap0], with the tiles [L] and [E]
    in flight in the UpdateLists submitted before. *)
Definition evict_progress (InvalidIndex : Z) (tms0 : TileMappingState)
    (heap0 : HeapAllocator.t) (L E : list D3D12_TILED_RESOURCE_COORDINATE)
    (st : TileMappingState * HeapAllocator.t * UpdateList.t) : Prop :=
  tiles_consistent InvalidIndex (fst (fst st)) (snd (fst st))
    (L ++ UpdateList.m_coords (snd st)) (E ++ UpdateList.m_evictCoords (snd st))
  ∧ (∀ c, tile_in_range (fst (fst st)) c ↔ tile_in_range tms0 c)
  ∧ ∃ given,
      HeapAllocator.m_free (snd (fst st)) = given ++ HeapAllocator.m_free heap0
      ∧ evictions_only InvalidIndex tms0 (fst (fst st)) given.

(** The same for a visit of [QueuePendingTileLoads]. *)
Definition load_progress (InvalidIndex : Z) (tms0 : TileMappingState)
    (heap0 : HeapAllocator.t) (L E : list D3D12_TILED_RESOURCE_COORDINATE)
    (st : TileMappingState * HeapAllocator.t * UpdateList.t) : Prop :=
  tiles_consistent InvalidIndex (fst (fst st)) (snd (fst st))
    (L ++ UpdateList.m_coords (snd st)) (E ++ UpdateList.m_evictCoords (snd st))
  ∧ (∀ c, tile_in_range (fst (fst st)) c ↔ tile_in_range tms0 c)
  ∧ ∃ taken,
      HeapAllocator.m_free heap0 = taken ++ HeapAllocator.m_free (snd (fst st))
      ∧ loads_only tms0 (fst (fst st)) taken.

(** ** The engine as a transition system

    The state: the resource, the pool of pages of its heap and the
    UpdateLists submitted to the DataUploader and not yet completed. *)
Record System := {
  sys_resource : StreamingResourceBase;
  sys_heap : HeapAllocator.t;
  sys_submitted : list UpdateList.t
}.

(** The calls that the TileUpdateManager and the DataUploader make on a
    resource.  [QueueEviction], declared outside the sources at hand,
    raises [m_setZeroRefCounts].  The heap is shared: another resource, or
    [InitPackedMips] for the packed mips of this one, may take a page, and
    another resource may give back a page that it holds. *)
Inductive step (InvalidIndex : Z) (RESOLVE_TO_TEXTURE : bool) (GetMaxTileCopiesPerBatch : Z)
    : System → System → Prop :=
  | step_ProcessFeedback fence resolved sys :
      step InvalidIndex RESOLVE_TO_TEXTURE GetMaxTileCopiesPerBatch sys
        {| sys_resource := ProcessFeedback RESOLVE_TO_TEXTURE fence resolved (sys_resource sys);
           sys_heap := sys_heap sys;
           sys_submitted := sys_submitted sys |}
  | step_QueueTiles avail sys :
      step InvalidIndex RESOLVE_TO_TEXTURE GetMaxTileCopiesPerBatch sys
        (let res := QueueTiles InvalidIndex GetMaxTileCopiesPerBatch avail
                      (sys_resource sys, sys_heap sys) in
         {| sys_resource := fst (fst res);
            sys_heap := snd (fst res);
            sys_submitted := sys_submitted sys ++ snd res |})
  | step_NotifyUpdateList before ul after sys :
      sys_submitted sys = before ++ ul :: after →
      step InvalidIndex RESOLVE_TO_TEXTURE GetMaxTileCopiesPerBatch sys
        {| sys_resource := NotifyUpdateList ul (sys_resource sys);
           sys_heap := sys_heap sys;
           sys_submitted := before ++ after |}
  | step_NextFrame sys :
      step InvalidIndex RESOLVE_TO_TEXTURE GetMaxTileCopiesPerBatch sys
        {| sys_resource := NextFrame (sys_resource sys);
           sys_heap := sys_heap sys;
           sys_submitted := sys_submitted sys |}
  | step_ResolveFeedback numSwapBuffers frameFenceValue sys :
      step InvalidIndex RESOLVE_TO_TEXTURE GetMaxTileCopiesPerBatch sys
        {| sys_resource := ResolveFeedback numSwapBuffers frameFenceValue (sys_resource sys);
           sys_heap := sys_heap sys;
           sys_submitted := sys_submitted sys |}
  | step_UpdateMinMipMap residencyMap sys :
      step InvalidIndex RESOLVE_TO_TEXTURE GetMaxTileCopiesPerBatch sys
        {| sys_resource := fst (UpdateMinMipMap residencyMap (sys_resource sys));
           sys_heap := sys_heap sys;
           sys_submitted := sys_submitted sys |}
  | step_QueueEviction sys :
      step InvalidIndex RESOLVE_TO_TEXTURE GetMaxTileCopiesPerBatch sys
        {| sys_resource := set_setZeroRefCounts true (sys_resource sys);
           sys_heap := sys_heap sys;
           sys_submitted := sys_submitted sys |}
  | step_other_Allocate sys :
      step InvalidIndex RESOLVE_TO_TEXTURE GetMaxTileCopiesPerBatch sys
        {| sys_resource := sys_resource sys;
           sys_heap := snd (HeapAllocator.Allocate InvalidIndex (sys_heap sys));
           sys_submitted := sys_submitted sys |}
  | step_other_Free i sys :
      i ≠ InvalidIndex →
      i ∉ HeapAllocator.m_free (sys_heap sys) →
      (∀ c, tile_in_range (m_tileMappingState (sys_resource sys)) c →
            GetHeapIndex (m_tileMappingState (sys_resource sys)) c ≠ i) →
      step InvalidIndex RESOLVE_TO_TEXTURE GetMaxTileCopiesPerBatch sys
        {| sys_resource := sys_resource sys;
           sys_heap := HeapAllocator.Free i (sys_heap sys);
           sys_submitted := sys_submitted sys |}.

(** The states that the engine reaches from a resource that the constructor
    has just built, with a pool of distinct pages that does not hold the
    sentinel and no UpdateList in flight. *)
Inductive reachable (InvalidIndex : Z) (RESOLVE_TO_TEXTURE : bool)
    (GetMaxTileCopiesPerBatch : Z) : System → Prop :=
  | reachable_create numSwapBuffers numStandardMips tiling numTilesWidth numTilesHeight free :
      InvalidIndex ∉ free →
      NoDup free →
      reachable InvalidIndex RESOLVE_TO_TEXTURE GetMaxTileCopiesPerBatch
        {| sys_resource := create InvalidIndex numSwapBuffers numStandardMips tiling
                             numTilesWidth numTilesHeight;
           sys_heap := HeapAllocator.Build free;
           sys_submitted := [] |}
  | reachable_step sys sys' :
      reachable InvalidIndex RESOLVE_TO_TEXTURE GetMaxTileCopiesPerBatch sys →
      step InvalidIndex RESOLVE_TO_TEXTURE GetMaxTileCopiesPerBatch sys sys' →
      reachable InvalidIndex RESOLVE_TO_TEXTURE GetMaxTileCopiesPerBatch sys'.

Definition system_consistent (InvalidIndex : Z) (sys : System) : Prop :=
  tiles_consistent InvalidIndex (m_tileMappingState (sys_resource sys)) (sys_heap sys)
    (flat_map UpdateList.m_coords (sys_submitted sys))
    (flat_map UpdateList.m_evictCoords (sys_submitted sys)).

(** ** The queued feedback

    The feedback buffer [f] is queued and the frame fence has reached the
    fence value recorded for it. *)
Definition feedback_eligible (completed : Z) (f : QueuedFeedback) : Prop :=
  m_feedbackQueued f = true ∧ (m_renderFenceForFeedback f ≤ completed)%Z.

#[global] Instance feedback_eligible_dec completed f : Decision (feedback_eligible completed f).
Proof. unfold feedback_eligible. apply _. Defined.

(** The feedback buffer [f] with its queued flag cleared. *)
Definition feedback_consumed (f : QueuedFeedback) : QueuedFeedback :=
  {| m_renderFenceForFeedback := m_renderFenceForFeedback f; m_feedbackQueued := false |}.

(** Two resources agree on everything but the tile state, the tile
    references and the two queues of pending tiles. *)
Definition same_settings (r r' : StreamingResourceBase) : Prop :=
  m_tileReferencesWidth r' = m_tileReferencesWidth r
  ∧ m_tileReferencesHeight r' = m_tileReferencesHeight r
  ∧ m_maxMip r' = m_maxMip r
  ∧ m_minMipMap r' = m_minMipMap r
  ∧ m_queuedFeedback r' = m_queuedFeedback r
  ∧ m_setZeroRefCounts r' = m_setZeroRefCounts r
  ∧ m_refCountsZero r' = m_refCountsZero r
  ∧ m_tileResidencyChanged r' = m_tileResidencyChanged r
  ∧ m_residencyMapOffsetBase r' = m_residencyMapOffsetBase r
  ∧ m_readbackIndex r' = m_readbackIndex r.

(** The tile reference that [ProcessFeedback] writes for the region
    [(x, y)] from the mapped feedback: the value read at the row pitch of
    the readback buffer, clamped to [maxMip]. *)
Definition clamped_feedback (RESOLVE_TO_TEXTURE : bool) (pResolvedData : list nat)
    (width maxMip x y : nat) : nat :=
  min (default 0 (pResolvedData !! (y * ProcessFeedback_rowPitch RESOLVE_TO_TEXTURE width + x)))
      maxMip.

(** ** The depth of the eviction delay

    The number of the buckets of [m_pendingEvictions]. *)
Definition ring_depth (r : StreamingResourceBase) : nat :=
  length (EvictionDelay.m_mappings (m_pendingEvictions r)).

(** ** An idle resource

    No eviction of everything is asked for, no feedback is queued, no tile
    waits for a load or in the eviction delay, and no residency changed
    since the last [UpdateMinMipMap]. *)
Definition idle (r : StreamingResourceBase) : Prop :=
  m_setZeroRefCounts r = false
  ∧ (∀ f, f ∈ m_queuedFeedback r → m_feedbackQueued f = false)
  ∧ m_pendingTileLoads r = []
  ∧ Forall (λ b, b = []) (EvictionDelay.m_mappings (m_pendingEvictions r))
  ∧ m_tileResidencyChanged r = false.

(** ** States of the scenarios *)

(** Two tracked mips: the four tiles of mip 0 are resident, the single tile
    of mip 1 is being loaded. *)
Definition tms_fine_resident : TileMappingState :=
  {| m_resident := [[[Resident; Resident]; [Resident; Resident]]; [[Loading]]];
     m_refcounts := [[[1; 1]; [1; 1]]; [[4]]]%Z;
     m_heapIndices := [[[0; 1]; [2; 3]]; [[4]]]%Z |}.

(** Three tracked mips, the coarsest one fully resident. *)
Definition tms_coarse_resident : TileMappingState :=
  {| m_resident := [[[Resident; NotResident]; [NotResident; NotResident]];
                    [[Resident]]; [[Resident]]];
     m_refcounts := [[[1; 0]; [0; 0]]; [[1]]; [[1]]]%Z;
     m_heapIndices := [[[0; 9]; [9; 9]]; [[1]]; [[2]]]%Z |}.

(** The cold start of a texture with a 4x4 grid of finest tiles and four
    tracked mips; the sentinel of the heap is taken to be [2^32 - 1] and
    there are two swap buffers. *)
Definition cold_tiling : list (nat * nat) := [(4, 4); (2, 2); (1, 1); (1, 1)].

Definition cold_resource : StreamingResourceBase :=
  create 4294967295 2 4 cold_tiling 4 4.

(** A feedback map that wants mip 0 at region (0,0) and nothing elsewhere. *)
Definition cold_feedback (i : nat) : list nat :=
  [0; 255; 255; 255;  255; 255; 255; 255;  255; 255; 255; 255;  255; 255; 255; 255].

(** One feedback pass: the feedback is resolved at fence 1 and processed
    once the frame fence has reached 1. *)
Definition cold_after_feedback : StreamingResourceBase :=
  ProcessFeedback false 1 cold_feedback (ResolveFeedback 2 1 cold_resource).

(** The evict-all scenario.  The feedback wants mip 1 at region (0,0), which
    references the tiles (0,0,3), (0,0,2) and (0,0,1); they are loaded from
    a heap of eight pages and the copy completes. *)
Definition three_tiles_feedback (i : nat) : list nat :=
  [1; 255; 255; 255;  255; 255; 255; 255;  255; 255; 255; 255;  255; 255; 255; 255].

Definition three_tiles_queued
    : StreamingResourceBase * HeapAllocator.t * list UpdateList.t :=
  QueueTiles 4294967295 32 1
    (ProcessFeedback false 1 three_tiles_feedback (ResolveFeedback 2 1 cold_resource),
     HeapAllocator.Build [0; 1; 2; 3; 4; 5; 6; 7]%Z).

Definition three_tiles_resident : StreamingResourceBase :=
  foldl (λ r ul, NotifyUpdateList ul r) (fst (fst three_tiles_queued)) (snd three_tiles_queued).

(** The signal that asks for the eviction of everything is raised. *)
Definition three_tiles_evict_all : StreamingResourceBase :=
  set_setZeroRefCounts true three_tiles_resident.

(** No feedback map wants anything. *)
Definition nothing_feedback (i : nat) : list nat := replicate 16 255.

(** The three tiles are resident but no longer referenced: the residency map
    was published, a later feedback pass released the three tiles into the
    eviction delay and a frame went by; then the signal is raised. *)
Definition three_tiles_released : StreamingResourceBase :=
  set_setZeroRefCounts true
    (NextFrame
       (fst (UpdateMinMipMap (replicate 16 4)
          (ProcessFeedback false 2 nothing_feedback
             (ResolveFeedback 2 2
                (fst (UpdateMinMipMap (replicate 16 4) three_tiles_resident))))))).

(** The cold resource with a heap of eight pages and no UpdateList in
    flight, and the states that follow: the feedback is resolved at fence 1
    and processed, then [QueueTiles] runs with one UpdateList available and
    batches of 32 copies. *)
Definition cold_system : System :=
  {| sys_resource := cold_resource;
     sys_heap := HeapAllocator.Build [0; 1; 2; 3; 4; 5; 6; 7]%Z;
     sys_submitted := [] |}.

Definition cold_system_resolved : System :=
  {| sys_resource := ResolveFeedback 2 1 (sys_resource cold_system);
     sys_heap := sys_heap cold_system;
     sys_submitted := sys_submitted cold_system |}.

Definition cold_system_feedback : System :=
  {| sys_resource := ProcessFeedback false 1 cold_feedback (sys_resource cold_system_resolved);
     sys_heap := sys_heap cold_system_resolved;
     sys_submitted := sys_submitted cold_system_resolved |}.

Definition cold_system_queued : System :=
  let res := QueueTiles 4294967295 32 1
               (sys_resource cold_system_feedback, sys_heap cold_system_feedback) in
  {| sys_resource := fst (fst res);
     sys_heap := snd (fst res);
     sys_submitted := sys_submitted cold_system_feedback ++ snd res |}.

(** ** The life cycle of a tile

    The residency of a tile stays as it is or moves one place along the
    cycle [NotResident], [Loading], [Resident], [Evicting]. *)
Definition residency_move (a b : Residency) : Prop :=
  a = b
  ∨ (a = NotResident ∧ b = Loading)
  ∨ (a = Loading ∧ b = Resident)
  ∨ (a = Resident ∧ b = Evicting)
  ∨ (a = Evicting ∧ b = NotResident).

(** The moves that queue a tile: a load or an eviction starts. *)
Definition queue_move (a b : Residency) : Prop :=
  a = b ∨ (a = NotResident ∧ b = Loading) ∨ (a = Resident ∧ b = Evicting).

(** The moves that a completion notice makes: a load or an eviction ends. *)
Definition notify_move (a b : Residency) : Prop :=
  a = b ∨ (a = Loading ∧ b = Resident) ∨ (a = Evicting ∧ b = NotResident).

(** ** The grids of a tile state

    The sizes of the rows of a grid. *)
Definition layer_shape {A} (l : TileLayer A) : list (list nat) :=
  (λ plane : list (list A), (λ row : list A, length row) <$> plane) <$> l.

(** Two tile states hold the same reference counts, on grids of
    residencies of the same shape. *)
Definition same_grid (tms tms' : TileMappingState) : Prop :=
  m_refcounts tms' = m_refcounts tms
  ∧ layer_shape (m_resident tms') = layer_shape (m_resident tms).

(** Two resources agree on what the count of the references depends on. *)
Definition same_tracking (r r' : StreamingResourceBase) : Prop :=
  same_grid (m_tileMappingState r) (m_tileMappingState r')
  ∧ m_tileReferences r' = m_tileReferences r
  ∧ GetNumTilesWidth r' = GetNumTilesWidth r
  ∧ GetNumTilesHeight r' = GetNumTilesHeight r
  ∧ m_maxMip r' = m_maxMip r.

(** A run of the engine: a sequence of steps. *)
Inductive run (InvalidIndex : Z) (RESOLVE_TO_TEXTURE : bool) (GetMaxTileCopiesPerBatch : Z)
    : System → System → Prop :=
  | run_refl sys : run InvalidIndex RESOLVE_TO_TEXTURE GetMaxTileCopiesPerBatch sys sys
  | run_step sys sys' sys'' :
      run InvalidIndex RESOLVE_TO_TEXTURE GetMaxTileCopiesPerBatch sys sys' →
      step InvalidIndex RESOLVE_TO_TEXTURE GetMaxTileCopiesPerBatch sys' sys'' →
      run InvalidIndex RESOLVE_TO_TEXTURE GetMaxTileCopiesPerBatch sys sys''.

(** ** The rows of the packed mips

    The rows that [PadPackedMips] copies, in the order of the copy, each
    with the footprint of its subresource. *)
Definition packed_rows (footprints : list Footprint) : list Footprint :=
  flat_map (λ f, replicate (numRows f) f) footprints.

(** ** The state of the packed mips

    Before the heap space is reserved the resource holds at most the pages
    that the packed mips need, afterwards exactly these. *)
Definition packed_ok (NumTilesForPackedMips : nat) (pm : PackedMips) : Prop :=
  if bool_decide (PackedMipStatus_value (m_packedMipStatus pm)
                  < PackedMipStatus_value HEAP_RESERVED)
  then length (m_packedMipHeapIndices pm) ≤ NumTilesForPackedMips
  else length (m_packedMipHeapIndices pm) = NumTilesForPackedMips.

(** ** What [QueueTiles] cannot queue

    Every tile that is ready to evict is being loaded, and every pending
    load is being evicted unless the pool of pages is empty: each tile that
    is left waits for an operation in flight on it, or for a page. *)
Definition nothing_to_queue (st : StreamingResourceBase * HeapAllocator.t) : Prop :=
  Forall (λ c, GetResidency (m_tileMappingState (fst st)) c = Loading)
    (EvictionDelay.GetReadyToEvict (m_pendingEvictions (fst st)))
  ∧ (Forall (λ c, GetResidency (m_tileMappingState (fst st)) c = Evicting)
       (m_pendingTileLoads (fst st))
     ∨ HeapAllocator.GetNumFree (snd st) = 0).

(** ** The pool of UpdateLists

    The number of the UpdateLists that are [STATE_FREE]. *)
Definition free_lists (du : DataUploader.t) : nat :=
  length (filter (λ u, DataUploader.UL.m_executionState u = DataUploader.STATE_FREE)
            (DataUploader.m_updateLists du)).

(** The free count is a lower bound of the number of the free UpdateLists. *)
Definition pool_ok (du : DataUploader.t) : Prop :=
  (0 ≤ DataUploader.m_updateListFreeCount du ≤ Z.of_nat (free_lists du))%Z.

(** The free count is the number of the free UpdateLists. *)
Definition pool_exact (du : DataUploader.t) : Prop :=
  DataUploader.m_updateListFreeCount du = Z.of_nat (free_lists du).

(** The state of the UpdateList [i]. *)
Definition list_state (du : DataUploader.t) (i : nat) : option DataUploader.State :=
  DataUploader.UL.m_executionState <$> DataUploader.m_updateLists du !! i.

(** The life cycle of an UpdateList: its state stays as it is or moves
    along one of the edges Free, Allocated, Submitted, then Uploading,
    CopyPending or PackedMapping, PackedMapping to Uploading, Uploading to
    CopyPending, and from CopyPending (or, for an UpdateList that stayed
    empty, from Allocated) back to Free. *)
Definition lifecycle_move (a b : DataUploader.State) : Prop :=
  a = b
  ∨ (a = DataUploader.STATE_FREE ∧ b = DataUploader.STATE_ALLOCATED)
  ∨ (a = DataUploader.STATE_ALLOCATED ∧ b = DataUploader.STATE_SUBMITTED)
  ∨ (a = DataUploader.STATE_ALLOCATED ∧ b = DataUploader.STATE_FREE)
  ∨ (a = DataUploader.STATE_SUBMITTED ∧ b = DataUploader.STATE_UPLOADING)
  ∨ (a = DataUploader.STATE_SUBMITTED ∧ b = DataUploader.STATE_COPY_PENDING)
  ∨ (a = DataUploader.STATE_SUBMITTED ∧ b = DataUploader.STATE_PACKED_MAPPING)
  ∨ (a = DataUploader.STATE_PACKED_MAPPING ∧ b = DataUploader.STATE_UPLOADING)
  ∨ (a = DataUploader.STATE_UPLOADING ∧ b = DataUploader.STATE_COPY_PENDING)
  ∨ (a = DataUploader.STATE_COPY_PENDING ∧ b = DataUploader.STATE_FREE).

(** The UpdateList that a notice is about. *)
Definition notice_list (n : DataUploader.Notice) : nat :=
  match n with
  | DataUploader.NotifyEvicted i => i
  | DataUploader.NotifyCopyComplete i => i
  | DataUploader.NotifyPackedMips i => i
  end.

(** The notices that the fence monitor sends for the UpdateList [i] when
    it completes, in their order. *)
Definition completion_notices (i : nat) (u : DataUploader.UL.t) : list DataUploader.Notice :=
  (if bool_decide (DataUploader.UL.GetNumEvictions u ≠ 0)
   then [DataUploader.NotifyEvicted i] else [])
  ++ (if bool_decide (DataUploader.UL.GetNumStandardUpdates u ≠ 0)
      then [DataUploader.NotifyCopyComplete i] else [])
  ++ (if bool_decide (DataUploader.UL.GetNumPackedUpdates u ≠ 0)
      then [DataUploader.NotifyPackedMips i] else []).

(* ================================================================== *)
(** * Properties *)

(** ** Grids *)

Section layer_lemmas.
Context {A : Type}.
Implicit Types (l : TileLayer A) (x y s : nat) (v d : A).

Lemma layer_lookup_set l x y s v x' y' s' :
  layer_lookup (layer_set l x y s v) x' y' s' =
    if decide (x = x' ∧ y = y' ∧ s = s')
    then (λ _, v) <$> layer_lookup l x y s
    else layer_lookup l x' y' s'.
Proof.
  destruct (decide (x = x' ∧ y = y' ∧ s = s')) as [(-> & -> & ->)|Hne];
    unfold layer_lookup, layer_set.
  - rewrite list_lookup_alter_eq.
    destruct (l !! s') as [plane|]; [simpl|done].
    rewrite list_lookup_alter_eq.
    destruct (plane !! y') as [row|]; [simpl|done].
    rewrite list_lookup_insert.
    destruct (row !! x') eqn:Hx.
    + rewrite decide_True; [done|]. split; [done|]. by eapply lookup_lt_Some.
    + rewrite decide_False; [done|]. apply lookup_ge_None in Hx. lia.
  - rewrite list_lookup_alter.
    destruct (decide (s = s')) as [->|Hs]; [|done].
    destruct (l !! s') as [plane|]; [simpl|done].
    rewrite list_lookup_alter.
    destruct (decide (y = y')) as [->|Hy]; [|done].
    destruct (plane !! y') as [row|]; [simpl|done].
    rewrite list_lookup_insert_ne; [done|]. naive_solver.
Qed.

Lemma layer_in_range_set l x y s v x' y' s' :
  layer_in_range (layer_set l x y s v) x' y' s' ↔ layer_in_range l x' y' s'.
Proof.
  unfold layer_in_range. rewrite layer_lookup_set.
  case_decide as H; [|done].
  destruct H as (-> & -> & ->). by rewrite fmap_is_Some.
Qed.

Lemma layer_get_set_eq d l x y s v :
  layer_in_range l x y s → layer_get d (layer_set l x y s v) x y s = v.
Proof.
  intros [w Hw]. unfold layer_get. rewrite layer_lookup_set.
  rewrite decide_True by done. by rewrite Hw.
Qed.

Lemma layer_get_set_ne d l x y s v x' y' s' :
  (x, y, s) ≠ (x', y', s') →
  layer_get d (layer_set l x y s v) x' y' s' = layer_get d l x' y' s'.
Proof.
  intros Hne. unfold layer_get. rewrite layer_lookup_set.
  rewrite decide_False; [done|]. intros (-> & -> & ->). done.
Qed.

Lemma layer_set_out_of_range l x y s v :
  ¬ layer_in_range l x y s → layer_set l x y s v = l.
Proof.
  unfold layer_in_range, layer_lookup, layer_set. intros Hout.
  apply list_eq. intros i. rewrite list_lookup_alter.
  case_decide as Hi; [subst i|done].
  destruct (l !! s) as [plane|] eqn:Hp; [simpl|done]. f_equal.
  apply list_eq. intros j. rewrite list_lookup_alter.
  case_decide as Hj; [subst j|done].
  destruct (plane !! y) as [row|] eqn:Hr; [simpl|done]. f_equal.
  apply list_insert_ge. apply lookup_ge_None.
  destruct (row !! x) eqn:Hx; [|done]. exfalso. apply Hout. eauto.
Qed.

Lemma layer_get_set d l x y s v x' y' s' :
  layer_get d (layer_set l x y s v) x' y' s' =
    if decide ((x, y, s) = (x', y', s') ∧ layer_in_range l x y s)
    then v else layer_get d l x' y' s'.
Proof.
  case_decide as H.
  - destruct H as [[= <- <- <-] Hin]. by apply layer_get_set_eq.
  - destruct (decide ((x, y, s) = (x', y', s'))) as [[= <- <- <-]|Hne].
    + rewrite layer_set_out_of_range; [done|]. naive_solver.
    + by apply layer_get_set_ne.
Qed.

Lemma layer_lookup_length l x y s v :
  length (layer_set l x y s v) = length l.
Proof. unfold layer_set. by rewrite length_alter. Qed.

End layer_lemmas.

Lemma elem_of_concat {A} (x : A) (ls : list (list A)) :
  x ∈ concat ls ↔ ∃ l, x ∈ l ∧ l ∈ ls.
Proof.
  rewrite list_elem_of_In, in_concat. split.
  - intros (l & Hl & Hx). exists l. by rewrite !list_elem_of_In.
  - intros (l & Hx & Hl). exists l. by rewrite <- !list_elem_of_In.
Qed.

(** ** GetMinResidentMip *)

Lemma existsb_not_resident (plane : list (list Residency)) :
  existsb (λ y, existsb (λ x, bool_decide (Resident ≠ x)) y) plane = false
  ↔ Forall (Forall (λ r, r = Resident)) plane.
Proof.
  induction plane as [|row plane IH]; simpl.
  - split; [constructor|done].
  - rewrite orb_false_iff, IH, Forall_cons. apply and_iff_compat_r.
    clear IH. induction row as [|r row IH]; simpl.
    + split; [constructor|done].
    + rewrite orb_false_iff, IH, Forall_cons, bool_decide_eq_false.
      apply and_iff_compat_r. destruct r; naive_solver.
Qed.

Lemma back_lookup {A} (d : A) (v : list A) :
  back d v = default d (v !! (length v - 1)).
Proof. unfold back. rewrite last_lookup. by rewrite Nat.sub_1_r. Qed.

Lemma mip_fully_resident_last (tms : TileMappingState) :
  0 < length (m_resident tms) →
  mip_fully_resident tms (length (m_resident tms) - 1)
  ↔ Forall (Forall (λ r, r = Resident)) (back [] (m_resident tms)).
Proof.
  intros HM. rewrite back_lookup. unfold mip_fully_resident.
  destruct (m_resident tms !! (length (m_resident tms) - 1)) as [plane|] eqn:Hp; simpl.
  - naive_solver.
  - apply lookup_ge_None in Hp. lia.
Qed.

Lemma u8_small (n : nat) : n < 256 → u8 n = n.
Proof. intros Hn. unfold u8. by apply Nat.mod_small. Qed.

Lemma u8_pred_small (n : nat) : 0 < n < 256 → u8_pred n = n - 1.
Proof.
  intros Hn. unfold u8_pred, u8.
  replace (n + 255) with ((n - 1) + 1 * 256) by lia.
  rewrite Nat.Div0.mod_add. apply Nat.mod_small. lia.
Qed.

(** The two possible answers of [GetMinResidentMip]. *)
Lemma GetMinResidentMip_values (tms : TileMappingState) :
  0 < length (m_resident tms) < 256 →
  (GetMinResidentMip tms = length (m_resident tms) - 1
   ∧ mip_fully_resident tms (length (m_resident tms) - 1))
  ∨ GetMinResidentMip tms = length (m_resident tms).
Proof.
  intros HM. unfold GetMinResidentMip.
  rewrite u8_small, u8_pred_small by lia.
  destruct (existsb _ _) eqn:Hex; [by right|left].
  split; [done|]. apply mip_fully_resident_last; [lia|].
  by apply existsb_not_resident.
Qed.

(** C9, as the program has it: [GetMinResidentMip] looks at the coarsest
    tracked mip [M - 1] only.  It returns [M - 1] when every tile of that mip
    is [Resident], and [M] otherwise, whatever the residency of the finer
    mips. *)
Theorem GetMinResidentMip_coarsest_mip_only (tms : TileMappingState) :
  0 < length (m_resident tms) < 256 →
  (mip_fully_resident tms (length (m_resident tms) - 1) →
   GetMinResidentMip tms = length (m_resident tms) - 1)
  ∧ (¬ mip_fully_resident tms (length (m_resident tms) - 1) →
     GetMinResidentMip tms = length (m_resident tms)).
Proof.
  intros HM. rewrite mip_fully_resident_last by lia.
  rewrite <- existsb_not_resident. unfold GetMinResidentMip.
  rewrite u8_small, u8_pred_small by lia.
  destruct (existsb _ _); split; intros H; done.
Qed.

Lemma GetMinResidentMip_coarsest_mip_only_witness :
  (mip_fully_resident tms_coarse_resident 2 → GetMinResidentMip tms_coarse_resident = 2)
  ∧ (¬ mip_fully_resident tms_coarse_resident 2 → GetMinResidentMip tms_coarse_resident = 3).
Proof.
  apply (GetMinResidentMip_coarsest_mip_only tms_coarse_resident). simpl. lia.
Defined.

(** The claim C9 as it is worded fails: in [tms_fine_resident] mip 0 is the
    coarsest mip all of whose tiles are resident, and [GetMinResidentMip]
    answers 2. *)
Lemma GetMinResidentMip_not_coarsest_fully_resident :
  GetMinResidentMip tms_fine_resident = 2
  ∧ mip_fully_resident tms_fine_resident 0
  ∧ ¬ coarsest_fully_resident_mip tms_fine_resident (GetMinResidentMip tms_fine_resident).
Proof.
  assert (mip_fully_resident tms_fine_resident 0) as H0.
  { eexists. split; [reflexivity|]. repeat constructor. }
  split; [reflexivity|]. split; [done|].
  intros [[[plane [Hp _]] _]|[Hnone _]].
  - discriminate Hp.
  - by apply (Hnone 0).
Qed.

(** ** EvictionDelay: the ring of buckets *)

Section eviction_delay.
Import EvictionDelay.
Implicit Types (m pre post : list MappingCoords) (b : MappingCoords).

Lemma swap_buckets_adjacent pre b1 b2 post :
  swap_buckets (S (length pre)) (length pre) (pre ++ b1 :: b2 :: post)
  = pre ++ b2 :: b1 :: post.
Proof.
  unfold swap_buckets.
  rewrite (lookup_app_r pre) by lia. rewrite Nat.sub_diag. simpl.
  rewrite (lookup_app_r pre) by lia.
  replace (S (length pre) - length pre) with 1 by lia. simpl.
  rewrite insert_app_r_alt by lia. rewrite Nat.sub_diag. simpl.
  rewrite insert_app_r_alt by lia.
  replace (S (length pre) - length pre) with 1 by lia. done.
Qed.

(** The swaps of [NextFrame] move the bucket at position [length pre] to
    the front and shift the buckets before it by one. *)
Lemma swap_down_rotate pre b post :
  swap_down (length pre) (pre ++ b :: post) = b :: pre ++ post.
Proof.
  revert b post. induction pre as [|b' pre IH] using rev_ind; intros b post; [done|].
  rewrite length_app. simpl. rewrite Nat.add_1_r. simpl.
  rewrite <- (assoc_L (++)). simpl.
  rewrite swap_buckets_adjacent, IH.
  by rewrite <- (assoc_L (++)).
Qed.

(** One frame on a ring of at least two buckets: the buckets move one
    place towards the ready bucket, which keeps what it held. *)
Lemma NextFrame_shape pre b1 b2 :
  m_mappings (NextFrame (Build (pre ++ [b1; b2]))) = [] :: pre ++ [b1 ++ b2].
Proof.
  unfold NextFrame. simpl.
  rewrite length_app. simpl.
  replace (length pre + 2 - 1) with (length (pre ++ [b1])) by (rewrite length_app; simpl; lia).
  replace (pre ++ [b1; b2]) with ((pre ++ [b1]) ++ b2 :: []) by by rewrite <- (assoc_L (++)).
  rewrite swap_down_rotate. rewrite app_nil_r. simpl.
  rewrite !length_app. simpl.
  replace (length pre + 1 - 0) with (S (length pre)) by lia. simpl.
  f_equal.
  induction pre as [|b' pre IH]; simpl; [done|].
  f_equal. destruct pre; [done|]. simpl in *. by rewrite IH.
Qed.

Lemma split_last_two m :
  2 ≤ length m →
  ∃ pre b1 b2, m = pre ++ [b1; b2] ∧ length pre = length m - 2.
Proof.
  intros Hlen.
  destruct m as [|b2 m] using rev_ind; [simpl in Hlen; lia|].
  destruct m as [|b1 m _] using rev_ind.
  { simpl in Hlen. lia. }
  exists m, b1, b2. rewrite <- (assoc_L (++)). split; [done|].
  rewrite !length_app. simpl. lia.
Qed.

Lemma NextFrame_length (ed : t) :
  length (m_mappings (NextFrame ed)) = length (m_mappings ed).
Proof.
  unfold NextFrame. simpl. rewrite length_insert, length_alter.
  generalize (length (m_mappings ed) - 1) as i. intros i. revert ed.
  induction i as [|i IH]; intros ed; simpl; [done|].
  specialize (IH (Build (swap_buckets (S i) i (m_mappings ed)))). simpl in IH.
  rewrite IH. unfold swap_buckets. by rewrite !length_insert.
Qed.

Lemma iter_NextFrame_length n (ed : t) :
  length (m_mappings (Nat.iter n NextFrame ed)) = length (m_mappings ed).
Proof. induction n as [|n IH]; [done|]. by rewrite Nat.iter_succ, NextFrame_length. Qed.

Lemma NextFrame_concat (ed : t) :
  2 ≤ length (m_mappings ed) →
  concat (m_mappings (NextFrame ed)) = concat (m_mappings ed).
Proof.
  intros Hlen. destruct ed as [m].
  destruct (split_last_two m Hlen) as (pre & b1 & b2 & -> & _).
  rewrite NextFrame_shape. simpl. rewrite !concat_app. simpl.
  by rewrite !app_nil_r.
Qed.

Lemma NextFrame_ready (ed : t) :
  2 ≤ length (m_mappings ed) →
  GetReadyToEvict (NextFrame ed)
  = default [] (m_mappings ed !! (length (m_mappings ed) - 2)) ++ GetReadyToEvict ed.
Proof.
  intros Hlen. destruct ed as [m].
  destruct (split_last_two m Hlen) as (pre & b1 & b2 & -> & Hpre).
  unfold GetReadyToEvict, back. rewrite NextFrame_shape. cbn [m_mappings].
  rewrite <- Hpre.
  rewrite (lookup_app_r pre) by lia. rewrite Nat.sub_diag. simpl.
  replace (pre ++ [b1; b2]) with ((pre ++ [b1]) ++ [b2]) by by rewrite <- (assoc_L (++)).
  rewrite last_snoc. simpl.
  change ([] :: pre ++ [b1 ++ b2]) with (([] :: pre) ++ [b1 ++ b2]).
  by rewrite last_snoc.
Qed.

(** After [n] frames the ready bucket holds the buckets that were at most
    [n] places away from it, in the order of the ring. *)
Lemma iter_NextFrame_ready n (ed : t) :
  2 ≤ length (m_mappings ed) →
  GetReadyToEvict (Nat.iter n NextFrame ed)
  = concat (drop (length (m_mappings ed) - 1 - n) (m_mappings ed)).
Proof.
  revert ed. induction n as [|n IH]; intros [m] Hlen.
  - change (Nat.iter 0 NextFrame ?e) with e. cbn [m_mappings]. rewrite Nat.sub_0_r.
    destruct (split_last_two m Hlen) as (pre & b1 & b2 & -> & Hpre).
    unfold GetReadyToEvict, back. cbn [Nat.iter m_mappings].
    replace (pre ++ [b1; b2]) with ((pre ++ [b1]) ++ [b2]) by by rewrite <- (assoc_L (++)).
    rewrite last_snoc. rewrite length_app. simpl.
    replace (length (pre ++ [b1]) + 1 - 1) with (length (pre ++ [b1])) by lia.
    rewrite drop_app_length. simpl. by rewrite app_nil_r.
  - rewrite Nat.iter_succ_r. rewrite IH; [|rewrite NextFrame_length; exact Hlen].
    rewrite NextFrame_length.
    destruct (split_last_two m Hlen) as (pre & b1 & b2 & -> & Hpre).
    rewrite NextFrame_shape. cbn [m_mappings]. rewrite length_app. cbn [length].
    destruct (decide (length pre + 2 - 1 - n = 0)) as [Hz|Hnz].
    + rewrite Hz. replace (length pre + 2 - 1 - S n) with 0 by lia. simpl.
      rewrite !drop_0, !concat_app. simpl. by rewrite !app_nil_r.
    + replace (length pre + 2 - 1 - n) with (S (length pre - n)) by lia.
      replace (length pre + 2 - 1 - S n) with (length pre - n) by lia.
      simpl. rewrite !drop_app_le by lia. rewrite !concat_app. simpl.
      by rewrite !app_nil_r.
Qed.

End eviction_delay.

(** C6.  A ring of depth [swap_buffers + 1], as the constructor builds it.
    For fewer than [swap_buffers] frames after [Append c] the ready bucket
    is what it would have been without the call (so [c] is not in it unless
    an older entry of the ring put it there), and from [swap_buffers] frames
    on [c] is in the ready bucket.  [NextFrame] keeps every entry of the
    ring, and what the ready bucket held stays in it, behind the entries of
    the bucket that moves in.  With [swap_buffers = 2] the ready bucket is
    empty after the call and after one frame, and holds [c] after two. *)
Theorem EvictionDelay_delay (swap_buffers : nat) (ed : EvictionDelay.t)
    (c : D3D12_TILED_RESOURCE_COORDINATE) (n : nat) :
  1 ≤ swap_buffers →
  length (EvictionDelay.m_mappings ed) = swap_buffers + 1 →
  (∀ invalid mips tiling w h,
     length (EvictionDelay.m_mappings
               (m_pendingEvictions (create invalid swap_buffers mips tiling w h)))
     = swap_buffers + 1)
  ∧ (n < swap_buffers →
     EvictionDelay.GetReadyToEvict
       (Nat.iter n EvictionDelay.NextFrame (EvictionDelay.Append c ed))
     = EvictionDelay.GetReadyToEvict (Nat.iter n EvictionDelay.NextFrame ed)
     ∧ ((∀ b, b ∈ EvictionDelay.m_mappings ed → c ∉ b) →
        c ∉ EvictionDelay.GetReadyToEvict
              (Nat.iter n EvictionDelay.NextFrame (EvictionDelay.Append c ed))))
  ∧ (swap_buffers ≤ n →
     c ∈ EvictionDelay.GetReadyToEvict
           (Nat.iter n EvictionDelay.NextFrame (EvictionDelay.Append c ed)))
  ∧ concat (EvictionDelay.m_mappings (EvictionDelay.NextFrame ed))
    = concat (EvictionDelay.m_mappings ed)
  ∧ EvictionDelay.GetReadyToEvict (EvictionDelay.NextFrame ed)
    = default [] (EvictionDelay.m_mappings ed !! (swap_buffers - 1))
      ++ EvictionDelay.GetReadyToEvict ed
  ∧ (let queued := EvictionDelay.Append c (EvictionDelay.create (2 + 1)) in
     EvictionDelay.GetReadyToEvict queued = []
     ∧ EvictionDelay.GetReadyToEvict (EvictionDelay.NextFrame queued) = []
     ∧ EvictionDelay.GetReadyToEvict
         (EvictionDelay.NextFrame (EvictionDelay.NextFrame queued)) = [c]).
Proof.
  intros Hswap Hlen.
  assert (length (EvictionDelay.m_mappings (EvictionDelay.Append c ed)) = swap_buffers + 1)
    as Hlen'.
  { simpl. by rewrite length_alter. }
  destruct ed as [m]. cbn [EvictionDelay.m_mappings] in *.
  destruct m as [|b0 rest]; [simpl in Hlen; lia|].
  split; [|split; [|split; [|split; [|split]]]].
  - intros. simpl. rewrite length_replicate. done.
  - intros Hn.
    assert (EvictionDelay.GetReadyToEvict
              (Nat.iter n EvictionDelay.NextFrame
                 (EvictionDelay.Append c (EvictionDelay.Build (b0 :: rest))))
            = EvictionDelay.GetReadyToEvict
                (Nat.iter n EvictionDelay.NextFrame (EvictionDelay.Build (b0 :: rest)))) as Heq.
    { rewrite !iter_NextFrame_ready by (cbn [EvictionDelay.m_mappings] in *; lia).
      rewrite Hlen'. cbn [EvictionDelay.m_mappings]. rewrite Hlen.
      replace (swap_buffers + 1 - 1 - n) with (S (swap_buffers - 1 - n)) by lia.
      done. }
    split; [done|].
    intros Hnot. rewrite Heq.
    rewrite iter_NextFrame_ready by (cbn [EvictionDelay.m_mappings] in *; lia).
    cbn [EvictionDelay.m_mappings].
    intros (b & Hc & Hb)%elem_of_concat.
    apply (Hnot b); [|done].
    eapply subseteq_drop. done.
  - intros Hn.
    rewrite iter_NextFrame_ready by lia.
    rewrite Hlen'. replace (swap_buffers + 1 - 1 - n) with 0 by lia.
    rewrite drop_0. simpl. apply elem_of_app. left. apply elem_of_app. right.
    apply list_elem_of_singleton. done.
  - apply NextFrame_concat. cbn [EvictionDelay.m_mappings]. lia.
  - rewrite NextFrame_ready by (cbn [EvictionDelay.m_mappings]; lia).
    cbn [EvictionDelay.m_mappings]. rewrite Hlen.
    by replace (swap_buffers + 1 - 2) with (swap_buffers - 1) by lia.
  - done.
Qed.

Lemma EvictionDelay_delay_witness :
  let c := Coord 0 0 3 in
  let ed := EvictionDelay.create 3 in
  1 < 2
  ∧ EvictionDelay.GetReadyToEvict
      (Nat.iter 1 EvictionDelay.NextFrame (EvictionDelay.Append c ed))
    = EvictionDelay.GetReadyToEvict (Nat.iter 1 EvictionDelay.NextFrame ed).
Proof.
  intros c ed. split; [lia|].
  pose proof (EvictionDelay_delay 2 ed c 1) as H.
  destruct H as (_ & H & _); [lia|reflexivity|].
  apply H. lia.
Defined.

(** ** SetMinMip *)

Lemma SetMinMip_addrefs_spec (in_current in_x in_y in_s : nat) (r : StreamingResourceBase) :
  in_s ≤ in_current →
  SetMinMip_addrefs in_current in_x in_y in_s r
  = (in_s,
     foldl (λ r s, AddTileRef (Nat.shiftr in_x s) (Nat.shiftr in_y s) s r) r
       (rev (seq in_s (in_current - in_s)))).
Proof.
  revert r. induction in_current as [|c IH]; intros r Hle.
  - assert (in_s = 0) as -> by lia. done.
  - simpl SetMinMip_addrefs. case_bool_decide as Hlt.
    + rewrite IH by lia.
      replace (S c - in_s) with (S (c - in_s)) by lia.
      rewrite seq_S, rev_app_distr. simpl.
      by replace (in_s + (c - in_s)) with c by lia.
    + assert (in_s = S c) as -> by lia. by rewrite Nat.sub_diag.
Qed.

Lemma SetMinMip_addrefs_skip (in_current in_x in_y in_s : nat) (r : StreamingResourceBase) :
  in_current ≤ in_s →
  SetMinMip_addrefs in_current in_x in_y in_s r = (in_current, r).
Proof.
  intros Hle. destruct in_current as [|c]; [done|].
  simpl. rewrite bool_decide_eq_false_2 by lia. done.
Qed.

Lemma SetMinMip_decrefs_spec (dist s in_x in_y : nat) (r : StreamingResourceBase) :
  SetMinMip_decrefs dist s in_x in_y r
  = foldl (λ r s, DecTileRef (Nat.shiftr in_x s) (Nat.shiftr in_y s) s r) r (seq s dist).
Proof. revert s r. induction dist as [|dist IH]; intros s r; simpl; [done|]. by rewrite IH. Qed.

(** The calls of [SetMinMip], in the order in which they are made. *)
Lemma SetMinMip_calls (in_current in_x in_y in_s : nat) (r : StreamingResourceBase) :
  SetMinMip in_current in_x in_y in_s r
  = foldl (λ r s, DecTileRef (Nat.shiftr in_x s) (Nat.shiftr in_y s) s r)
      (foldl (λ r s, AddTileRef (Nat.shiftr in_x s) (Nat.shiftr in_y s) s r) r
         (rev (seq in_s (in_current - in_s))))
      (seq in_current (in_s - in_current)).
Proof.
  unfold SetMinMip. destruct (decide (in_s ≤ in_current)) as [Hle|Hgt].
  - rewrite SetMinMip_addrefs_spec by done.
    rewrite Nat.sub_diag. replace (in_s - in_current) with 0 by lia. done.
  - rewrite SetMinMip_addrefs_skip by lia.
    replace (in_current - in_s) with 0 by lia. simpl.
    apply SetMinMip_decrefs_spec.
Qed.

(** C3.  With a current mip [c] and a desired mip [d] (both [UINT8]):
    when [d < c], [SetMinMip] is the sequence of calls
    [AddTileRef (x >> s, y >> s, s)] for [s = c-1, c-2, ..., d], in that
    order; when [d > c], it is the sequence of calls [DecTileRef] for
    [s = c, c+1, ..., d-1], in that order.  [AddTileRef] appends the tile to
    the pending loads exactly when its reference count was 0 and then
    increments the count.  In the cold scenario one feedback pass leaves the
    pending loads (0,0,3), (0,0,2), (0,0,1), (0,0,0) and a reference count
    of 1 for each of them. *)
Theorem SetMinMip_order (c d x y : nat) (r : StreamingResourceBase) :
  c ≤ 255 → d ≤ 255 →
  (d < c →
   SetMinMip c x y d r
   = foldl (λ r s, AddTileRef (Nat.shiftr x s) (Nat.shiftr y s) s r) r
       (rev (seq d (c - d))))
  ∧ (c < d →
     SetMinMip c x y d r
     = foldl (λ r s, DecTileRef (Nat.shiftr x s) (Nat.shiftr y s) s r) r (seq c (d - c)))
  ∧ (∀ tx ty s,
       m_pendingTileLoads (AddTileRef tx ty s r)
       = m_pendingTileLoads r
         ++ (if decide (GetRefCount (m_tileMappingState r) tx ty s = 0%Z)
             then [Coord tx ty s] else [])
       ∧ (layer_in_range (m_refcounts (m_tileMappingState r)) tx ty s →
          GetRefCount (m_tileMappingState (AddTileRef tx ty s r)) tx ty s
          = u32 (GetRefCount (m_tileMappingState r) tx ty s + 1)))
  ∧ m_pendingTileLoads cold_after_feedback
    = [Coord 0 0 3; Coord 0 0 2; Coord 0 0 1; Coord 0 0 0]
  ∧ (∀ s, s < 4 → GetRefCount (m_tileMappingState cold_after_feedback) 0 0 s = 1%Z).
Proof.
  intros Hc Hd. split; [|split; [|split; [|split]]].
  - intros Hlt. rewrite SetMinMip_calls.
    by replace (d - c) with 0 by lia.
  - intros Hlt. rewrite SetMinMip_calls.
    by replace (c - d) with 0 by lia.
  - intros tx ty s. split.
    + unfold AddTileRef. case_bool_decide as H0; case_decide as H0'; try congruence.
      * done.
      * simpl. by rewrite app_nil_r.
    + intros Hin. unfold AddTileRef, GetRefCount.
      case_bool_decide; simpl; by rewrite layer_get_set_eq.
  - reflexivity.
  - intros s Hs. by do 4 (destruct s as [|s]; [reflexivity|]); lia.
Qed.

Lemma SetMinMip_order_witness :
  let r := cold_resource in
  SetMinMip 4 0 0 0 r
  = foldl (λ r s, AddTileRef (Nat.shiftr 0 s) (Nat.shiftr 0 s) s r) r [3; 2; 1; 0].
Proof.
  intros r.
  pose proof (SetMinMip_order 4 0 0 0 r) as H.
  destruct H as (H & _); [lia|lia|].
  apply H. lia.
Defined.

(** ** Loops *)

Lemma foldl_invariant {A B} (P : A → Prop) (f : A → B → A) (l : list B) (a : A) :
  P a → (∀ a b, P a → b ∈ l → P (f a b)) → P (foldl f a l).
Proof.
  revert a. induction l as [|b l IH]; intros a Ha Hf; simpl; [done|].
  apply IH.
  - apply Hf; [done|]. apply list_elem_of_here.
  - intros a' b' Ha' Hb'. apply Hf; [done|]. by apply list_elem_of_further.
Qed.

Lemma foldl_flat_map {A B C} (f : A → C → A) (g : B → list C) (l : list B) (a : A) :
  foldl f a (flat_map g l) = foldl (λ a b, foldl f a (g b)) a l.
Proof.
  revert a. induction l as [|b l IH]; intros a; simpl; [done|].
  by rewrite foldl_app, IH.
Qed.

Lemma foldl_fmap {A B C} (f : A → C → A) (g : B → C) (l : list B) (a : A) :
  foldl f a (g <$> l) = foldl (λ a b, f a (g b)) a l.
Proof. revert a. induction l as [|b l IH]; intros a; simpl; [done|]. by rewrite IH. Qed.

Lemma foldl_ext_in {A B} (f g : A → B → A) (l : list B) (a : A) :
  (∀ a b, b ∈ l → f a b = g a b) → foldl f a l = foldl g a l.
Proof.
  revert a. induction l as [|b l IH]; intros a Hfg; simpl; [done|].
  rewrite Hfg by apply list_elem_of_here. apply IH.
  intros a' b' Hb'. apply Hfg. by apply list_elem_of_further.
Qed.

(** ** Reference counts *)

Lemma GetRefCount_SetRefCount (tms : TileMappingState) (x y s x' y' s' : nat) (v : Z) :
  GetRefCount (SetRefCount tms x y s v) x' y' s'
  = if decide ((x, y, s) = (x', y', s') ∧ layer_in_range (m_refcounts tms) x y s)
    then v else GetRefCount tms x' y' s'.
Proof. unfold GetRefCount, SetRefCount. simpl. apply layer_get_set. Qed.

Lemma GetRefCount_out_of_range (tms : TileMappingState) (x y s : nat) :
  ¬ layer_in_range (m_refcounts tms) x y s → GetRefCount tms x y s = 0%Z.
Proof.
  unfold GetRefCount, layer_get, layer_in_range. intros Hout.
  destruct (layer_lookup _ _ _ _); [|done]. exfalso. eauto.
Qed.

Lemma Append_fold (ed : EvictionDelay.t) (l : list D3D12_TILED_RESOURCE_COORDINATE) :
  EvictionDelay.m_mappings (foldl (λ ed c, EvictionDelay.Append c ed) ed l)
  = alter (λ b, b ++ l) 0 (EvictionDelay.m_mappings ed).
Proof.
  revert ed. induction l as [|c l IH]; intros [m]; simpl.
  - destruct m; simpl; [done|]. by rewrite app_nil_r.
  - rewrite IH. simpl. destruct m; simpl; [done|]. by rewrite <- (assoc_L (++)).
Qed.

(** ** The zero-refcount path of ProcessFeedback *)

Lemma zero_refcounts_in_range (tms : TileMappingState) K x y s :
  layer_in_range (m_refcounts (zero_refcounts tms K)) x y s
  ↔ layer_in_range (m_refcounts tms) x y s.
Proof.
  unfold zero_refcounts. revert tms. induction K as [|c K IH]; intros tms; simpl; [done|].
  rewrite IH. simpl. apply layer_in_range_set.
Qed.

Lemma zero_refcounts_resident (tms : TileMappingState) K :
  m_resident (zero_refcounts tms K) = m_resident tms
  ∧ m_heapIndices (zero_refcounts tms K) = m_heapIndices tms.
Proof.
  unfold zero_refcounts. revert tms. induction K as [|c K IH]; intros tms; simpl; [done|].
  by destruct (IH (SetRefCount tms (X c) (Y c) (Subresource c) 0%Z)) as [-> ->].
Qed.

Lemma GetRefCount_zero_refcounts (tms : TileMappingState) K x y s :
  GetRefCount (zero_refcounts tms K) x y s
  = if decide (Coord x y s ∈ K) then 0%Z else GetRefCount tms x y s.
Proof.
  induction K as [|c K IH] using rev_ind.
  - rewrite decide_False by apply not_elem_of_nil. done.
  - unfold zero_refcounts in *. rewrite foldl_snoc.
    rewrite GetRefCount_SetRefCount, IH.
    destruct (decide (Coord x y s ∈ K)) as [HK|HK].
    + rewrite (decide_True (P := _ ∈ K ++ [c])) by (apply elem_of_app; by left).
      by case_decide.
    + destruct (decide (c = Coord x y s)) as [->|Hc]; simpl.
      * rewrite (decide_True (P := _ ∈ K ++ _)) by (apply elem_of_app; right; by left).
        case_decide as Hr; [done|].
        apply GetRefCount_out_of_range. intros Hin. apply Hr. split; [done|].
        by apply (zero_refcounts_in_range tms K).
      * rewrite decide_False by (destruct c; naive_solver).
        rewrite decide_False; [done|].
        rewrite elem_of_app, list_elem_of_singleton. naive_solver.
Qed.

Lemma zero_step_referenced (r : StreamingResourceBase) (ch : bool)
    (c : D3D12_TILED_RESOURCE_COORDINATE) :
  referenced (m_tileMappingState r) c →
  ProcessFeedback_zero_step (r, ch) c
  = (set_pendingEvictions (EvictionDelay.Append c (m_pendingEvictions r))
       (set_tileMappingState
          (SetRefCount (m_tileMappingState r) (X c) (Y c) (Subresource c) 0%Z) r),
     true).
Proof.
  intros Hnz. unfold ProcessFeedback_zero_step, ProcessFeedback_zero_body.
  rewrite bool_decide_eq_true_2 by exact Hnz. by destruct c.
Qed.

Lemma zero_step_unreferenced (r : StreamingResourceBase) (ch : bool)
    (c : D3D12_TILED_RESOURCE_COORDINATE) :
  ¬ referenced (m_tileMappingState r) c →
  ProcessFeedback_zero_step (r, ch) c = (r, ch).
Proof.
  intros Hz. unfold ProcessFeedback_zero_step, ProcessFeedback_zero_body.
  rewrite bool_decide_eq_false_2 by exact Hz. done.
Qed.

Lemma zero_steps_spec (r : StreamingResourceBase) (ch : bool)
    (L : list D3D12_TILED_RESOURCE_COORDINATE) :
  NoDup L →
  foldl ProcessFeedback_zero_step (r, ch) L
  = (zero_result r (filter (referenced (m_tileMappingState r)) L),
     ch || bool_decide (filter (referenced (m_tileMappingState r)) L ≠ [])).
Proof.
  induction L as [|c L IH] using rev_ind; intros Hnd.
  - simpl. rewrite orb_false_r. by destruct r.
  - apply NoDup_app in Hnd as (HndL & Hc & _).
    rewrite foldl_snoc, IH by done. rewrite filter_app.
    set (K := filter (referenced (m_tileMappingState r)) L).
    assert (referenced (m_tileMappingState (zero_result r K)) c
            ↔ referenced (m_tileMappingState r) c) as Href.
    { unfold referenced. simpl. rewrite GetRefCount_zero_refcounts.
      rewrite decide_False; [done|].
      intros [_ Hin]%list_elem_of_filter. apply (Hc (Coord (X c) (Y c) (Subresource c))).
      - done.
      - destruct c. apply list_elem_of_singleton. done. }
    destruct (decide (referenced (m_tileMappingState r) c)) as [Hnz|Hz].
    + rewrite zero_step_referenced by by apply Href.
      rewrite filter_cons_True by exact Hnz. rewrite filter_nil.
      f_equal.
      * unfold zero_result, zero_refcounts. rewrite !foldl_snoc. done.
      * symmetry. rewrite orb_true_iff. right.
        apply bool_decide_eq_true. by destruct K.
    + rewrite zero_step_unreferenced by by rewrite Href.
      rewrite filter_cons_False by exact Hz.
      rewrite filter_nil, app_nil_r. done.
Qed.

Lemma zero_body_resident s y st x :
  m_resident (m_tileMappingState (fst (ProcessFeedback_zero_body s y st x)))
  = m_resident (m_tileMappingState (fst st)).
Proof. destruct st as [r ch]. unfold ProcessFeedback_zero_body. by case_bool_decide. Qed.

Lemma GetWidth_resident (tms tms' : TileMappingState) (s : nat) :
  m_resident tms = m_resident tms' → GetWidth tms s = GetWidth tms' s.
Proof. unfold GetWidth. by intros ->. Qed.

Lemma GetHeight_resident (tms tms' : TileMappingState) (s : nat) :
  m_resident tms = m_resident tms' → GetHeight tms s = GetHeight tms' s.
Proof. unfold GetHeight. by intros ->. Qed.

Lemma zero_loops_flat (r : StreamingResourceBase) (ch : bool) :
  ProcessFeedback_zero_loops (r, ch)
  = foldl ProcessFeedback_zero_step (r, ch) (tracked_tiles r).
Proof.
  unfold ProcessFeedback_zero_loops, tracked_tiles. simpl fst.
  rewrite foldl_flat_map.
  pose (P := λ st : StreamingResourceBase * bool,
         m_resident (m_tileMappingState (fst st)) = m_resident (m_tileMappingState r)).
  assert (∀ st c, P st → P (ProcessFeedback_zero_step st c)) as Hstep.
  { intros st c Hst. unfold P, ProcessFeedback_zero_step.
    by rewrite zero_body_resident. }
  assert (∀ st s, P st →
            foldl (λ st y, foldl (ProcessFeedback_zero_body s y) st
                             (seq 0 (GetWidth (m_tileMappingState (fst st)) s)))
              st (seq 0 (GetHeight (m_tileMappingState (fst st)) s))
            = foldl ProcessFeedback_zero_step st (tiles_of_mip (m_tileMappingState r) s)
            ∧ P (foldl ProcessFeedback_zero_step st (tiles_of_mip (m_tileMappingState r) s)))
    as Hmip.
  { intros st s Hst. split.
    - unfold tiles_of_mip. rewrite foldl_flat_map.
      rewrite (GetHeight_resident _ (m_tileMappingState r)) by exact Hst.
      generalize (seq 0 (GetHeight (m_tileMappingState r) s)).
      intros ys. revert st Hst. induction ys as [|y ys IH]; intros st Hst; [done|].
      cbn [foldl]. rewrite foldl_fmap.
      rewrite (GetWidth_resident _ (m_tileMappingState r)) by exact Hst.
      apply IH. apply (foldl_invariant P); [done|].
      intros a b Ha _. exact (Hstep a (Coord b y s) Ha).
    - apply (foldl_invariant P); [done|]. intros a b Ha _. by apply Hstep. }
  generalize (seq 0 (m_maxMip r)). intros ss.
  assert (P (r, ch)) as HP by done.
  revert HP. generalize (r, ch) at 1 2 3.
  induction ss as [|s ss IH]; intros st Hst; [done|].
  cbn [foldl]. destruct (Hmip st s Hst) as [-> HP]. by apply IH.
Qed.

Lemma NoDup_flat_map {A B} (g : A → list B) (l : list A) :
  NoDup l →
  (∀ a, a ∈ l → NoDup (g a)) →
  (∀ a a' b, a ∈ l → a' ∈ l → a ≠ a' → b ∈ g a → b ∉ g a') →
  NoDup (flat_map g l).
Proof.
  induction l as [|a l IH]; intros Hnd Hg Hdisj; simpl; [constructor|].
  apply NoDup_cons in Hnd as [Ha Hnd].
  apply NoDup_app. split; [|split].
  - apply Hg. by left.
  - intros b Hb Hb'. apply list_elem_of_In, in_flat_map in Hb' as (a' & Ha' & Hb').
    apply list_elem_of_In in Ha', Hb'.
    apply (Hdisj a a' b); [by left|by right| |done|done].
    intros ->. done.
  - apply IH; [done| |].
    + intros a' Ha'. apply Hg. by right.
    + intros a1 a2 b H1 H2. apply Hdisj; by right.
Qed.

Lemma elem_of_flat_map {A B} (g : A → list B) (l : list A) (b : B) :
  b ∈ flat_map g l ↔ ∃ a, a ∈ l ∧ b ∈ g a.
Proof.
  rewrite list_elem_of_In, in_flat_map. split.
  - intros (a & Ha & Hb). exists a. by rewrite !list_elem_of_In.
  - intros (a & Ha & Hb). exists a. by rewrite <- !list_elem_of_In.
Qed.

Lemma elem_of_tiles_of_mip (tms : TileMappingState) (s : nat)
    (c : D3D12_TILED_RESOURCE_COORDINATE) :
  c ∈ tiles_of_mip tms s
  ↔ Subresource c = s ∧ Y c < GetHeight tms s ∧ X c < GetWidth tms s.
Proof.
  unfold tiles_of_mip. rewrite elem_of_flat_map. split.
  - intros (y & Hy & Hc). apply list_elem_of_fmap in Hc as (x & -> & Hx).
    apply elem_of_seq in Hy, Hx. simpl. lia.
  - intros (Hs & Hy & Hx). exists (Y c). split.
    + apply elem_of_seq. lia.
    + apply list_elem_of_fmap. exists (X c). split.
      * destruct c. simpl in *. by subst.
      * apply elem_of_seq. lia.
Qed.

Lemma elem_of_tracked_tiles (r : StreamingResourceBase)
    (c : D3D12_TILED_RESOURCE_COORDINATE) :
  c ∈ tracked_tiles r
  ↔ Subresource c < m_maxMip r
    ∧ Y c < GetHeight (m_tileMappingState r) (Subresource c)
    ∧ X c < GetWidth (m_tileMappingState r) (Subresource c).
Proof.
  unfold tracked_tiles. rewrite elem_of_flat_map. split.
  - intros (s & Hs & (<- & Hy & Hx)%elem_of_tiles_of_mip).
    apply elem_of_seq in Hs. split; [lia|done].
  - intros (Hs & Hy & Hx). exists (Subresource c). split.
    + apply elem_of_seq. lia.
    + by apply elem_of_tiles_of_mip.
Qed.

Lemma NoDup_tracked_tiles (r : StreamingResourceBase) : NoDup (tracked_tiles r).
Proof.
  unfold tracked_tiles. apply NoDup_flat_map.
  - apply NoDup_seq.
  - intros s _. unfold tiles_of_mip. apply NoDup_flat_map.
    + apply NoDup_seq.
    + intros y _. apply NoDup_fmap_2; [|apply NoDup_seq].
      intros x x' [= ->]. done.
    + intros y y' c _ _ Hne (x & -> & _)%list_elem_of_fmap (x' & [= -> ->] & _)%list_elem_of_fmap.
      done.
  - intros s s' c _ _ Hne (Hs & _)%elem_of_tiles_of_mip (Hs' & _)%elem_of_tiles_of_mip.
    congruence.
Qed.

Lemma ProcessFeedback_evict_all_eq (RESOLVE_TO_TEXTURE : bool) (fence : Z)
    (resolved : nat → list nat) (r : StreamingResourceBase) :
  m_setZeroRefCounts r = true →
  m_refCountsZero r = false →
  ProcessFeedback RESOLVE_TO_TEXTURE fence resolved r
  = let st := ProcessFeedback_zero_loops (evict_all_prepare r, false) in
    let r3 := set_pendingTileLoads [] (fst st) in
    if snd st then SetResidencyChanged r3 else r3.
Proof.
  intros H1 H2. unfold ProcessFeedback. rewrite H1.
  cbn [m_refCountsZero set_setZeroRefCounts]. rewrite H2.
  fold (evict_all_prepare r).
  by destruct (ProcessFeedback_zero_loops _) as [r2 []].
Qed.

(** C8, as the program has it.  When [ProcessFeedback] runs with
    [m_setZeroRefCounts] raised and [m_refCountsZero] not yet set, it lowers
    the signal and sets [m_refCountsZero], sets every tile reference to
    [m_maxMip], sets to 0 the reference count of every tracked tile and leaves
    the other counts as they are, appends to bucket 0 of the eviction delay
    exactly the tracked tiles whose reference count was not 0 (whatever
    their residency), in the order mip, row, column, empties the pending
    loads, clears the queued flag of every feedback buffer, and marks the
    residency as changed exactly when some reference count was not 0.  The
    residency and the heap indices are untouched and the result depends
    neither on the frame fence nor on the feedback buffers.  With three
    referenced resident tiles, all three are in bucket 0 afterwards, every
    count is 0, no load is pending and the residency is marked changed. *)
Theorem ProcessFeedback_evict_all (RESOLVE_TO_TEXTURE : bool) (fence : Z)
    (resolved : nat → list nat) (r : StreamingResourceBase) :
  m_setZeroRefCounts r = true →
  m_refCountsZero r = false →
  let r' := ProcessFeedback RESOLVE_TO_TEXTURE fence resolved r in
  m_setZeroRefCounts r' = false
  ∧ m_refCountsZero r' = true
  ∧ m_tileReferences r' = replicate (length (m_tileReferences r)) (m_maxMip r)
  ∧ (∀ c, c ∈ tracked_tiles r →
       GetRefCount (m_tileMappingState r') (X c) (Y c) (Subresource c) = 0%Z)
  ∧ (∀ x y s, Coord x y s ∉ tracked_tiles r →
       GetRefCount (m_tileMappingState r') x y s = GetRefCount (m_tileMappingState r) x y s)
  ∧ EvictionDelay.m_mappings (m_pendingEvictions r')
    = alter (λ b, b ++ referenced_tiles r) 0 (EvictionDelay.m_mappings (m_pendingEvictions r))
  ∧ m_pendingTileLoads r' = []
  ∧ Forall (λ f, m_feedbackQueued f = false) (m_queuedFeedback r')
  ∧ m_tileResidencyChanged r'
    = m_tileResidencyChanged r || bool_decide (referenced_tiles r ≠ [])
  ∧ m_resident (m_tileMappingState r') = m_resident (m_tileMappingState r)
  ∧ m_heapIndices (m_tileMappingState r') = m_heapIndices (m_tileMappingState r)
  ∧ (∀ fence' resolved', ProcessFeedback RESOLVE_TO_TEXTURE fence' resolved' r = r')
  ∧ (let after := ProcessFeedback RESOLVE_TO_TEXTURE fence resolved three_tiles_evict_all in
     EvictionDelay.m_mappings (m_pendingEvictions after)
     = [[Coord 0 0 1; Coord 0 0 2; Coord 0 0 3]; []; []]
     ∧ (∀ c, c ∈ tracked_tiles three_tiles_evict_all →
          GetRefCount (m_tileMappingState after) (X c) (Y c) (Subresource c) = 0%Z)
     ∧ m_pendingTileLoads after = []
     ∧ m_tileResidencyChanged after = true).
Proof.
  intros Hset Hzero.
  pose proof (ProcessFeedback_evict_all_eq RESOLVE_TO_TEXTURE fence resolved r Hset Hzero)
    as Heq.
  rewrite zero_loops_flat, zero_steps_spec in Heq by apply NoDup_tracked_tiles.
  change (tracked_tiles (evict_all_prepare r)) with (tracked_tiles r) in Heq.
  change (m_tileMappingState (evict_all_prepare r)) with (m_tileMappingState r) in Heq.
  fold (referenced_tiles r) in Heq. cbn [fst snd orb] in Heq.
  intros r'. subst r'. rewrite Heq.
  split; [|split; [|split; [|split; [|split; [|split; [|split;
    [|split; [|split; [|split; [|split; [|split]]]]]]]]]]].
  - by case_bool_decide.
  - by case_bool_decide.
  - assert (m_tileReferences (evict_all_prepare r)
            = replicate (length (m_tileReferences r)) (m_maxMip r)) as H0.
    { simpl. induction (m_tileReferences r); simpl; by f_equal. }
    by case_bool_decide.
  - intros c Hc.
    assert (GetRefCount (zero_refcounts (m_tileMappingState r) (referenced_tiles r))
              (X c) (Y c) (Subresource c) = 0%Z) as H0.
    { rewrite GetRefCount_zero_refcounts. case_decide as Hin; [done|].
      destruct (decide (referenced (m_tileMappingState r) c)) as [Hnz|Hz].
      - exfalso. apply Hin. apply list_elem_of_filter. by destruct c.
      - by apply dec_stable. }
    by case_bool_decide.
  - intros x y s Hc.
    assert (GetRefCount (zero_refcounts (m_tileMappingState r) (referenced_tiles r)) x y s
            = GetRefCount (m_tileMappingState r) x y s) as H0.
    { rewrite GetRefCount_zero_refcounts. rewrite decide_False; [done|].
      by intros [_ Hin]%list_elem_of_filter. }
    by case_bool_decide.
  - assert (EvictionDelay.m_mappings
              (foldl (λ ed c, EvictionDelay.Append c ed)
                 (m_pendingEvictions (evict_all_prepare r)) (referenced_tiles r))
            = alter (λ b, b ++ referenced_tiles r) 0
                (EvictionDelay.m_mappings (m_pendingEvictions r))) as H0.
    { by rewrite Append_fold. }
    by case_bool_decide.
  - by case_bool_decide.
  - assert (Forall (λ f, m_feedbackQueued f = false)
              (m_queuedFeedback (evict_all_prepare r))) as H0.
    { simpl. induction (m_queuedFeedback r); simpl; constructor; done. }
    by case_bool_decide.
  - case_bool_decide; simpl; [by rewrite orb_true_r|by rewrite orb_false_r].
  - destruct (zero_refcounts_resident (m_tileMappingState r) (referenced_tiles r)) as [H0 _].
    case_bool_decide; simpl; by rewrite H0.
  - destruct (zero_refcounts_resident (m_tileMappingState r) (referenced_tiles r)) as [_ H0].
    case_bool_decide; simpl; by rewrite H0.
  - intros fence' resolved'. rewrite <- Heq.
    by rewrite !ProcessFeedback_evict_all_eq.
  - rewrite (ProcessFeedback_evict_all_eq RESOLVE_TO_TEXTURE fence resolved
               three_tiles_evict_all) by reflexivity.
    split; [vm_compute; reflexivity|]. split; [|split; vm_compute; reflexivity].
    intros c (Hs & Hy & Hx)%elem_of_tracked_tiles.
    destruct c as [x y s]. cbn [X Y Subresource] in Hs, Hy, Hx |- *.
    vm_compute in Hs.
    do 4 (destruct s as [|s];
          [vm_compute in Hy, Hx;
           do 4 (destruct y as [|y];
                 [do 4 (destruct x as [|x]; [vm_compute; reflexivity || lia|]); lia|]);
           lia|]).
    lia.
Qed.

Lemma ProcessFeedback_evict_all_witness :
  let r' := ProcessFeedback false 5 nothing_feedback three_tiles_evict_all in
  m_setZeroRefCounts r' = false ∧ m_refCountsZero r' = true ∧ m_pendingTileLoads r' = [].
Proof.
  pose proof (ProcessFeedback_evict_all false 5 nothing_feedback three_tiles_evict_all) as H.
  destruct H as (H1 & H2 & _ & _ & _ & _ & H3 & _); [reflexivity|reflexivity|].
  exact (conj H1 (conj H2 H3)).
Defined.

(** The claim C8 as it is worded fails: in [three_tiles_released] the signal
    is raised, [m_refCountsZero] is not set and three tiles are resident,
    none of them referenced.  The pass appends nothing to bucket 0 (the three
    tiles stay where the earlier release put them) and does not mark the
    residency as changed. *)
Lemma ProcessFeedback_evict_all_unreferenced :
  let r := three_tiles_released in
  let r' := ProcessFeedback false 5 nothing_feedback r in
  m_setZeroRefCounts r = true
  ∧ m_refCountsZero r = false
  ∧ Forall (λ c, GetResidency (m_tileMappingState r) c = Resident)
      [Coord 0 0 1; Coord 0 0 2; Coord 0 0 3]
  ∧ EvictionDelay.m_mappings (m_pendingEvictions r') !! 0 = Some []
  ∧ m_tileResidencyChanged r' = false.
Proof.
  cbv zeta. split; [reflexivity|]. split; [reflexivity|].
  split; [repeat constructor|]. split; vm_compute; reflexivity.
Qed.

(** ** QueuePendingTileEvictions *)

Lemma drop_S_eq {A} (l l' : list A) (j : nat) :
  drop j l = drop j l' → drop (S j) l = drop (S j) l'.
Proof.
  intros H. rewrite <- (Nat.add_1_r j), <- !(drop_drop _ 1 j). by rewrite H.
Qed.

Lemma lookup_drop_eq {A} (l l' : list A) (j : nat) :
  drop j l = drop j l' → l !! j = l' !! j.
Proof.
  intros H. rewrite <- (Nat.add_0_r j), <- !lookup_drop. by rewrite H.
Qed.

Lemma GetHeapIndex_set_residency (res : Residency) (tms : TileMappingState) (x y s : nat)
    (c : D3D12_TILED_RESOURCE_COORDINATE) :
  GetHeapIndex (set_residency res tms x y s) c = GetHeapIndex tms c.
Proof. done. Qed.

(** The loop of [QueuePendingTileEvictions] after [j] iterations: the tile
    state, the heap and the UpdateList are those of [evict_step] folded over
    the first [j] tiles of the bucket, the kept tiles are compacted at the
    front of the vector and the tiles not yet visited are untouched. *)
Lemma QueuePendingTileEvictions_loop_spec (InvalidIndex : Z) (ev0 : MappingCoords)
    (tms : TileMappingState) (heap : HeapAllocator.t) (ul : UpdateList.t) (j : nat) :
  j ≤ length ev0 →
  ∃ ev kept tms' heap' ul',
    foldl (QueuePendingTileEvictions_body InvalidIndex) (ev0, 0, tms, heap, ul) (seq 0 j)
    = (ev, length kept, tms', heap', ul')
    ∧ foldl (evict_step InvalidIndex) (tms, heap, ul, []) (take j ev0)
      = (tms', heap', ul', kept)
    ∧ take (length kept) ev = kept
    ∧ drop j ev = drop j ev0
    ∧ length kept ≤ j
    ∧ length ev = length ev0.
Proof.
  induction j as [|j IH]; intros Hj.
  - exists ev0, [], tms, heap, ul. rewrite take_0. done.
  - destruct IH as (ev & kept & tms' & heap' & ul' & Hloop & Hfold & Htake & Hdrop & Hk & Hlen);
      [lia|].
    destruct (lookup_lt_is_Some_2 ev0 j) as [coord Hcoord]; [lia|].
    assert (ev !! j = Some coord) as Hcoord'.
    { by rewrite (lookup_drop_eq _ _ _ Hdrop). }
    rewrite seq_S, foldl_snoc, Hloop. simpl.
    rewrite (take_S_r _ _ _ Hcoord), foldl_snoc, Hfold.
    rewrite Hcoord'. unfold evict_step.
    destruct (GetResidency tms' coord) eqn:Hres.
    + exists ev, kept, tms', heap', ul'. repeat split; try done; try lia.
      by apply drop_S_eq.
    + eexists ev, kept, _, _, _. repeat split; try done; try lia.
      by apply drop_S_eq.
    + exists ev, kept, tms', heap', ul'. repeat split; try done; try lia.
      by apply drop_S_eq.
    + exists (<[length kept := coord]> ev), (kept ++ [coord]), tms', heap', ul'.
      rewrite length_app. simpl. rewrite Nat.add_1_r.
      repeat split; try done; try lia.
      * rewrite (take_S_r _ _ coord).
        -- rewrite take_insert_ge by lia. by rewrite Htake.
        -- apply list_lookup_insert_eq. lia.
      * rewrite drop_insert_lt by lia.
        by apply drop_S_eq.
      * by rewrite length_insert.
Qed.

Lemma layer_get_in_range {A} (d : A) (l : TileLayer A) (x y s : nat) :
  layer_get d l x y s ≠ d → layer_in_range l x y s.
Proof.
  unfold layer_get, layer_in_range. destruct (layer_lookup l x y s); [eauto|done].
Qed.

Lemma GetResidency_set_residency (res : Residency) (tms : TileMappingState)
    (c c' : D3D12_TILED_RESOURCE_COORDINATE) :
  GetResidency (set_residency res tms (X c) (Y c) (Subresource c)) c'
  = if decide (c = c' ∧ layer_in_range (m_resident tms) (X c) (Y c) (Subresource c))
    then res else GetResidency tms c'.
Proof.
  unfold GetResidency, set_residency. simpl. rewrite layer_get_set.
  destruct c, c'. simpl. repeat case_decide; naive_solver.
Qed.

Lemma GetHeapIndex_SetHeapIndex (tms : TileMappingState)
    (c c' : D3D12_TILED_RESOURCE_COORDINATE) (v : Z) :
  GetHeapIndex (SetHeapIndex tms c v) c'
  = if decide (c = c' ∧ layer_in_range (m_heapIndices tms) (X c) (Y c) (Subresource c))
    then v else GetHeapIndex tms c'.
Proof.
  unfold GetHeapIndex, SetHeapIndex. simpl. rewrite layer_get_set.
  destruct c, c'. simpl. repeat case_decide; naive_solver.
Qed.

(** C4.  [QueuePendingTileEvictions] visits the tiles of the ready bucket in
    order and treats each one by the cases of [evict_step] on its residency
    at the time of the visit; the bucket is left with the kept tiles.
    For a tile that is [Resident] the step sets it to [Evicting], returns its
    heap index to the allocator, sets the heap index to [InvalidIndex],
    appends the tile to the evict-coords of the UpdateList and drops it from
    the bucket, leaving the reference counts and the other tiles alone.  A
    tile that is [Loading] is kept in the bucket and nothing else changes.  A
    tile that is [NotResident] or [Evicting] is dropped from the bucket and
    nothing else changes.  The reference count of the tile plays no part. *)
Theorem QueuePendingTileEvictions_cases (InvalidIndex : Z) (r : StreamingResourceBase)
    (heap : HeapAllocator.t) (ul : UpdateList.t) :
  (let ready := EvictionDelay.GetReadyToEvict (m_pendingEvictions r) in
   let st := foldl (evict_step InvalidIndex) (m_tileMappingState r, heap, ul, []) ready in
   QueuePendingTileEvictions InvalidIndex (r, heap, ul)
   = (set_pendingEvictions
        (EvictionDelay.SetReadyToEvict (snd st) (m_pendingEvictions r))
        (set_tileMappingState (fst (fst (fst st))) r),
      snd (fst (fst st)), snd (fst st)))
  ∧ (∀ tms heap ul kept coord,
       let st' := evict_step InvalidIndex (tms, heap, ul, kept) coord in
       let tms' := fst (fst (fst st')) in
       (GetResidency tms coord = Resident →
        GetResidency tms' coord = Evicting
        ∧ (layer_in_range (m_heapIndices tms) (X coord) (Y coord) (Subresource coord) →
           GetHeapIndex tms' coord = InvalidIndex)
        ∧ HeapAllocator.m_free (snd (fst (fst st')))
          = GetHeapIndex tms coord :: HeapAllocator.m_free heap
        ∧ UpdateList.m_evictCoords (snd (fst st')) = UpdateList.m_evictCoords ul ++ [coord]
        ∧ UpdateList.m_coords (snd (fst st')) = UpdateList.m_coords ul
        ∧ snd st' = kept
        ∧ m_refcounts tms' = m_refcounts tms
        ∧ (∀ c', c' ≠ coord →
             GetResidency tms' c' = GetResidency tms c'
             ∧ GetHeapIndex tms' c' = GetHeapIndex tms c'))
       ∧ (GetResidency tms coord = Loading → st' = (tms, heap, ul, kept ++ [coord]))
       ∧ (GetResidency tms coord = NotResident ∨ GetResidency tms coord = Evicting →
          st' = (tms, heap, ul, kept))).
Proof.
  split.
  - cbv zeta. unfold QueuePendingTileEvictions.
    destruct (QueuePendingTileEvictions_loop_spec InvalidIndex
                (EvictionDelay.GetReadyToEvict (m_pendingEvictions r))
                (m_tileMappingState r) heap ul
                (length (EvictionDelay.GetReadyToEvict (m_pendingEvictions r))))
      as (ev & kept & tms' & heap' & ul' & Hloop & Hfold & Htake & _); [done|].
    rewrite Hloop. rewrite firstn_all in Hfold. rewrite Hfold. simpl.
    by rewrite Htake.
  - intros tms heap0 ul0 kept coord. cbv zeta. unfold evict_step.
    split; [|split].
    + intros Hres. rewrite Hres. simpl.
      assert (layer_in_range (m_resident tms) (X coord) (Y coord) (Subresource coord)) as Hin.
      { apply (layer_get_in_range NotResident). unfold GetResidency in Hres. by rewrite Hres. }
      split; [|split; [|split; [|split; [|split; [|split; [|split]]]]]]; try done.
      * change (GetResidency (SetEvicting tms (X coord) (Y coord) (Subresource coord)) coord
                = Evicting).
        unfold SetEvicting. rewrite GetResidency_set_residency. by rewrite decide_True.
      * intros Hinh. rewrite GetHeapIndex_SetHeapIndex. by rewrite decide_True.
      * intros c' Hne. split.
        -- change (GetResidency (SetEvicting tms (X coord) (Y coord) (Subresource coord)) c'
                   = GetResidency tms c').
           unfold SetEvicting. rewrite GetResidency_set_residency.
           rewrite decide_False; [done|]. naive_solver.
        -- rewrite GetHeapIndex_SetHeapIndex. rewrite decide_False; [done|]. naive_solver.
    + by intros ->.
    + by intros [-> | ->].
Qed.

Lemma QueuePendingTileEvictions_cases_witness :
  let tms := m_tileMappingState three_tiles_resident in
  let st' := evict_step 4294967295 (tms, HeapAllocator.Build [], UpdateList.empty, [])
               (Coord 0 0 1) in
  GetResidency (fst (fst (fst st'))) (Coord 0 0 1) = Evicting
  ∧ GetHeapIndex (fst (fst (fst st'))) (Coord 0 0 1) = 4294967295%Z.
Proof.
  pose proof (QueuePendingTileEvictions_cases 4294967295 three_tiles_resident
                (HeapAllocator.Build []) UpdateList.empty) as [_ H].
  specialize (H (m_tileMappingState three_tiles_resident) (HeapAllocator.Build [])
                UpdateList.empty [] (Coord 0 0 1)).
  destruct H as [H _]. destruct H as (H1 & H2 & _); [vm_compute; reflexivity|].
  split; [exact H1|]. apply H2. vm_compute. eauto.
Defined.

(** ** QueuePendingTileLoads *)

(** The loop of [QueuePendingTileLoads] from position [j] on is the visit
    [load_walk] of the tiles from position [j] on: the kept tiles are
    compacted at the front of the vector and the tiles that are not visited
    stay behind position [numConsumed]. *)
Lemma QueuePendingTileLoads_loop_spec (InvalidIndex : Z)
    (coords : list D3D12_TILED_RESOURCE_COORDINATE) :
  ∀ (j : nat) (loads kept : list D3D12_TILED_RESOURCE_COORDINATE) (budget : Z)
    (tms : TileMappingState) (heap : HeapAllocator.t) (ul : UpdateList.t),
    drop j loads = coords →
    take (length kept) loads = kept →
    length kept ≤ j →
    ∃ loads' numConsumed budget',
      QueuePendingTileLoads_loop InvalidIndex (length coords) j
        (loads, length kept, j, budget, tms, heap, ul)
      = (loads', length (snd (fst (load_walk InvalidIndex budget (tms, heap, ul, kept) coords))),
         numConsumed, budget',
         fst (fst (fst (fst (load_walk InvalidIndex budget (tms, heap, ul, kept) coords)))),
         snd (fst (fst (fst (load_walk InvalidIndex budget (tms, heap, ul, kept) coords)))),
         snd (fst (fst (load_walk InvalidIndex budget (tms, heap, ul, kept) coords))))
      ∧ take (length (snd (fst (load_walk InvalidIndex budget (tms, heap, ul, kept) coords))))
          loads'
        = snd (fst (load_walk InvalidIndex budget (tms, heap, ul, kept) coords))
      ∧ drop numConsumed loads'
        = snd (load_walk InvalidIndex budget (tms, heap, ul, kept) coords).
Proof.
  induction coords as [|coord coords IH]; intros j loads kept budget tms heap ul Hdrop Htake Hk.
  - exists loads, j, budget. simpl. done.
  - assert (loads !! j = Some coord) as Hj.
    { rewrite <- (Nat.add_0_r j), <- lookup_drop, Hdrop. done. }
    assert (drop (S j) loads = coords) as Hdrop'.
    { rewrite <- (Nat.add_1_r j), <- (drop_drop _ 1 j), Hdrop. done. }
    cbn [length QueuePendingTileLoads_loop load_walk]. rewrite Hj.
    unfold load_step. cbn [fst snd].
    destruct (GetResidency tms coord) eqn:Hres.
    + (* NotResident *)
      rewrite decide_True by done.
      destruct (HeapAllocator.Allocate InvalidIndex heap) as [heapIndex heap1] eqn:Halloc.
      cbn [fst snd].
      case_bool_decide as Hb.
      * rewrite decide_True by done. cbn [fst snd].
        eexists loads, (S j), _. done.
      * rewrite decide_False by done.
        apply IH; done || lia.
    + (* Resident *)
      rewrite decide_False by done. apply IH; done || lia.
    + (* Evicting *)
      rewrite decide_False by done.
      specialize (IH (S j) (<[length kept := coord]> loads) (kept ++ [coord]) budget tms heap ul).
      rewrite length_app in IH. simpl in IH. rewrite Nat.add_1_r in IH.
      apply IH.
      * by rewrite drop_insert_lt by lia.
      * rewrite (take_S_r _ _ coord).
        -- rewrite take_insert_ge by lia. by rewrite Htake.
        -- apply list_lookup_insert_eq. apply lookup_lt_Some in Hj. lia.
      * lia.
    + (* Loading *)
      rewrite decide_False by done. apply IH; done || lia.
Qed.

Lemma u32_pred_le (b : Z) : (1 ≤ b → 0 ≤ u32 (b - 1) ≤ b - 1)%Z.
Proof.
  intros Hb. unfold u32. split.
  - apply Z.mod_pos_bound. lia.
  - apply Z.mod_le; lia.
Qed.

(** With a budget between 1 and the number of free pages, the visit queues
    at most [budget] loads and every load receives a page of the pool. *)
Lemma load_walk_budget (InvalidIndex : Z) (coords : list D3D12_TILED_RESOURCE_COORDINATE) :
  ∀ (budget : Z) (tms : TileMappingState) (heap : HeapAllocator.t) (ul : UpdateList.t)
    (kept : list D3D12_TILED_RESOURCE_COORDINATE),
    (1 ≤ budget ≤ Z.of_nat (HeapAllocator.GetNumFree heap))%Z →
    let walk := load_walk InvalidIndex budget (tms, heap, ul, kept) coords in
    ∃ loaded,
      UpdateList.m_coords (snd (fst (fst walk))) = UpdateList.m_coords ul ++ loaded
      ∧ (Z.of_nat (length loaded) ≤ budget)%Z
      ∧ UpdateList.m_heapIndices (snd (fst (fst walk)))
        = UpdateList.m_heapIndices ul ++ take (length loaded) (HeapAllocator.m_free heap)
      ∧ HeapAllocator.m_free (snd (fst (fst (fst walk))))
        = drop (length loaded) (HeapAllocator.m_free heap)
      ∧ UpdateList.m_evictCoords (snd (fst (fst walk))) = UpdateList.m_evictCoords ul.
Proof.
  induction coords as [|coord coords IH]; intros budget tms heap ul kept Hb; cbv zeta.
  - exists []. simpl. rewrite !app_nil_r, drop_0. repeat split; try done. lia.
  - cbn [load_walk]. unfold load_step. cbn [fst snd].
    destruct (GetResidency tms coord) eqn:Hres.
    + rewrite decide_True by done.
      unfold HeapAllocator.GetNumFree in Hb.
      destruct heap as [[|i free]]; cbn [HeapAllocator.m_free length] in Hb; [lia|].
      cbn [HeapAllocator.Allocate HeapAllocator.m_free fst snd].
      pose proof (u32_pred_le budget) as Hu.
      case_decide as Hzero.
      * exists [coord]. cbn [fst snd]. simpl. repeat split; try done. lia.
      * destruct (IH (u32 (budget - 1))
                    (SetHeapIndex (SetLoading tms (X coord) (Y coord) (Subresource coord))
                       coord i)
                    (HeapAllocator.Build free) (UpdateList.AddUpdate coord i ul) kept)
          as (loaded & Hc & Hlen & Hh & Hf & He).
        { unfold HeapAllocator.GetNumFree. simpl. lia. }
        exists (coord :: loaded). rewrite Hc, Hh, Hf, He. simpl.
        rewrite <- !(assoc_L (++)). simpl. repeat split; try done. lia.
    + rewrite decide_False by done. by apply IH.
    + rewrite decide_False by done. by apply IH.
    + rewrite decide_False by done. by apply IH.
Qed.

(** The tiles that are not visited are a suffix of the pending tiles. *)
Lemma load_walk_suffix (InvalidIndex : Z) (coords : list D3D12_TILED_RESOURCE_COORDINATE) :
  ∀ budget st, ∃ visited, coords = visited ++ snd (load_walk InvalidIndex budget st coords).
Proof.
  induction coords as [|coord coords IH]; intros budget st.
  - by exists [].
  - cbn [load_walk]. case_decide.
    + case_decide.
      * by exists [coord].
      * destruct (IH (u32 (budget - 1)) (load_step InvalidIndex st coord)) as [v Hv].
        exists (coord :: v). simpl. by f_equal.
    + destruct (IH budget (load_step InvalidIndex st coord)) as [v Hv].
      exists (coord :: v). simpl. by f_equal.
Qed.



(** ** AbandonPending *)

(** The loop on a window of the vector: the tiles of the window that are
    referenced end up, in some order, at the front of the window. *)
Lemma AbandonPending_loop_spec (tms : TileMappingState) (n : nat) :
  ∀ (window pre post : list D3D12_TILED_RESOURCE_COORDINATE),
    length window = n →
    ∃ kept junk,
      AbandonPending_loop tms n (length pre) (pre ++ window ++ post)
      = (pre ++ kept ++ junk ++ post, length pre + length kept)
      ∧ kept ≡ₚ filter (referenced tms) window
      ∧ length kept + length junk = n.
Proof.
  induction n as [|n IH]; intros window pre post Hlen.
  - destruct window; [|done]. exists [], []. simpl. rewrite Nat.add_0_r. done.
  - destruct window as [|c w]; [done|]. simpl in Hlen.
    cbn [AbandonPending_loop].
    rewrite lookup_app_r by lia. rewrite Nat.sub_diag. cbn [app lookup list_lookup].
    destruct (decide (referenced tms c)) as [Hc|Hc].
    + rewrite bool_decide_eq_true_2 by exact Hc.
      destruct (IH w (pre ++ [c]) post) as (kept & junk & Heq & Hperm & Hl); [lia|].
      rewrite length_app in Heq. simpl in Heq. rewrite Nat.add_1_r in Heq.
      rewrite <- (assoc_L (++)) in Heq. simpl in Heq.
      exists (c :: kept), junk. rewrite Heq. split; [|split].
      * rewrite <- (assoc_L (++)). simpl. f_equal. lia.
      * rewrite filter_cons_True by done. by rewrite Hperm.
      * simpl. lia.
    + rewrite bool_decide_eq_false_2 by exact Hc.
      destruct w as [|x w _] using rev_ind.
      * simpl in Hlen. assert (n = 0) as -> by lia.
        rewrite Nat.add_0_r. rewrite lookup_app_r by lia. rewrite Nat.sub_diag. simpl.
        exists [], [c]. rewrite filter_cons_False by done. rewrite filter_nil.
        rewrite Nat.add_0_r. repeat split; try done.
        f_equal. rewrite insert_app_r_alt by lia. by rewrite Nat.sub_diag.
      * rewrite length_app in Hlen. simpl in Hlen.
        assert ((pre ++ c :: (w ++ [x]) ++ post) !! (length pre + n) = Some x) as Hx.
        { rewrite lookup_app_r by lia.
          replace (length pre + n - length pre) with (S (length w)) by lia.
          simpl. rewrite <- (assoc_L (++)). rewrite lookup_app_r by lia.
          by rewrite Nat.sub_diag. }
        rewrite Hx. simpl.
        assert (<[length pre := x]> (pre ++ c :: (w ++ [x]) ++ post)
                = pre ++ (x :: w) ++ ([x] ++ post)) as ->.
        { rewrite insert_app_r_alt by lia. rewrite Nat.sub_diag. simpl.
          by rewrite <- (assoc_L (++)). }
        destruct (IH (x :: w) pre ([x] ++ post)) as (kept & junk & Heq & Hperm & Hl);
          [simpl; lia|].
        exists kept, (junk ++ [x]). rewrite Heq. split; [|split].
        -- by rewrite <- !(assoc_L (++)).
        -- rewrite Hperm. rewrite (filter_cons_False _ c) by done.
           apply filter_Permutation. apply Permutation_cons_append.
        -- rewrite length_app. simpl. lia.
Qed.

Lemma AbandonPending_spec (r : StreamingResourceBase) :
  m_pendingTileLoads (AbandonPending r)
  ≡ₚ filter (referenced (m_tileMappingState r)) (m_pendingTileLoads r)
  ∧ m_tileMappingState (AbandonPending r) = m_tileMappingState r
  ∧ m_pendingEvictions (AbandonPending r) = m_pendingEvictions r.
Proof.
  unfold AbandonPending.
  destruct (AbandonPending_loop_spec (m_tileMappingState r) (length (m_pendingTileLoads r))
              (m_pendingTileLoads r) [] []) as (kept & junk & Heq & Hperm & Hl); [done|].
  simpl in Heq. rewrite app_nil_r in Heq. rewrite Heq. simpl.
  rewrite app_nil_r. rewrite take_app_length. done.
Qed.

(** ** EvictionDelay::Rescue *)

(** The inner loop of [Rescue] after [j] iterations: the vector holds
    [skippedIndex] stale entries, then the unreferenced tiles among the
    first [j] in some order, then the tiles not yet visited. *)
Lemma Rescue_loop_spec (tms : TileMappingState) (ev0 : MappingCoords) (j : nat) :
  j ≤ length ev0 →
  ∃ junk kept,
    foldl (EvictionDelay.Rescue_body tms) (ev0, 0) (seq 0 j)
    = (junk ++ kept ++ drop j ev0, length junk)
    ∧ kept ≡ₚ filter (λ c, ¬ referenced tms c) (take j ev0)
    ∧ length junk + length kept = j.
Proof.
  induction j as [|j IH]; intros Hj.
  - exists [], []. done.
  - destruct IH as (junk & kept & Heq & Hperm & Hl); [lia|].
    destruct (lookup_lt_is_Some_2 ev0 j) as [c0 Hc0]; [lia|].
    rewrite seq_S, foldl_snoc, Heq. simpl.
    rewrite (drop_S _ _ _ Hc0). rewrite (take_S_r _ _ _ Hc0), filter_app.
    unfold EvictionDelay.Rescue_body.
    assert ((junk ++ kept ++ c0 :: drop (S j) ev0) !! j = Some c0) as ->.
    { rewrite lookup_app_r by lia. rewrite lookup_app_r by lia.
      by replace (j - length junk - length kept) with 0 by lia. }
    destruct (decide (referenced tms c0)) as [Hc|Hc].
    + rewrite bool_decide_eq_true_2 by exact Hc.
      rewrite filter_cons_False by naive_solver. rewrite filter_nil, app_nil_r.
      destruct kept as [|k0 kept].
      * simpl in *. exists (junk ++ [c0]), [].
        assert (length junk = j) as Hjl by lia.
        rewrite lookup_app_r by lia. rewrite Hjl, Nat.sub_diag. simpl.
        rewrite insert_app_r_alt by lia. rewrite Hjl, Nat.sub_diag. simpl.
        rewrite length_app. simpl. rewrite <- (assoc_L (++)). simpl.
        split; [f_equal; lia|]. split; [exact Hperm|lia].
      * exists (junk ++ [k0]), (kept ++ [k0]).
        rewrite lookup_app_r by lia. rewrite Nat.sub_diag. simpl.
        rewrite insert_app_r_alt by (simpl in Hl; lia).
        replace (j - length junk) with (S (length kept)) by (simpl in Hl; lia).
        simpl. rewrite insert_app_r_alt by lia. rewrite Nat.sub_diag. simpl.
        rewrite !length_app. simpl. rewrite <- !(assoc_L (++)). simpl.
        split; [f_equal; lia|]. split; [|simpl in Hl; lia].
        rewrite <- Hperm. symmetry. apply Permutation_cons_append.
    + rewrite bool_decide_eq_false_2 by exact Hc.
      rewrite filter_cons_True by exact Hc. rewrite filter_nil.
      exists junk, (kept ++ [c0]). rewrite <- !(assoc_L (++)). simpl.
      split; [done|]. split; [by rewrite Hperm|].
      rewrite length_app. simpl. lia.
Qed.

Lemma Rescue_bucket_spec (tms : TileMappingState) (ev0 : MappingCoords) :
  EvictionDelay.Rescue_bucket tms ev0 ≡ₚ filter (λ c, ¬ referenced tms c) ev0.
Proof.
  unfold EvictionDelay.Rescue_bucket.
  destruct (Rescue_loop_spec tms ev0 (length ev0)) as (junk & kept & Heq & Hperm & Hl);
    [done|].
  rewrite Heq. rewrite drop_all, app_nil_r, drop_app_length.
  by rewrite firstn_all in Hperm.
Qed.

Lemma Rescue_spec (tms : TileMappingState) (ed : EvictionDelay.t) :
  Forall2 (λ b' b, b' ≡ₚ filter (λ c, ¬ referenced tms c) b)
    (EvictionDelay.m_mappings (EvictionDelay.Rescue tms ed)) (EvictionDelay.m_mappings ed).
Proof.
  simpl. induction (EvictionDelay.m_mappings ed) as [|b m IH]; simpl; constructor.
  - apply Rescue_bucket_spec.
  - done.
Qed.

(** ** ProcessFeedback: the end of a pass that consumes feedback *)

Lemma ProcessFeedback_consume_eq (RESOLVE_TO_TEXTURE : bool) (fence : Z)
    (resolved : nat → list nat) (r : StreamingResourceBase) :
  m_setZeroRefCounts r = false →
  ProcessFeedback_selected fence r ≠ 0 →
  ∃ r_mid changed,
    ProcessFeedback RESOLVE_TO_TEXTURE fence resolved r
    = let r2 := AbandonPending r_mid in
      let r3 := set_pendingEvictions
                  (EvictionDelay.Rescue (m_tileMappingState r2) (m_pendingEvictions r2)) r2 in
      if (changed : bool) then SetResidencyChanged r3 else r3.
Proof.
  intros Hzero Hsel. unfold ProcessFeedback, ProcessFeedback_selected in *.
  rewrite Hzero.
  destruct (foldl (ProcessFeedback_select_body fence) _ _) as [[q feedbackIndex] latest].
  simpl in Hsel. rewrite bool_decide_eq_false_2 by exact Hsel.
  destruct (ProcessFeedback_update_loops RESOLVE_TO_TEXTURE _ _ _ _) as [r1 changed].
  exists (if changed then set_refCountsZero false r1 else r1), changed. done.
Qed.

(** C7.  After a pass of [ProcessFeedback] that consumes a feedback buffer,
    every pending load is referenced (its reference count is not 0), every
    tile in every bucket of the eviction delay is unreferenced, and so no
    tile is both a pending load and in a bucket.  [AbandonPending] leaves
    exactly the referenced pending loads, as a multiset, and [Rescue] leaves
    in every bucket exactly its unreferenced tiles, as a multiset. *)
Theorem ProcessFeedback_pending_disjoint (RESOLVE_TO_TEXTURE : bool) (fence : Z)
    (resolved : nat → list nat) (r : StreamingResourceBase) :
  m_setZeroRefCounts r = false →
  ProcessFeedback_selected fence r ≠ 0 →
  let r' := ProcessFeedback RESOLVE_TO_TEXTURE fence resolved r in
  Forall (referenced (m_tileMappingState r')) (m_pendingTileLoads r')
  ∧ Forall (Forall (λ c, ¬ referenced (m_tileMappingState r') c))
      (EvictionDelay.m_mappings (m_pendingEvictions r'))
  ∧ (∀ c b, c ∈ m_pendingTileLoads r' →
            b ∈ EvictionDelay.m_mappings (m_pendingEvictions r') → c ∉ b)
  ∧ (∀ r0, m_pendingTileLoads (AbandonPending r0)
           ≡ₚ filter (referenced (m_tileMappingState r0)) (m_pendingTileLoads r0))
  ∧ (∀ tms ed,
       Forall2 (λ b' b, b' ≡ₚ filter (λ c, ¬ referenced tms c) b)
         (EvictionDelay.m_mappings (EvictionDelay.Rescue tms ed))
         (EvictionDelay.m_mappings ed)).
Proof.
  intros Hzero Hsel r'.
  destruct (ProcessFeedback_consume_eq RESOLVE_TO_TEXTURE fence resolved r Hzero Hsel)
    as (r_mid & changed & Heq).
  destruct (AbandonPending_spec r_mid) as (Hloads & Htms & Hev).
  assert (m_tileMappingState r' = m_tileMappingState r_mid) as Htms'.
  { subst r'. rewrite Heq. by destruct changed. }
  assert (m_pendingTileLoads r' = m_pendingTileLoads (AbandonPending r_mid)) as Hloads'.
  { subst r'. rewrite Heq. by destruct changed. }
  assert (m_pendingEvictions r'
          = EvictionDelay.Rescue (m_tileMappingState r_mid) (m_pendingEvictions r_mid))
    as Hev'.
  { subst r'. rewrite Heq. destruct changed; simpl; by rewrite Htms, Hev. }
  assert (Forall (referenced (m_tileMappingState r')) (m_pendingTileLoads r')) as H1.
  { rewrite Htms', Hloads', Hloads. apply Forall_forall.
    by intros c [Hc _]%list_elem_of_filter. }
  assert (Forall (Forall (λ c, ¬ referenced (m_tileMappingState r') c))
            (EvictionDelay.m_mappings (m_pendingEvictions r'))) as H2.
  { rewrite Htms', Hev'.
    pose proof (Rescue_spec (m_tileMappingState r_mid) (m_pendingEvictions r_mid)) as HR.
    eapply Forall2_Forall_l; [exact HR|].
    apply Forall_forall. intros b _ b' Hb'. rewrite Hb'. apply Forall_forall.
    by intros c [Hc _]%list_elem_of_filter. }
  split; [exact H1|]. split; [exact H2|]. split; [|split].
  - intros c b Hc Hb Hcb.
    rewrite Forall_forall in H1. rewrite Forall_forall in H2.
    specialize (H2 b Hb). rewrite Forall_forall in H2.
    by apply (H2 c Hcb), H1.
  - intros r0. apply AbandonPending_spec.
  - apply Rescue_spec.
Qed.

Lemma ProcessFeedback_pending_disjoint_witness :
  let r' := ProcessFeedback false 1 cold_feedback (ResolveFeedback 2 1 cold_resource) in
  Forall (referenced (m_tileMappingState r')) (m_pendingTileLoads r').
Proof.
  pose proof (ProcessFeedback_pending_disjoint false 1 cold_feedback
                (ResolveFeedback 2 1 cold_resource)) as H.
  destruct H as (H & _); [reflexivity|vm_compute; discriminate|].
  exact H.
Defined.

(** ** UpdateMinMipMap *)

Lemma lookup_grid_cells (width height x y : nat) :
  x < width → y < height →
  grid_cells width height !! (y * width + x) = Some (x, y).
Proof.
  intros Hx Hy. unfold grid_cells.
  assert (∀ n a, a ≤ y < a + n →
            flat_map (λ y, (λ x, (x, y)) <$> seq 0 width) (seq a n) !! ((y - a) * width + x)
            = Some (x, y)) as Hgen.
  { induction n as [|n IH]; intros a Ha; [lia|].
    simpl. destruct (decide (y = a)) as [->|Hne].
    - rewrite Nat.sub_diag. simpl. rewrite lookup_app_l by (rewrite length_fmap, length_seq; lia).
      rewrite list_lookup_fmap, lookup_seq_lt by lia. done.
    - rewrite lookup_app_r by (rewrite length_fmap, length_seq; nia).
      rewrite length_fmap, length_seq.
      replace ((y - a) * width + x - width) with ((y - S a) * width + x) by nia.
      apply IH. lia. }
  specialize (Hgen height 0). rewrite Nat.sub_0_r in Hgen. apply Hgen. lia.
Qed.

Lemma length_grid_cells (width height : nat) :
  length (grid_cells width height) = height * width.
Proof.
  unfold grid_cells. generalize 0 at 2. induction height as [|h IH]; intros a; simpl; [done|].
  rewrite length_app, length_fmap, length_seq, IH. lia.
Qed.

(** A loop that rewrites the entries [k0, k0 + 1, ...] of a vector, one per
    cell, each from its own former value. *)
Lemma indexed_update_loop {C} (f : C → nat → nat) (cells : list C) :
  ∀ (m0 : list nat) (k0 : nat),
    let res := foldl (λ (st : list nat * nat) c,
                        (<[snd st := f c (default 0 (fst st !! snd st))]> (fst st),
                         S (snd st)))
                 (m0, k0) cells in
    snd res = k0 + length cells
    ∧ length (fst res) = length m0
    ∧ ∀ i, fst res !! i
           = match cells !! (i - k0) with
             | Some c =>
                 if decide (k0 ≤ i)
                 then (λ old, f c old) <$> m0 !! i
                 else m0 !! i
             | None => m0 !! i
             end.
Proof.
  induction cells as [|c cells IH]; intros m0 k0; cbv zeta.
  - simpl. split; [lia|]. split; [done|]. intros i. done.
  - cbn [foldl fst snd].
    destruct (IH (<[k0 := f c (default 0 (m0 !! k0))]> m0) (S k0)) as (Hk & Hlen & Hlook).
    split; [simpl; lia|]. split; [by rewrite Hlen, length_insert|].
    intros i. rewrite Hlook.
    destruct (decide (i < k0)) as [Hlt|Hge].
    + replace (i - S k0) with 0 by lia. replace (i - k0) with 0 by lia. simpl.
      destruct (cells !! 0); rewrite ?decide_False by lia;
        by rewrite list_lookup_insert_ne by lia.
    + destruct (decide (i = k0)) as [->|Hne].
      * rewrite Nat.sub_diag. replace (k0 - S k0) with 0 by lia. simpl.
        rewrite decide_True by lia.
        assert (<[k0:=f c (default 0 (m0 !! k0))]> m0 !! k0
                = (λ old, f c old) <$> m0 !! k0) as Hins.
        { destruct (m0 !! k0) eqn:Hm; simpl.
          - apply list_lookup_insert_eq. by eapply lookup_lt_Some.
          - rewrite list_insert_ge; [done|]. by apply lookup_ge_None. }
        destruct (cells !! 0); rewrite ?decide_False by lia; done.
      * replace (i - k0) with (S (i - S k0)) by lia. simpl.
        rewrite list_lookup_insert_ne by lia.
        destruct (cells !! (i - S k0)); rewrite ?decide_True by lia; done.
Qed.

Lemma UpdateMinMipMap_loops_flat (tms : TileMappingState) (minResidentMip width height : nat)
    (m0 : list nat) :
  foldl (λ st y, foldl (UpdateMinMipMap_body tms minResidentMip y) st (seq 0 width))
    (m0, 0) (seq 0 height)
  = foldl (λ (st : list nat * nat) c,
             (<[snd st := min_mip_of_region tms minResidentMip c
                            (default 0 (fst st !! snd st))]> (fst st),
              S (snd st)))
      (m0, 0) (grid_cells width height).
Proof.
  unfold grid_cells. rewrite foldl_flat_map.
  apply foldl_ext_in. intros st y _. rewrite foldl_fmap.
  apply foldl_ext_in. intros [m k] x _. done.
Qed.

(** The walk of [UpdateMinMipMap] from level [s] stops at a level [m <= s]
    such that the tiles of the chain at the levels [m .. s-1] are resident. *)
Lemma UpdateMinMipMap_walk_chain (tms : TileMappingState) (x y s : nat) :
  UpdateMinMipMap_walk tms x y s s ≤ s
  ∧ ∀ k, UpdateMinMipMap_walk tms x y s s ≤ k < s →
         GetResident tms (Nat.shiftr x k) (Nat.shiftr y k) k = true.
Proof.
  induction s as [|s [IHle IHchain]]; simpl.
  - split; [done|]. intros k Hk. lia.
  - destruct (GetResident tms (Nat.shiftr x s) (Nat.shiftr y s) s) eqn:Hres.
    + split; [lia|]. intros k Hk.
      destruct (decide (k = s)) as [->|Hne]; [done|]. apply IHchain. lia.
    + split; [done|]. intros k Hk. lia.
Qed.

Lemma mip_fully_resident_GetResident (tms : TileMappingState) (x y s : nat) :
  mip_fully_resident tms s →
  layer_in_range (m_resident tms) x y s →
  GetResident tms x y s = true.
Proof.
  intros (plane & Hp & Hall) [res Hres]. unfold GetResident, layer_get.
  rewrite Hres. simpl. apply bool_decide_eq_true.
  unfold layer_lookup in Hres. rewrite Hp in Hres.
  destruct (plane !! y) as [row|] eqn:Hrow; [|done].
  rewrite Forall_forall in Hall.
  specialize (Hall row (list_elem_of_lookup_2 _ _ _ Hrow)).
  rewrite Forall_forall in Hall.
  by apply Hall, (list_elem_of_lookup_2 _ x).
Qed.

(** What [UpdateMinMipMap] computes and publishes when the residency has
    changed. *)
Lemma UpdateMinMipMap_eq (residencyMap : list nat) (r : StreamingResourceBase) :
  m_tileResidencyChanged r = true →
  let tms := m_tileMappingState r in
  let minMipMap :=
    if GetAnyRefCount tms
    then fst (foldl (λ (st : list nat * nat) c,
                       (<[snd st := min_mip_of_region tms (GetMinResidentMip tms) c
                                      (default 0 (fst st !! snd st))]> (fst st),
                        S (snd st)))
                (m_minMipMap r, 0) (grid_cells (GetNumTilesWidth r) (GetNumTilesHeight r)))
    else (λ _, m_maxMip r) <$> m_minMipMap r in
  UpdateMinMipMap residencyMap r
  = (set_minMipMap minMipMap (set_tileResidencyChanged false r),
     list_inserts (m_residencyMapOffsetBase r) minMipMap residencyMap).
Proof.
  intros Hch. cbv zeta. unfold UpdateMinMipMap. rewrite Hch. simpl.
  by rewrite UpdateMinMipMap_loops_flat.
Qed.

(** C1.  Let the resource track [M] mips (between 1 and 255), and let
    [(x, y)] be a region of its grid whose covering tile at the coarsest
    tracked mip lies inside the grid of that mip.  When [UpdateMinMipMap]
    runs with the residency marked as changed, it copies its min-mip map
    into the residency buffer, and if the value [m] published for the region
    is below [M], every tile [(x >> k, y >> k, k)] with [m <= k < M] is
    [Resident] in the tile state at that time, which the call does not
    modify. *)
Theorem UpdateMinMipMap_no_holes (residencyMap : list nat) (r : StreamingResourceBase)
    (x y m : nat) :
  let tms := m_tileMappingState r in
  let M := length (m_resident tms) in
  let width := GetNumTilesWidth r in
  let index := y * width + x in
  m_tileResidencyChanged r = true →
  0 < M < 256 →
  m_maxMip r = M →
  x < width →
  y < GetNumTilesHeight r →
  layer_in_range (m_resident tms) (Nat.shiftr x (M - 1)) (Nat.shiftr y (M - 1)) (M - 1) →
  index < length (m_minMipMap r) →
  m_residencyMapOffsetBase r + length (m_minMipMap r) ≤ length residencyMap →
  let r' := fst (UpdateMinMipMap residencyMap r) in
  let published := snd (UpdateMinMipMap residencyMap r) in
  m_tileMappingState r' = tms
  ∧ published !! (m_residencyMapOffsetBase r + index) = m_minMipMap r' !! index
  ∧ is_Some (published !! (m_residencyMapOffsetBase r + index))
  ∧ (published !! (m_residencyMapOffsetBase r + index) = Some m →
     m < M →
     ∀ k, m ≤ k < M →
          GetResident (m_tileMappingState r') (Nat.shiftr x k) (Nat.shiftr y k) k = true).
Proof.
  intros tms M width index Hch HM Hmax Hx Hy Hin Hidx Hbuf r' published.
  subst r' published. rewrite (UpdateMinMipMap_eq residencyMap r Hch). cbn [fst snd].
  fold tms. fold width.
  set (minMipMap := if GetAnyRefCount tms then _ else _).
  assert (length minMipMap = length (m_minMipMap r)) as Hlen.
  { subst minMipMap. destruct (GetAnyRefCount tms).
    - by destruct (indexed_update_loop
                     (min_mip_of_region tms (GetMinResidentMip tms))
                     (grid_cells width (GetNumTilesHeight r)) (m_minMipMap r) 0)
        as (_ & Hl & _).
    - by rewrite length_fmap. }
  assert (list_inserts (m_residencyMapOffsetBase r) minMipMap residencyMap
            !! (m_residencyMapOffsetBase r + index) = minMipMap !! index) as Hpub.
  { rewrite list_lookup_inserts by lia. f_equal. lia. }
  split; [done|]. split; [exact Hpub|]. split.
  { rewrite Hpub. apply lookup_lt_is_Some. lia. }
  rewrite Hpub. intros Hm HmM k Hk.
  change (m_tileMappingState (set_minMipMap minMipMap (set_tileResidencyChanged false r)))
    with tms.
  subst minMipMap. destruct (GetAnyRefCount tms).
  - destruct (indexed_update_loop
                (min_mip_of_region tms (GetMinResidentMip tms))
                (grid_cells width (GetNumTilesHeight r)) (m_minMipMap r) 0)
      as (_ & _ & Hlook).
    rewrite Hlook in Hm. rewrite Nat.sub_0_r in Hm.
    unfold index in Hm. rewrite lookup_grid_cells in Hm by done.
    rewrite decide_True in Hm by lia.
    destruct (m_minMipMap r !! (y * width + x)) as [previous|] eqn:Hprev; [|done].
    simpl in Hm. injection Hm as Hm. unfold min_mip_of_region in Hm. cbn [fst snd] in Hm.
    destruct (UpdateMinMipMap_walk_chain tms x y (GetMinResidentMip tms `max` previous))
      as [_ Hchain].
    rewrite Hm in Hchain.
    destruct (GetMinResidentMip_values tms HM) as [[Hval Hfull]|Hval]; fold M in Hval.
    + destruct (decide (k = M - 1)) as [->|Hne].
      * by apply mip_fully_resident_GetResident.
      * apply Hchain. rewrite Hval. lia.
    + apply Hchain. rewrite Hval. lia.
  - rewrite list_lookup_fmap in Hm.
    destruct (m_minMipMap r !! index); [|done]. simpl in Hm. injection Hm as Hm. lia.
Qed.

Lemma UpdateMinMipMap_no_holes_witness :
  let r := three_tiles_resident in
  let r' := fst (UpdateMinMipMap (replicate 16 4) r) in
  let published := snd (UpdateMinMipMap (replicate 16 4) r) in
  published !! (m_residencyMapOffsetBase r + (0 * GetNumTilesWidth r + 0)) = Some 1
  ∧ ∀ k, 1 ≤ k < length (m_resident (m_tileMappingState r)) →
         GetResident (m_tileMappingState r') (Nat.shiftr 0 k) (Nat.shiftr 0 k) k = true.
Proof.
  pose proof (UpdateMinMipMap_no_holes (replicate 16 4) three_tiles_resident 0 0 1) as H.
  cbv zeta in H.
  destruct H as (_ & _ & _ & H);
    [reflexivity|vm_compute; lia|reflexivity|vm_compute; lia|vm_compute; lia
    |vm_compute; eauto|vm_compute; lia|vm_compute; lia|].
  assert (snd (UpdateMinMipMap (replicate 16 4) three_tiles_resident)
            !! (m_residencyMapOffsetBase three_tiles_resident
                + (0 * GetNumTilesWidth three_tiles_resident + 0)) = Some 1) as Hp.
  { vm_compute. reflexivity. }
  split; [exact Hp|].
  assert (1 < length (m_resident (m_tileMappingState three_tiles_resident))) as Hm.
  { vm_compute. lia. }
  exact (H Hp Hm).
Defined.

(** ** The reference counts and the tile references *)

Lemma same_frame_refl (r : StreamingResourceBase) : same_frame r r.
Proof. by repeat split. Qed.

Lemma same_frame_trans (r1 r2 r3 : StreamingResourceBase) :
  same_frame r1 r2 → same_frame r2 r3 → same_frame r1 r3.
Proof.
  intros (H1 & H2 & H3 & H4 & H5) (K1 & K2 & K3 & K4 & K5).
  repeat split; try congruence.
  - intros Hin. by apply H5, K5.
  - intros Hin. by apply K5, H5.
Qed.

Lemma AddTileRef_refcount (x y s : nat) (r : StreamingResourceBase) (x' y' s' : nat) :
  GetRefCount (m_tileMappingState (AddTileRef x y s r)) x' y' s'
  = if decide ((x, y, s) = (x', y', s')
               ∧ layer_in_range (m_refcounts (m_tileMappingState r)) x y s)
    then u32 (GetRefCount (m_tileMappingState r) x y s + 1)
    else GetRefCount (m_tileMappingState r) x' y' s'.
Proof. unfold AddTileRef. case_bool_decide; simpl; apply GetRefCount_SetRefCount. Qed.

Lemma DecTileRef_refcount (x y s : nat) (r : StreamingResourceBase) (x' y' s' : nat) :
  GetRefCount (m_tileMappingState (DecTileRef x y s r)) x' y' s'
  = if decide ((x, y, s) = (x', y', s')
               ∧ layer_in_range (m_refcounts (m_tileMappingState r)) x y s)
    then u32 (GetRefCount (m_tileMappingState r) x y s - 1)
    else GetRefCount (m_tileMappingState r) x' y' s'.
Proof. unfold DecTileRef. case_bool_decide; simpl; apply GetRefCount_SetRefCount. Qed.

Lemma AddTileRef_frame (x y s : nat) (r : StreamingResourceBase) :
  same_frame r (AddTileRef x y s r)
  ∧ m_tileReferences (AddTileRef x y s r) = m_tileReferences r.
Proof.
  unfold AddTileRef, same_frame.
  case_bool_decide; simpl; repeat split; try done; by apply layer_in_range_set.
Qed.

Lemma DecTileRef_frame (x y s : nat) (r : StreamingResourceBase) :
  same_frame r (DecTileRef x y s r)
  ∧ m_tileReferences (DecTileRef x y s r) = m_tileReferences r.
Proof.
  unfold DecTileRef, same_frame.
  case_bool_decide; simpl; repeat split; try done; by apply layer_in_range_set.
Qed.

Lemma u32_small (z : Z) : (0 ≤ z < 4294967296)%Z → u32 z = z.
Proof. intros Hz. unfold u32. by apply Z.mod_small. Qed.

Lemma AddTileRef_checked_ok (x y s : nat) (r : StreamingResourceBase) :
  (0 ≤ GetRefCount (m_tileMappingState r) x y s < 4294967295)%Z →
  AddTileRef_checked x y s r = Some (AddTileRef x y s r).
Proof.
  intros Hrc. unfold AddTileRef_checked.
  rewrite bool_decide_eq_true_2; [done|].
  unfold u32, Z.lnot.
  replace (Z.pred (- GetRefCount (m_tileMappingState r) x y s))
    with ((4294967295 - GetRefCount (m_tileMappingState r) x y s) + (-1) * 4294967296)%Z
    by lia.
  rewrite Z.mod_add by lia. rewrite Z.mod_small by lia. lia.
Qed.

Lemma DecTileRef_checked_ok (x y s : nat) (r : StreamingResourceBase) :
  (1 ≤ GetRefCount (m_tileMappingState r) x y s)%Z →
  DecTileRef_checked x y s r = Some (DecTileRef x y s r).
Proof.
  intros Hrc. unfold DecTileRef_checked.
  rewrite bool_decide_eq_true_2; [done|]. lia.
Qed.

Ltac indicator_cases :=
  unfold indicator, covers in *; cbn [fst snd] in *;
  repeat case_decide; try lia; exfalso; naive_solver lia.

(** The first loop of [SetMinMip] from level [c] down to level [d]: no
    assertion fails and every tile under the region at the levels
    [d .. c-1] gains one reference. *)
Lemma SetMinMip_addrefs_refcounts (u v d : nat) :
  ∀ (c : nat) (r : StreamingResourceBase),
    d ≤ c →
    (∀ s, d ≤ s < c →
          layer_in_range (m_refcounts (m_tileMappingState r))
            (Nat.shiftr u s) (Nat.shiftr v s) s
          ∧ (0 ≤ GetRefCount (m_tileMappingState r) (Nat.shiftr u s) (Nat.shiftr v s) s
             < 4294967295)%Z) →
    SetMinMip_addrefs_checked c u v d r = Some (SetMinMip_addrefs c u v d r)
    ∧ fst (SetMinMip_addrefs c u v d r) = d
    ∧ same_frame r (snd (SetMinMip_addrefs c u v d r))
    ∧ m_tileReferences (snd (SetMinMip_addrefs c u v d r)) = m_tileReferences r
    ∧ ∀ x y s,
        GetRefCount (m_tileMappingState (snd (SetMinMip_addrefs c u v d r))) x y s
        = (GetRefCount (m_tileMappingState r) x y s
           + indicator (covers (u, v) x y s ∧ (d ≤ s < c)%nat))%Z.
Proof.
  induction c as [|c IH]; intros r Hdc Hpre.
  - assert (d = 0) as -> by lia. simpl. repeat split; try done.
    intros x y s. indicator_cases.
  - simpl. case_bool_decide as Hlt.
    + destruct (Hpre c) as [Hin Hrc]; [lia|].
      rewrite AddTileRef_checked_ok by done.
      set (r1 := AddTileRef (Nat.shiftr u c) (Nat.shiftr v c) c r).
      destruct (AddTileRef_frame (Nat.shiftr u c) (Nat.shiftr v c) c r) as [Hframe Hrefs].
      fold r1 in Hframe, Hrefs.
      assert (∀ x y s, GetRefCount (m_tileMappingState r1) x y s
                       = (GetRefCount (m_tileMappingState r) x y s
                          + indicator (covers (u, v) x y s ∧ (s = c)%nat))%Z) as Hrc1.
      { intros x y s. subst r1. rewrite AddTileRef_refcount.
        case_decide as Heq.
        - destruct Heq as [[= <- <- <-] _]. rewrite u32_small by lia. indicator_cases.
        - indicator_cases. }
      destruct (IH r1) as (Hchk & Hfst & Hfr & Hrf & Hcount); [lia| |].
      { intros s Hs. destruct (Hpre s) as [Hin' Hrc']; [lia|]. split.
        - destruct Hframe as (_ & _ & _ & _ & Hrange). by apply Hrange.
        - rewrite Hrc1. unfold indicator. rewrite decide_False by lia. lia. }
      split; [done|]. split; [done|]. split; [by eapply same_frame_trans|].
      split; [congruence|].
      intros x y s. rewrite Hcount, Hrc1. indicator_cases.
    + assert (d = S c) as -> by lia. simpl. repeat split; try done.
      intros x y s. indicator_cases.
Qed.

(** The second loop of [SetMinMip] from level [c] up to level [c + dist]:
    no assertion fails and every tile under the region at the levels
    [c .. c+dist-1] loses one reference. *)
Lemma SetMinMip_decrefs_refcounts (u v : nat) :
  ∀ (dist c : nat) (r : StreamingResourceBase),
    (∀ s, c ≤ s < c + dist →
          layer_in_range (m_refcounts (m_tileMappingState r))
            (Nat.shiftr u s) (Nat.shiftr v s) s
          ∧ (1 ≤ GetRefCount (m_tileMappingState r) (Nat.shiftr u s) (Nat.shiftr v s) s
             < 4294967296)%Z) →
    SetMinMip_decrefs_checked dist c u v r = Some (SetMinMip_decrefs dist c u v r)
    ∧ same_frame r (SetMinMip_decrefs dist c u v r)
    ∧ m_tileReferences (SetMinMip_decrefs dist c u v r) = m_tileReferences r
    ∧ ∀ x y s,
        GetRefCount (m_tileMappingState (SetMinMip_decrefs dist c u v r)) x y s
        = (GetRefCount (m_tileMappingState r) x y s
           - indicator (covers (u, v) x y s ∧ (c ≤ s < c + dist)%nat))%Z.
Proof.
  induction dist as [|dist IH]; intros c r Hpre.
  - simpl. repeat split; try done. intros x y s. indicator_cases.
  - simpl. destruct (Hpre c) as [Hin Hrc]; [lia|].
    rewrite DecTileRef_checked_ok by lia.
    set (r1 := DecTileRef (Nat.shiftr u c) (Nat.shiftr v c) c r).
    destruct (DecTileRef_frame (Nat.shiftr u c) (Nat.shiftr v c) c r) as [Hframe Hrefs].
    fold r1 in Hframe, Hrefs.
    assert (∀ x y s, GetRefCount (m_tileMappingState r1) x y s
                     = (GetRefCount (m_tileMappingState r) x y s
                        - indicator (covers (u, v) x y s ∧ (s = c)%nat))%Z) as Hrc1.
    { intros x y s. subst r1. rewrite DecTileRef_refcount.
      case_decide as Heq.
      - destruct Heq as [[= <- <- <-] _]. rewrite u32_small by lia. indicator_cases.
      - indicator_cases. }
    destruct (IH (S c) r1) as (Hchk & Hfr & Hrf & Hcount).
    { intros s Hs. destruct (Hpre s) as [Hin' Hrc']; [lia|]. split.
      - destruct Hframe as (_ & _ & _ & _ & Hrange). by apply Hrange.
      - rewrite Hrc1. unfold indicator. rewrite decide_False by lia. lia. }
    split; [done|]. split; [by eapply same_frame_trans|]. split; [congruence|].
    intros x y s. rewrite Hcount, Hrc1. indicator_cases.
Qed.

Lemma SetMinMip_addrefs_checked_skip (c u v d : nat) (r : StreamingResourceBase) :
  c ≤ d → SetMinMip_addrefs_checked c u v d r = Some (c, r).
Proof.
  intros Hle. destruct c as [|c]; [done|].
  simpl. by rewrite bool_decide_eq_false_2 by lia.
Qed.

(** [SetMinMip] from the current mip [c] to the desired mip [d]: no
    assertion fails, the tiles under the region gain one reference at the
    levels [d .. c-1] and lose one at the levels [c .. d-1]. *)
Lemma SetMinMip_refcounts (u v c d : nat) (r : StreamingResourceBase) :
  (∀ s, d ≤ s < c →
        layer_in_range (m_refcounts (m_tileMappingState r))
          (Nat.shiftr u s) (Nat.shiftr v s) s
        ∧ (0 ≤ GetRefCount (m_tileMappingState r) (Nat.shiftr u s) (Nat.shiftr v s) s
           < 4294967295)%Z) →
  (∀ s, c ≤ s < d →
        layer_in_range (m_refcounts (m_tileMappingState r))
          (Nat.shiftr u s) (Nat.shiftr v s) s
        ∧ (1 ≤ GetRefCount (m_tileMappingState r) (Nat.shiftr u s) (Nat.shiftr v s) s
           < 4294967296)%Z) →
  SetMinMip_checked c u v d r = Some (SetMinMip c u v d r)
  ∧ same_frame r (SetMinMip c u v d r)
  ∧ m_tileReferences (SetMinMip c u v d r) = m_tileReferences r
  ∧ ∀ x y s,
      GetRefCount (m_tileMappingState (SetMinMip c u v d r)) x y s
      = (GetRefCount (m_tileMappingState r) x y s
         + indicator (covers (u, v) x y s ∧ (d ≤ s < c)%nat)
         - indicator (covers (u, v) x y s ∧ (c ≤ s < d)%nat))%Z.
Proof.
  intros Hadd Hdec. unfold SetMinMip_checked, SetMinMip.
  destruct (decide (d ≤ c)) as [Hle|Hgt].
  - destruct (SetMinMip_addrefs_refcounts u v d c r Hle Hadd)
      as (Hchk & Hfst & Hfr & Hrf & Hcount).
    rewrite Hchk. destruct (SetMinMip_addrefs c u v d r) as [s1 r1]. simpl in *. subst s1.
    rewrite Nat.sub_diag. simpl. repeat split; try done; try apply Hfr.
    intros x y s. rewrite Hcount. indicator_cases.
  - rewrite SetMinMip_addrefs_checked_skip, SetMinMip_addrefs_skip by lia.
    destruct (SetMinMip_decrefs_refcounts u v (d - c) c r) as (Hchk & Hfr & Hrf & Hcount).
    { intros s Hs. apply Hdec. lia. }
    rewrite Hchk. split; [done|]. split; [done|]. split; [done|].
    intros x y s. rewrite Hcount. indicator_cases.
Qed.

(** ** Counting the regions *)

Lemma elem_of_grid_cells (width height : nat) (cell : nat * nat) :
  cell ∈ grid_cells width height ↔ fst cell < width ∧ snd cell < height.
Proof.
  unfold grid_cells. rewrite elem_of_flat_map. split.
  - intros (y & Hy & (x & -> & Hx)%list_elem_of_fmap).
    apply elem_of_seq in Hy, Hx. simpl. lia.
  - intros [Hx Hy]. exists (snd cell). split; [apply elem_of_seq; lia|].
    apply list_elem_of_fmap. exists (fst cell). split; [by destruct cell|].
    apply elem_of_seq. lia.
Qed.

Lemma NoDup_grid_cells (width height : nat) : NoDup (grid_cells width height).
Proof.
  unfold grid_cells. apply NoDup_flat_map.
  - apply NoDup_seq.
  - intros y _. apply NoDup_fmap_2; [|apply NoDup_seq]. by intros x x' [= ->].
  - intros y y' cell _ _ Hne (x & -> & _)%list_elem_of_fmap (x' & [= -> ->] & _)%list_elem_of_fmap.
    done.
Qed.

Lemma filter_length_ext {A} (P Q : A → Prop) `{∀ a, Decision (P a)} `{∀ a, Decision (Q a)}
    (l : list A) :
  (∀ a, a ∈ l → (P a ↔ Q a)) → length (filter P l) = length (filter Q l).
Proof.
  induction l as [|a l IH]; intros Hext; [done|].
  rewrite !filter_cons.
  assert (length (filter P l) = length (filter Q l)) as Hl.
  { apply IH. intros a' Ha'. apply Hext. by right. }
  destruct (Hext a) as [H1 H2]; [by left|].
  repeat case_decide; simpl; try lia; naive_solver.
Qed.

(** Changing the predicate at one element of a duplicate-free list changes
    the count by that element alone. *)
Lemma filter_length_update {A} (P Q : A → Prop)
    `{∀ a, Decision (P a)} `{∀ a, Decision (Q a)} (l : list A) (a0 : A) :
  NoDup l → a0 ∈ l →
  (∀ a, a ∈ l → a ≠ a0 → (P a ↔ Q a)) →
  (Z.of_nat (length (filter Q l)) + indicator (P a0)
   = Z.of_nat (length (filter P l)) + indicator (Q a0))%Z.
Proof.
  induction l as [|a l IH]; intros Hnd Hin Hext.
  - by apply elem_of_nil in Hin.
  - apply NoDup_cons in Hnd as [Ha Hnd]. rewrite !filter_cons.
    apply elem_of_cons in Hin as [<-|Hin].
    + assert (length (filter P l) = length (filter Q l)) as Hl.
      { apply filter_length_ext. intros a' Ha'. apply Hext; [by right|].
        intros ->. done. }
      unfold indicator. repeat case_decide; simpl; lia.
    + assert (a ≠ a0) as Hne by (intros ->; done).
      specialize (IH Hnd Hin). destruct (Hext a) as [H1 H2]; [by left|done|].
      assert (∀ a', a' ∈ l → a' ≠ a0 → P a' ↔ Q a') as Hext'.
      { intros a' Ha'. apply Hext. by right. }
      specialize (IH Hext').
      repeat case_decide; simpl length; try lia; naive_solver.
Qed.

Lemma region_index_inj (width : nat) (cell cell' : nat * nat) :
  fst cell < width → fst cell' < width →
  snd cell * width + fst cell = snd cell' * width + fst cell' →
  cell = cell'.
Proof.
  destruct cell as [u v], cell' as [u' v']. simpl. intros Hu Hu' Heq.
  assert (v = v') as -> by nia. f_equal. lia.
Qed.

(** Writing the tile reference [d] over the tile reference [c] of one region
    moves the count of a tile by that region alone. *)
Lemma region_count_update (refs : list nat) (width height u v c d x y s : nat) :
  u < width → v < height →
  refs !! (v * width + u) = Some c →
  (region_count (<[(v * width + u)%nat := d]> refs) width height x y s
   + indicator (covers (u, v) x y s ∧ (c ≤ s)%nat)
   = region_count refs width height x y s
     + indicator (covers (u, v) x y s ∧ (d ≤ s)%nat))%Z.
Proof.
  intros Hu Hv Hc. unfold region_count.
  pose proof (filter_length_update
    (λ cell : nat * nat,
       covers cell x y s ∧ default 0 (refs !! (snd cell * width + fst cell)) ≤ s)
    (λ cell : nat * nat,
       covers cell x y s
       ∧ default 0 (<[v * width + u := d]> refs !! (snd cell * width + fst cell)) ≤ s)
    (grid_cells width height) (u, v) (NoDup_grid_cells width height)) as Hupd.
  cbn [fst snd] in Hupd. rewrite Hc in Hupd.
  rewrite list_lookup_insert_eq in Hupd by by eapply lookup_lt_Some.
  simpl in Hupd. apply Hupd.
  - by apply elem_of_grid_cells.
  - intros cell [Hcu Hcv]%elem_of_grid_cells Hne.
    rewrite list_lookup_insert_ne; [done|].
    intros Heq. apply Hne. symmetry. by apply (region_index_inj width).
Qed.

Lemma region_count_bounds (refs : list nat) (width height x y s : nat) :
  (0 ≤ region_count refs width height x y s ≤ Z.of_nat (width * height))%Z.
Proof.
  unfold region_count. split; [lia|].
  apply inj_le. etrans; [apply length_filter|].
  rewrite length_grid_cells. lia.
Qed.

Lemma tracked_tiles_frame (r r' : StreamingResourceBase) :
  same_frame r r' → tracked_tiles r' = tracked_tiles r.
Proof.
  intros (_ & _ & HM & Hres & _). unfold tracked_tiles. rewrite HM.
  apply flat_map_ext. intros s. unfold tiles_of_mip.
  by rewrite (GetWidth_resident _ _ s Hres), (GetHeight_resident _ _ s Hres).
Qed.

(** One region of the update loops of [ProcessFeedback]: no assertion fails
    and the shape of the resource and the count of the references are
    kept. *)
Lemma ProcessFeedback_update_body_invariant (pResolvedData : list nat)
    (pResolvedRow y x : nat) (r : StreamingResourceBase) (changed : bool) :
  well_formed r → refcount_invariant r →
  x < GetNumTilesWidth r → y < GetNumTilesHeight r →
  ProcessFeedback_update_body_checked pResolvedData pResolvedRow
    (y * GetNumTilesWidth r) y (r, changed) x
  = Some (ProcessFeedback_update_body pResolvedData pResolvedRow
            (y * GetNumTilesWidth r) y (r, changed) x)
  ∧ well_formed (fst (ProcessFeedback_update_body pResolvedData pResolvedRow
                        (y * GetNumTilesWidth r) y (r, changed) x))
  ∧ refcount_invariant (fst (ProcessFeedback_update_body pResolvedData pResolvedRow
                               (y * GetNumTilesWidth r) y (r, changed) x))
  ∧ same_frame r (fst (ProcessFeedback_update_body pResolvedData pResolvedRow
                         (y * GetNumTilesWidth r) y (r, changed) x)).
Proof.
  intros Hwf Hinv Hx Hy.
  unfold ProcessFeedback_update_body_checked, ProcessFeedback_update_body.
  set (W := GetNumTilesWidth r) in *. set (H := GetNumTilesHeight r) in *.
  set (M := m_maxMip r).
  set (d := default 0 (pResolvedData !! (pResolvedRow + x)) `min` M).
  assert (d ≤ M) as Hd by (subst d; lia).
  assert (y * W + x < length (m_tileReferences r)) as Hidx.
  { rewrite (wf_references_length r Hwf). fold W H. nia. }
  destruct (lookup_lt_is_Some_2 _ _ Hidx) as [c Hc]. rewrite Hc. simpl default.
  assert (c ≤ M) as HcM.
  { pose proof (wf_references_bound r Hwf) as Hb. rewrite Forall_forall in Hb.
    apply Hb. by eapply list_elem_of_lookup_2. }
  pose proof (wf_regions r Hwf) as Hreg. fold W H in Hreg.
  assert (∀ s, s < M →
            layer_in_range (m_refcounts (m_tileMappingState r))
              (Nat.shiftr x s) (Nat.shiftr y s) s
            ∧ GetRefCount (m_tileMappingState r) (Nat.shiftr x s) (Nat.shiftr y s) s
              = region_count (m_tileReferences r) W H (Nat.shiftr x s) (Nat.shiftr y s) s)
    as Htile.
  { intros s Hs. split; [by apply (wf_covering r Hwf)|].
    apply Hinv; [done|]. by apply (wf_covering r Hwf). }
  destruct (SetMinMip_refcounts x y c d r) as (Hchk & Hfr & Hrefs & Hcount).
  { intros s Hs. destruct (Htile s) as [Hin Hrc]; [lia|]. split; [done|].
    rewrite Hrc.
    pose proof (region_count_update (m_tileReferences r) W H x y c s
                  (Nat.shiftr x s) (Nat.shiftr y s) s Hx Hy Hc) as Hupd.
    pose proof (region_count_bounds (m_tileReferences r) W H
                  (Nat.shiftr x s) (Nat.shiftr y s) s).
    pose proof (region_count_bounds (<[y * W + x := s]> (m_tileReferences r)) W H
                  (Nat.shiftr x s) (Nat.shiftr y s) s).
    revert Hupd. indicator_cases. }
  { intros s Hs. destruct (Htile s) as [Hin Hrc]; [lia|]. split; [done|].
    rewrite Hrc.
    pose proof (region_count_update (m_tileReferences r) W H x y c (S s)
                  (Nat.shiftr x s) (Nat.shiftr y s) s Hx Hy Hc) as Hupd.
    pose proof (region_count_bounds (m_tileReferences r) W H
                  (Nat.shiftr x s) (Nat.shiftr y s) s).
    pose proof (region_count_bounds (<[y * W + x := S s]> (m_tileReferences r)) W H
                  (Nat.shiftr x s) (Nat.shiftr y s) s).
    revert Hupd. indicator_cases. }
  rewrite Hchk. cbn [fst]. split; [done|].
  set (r1 := SetMinMip c x y d r) in *.
  destruct Hfr as (HW & HH & HM & Hres & Hrange).
  assert (same_frame r (set_tileReferences (<[y * W + x := d]> (m_tileReferences r1)) r1))
    as Hframe.
  { by repeat split; try apply Hrange. }
  split; [|split; [|exact Hframe]].
  - constructor.
    + simpl. rewrite length_insert, Hrefs.
      change (length (m_tileReferences r) = GetNumTilesWidth r1 * GetNumTilesHeight r1).
      rewrite HW, HH. apply (wf_references_length r Hwf).
    + simpl. rewrite Hrefs. apply Forall_insert; [|by rewrite HM].
      rewrite HM. apply (wf_references_bound r Hwf).
    + intros u v s Hu Hv Hs.
      change (u < GetNumTilesWidth r1) in Hu. change (v < GetNumTilesHeight r1) in Hv.
      change (s < m_maxMip r1) in Hs. rewrite HW in Hu. rewrite HH in Hv. rewrite HM in Hs.
      simpl. apply Hrange. by apply (wf_covering r Hwf).
    + intros x' y' s' Hs' Hin. rewrite (tracked_tiles_frame r _ Hframe).
      change (s' < m_maxMip r1) in Hs'. rewrite HM in Hs'.
      simpl in Hin. apply (wf_tracked r Hwf); [done|by apply Hrange].
    + change (Z.of_nat (GetNumTilesWidth r1 * GetNumTilesHeight r1) < 4294967296)%Z.
      by rewrite HW, HH.
  - intros x' y' s' Hs' Hin.
    change (s' < m_maxMip r1) in Hs'. rewrite HM in Hs'.
    change (layer_in_range (m_refcounts (m_tileMappingState r1)) x' y' s') in Hin.
    apply Hrange in Hin.
    change (GetRefCount (m_tileMappingState r1) x' y' s'
            = region_count (<[y * W + x := d]> (m_tileReferences r1))
                (GetNumTilesWidth r1) (GetNumTilesHeight r1) x' y' s').
    rewrite Hcount, Hrefs, HW, HH. fold W H.
    rewrite (Hinv x' y' s' Hs' Hin). fold W H.
    pose proof (region_count_update (m_tileReferences r) W H x y c d x' y' s' Hx Hy Hc)
      as Hupd.
    revert Hupd. indicator_cases.
Qed.

(** ** The update loops of ProcessFeedback *)

(** A loop over [0 .. n-1] whose body keeps an invariant indexed by the
    number of iterations: no assertion fails and the invariant holds at the
    end. *)
Lemma foldl_checked_seq {A} (f : A → nat → A) (g : A → nat → option A)
    (P : nat → A → Prop) (n : nat) (a : A) :
  P 0 a →
  (∀ i a', i < n → P i a' → g a' i = Some (f a' i) ∧ P (S i) (f a' i)) →
  foldl_checked g a (seq 0 n) = Some (foldl f a (seq 0 n)) ∧ P n (foldl f a (seq 0 n)).
Proof.
  intros H0 Hstep.
  assert (∀ m k a', k + m = n → P k a' →
            foldl_checked g a' (seq k m) = Some (foldl f a' (seq k m))
            ∧ P n (foldl f a' (seq k m))) as Hgen.
  { induction m as [|m IH]; intros k a' Hk HP.
    - simpl. split; [done|]. by replace n with k by lia.
    - simpl. destruct (Hstep k a') as [-> HP']; [lia|done|]. apply IH; [lia|done]. }
  by apply (Hgen n 0 a).
Qed.

(** One row of regions. *)
Lemma ProcessFeedback_update_row_invariant (RESOLVE_TO_TEXTURE : bool)
    (pResolvedData : list nat) (pResolvedRow y : nat)
    (r : StreamingResourceBase) (changed : bool) :
  well_formed r → refcount_invariant r → y < GetNumTilesHeight r →
  let st := (r, changed, y * GetNumTilesWidth r, pResolvedRow) in
  let st' := ProcessFeedback_update_row RESOLVE_TO_TEXTURE pResolvedData
               (GetNumTilesWidth r) st y in
  ProcessFeedback_update_row_checked RESOLVE_TO_TEXTURE pResolvedData
    (GetNumTilesWidth r) st y = Some st'
  ∧ well_formed (fst (fst (fst st')))
  ∧ refcount_invariant (fst (fst (fst st')))
  ∧ same_frame r (fst (fst (fst st')))
  ∧ snd (fst st') = S y * GetNumTilesWidth r.
Proof.
  intros Hwf Hinv Hy st st'. subst st st'.
  unfold ProcessFeedback_update_row_checked, ProcessFeedback_update_row.
  destruct (foldl_checked_seq
              (ProcessFeedback_update_body pResolvedData pResolvedRow
                 (y * GetNumTilesWidth r) y)
              (ProcessFeedback_update_body_checked pResolvedData pResolvedRow
                 (y * GetNumTilesWidth r) y)
              (λ _ st, well_formed (fst st) ∧ refcount_invariant (fst st)
                       ∧ same_frame r (fst st))
              (GetNumTilesWidth r) (r, changed)) as [Hchk (Hwf' & Hinv' & Hfr')].
  - simpl. split; [done|]. split; [done|]. apply same_frame_refl.
  - intros x [r1 ch1] Hx (Hwf1 & Hinv1 & Hfr1). simpl in Hwf1, Hinv1, Hfr1.
    pose proof Hfr1 as (HW & HH & _).
    destruct (ProcessFeedback_update_body_invariant pResolvedData pResolvedRow y x r1 ch1)
      as (Hc & Hwf2 & Hinv2 & Hfr2); [done|done|lia|lia|].
    rewrite HW in Hc, Hwf2, Hinv2, Hfr2.
    split; [done|]. split; [done|]. split; [done|]. by eapply same_frame_trans.
  - rewrite Hchk.
    destruct (foldl _ _ _) as [r1 ch1]. cbn [fst snd] in *.
    split; [done|]. split; [done|]. split; [done|]. split; [done|]. lia.
Qed.

(** The loops over all the regions. *)
Lemma ProcessFeedback_update_loops_invariant (RESOLVE_TO_TEXTURE : bool)
    (pResolvedData : list nat) (r : StreamingResourceBase) :
  well_formed r → refcount_invariant r →
  let res := ProcessFeedback_update_loops RESOLVE_TO_TEXTURE pResolvedData
               (GetNumTilesWidth r) (GetNumTilesHeight r) r in
  ProcessFeedback_update_loops_checked RESOLVE_TO_TEXTURE pResolvedData
    (GetNumTilesWidth r) (GetNumTilesHeight r) r = Some res
  ∧ well_formed (fst res) ∧ refcount_invariant (fst res) ∧ same_frame r (fst res).
Proof.
  intros Hwf Hinv res. subst res.
  unfold ProcessFeedback_update_loops_checked, ProcessFeedback_update_loops.
  destruct (foldl_checked_seq
              (ProcessFeedback_update_row RESOLVE_TO_TEXTURE pResolvedData (GetNumTilesWidth r))
              (ProcessFeedback_update_row_checked RESOLVE_TO_TEXTURE pResolvedData
                 (GetNumTilesWidth r))
              (λ y st, well_formed (fst (fst (fst st)))
                       ∧ refcount_invariant (fst (fst (fst st)))
                       ∧ same_frame r (fst (fst (fst st)))
                       ∧ snd (fst st) = y * GetNumTilesWidth r)
              (GetNumTilesHeight r) (r, false, 0, 0))
    as [Hchk (Hwf' & Hinv' & Hfr' & _)].
  - simpl. split; [done|]. split; [done|]. split; [apply same_frame_refl|done].
  - intros y [[[r1 ch1] pTileRow] pResolvedRow] Hy (Hwf1 & Hinv1 & Hfr1 & Hrow).
    simpl in Hwf1, Hinv1, Hfr1, Hrow. subst pTileRow.
    pose proof Hfr1 as (HW & HH & _).
    destruct (ProcessFeedback_update_row_invariant RESOLVE_TO_TEXTURE pResolvedData
                pResolvedRow y r1 ch1) as (Hc & Hwf2 & Hinv2 & Hfr2 & Hrow2);
      [done|done|lia|].
    rewrite HW in Hc, Hwf2, Hinv2, Hfr2, Hrow2.
    split; [done|]. split; [done|]. split; [done|].
    split; [by eapply same_frame_trans|done].
  - rewrite Hchk.
    destruct (foldl _ _ _) as [[[r1 ch1] pTileRow] pResolvedRow]. simpl in *. done.
Qed.

(** ** The invariant of the reference counts *)

Lemma same_counts_invariants (r r' : StreamingResourceBase) :
  same_counts r r' → well_formed r → refcount_invariant r →
  well_formed r' ∧ refcount_invariant r'.
Proof.
  intros (Htms & Hrefs & HW & HH & HM) Hwf Hinv.
  assert (tracked_tiles r' = tracked_tiles r) as Htr.
  { unfold tracked_tiles. by rewrite Htms, HM. }
  split.
  - constructor.
    + rewrite Hrefs, HW, HH. apply (wf_references_length r Hwf).
    + rewrite Hrefs, HM. apply (wf_references_bound r Hwf).
    + rewrite Htms, HW, HH, HM. apply (wf_covering r Hwf).
    + rewrite Htms, HM, Htr. apply (wf_tracked r Hwf).
    + rewrite HW, HH. apply (wf_regions r Hwf).
  - unfold refcount_invariant. rewrite Htms, Hrefs, HW, HH, HM. apply Hinv.
Qed.

Lemma same_counts_AbandonPending (r : StreamingResourceBase) :
  same_counts r (AbandonPending r).
Proof. unfold AbandonPending. by destruct (AbandonPending_loop _ _ _ _). Qed.

Lemma filter_length_le {A} (P Q : A → Prop) `{∀ a, Decision (P a)} `{∀ a, Decision (Q a)}
    (l : list A) :
  (∀ a, a ∈ l → P a → Q a) → length (filter P l) ≤ length (filter Q l).
Proof.
  induction l as [|a l IH]; intros Himp; [done|].
  rewrite !filter_cons.
  assert (length (filter P l) ≤ length (filter Q l)) as Hl.
  { apply IH. intros a' Ha'. apply Himp. by right. }
  pose proof (Himp a (list_elem_of_here a l)).
  repeat case_decide; simpl; try lia; naive_solver.
Qed.

(** No region refers to a tile of a mip below every tile reference. *)
Lemma region_count_zero (refs : list nat) (width height x y s : nat) :
  length refs = width * height →
  Forall (λ c, s < c) refs →
  region_count refs width height x y s = 0%Z.
Proof.
  intros Hlen Hall. unfold region_count.
  assert (length (filter (λ cell : nat * nat,
                     covers cell x y s
                     ∧ default 0 (refs !! (snd cell * width + fst cell)) ≤ s)
                    (grid_cells width height))
          ≤ length (filter (λ _ : nat * nat, False) (grid_cells width height))) as Hle.
  { apply filter_length_le. intros cell [Hu Hv]%elem_of_grid_cells [_ Hc].
    assert (snd cell * width + fst cell < length refs) as Hidx by (rewrite Hlen; nia).
    destruct (lookup_lt_is_Some_2 _ _ Hidx) as [c Hlk]. rewrite Hlk in Hc. simpl in Hc.
    rewrite Forall_forall in Hall. pose proof (Hall c (list_elem_of_lookup_2 _ _ _ Hlk)). lia. }
  assert (∀ l : list (nat * nat), length (filter (λ _, False) l) = 0) as H0.
  { induction l as [|a l IH]; [done|]. rewrite filter_cons. by case_decide. }
  rewrite H0 in Hle. lia.
Qed.

(** The count of the references of a tile is at most the number of the
    regions over the tile, which is at most the number of the regions. *)
Lemma region_count_covering (refs : list nat) (width height x y s : nat) :
  (0 ≤ region_count refs width height x y s ≤ covering_count width height x y s)%Z
  ∧ (covering_count width height x y s ≤ Z.of_nat (width * height))%Z.
Proof.
  unfold region_count, covering_count. split; [split; [lia|]|].
  - apply inj_le. apply filter_length_le. by intros cell _ [Hc _].
  - apply inj_le. etrans; [apply length_filter|]. rewrite length_grid_cells. lia.
Qed.

(** The zero-refcount path leaves every tile reference at [m_maxMip] and
    every reference count of a tracked tile at 0. *)
Lemma ProcessFeedback_evict_all_invariant (RESOLVE_TO_TEXTURE : bool) (fence : Z)
    (resolved : nat → list nat) (r : StreamingResourceBase) :
  m_setZeroRefCounts r = true →
  m_refCountsZero r = false →
  well_formed r →
  well_formed (ProcessFeedback RESOLVE_TO_TEXTURE fence resolved r)
  ∧ refcount_invariant (ProcessFeedback RESOLVE_TO_TEXTURE fence resolved r).
Proof.
  intros Hset Hzero Hwf.
  pose proof (ProcessFeedback_evict_all_eq RESOLVE_TO_TEXTURE fence resolved r Hset Hzero)
    as Heq.
  rewrite zero_loops_flat, zero_steps_spec in Heq by apply NoDup_tracked_tiles.
  change (tracked_tiles (evict_all_prepare r)) with (tracked_tiles r) in Heq.
  change (m_tileMappingState (evict_all_prepare r)) with (m_tileMappingState r) in Heq.
  fold (referenced_tiles r) in Heq. cbn [fst snd orb] in Heq.
  set (r3 := set_pendingTileLoads [] (zero_result (evict_all_prepare r) (referenced_tiles r)))
    in *.
  assert (well_formed r3 ∧ refcount_invariant r3) as [Hwf3 Hinv3].
  { assert (same_frame r r3) as Hframe.
    { repeat split; try done.
      - apply (zero_refcounts_resident (m_tileMappingState r) (referenced_tiles r)).
      - apply (zero_refcounts_in_range (m_tileMappingState r) (referenced_tiles r)).
      - apply (zero_refcounts_in_range (m_tileMappingState r) (referenced_tiles r)). }
    assert (m_tileReferences r3 = (λ _, m_maxMip r) <$> m_tileReferences r) as Hrefs by done.
    assert (length (m_tileReferences r3) = GetNumTilesWidth r * GetNumTilesHeight r) as Hlen.
    { rewrite Hrefs, length_fmap. apply (wf_references_length r Hwf). }
    split.
    - constructor.
      + exact Hlen.
      + rewrite Hrefs. apply Forall_fmap, Forall_true. intros c. simpl. done.
      + intros u v s Hu Hv Hs.
        apply (zero_refcounts_in_range (m_tileMappingState r) (referenced_tiles r)).
        by apply (wf_covering r Hwf).
      + intros x y s Hs Hin. rewrite (tracked_tiles_frame r r3 Hframe).
        apply (wf_tracked r Hwf); [done|].
        by apply (zero_refcounts_in_range (m_tileMappingState r) (referenced_tiles r)).
      + apply (wf_regions r Hwf).
    - intros x y s Hs Hin.
      change (GetRefCount (zero_refcounts (m_tileMappingState r) (referenced_tiles r)) x y s
              = region_count (m_tileReferences r3) (GetNumTilesWidth r) (GetNumTilesHeight r)
                  x y s).
      rewrite region_count_zero; [|done|].
      + rewrite GetRefCount_zero_refcounts. case_decide as HK; [done|].
        apply (zero_refcounts_in_range (m_tileMappingState r) (referenced_tiles r)) in Hin.
        pose proof (wf_tracked r Hwf x y s Hs Hin) as Htr.
        destruct (decide (referenced (m_tileMappingState r) (Coord x y s))) as [Hnz|Hz].
        * exfalso. apply HK. by apply list_elem_of_filter.
        * by apply dec_stable.
      + rewrite Hrefs. apply Forall_fmap, Forall_true. intros c. simpl. exact Hs. }
  rewrite Heq. case_bool_decide; [|done].
  apply (same_counts_invariants r3); [by repeat split|done|done].
Qed.

(** ** The constructor *)

Lemma Init_refcounts_lookup (InvalidIndex : Z) (mips : nat) (tiling : list (nat * nat))
    (x y s : nat) :
  layer_lookup (m_refcounts (Init InvalidIndex mips tiling)) x y s
  = if decide (s < mips ∧ y < snd (default (0, 0) (tiling !! s))
               ∧ x < fst (default (0, 0) (tiling !! s)))
    then Some 0%Z else None.
Proof.
  unfold layer_lookup, Init. cbn [m_refcounts].
  rewrite !list_lookup_fmap.
  destruct (decide (s < mips)) as [Hs|Hs].
  - rewrite lookup_seq_lt by done. simpl.
    destruct (decide (y < snd (default (0, 0) (tiling !! s)))) as [Hy|Hy].
    + rewrite lookup_replicate_2 by done.
      destruct (decide (x < fst (default (0, 0) (tiling !! s)))) as [Hx|Hx].
      * rewrite lookup_replicate_2 by done. by rewrite decide_True.
      * rewrite decide_False by tauto. apply lookup_replicate_None. lia.
    + rewrite decide_False by tauto.
      destruct (replicate _ _ !! y) as [row|] eqn:Hrow; [|done].
      apply lookup_replicate in Hrow as [_ Hlt]. lia.
  - rewrite lookup_seq_ge by lia. simpl. by rewrite decide_False by tauto.
Qed.

Lemma Init_GetHeight (InvalidIndex : Z) (mips : nat) (tiling : list (nat * nat)) (s : nat) :
  s < mips →
  GetHeight (Init InvalidIndex mips tiling) s = snd (default (0, 0) (tiling !! s)).
Proof.
  intros Hs. unfold GetHeight, Init. cbn [m_resident].
  rewrite !list_lookup_fmap, lookup_seq_lt by done. simpl. apply length_replicate.
Qed.

Lemma Init_GetWidth (InvalidIndex : Z) (mips : nat) (tiling : list (nat * nat)) (s : nat) :
  s < mips → 0 < snd (default (0, 0) (tiling !! s)) →
  GetWidth (Init InvalidIndex mips tiling) s = fst (default (0, 0) (tiling !! s)).
Proof.
  intros Hs Hh. unfold GetWidth, Init. cbn [m_resident].
  rewrite !list_lookup_fmap, lookup_seq_lt by done. simpl.
  rewrite lookup_replicate_2 by done. simpl. apply length_replicate.
Qed.

(** The constructor establishes the shape of the resource and the count of
    the references, for a tiling every mip of which holds the tiles under
    the regions. *)
Lemma create_invariant (InvalidIndex : Z) (numSwapBuffers numStandardMips : nat)
    (tiling : list (nat * nat)) (numTilesWidth numTilesHeight : nat) :
  numStandardMips < 256 →
  (∀ u v s, u < numTilesWidth → v < numTilesHeight → s < numStandardMips →
            Nat.shiftr u s < fst (default (0, 0) (tiling !! s))
            ∧ Nat.shiftr v s < snd (default (0, 0) (tiling !! s))) →
  (Z.of_nat (numTilesWidth * numTilesHeight) < 4294967296)%Z →
  well_formed (create InvalidIndex numSwapBuffers numStandardMips tiling
                 numTilesWidth numTilesHeight)
  ∧ refcount_invariant (create InvalidIndex numSwapBuffers numStandardMips tiling
                          numTilesWidth numTilesHeight).
Proof.
  intros Hmips Htiling Hregions.
  set (r := create InvalidIndex numSwapBuffers numStandardMips tiling
              numTilesWidth numTilesHeight).
  assert (m_maxMip r = numStandardMips) as HM.
  { unfold r, create, GetNumSubresources, Init. cbn [m_maxMip m_refcounts].
    rewrite !length_fmap, length_seq. by apply u8_small. }
  assert (m_tileReferences r = replicate (numTilesWidth * numTilesHeight) numStandardMips)
    as Hrefs.
  { rewrite <- HM. done. }
  assert (∀ x y s, layer_in_range (m_refcounts (m_tileMappingState r)) x y s
                   ↔ s < numStandardMips ∧ y < snd (default (0, 0) (tiling !! s))
                     ∧ x < fst (default (0, 0) (tiling !! s))) as Hrange.
  { intros x y s. unfold layer_in_range.
    change (m_refcounts (m_tileMappingState r))
      with (m_refcounts (Init InvalidIndex numStandardMips tiling)).
    rewrite Init_refcounts_lookup. case_decide as Hd.
    - split; [done|]. by eexists.
    - split; [by intros [? ?]|done]. }
  split.
  - constructor.
    + rewrite Hrefs. apply length_replicate.
    + rewrite Hrefs, HM. apply Forall_replicate. done.
    + intros u v s Hu Hv Hs. rewrite HM in Hs. apply Hrange.
      destruct (Htiling u v s Hu Hv Hs). done.
    + intros x y s Hs (_ & Hy & Hx)%Hrange. rewrite HM in Hs.
      apply elem_of_tracked_tiles. cbn [X Y Subresource]. rewrite HM.
      change (m_tileMappingState r) with (Init InvalidIndex numStandardMips tiling).
      rewrite Init_GetHeight, Init_GetWidth by (done || lia). done.
    + exact Hregions.
  - intros x y s Hs Hin. rewrite HM in Hs.
    rewrite region_count_zero.
    + unfold GetRefCount, layer_get.
      change (m_refcounts (m_tileMappingState r))
        with (m_refcounts (Init InvalidIndex numStandardMips tiling)).
      rewrite Init_refcounts_lookup. by case_decide.
    + rewrite Hrefs. apply length_replicate.
    + rewrite Hrefs. apply Forall_replicate. exact Hs.
Qed.

Lemma same_counts_ResolveFeedback (numSwapBuffers : nat) (frameFenceValue : Z)
    (r : StreamingResourceBase) :
  same_counts r (ResolveFeedback numSwapBuffers frameFenceValue r).
Proof. by repeat split. Qed.

Lemma cold_resource_invariant : well_formed cold_resource ∧ refcount_invariant cold_resource.
Proof.
  apply create_invariant; [lia| |done].
  intros u v s Hu Hv Hs.
  assert (s = 0 ∨ s = 1 ∨ s = 2 ∨ s = 3) as Hs' by lia.
  assert (u = 0 ∨ u = 1 ∨ u = 2 ∨ u = 3) as Hu' by lia.
  assert (v = 0 ∨ v = 1 ∨ v = 2 ∨ v = 3) as Hv' by lia.
  destruct Hs' as [->|[->|[->| ->]]], Hu' as [->|[->|[->| ->]]], Hv' as [->|[->|[->| ->]]];
    vm_compute; lia.
Qed.

(** C10.  The feedback pass maintains the invariant of the reference
    counts: on a resource of the shape that the constructor establishes, if
    the reference count of every tracked tile [(x, y, s)] is the number of
    the regions [(u, v)] of the finest grid with [u >> s = x], [v >> s = y]
    and a tile reference at most [s], then the same holds after
    [ProcessFeedback], whichever path it takes.  During the pass no
    assertion of the debug build fails: [DecTileRef] is never called on a
    tile whose count is 0 and [AddTileRef] never on a tile whose count is
    [0xFFFFFFFF], so the [UINT32] count neither underflows nor wraps.  The
    count of a tile is at most the number of the regions over the tile,
    which is at most the number of the regions, a [UINT]. *)
Theorem ProcessFeedback_refcount_invariant (RESOLVE_TO_TEXTURE : bool) (fence : Z)
    (resolved : nat → list nat) (r : StreamingResourceBase) :
  well_formed r → refcount_invariant r →
  let r' := ProcessFeedback RESOLVE_TO_TEXTURE fence resolved r in
  ProcessFeedback_checked RESOLVE_TO_TEXTURE fence resolved r = Some r'
  ∧ well_formed r'
  ∧ refcount_invariant r'
  ∧ (∀ x y s,
       s < m_maxMip r' →
       layer_in_range (m_refcounts (m_tileMappingState r')) x y s →
       (0 ≤ GetRefCount (m_tileMappingState r') x y s
        ≤ covering_count (GetNumTilesWidth r') (GetNumTilesHeight r') x y s)%Z
       ∧ (covering_count (GetNumTilesWidth r') (GetNumTilesHeight r') x y s
          ≤ Z.of_nat (GetNumTilesWidth r' * GetNumTilesHeight r') < 4294967296)%Z).
Proof.
  intros Hwf Hinv. cbv zeta.
  assert (ProcessFeedback_checked RESOLVE_TO_TEXTURE fence resolved r
          = Some (ProcessFeedback RESOLVE_TO_TEXTURE fence resolved r)
          ∧ well_formed (ProcessFeedback RESOLVE_TO_TEXTURE fence resolved r)
          ∧ refcount_invariant (ProcessFeedback RESOLVE_TO_TEXTURE fence resolved r))
    as (Hchk & Hwf' & Hinv').
  { destruct (m_setZeroRefCounts r) eqn:Hset.
    - split; [unfold ProcessFeedback_checked; by rewrite Hset|].
      destruct (m_refCountsZero r) eqn:Hz.
      + assert (ProcessFeedback RESOLVE_TO_TEXTURE fence resolved r
                = set_setZeroRefCounts false r) as ->.
        { unfold ProcessFeedback. rewrite Hset.
          cbn [m_refCountsZero set_setZeroRefCounts]. by rewrite Hz. }
        apply (same_counts_invariants r); [by repeat split|done|done].
      + by apply ProcessFeedback_evict_all_invariant.
    - unfold ProcessFeedback_checked, ProcessFeedback. rewrite Hset.
      destruct (foldl (ProcessFeedback_select_body fence) _ _) as [[q feedbackIndex] latest].
      set (r1 := set_queuedFeedback q r).
      destruct (same_counts_invariants r r1) as [Hwf1 Hinv1]; [by repeat split|done|done|].
      case_bool_decide; [done|].
      change (GetNumTilesWidth r) with (GetNumTilesWidth r1).
      change (GetNumTilesHeight r) with (GetNumTilesHeight r1).
      destruct (ProcessFeedback_update_loops_invariant RESOLVE_TO_TEXTURE
                  (resolved (feedbackIndex - 1)) r1 Hwf1 Hinv1) as (Hc & Hwf2 & Hinv2 & _).
      rewrite Hc.
      destruct (ProcessFeedback_update_loops RESOLVE_TO_TEXTURE _ _ _ _) as [r2 changed].
      cbn [fst] in Hwf2, Hinv2. split; [done|].
      apply (same_counts_invariants r2); [|done|done].
      unfold same_counts, SetResidencyChanged, AbandonPending.
      destruct changed; by destruct (AbandonPending_loop _ _ _ _). }
  split; [done|]. split; [done|]. split; [done|].
  intros x y s Hs Hin. rewrite (Hinv' x y s Hs Hin).
  pose proof (region_count_covering
                (m_tileReferences (ProcessFeedback RESOLVE_TO_TEXTURE fence resolved r))
                (GetNumTilesWidth (ProcessFeedback RESOLVE_TO_TEXTURE fence resolved r))
                (GetNumTilesHeight (ProcessFeedback RESOLVE_TO_TEXTURE fence resolved r))
                x y s) as [Hb1 Hb2].
  pose proof (wf_regions _ Hwf'). done.
Qed.

Lemma ProcessFeedback_refcount_invariant_witness :
  let r := ResolveFeedback 2 2 cold_after_feedback in
  well_formed r ∧ refcount_invariant r
  ∧ ProcessFeedback_checked false 2 three_tiles_feedback r
    = Some (ProcessFeedback false 2 three_tiles_feedback r)
  ∧ refcount_invariant (ProcessFeedback false 2 three_tiles_feedback r).
Proof.
  destruct cold_resource_invariant as [Hwf0 Hinv0].
  destruct (same_counts_invariants _ _ (same_counts_ResolveFeedback 2 1 cold_resource)
              Hwf0 Hinv0) as [Hwf1 Hinv1].
  destruct (ProcessFeedback_refcount_invariant false 1 cold_feedback
              (ResolveFeedback 2 1 cold_resource) Hwf1 Hinv1) as (_ & Hwf2 & Hinv2 & _).
  destruct (same_counts_invariants _ _
              (same_counts_ResolveFeedback 2 2 cold_after_feedback) Hwf2 Hinv2)
    as [Hwf3 Hinv3].
  destruct (ProcessFeedback_refcount_invariant false 2 three_tiles_feedback
              (ResolveFeedback 2 2 cold_after_feedback) Hwf3 Hinv3) as (Hchk & _ & Hinv4 & _).
  exact (conj Hwf3 (conj Hinv3 (conj Hchk Hinv4))).
Defined.

(** ** The heap indices and the residency *)

Lemma filter_iff_eq {A} (P Q : A → Prop) `{∀ a, Decision (P a)} `{∀ a, Decision (Q a)}
    (l : list A) :
  (∀ a, P a ↔ Q a) → filter P l = filter Q l.
Proof.
  intros Hiff. induction l as [|a l IH]; [done|].
  rewrite !filter_cons, IH. destruct (Hiff a). repeat case_decide; naive_solver.
Qed.

(** Writing the residency and the heap index of the tile [c]. *)
Lemma set_tile_spec (res : Residency) (v : Z) (tms : TileMappingState)
    (c : D3D12_TILED_RESOURCE_COORDINATE) :
  let tms' := SetHeapIndex (set_residency res tms (X c) (Y c) (Subresource c)) c v in
  grids_aligned tms →
  (∀ c', tile_in_range tms' c' ↔ tile_in_range tms c')
  ∧ grids_aligned tms'
  ∧ (∀ c', c' ≠ c → GetResidency tms' c' = GetResidency tms c'
                    ∧ GetHeapIndex tms' c' = GetHeapIndex tms c')
  ∧ (tile_in_range tms c → GetResidency tms' c = res ∧ GetHeapIndex tms' c = v).
Proof.
  intros tms' Hal.
  assert (∀ c', GetResidency tms' c'
                = GetResidency (set_residency res tms (X c) (Y c) (Subresource c)) c')
    as Hres by done.
  split; [|split; [|split]].
  - intros c'. apply layer_in_range_set.
  - intros x y s. unfold tms'. simpl. rewrite !layer_in_range_set. apply Hal.
  - intros c' Hne. split.
    + rewrite Hres, GetResidency_set_residency. rewrite decide_False; [done|]. naive_solver.
    + unfold tms'. rewrite GetHeapIndex_SetHeapIndex. rewrite decide_False; [done|].
      naive_solver.
  - intros Hin. split.
    + rewrite Hres, GetResidency_set_residency. by rewrite decide_True.
    + unfold tms'. rewrite GetHeapIndex_SetHeapIndex. rewrite decide_True; [done|].
      split; [done|]. simpl. by apply Hal.
Qed.

(** Writing the residency of the tile [c] alone. *)
Lemma set_residency_spec (res : Residency) (tms : TileMappingState)
    (c : D3D12_TILED_RESOURCE_COORDINATE) :
  let tms' := set_residency res tms (X c) (Y c) (Subresource c) in
  grids_aligned tms →
  (∀ c', tile_in_range tms' c' ↔ tile_in_range tms c')
  ∧ grids_aligned tms'
  ∧ (∀ c', c' ≠ c → GetResidency tms' c' = GetResidency tms c')
  ∧ (∀ c', GetHeapIndex tms' c' = GetHeapIndex tms c')
  ∧ (tile_in_range tms c → GetResidency tms' c = res).
Proof.
  intros tms' Hal. split; [|split; [|split; [|split]]].
  - intros c'. apply layer_in_range_set.
  - intros x y s. unfold tms'. simpl. rewrite layer_in_range_set. apply Hal.
  - intros c' Hne. unfold tms'. rewrite GetResidency_set_residency.
    rewrite decide_False; [done|]. naive_solver.
  - done.
  - intros Hin. unfold tms'. rewrite GetResidency_set_residency. by rewrite decide_True.
Qed.

(** A tile outside the grid reads as [NotResident]. *)
Lemma GetResidency_in_range (tms : TileMappingState) (c : D3D12_TILED_RESOURCE_COORDINATE) :
  GetResidency tms c ≠ NotResident → tile_in_range tms c.
Proof. apply layer_get_in_range. Qed.

(** The state after a change of the tile [c] alone is consistent when the
    tile [c] is, and the tiles in flight are those that were, the tile [c]
    apart. *)
Lemma tiles_consistent_update (InvalidIndex : Z) (tms tms' : TileMappingState)
    (heap heap' : HeapAllocator.t)
    (L L' E E' : list D3D12_TILED_RESOURCE_COORDINATE)
    (c : D3D12_TILED_RESOURCE_COORDINATE) :
  tiles_consistent InvalidIndex tms heap L E →
  (∀ c', tile_in_range tms' c' ↔ tile_in_range tms c') →
  grids_aligned tms' →
  (∀ c', c' ≠ c → GetResidency tms' c' = GetResidency tms c'
                  ∧ GetHeapIndex tms' c' = GetHeapIndex tms c') →
  (tile_in_range tms c →
   (GetHeapIndex tms' c ≠ InvalidIndex
    ↔ GetResidency tms' c = Resident ∨ GetResidency tms' c = Loading)) →
  InvalidIndex ∉ HeapAllocator.m_free heap' →
  (∀ c', c' ∈ L' → tile_in_range tms c' →
         (c' ≠ c ∧ c' ∈ L) ∨ (c' = c ∧ GetResidency tms' c = Loading)) →
  (∀ c', c' ∈ E' → tile_in_range tms c' →
         (c' ≠ c ∧ c' ∈ E) ∨ (c' = c ∧ GetResidency tms' c = Evicting)) →
  NoDup (filter (tile_in_range tms) L') →
  NoDup (filter (tile_in_range tms) E') →
  NoDup (HeapAllocator.m_free heap') →
  (∀ c', tile_in_range tms c' → c' ≠ c →
         GetHeapIndex tms c' ∉ HeapAllocator.m_free heap') →
  (tile_in_range tms c → GetHeapIndex tms' c ∉ HeapAllocator.m_free heap') →
  (tile_in_range tms c → GetHeapIndex tms' c ≠ InvalidIndex →
   ∀ c', tile_in_range tms c' → c' ≠ c → GetHeapIndex tms c' ≠ GetHeapIndex tms' c) →
  tiles_consistent InvalidIndex tms' heap' L' E'.
Proof.
  intros HJ Hrange Hal Hother Hc Hfree HL HE HndL HndE Hpool Hpo Hpc Hic.
  constructor.
  - exact Hal.
  - intros c' Hin. apply Hrange in Hin.
    destruct (decide (c' = c)) as [->|Hne]; [by apply Hc|].
    destruct (Hother c' Hne) as [-> ->]. by apply (tc_valid _ _ _ _ _ HJ).
  - exact Hfree.
  - intros c' Hc' Hin. apply Hrange in Hin.
    destruct (HL c' Hc' Hin) as [[Hne HinL]|[-> Hres]]; [|done].
    destruct (Hother c' Hne) as [-> _]. by apply (tc_loading _ _ _ _ _ HJ).
  - intros c' Hc' Hin. apply Hrange in Hin.
    destruct (HE c' Hc' Hin) as [[Hne HinE]|[-> Hres]]; [|done].
    destruct (Hother c' Hne) as [-> _]. by apply (tc_evicting _ _ _ _ _ HJ).
  - by rewrite (filter_iff_eq _ _ L' Hrange).
  - by rewrite (filter_iff_eq _ _ E' Hrange).
  - exact Hpool.
  - intros c' Hin. apply Hrange in Hin.
    destruct (decide (c' = c)) as [->|Hne]; [by apply Hpc|].
    destruct (Hother c' Hne) as [_ ->]. by apply Hpo.
  - intros c1 c2 Hin1 Hin2 Hvalid Heq. apply Hrange in Hin1, Hin2.
    destruct (decide (c1 = c)) as [->|Hne1]; destruct (decide (c2 = c)) as [->|Hne2];
      [done| | |].
    + destruct (Hother c2 Hne2) as [_ Heq2]. rewrite Heq2 in Heq.
      exfalso. exact (Hic Hin1 Hvalid c2 Hin2 Hne2 (eq_sym Heq)).
    + destruct (Hother c1 Hne1) as [_ Heq1]. rewrite Heq1 in Heq, Hvalid.
      exfalso. assert (GetHeapIndex tms' c ≠ InvalidIndex) as Hvc by by rewrite <- Heq.
      exact (Hic Hin2 Hvc c1 Hin1 Hne1 Heq).
    + destruct (Hother c1 Hne1) as [_ Heq1]. destruct (Hother c2 Hne2) as [_ Heq2].
      rewrite Heq1 in Heq, Hvalid. rewrite Heq2 in Heq.
      by apply (tc_index_once _ _ _ _ _ HJ c1 c2).
Qed.

(** The consistency depends on the residencies and on the heap indices
    only. *)
Lemma tiles_consistent_ext (InvalidIndex : Z) (tms tms' : TileMappingState)
    (heap : HeapAllocator.t) (L E : list D3D12_TILED_RESOURCE_COORDINATE) :
  m_resident tms' = m_resident tms →
  m_heapIndices tms' = m_heapIndices tms →
  tiles_consistent InvalidIndex tms heap L E →
  tiles_consistent InvalidIndex tms' heap L E.
Proof.
  intros Hres Hidx HJ.
  assert (∀ c, GetResidency tms' c = GetResidency tms c) as HR.
  { intros c. unfold GetResidency. by rewrite Hres. }
  assert (∀ c, GetHeapIndex tms' c = GetHeapIndex tms c) as HI.
  { intros c. unfold GetHeapIndex. by rewrite Hidx. }
  assert (∀ c, tile_in_range tms' c ↔ tile_in_range tms c) as Hrange.
  { intros c. unfold tile_in_range. by rewrite Hres. }
  constructor.
  - intros x y s. rewrite Hres, Hidx. apply (tc_aligned _ _ _ _ _ HJ).
  - intros c Hin. rewrite HR, HI. apply (tc_valid _ _ _ _ _ HJ). by apply Hrange.
  - apply (tc_free _ _ _ _ _ HJ).
  - intros c Hc Hin. rewrite HR. apply (tc_loading _ _ _ _ _ HJ); [done|by apply Hrange].
  - intros c Hc Hin. rewrite HR. apply (tc_evicting _ _ _ _ _ HJ); [done|by apply Hrange].
  - rewrite (filter_iff_eq _ _ L Hrange). apply (tc_loading_once _ _ _ _ _ HJ).
  - rewrite (filter_iff_eq _ _ E Hrange). apply (tc_evicting_once _ _ _ _ _ HJ).
  - apply (tc_pool_once _ _ _ _ _ HJ).
  - intros c Hin. rewrite HI. apply (tc_pool_free _ _ _ _ _ HJ). by apply Hrange.
  - intros c c' Hin Hin'. rewrite !HI.
    apply (tc_index_once _ _ _ _ _ HJ); by apply Hrange.
Qed.

(** The consistency does not depend on the order of the tiles in flight. *)
Lemma tiles_consistent_perm (InvalidIndex : Z) (tms : TileMappingState)
    (heap : HeapAllocator.t) (L L' E E' : list D3D12_TILED_RESOURCE_COORDINATE) :
  L ≡ₚ L' → E ≡ₚ E' →
  tiles_consistent InvalidIndex tms heap L E →
  tiles_consistent InvalidIndex tms heap L' E'.
Proof.
  intros HL HE HJ. constructor.
  - apply (tc_aligned _ _ _ _ _ HJ).
  - apply (tc_valid _ _ _ _ _ HJ).
  - apply (tc_free _ _ _ _ _ HJ).
  - intros c Hc. apply (tc_loading _ _ _ _ _ HJ). by rewrite HL.
  - intros c Hc. apply (tc_evicting _ _ _ _ _ HJ). by rewrite HE.
  - rewrite <- HL. apply (tc_loading_once _ _ _ _ _ HJ).
  - rewrite <- HE. apply (tc_evicting_once _ _ _ _ _ HJ).
  - apply (tc_pool_once _ _ _ _ _ HJ).
  - apply (tc_pool_free _ _ _ _ _ HJ).
  - apply (tc_index_once _ _ _ _ _ HJ).
Qed.

(** One tile of the ready bucket. *)
Lemma evict_step_progress (InvalidIndex : Z) (tms0 : TileMappingState)
    (heap0 : HeapAllocator.t) (L E : list D3D12_TILED_RESOURCE_COORDINATE)
    (tms : TileMappingState) (heap : HeapAllocator.t) (ul : UpdateList.t)
    (kept : MappingCoords) (c : D3D12_TILED_RESOURCE_COORDINATE) :
  evict_progress InvalidIndex tms0 heap0 L E (tms, heap, ul) →
  evict_progress InvalidIndex tms0 heap0 L E
    (fst (evict_step InvalidIndex (tms, heap, ul, kept) c)).
Proof.
  intros HP. pose proof HP as (HJ & Hrange & given & Hfree & Honly). cbn [fst snd] in *.
  unfold evict_step. destruct (GetResidency tms c) eqn:Hres; [exact HP| |exact HP|exact HP].
  unfold SetEvicting.
  assert (tile_in_range tms c) as Hin by (apply GetResidency_in_range; by rewrite Hres).
  destruct (set_tile_spec Evicting InvalidIndex tms c (tc_aligned _ _ _ _ _ HJ))
    as (Hr & Hal & Hother & Hc).
  destruct (Hc Hin) as [Hc1 Hc2].
  assert (GetHeapIndex tms c ≠ InvalidIndex) as Hidx.
  { apply (tc_valid _ _ _ _ _ HJ); [done|]. by left. }
  split; [|split].
  - cbn [fst snd UpdateList.AddEviction UpdateList.m_coords UpdateList.m_evictCoords].
    eapply (tiles_consistent_update InvalidIndex tms _ heap _ _ _ _ _ c HJ Hr Hal Hother).
    + intros _. rewrite Hc1, Hc2. naive_solver.
    + simpl. intros [Heq|Hf]%elem_of_cons; [done|]. by apply (tc_free _ _ _ _ _ HJ).
    + intros c' Hc' Hin'. left. split; [|done].
      intros ->. pose proof (tc_loading _ _ _ _ _ HJ c Hc' Hin'). congruence.
    + intros c' Hc' Hin'. rewrite (assoc_L (++)) in Hc'.
      apply elem_of_app in Hc' as [Hc'|Hc'].
      * left. split; [|done].
        intros ->. pose proof (tc_evicting _ _ _ _ _ HJ c Hc' Hin'). congruence.
      * apply list_elem_of_singleton in Hc' as ->. by right.
    + apply (tc_loading_once _ _ _ _ _ HJ).
    + rewrite (assoc_L (++)), filter_app. apply NoDup_app. split; [|split].
      * apply (tc_evicting_once _ _ _ _ _ HJ).
      * intros c' [Hr' Hc']%list_elem_of_filter [_ Hc'']%list_elem_of_filter.
        apply list_elem_of_singleton in Hc'' as ->.
        pose proof (tc_evicting _ _ _ _ _ HJ c Hc' Hin). congruence.
      * rewrite filter_cons_True by done. apply NoDup_singleton.
    + simpl. apply NoDup_cons. split; [|apply (tc_pool_once _ _ _ _ _ HJ)].
      by apply (tc_pool_free _ _ _ _ _ HJ).
    + simpl. intros c' Hin' Hne [Heq|Hf]%elem_of_cons.
      * apply Hne. apply (tc_index_once _ _ _ _ _ HJ c' c); try done. by rewrite Heq.
      * by apply (tc_pool_free _ _ _ _ _ HJ c').
    + intros _. rewrite Hc2. simpl. intros [Heq|Hf]%elem_of_cons; [done|].
      by apply (tc_free _ _ _ _ _ HJ).
    + intros _. by rewrite Hc2.
  - cbn [fst snd]. intros c'. rewrite <- Hrange. apply Hr.
  - exists (GetHeapIndex tms c :: given). cbn [fst snd]. split.
    + simpl. by rewrite Hfree.
    + intros c' Hin'. destruct (Honly c' Hin') as [[H1 H2]|(H1 & H2 & H3 & H4)].
      * destruct (decide (c' = c)) as [->|Hne].
        -- right. rewrite <- H1, <- H2. split; [done|]. split; [done|].
           split; [done|]. by left.
        -- left. destruct (Hother c' Hne) as [-> ->]. done.
      * assert (c' ≠ c) as Hne by (intros ->; congruence).
        right. destruct (Hother c' Hne) as [-> ->].
        split; [done|]. split; [done|]. split; [done|]. by right.
Qed.

(** The visit of the ready bucket. *)
Lemma evict_fold_progress (InvalidIndex : Z) (tms0 : TileMappingState)
    (heap0 : HeapAllocator.t) (L E : list D3D12_TILED_RESOURCE_COORDINATE)
    (coords : MappingCoords) :
  ∀ tms heap ul kept,
    evict_progress InvalidIndex tms0 heap0 L E (tms, heap, ul) →
    evict_progress InvalidIndex tms0 heap0 L E
      (fst (foldl (evict_step InvalidIndex) (tms, heap, ul, kept) coords)).
Proof.
  induction coords as [|c coords IH]; intros tms heap ul kept HP; [done|].
  cbn [foldl].
  pose proof (evict_step_progress InvalidIndex tms0 heap0 L E tms heap ul kept c HP) as HP'.
  destruct (evict_step InvalidIndex (tms, heap, ul, kept) c) as [[[tms1 heap1] ul1] kept1].
  exact (IH tms1 heap1 ul1 kept1 HP').
Qed.

(** One pending tile, with a free page in the pool. *)
Lemma load_step_progress (InvalidIndex : Z) (tms0 : TileMappingState)
    (heap0 : HeapAllocator.t) (L E : list D3D12_TILED_RESOURCE_COORDINATE)
    (tms : TileMappingState) (heap : HeapAllocator.t) (ul : UpdateList.t)
    (kept : list D3D12_TILED_RESOURCE_COORDINATE) (c : D3D12_TILED_RESOURCE_COORDINATE) :
  load_progress InvalidIndex tms0 heap0 L E (tms, heap, ul) →
  HeapAllocator.m_free heap ≠ [] →
  load_progress InvalidIndex tms0 heap0 L E
    (fst (load_step InvalidIndex (tms, heap, ul, kept) c)).
Proof.
  intros HP Hfree. pose proof HP as (HJ & Hrange & taken & Htaken & Honly).
  cbn [fst snd] in *.
  unfold load_step. destruct (GetResidency tms c) eqn:Hres; [|exact HP|exact HP|exact HP].
  unfold SetLoading.
  destruct heap as [[|i rest]]; [done|].
  cbn [HeapAllocator.Allocate HeapAllocator.m_free fst snd] in *.
  destruct (set_tile_spec Loading i tms c (tc_aligned _ _ _ _ _ HJ))
    as (Hr & Hal & Hother & Hc).
  assert (i ≠ InvalidIndex) as Hi.
  { intros ->. apply (tc_free _ _ _ _ _ HJ). by left. }
  split; [|split].
  - cbn [fst snd UpdateList.AddUpdate UpdateList.m_coords UpdateList.m_evictCoords].
    eapply (tiles_consistent_update InvalidIndex tms _ _ _ _ _ _ _ c HJ Hr Hal Hother).
    + intros Hin. destruct (Hc Hin) as [-> ->]. naive_solver.
    + simpl. intros Hf. apply (tc_free _ _ _ _ _ HJ). by right.
    + intros c' Hc' Hin'. rewrite (assoc_L (++)) in Hc'.
      apply elem_of_app in Hc' as [Hc'|Hc'].
      * left. split; [|done].
        intros ->. pose proof (tc_loading _ _ _ _ _ HJ c Hc' Hin'). congruence.
      * apply list_elem_of_singleton in Hc' as ->. right. split; [done|]. by apply Hc.
    + intros c' Hc' Hin'. left. split; [|done].
      intros ->. pose proof (tc_evicting _ _ _ _ _ HJ c Hc' Hin'). congruence.
    + rewrite (assoc_L (++)), filter_app. apply NoDup_app. split; [|split].
      * apply (tc_loading_once _ _ _ _ _ HJ).
      * intros c' [Hr' Hc']%list_elem_of_filter [_ Hc'']%list_elem_of_filter.
        apply list_elem_of_singleton in Hc'' as ->.
        pose proof (tc_loading _ _ _ _ _ HJ c Hc' Hr'). congruence.
      * rewrite filter_cons. case_decide; [|apply NoDup_nil_2].
        rewrite filter_nil. apply NoDup_singleton.
    + apply (tc_evicting_once _ _ _ _ _ HJ).
    + pose proof (tc_pool_once _ _ _ _ _ HJ) as Hnd. simpl in Hnd |- *.
      by apply NoDup_cons in Hnd as [_ Hnd].
    + simpl. intros c' Hin' Hne Hf. apply (tc_pool_free _ _ _ _ _ HJ c' Hin'). by right.
    + intros Hin. destruct (Hc Hin) as [_ ->].
      pose proof (tc_pool_once _ _ _ _ _ HJ) as Hnd. simpl in Hnd |- *.
      by apply NoDup_cons in Hnd as [Hnot _].
    + intros Hin _ c' Hin' Hne Heq. destruct (Hc Hin) as [_ Hci]. rewrite Hci in Heq.
      apply (tc_pool_free _ _ _ _ _ HJ c' Hin'). rewrite Heq. by left.
  - cbn [fst snd]. intros c'. rewrite <- Hrange. apply Hr.
  - exists (taken ++ [i]). cbn [fst snd HeapAllocator.m_free]. split.
    + rewrite Htaken. by rewrite <- (assoc_L (++)).
    + intros c' Hin'. destruct (Honly c' Hin') as [[H1 H2]|(H1 & H2 & H3)].
      * destruct (decide (c' = c)) as [->|Hne].
        -- right. destruct (Hc (proj2 (Hrange c) Hin')) as [-> ->].
           split; [congruence|]. split; [done|]. apply elem_of_app. right. by left.
        -- left. destruct (Hother c' Hne) as [-> ->]. done.
      * assert (c' ≠ c) as Hne by (intros ->; congruence).
        right. destruct (Hother c' Hne) as [-> ->].
        split; [done|]. split; [done|]. apply elem_of_app. by left.
Qed.

(** The visit of the pending loads with a budget between 1 and the number
    of free pages. *)
Lemma load_walk_progress (InvalidIndex : Z) (tms0 : TileMappingState)
    (heap0 : HeapAllocator.t) (L E : list D3D12_TILED_RESOURCE_COORDINATE)
    (coords : list D3D12_TILED_RESOURCE_COORDINATE) :
  ∀ budget tms heap ul kept,
    load_progress InvalidIndex tms0 heap0 L E (tms, heap, ul) →
    (1 ≤ budget ≤ Z.of_nat (HeapAllocator.GetNumFree heap))%Z →
    load_progress InvalidIndex tms0 heap0 L E
      (fst (fst (load_walk InvalidIndex budget (tms, heap, ul, kept) coords))).
Proof.
  induction coords as [|c coords IH]; intros budget tms heap ul kept HP Hb; [done|].
  cbn [load_walk fst snd].
  assert (HeapAllocator.m_free heap ≠ []) as Hfree.
  { unfold HeapAllocator.GetNumFree in Hb. destruct (HeapAllocator.m_free heap); [|done].
    simpl in Hb. lia. }
  pose proof (load_step_progress InvalidIndex tms0 heap0 L E tms heap ul kept c HP Hfree)
    as HP'.
  case_decide as Hres.
  - assert (HeapAllocator.GetNumFree
              (snd (fst (fst (load_step InvalidIndex (tms, heap, ul, kept) c))))
            = HeapAllocator.GetNumFree heap - 1) as Hnum.
    { unfold load_step. rewrite Hres. unfold HeapAllocator.GetNumFree.
      destruct heap as [[|i rest]]; [done|]. simpl. lia. }
    pose proof (u32_pred_le budget) as Hu.
    case_decide as Hzero; [exact HP'|].
    destruct (load_step InvalidIndex (tms, heap, ul, kept) c) as [[[tms1 heap1] ul1] kept1].
    cbn [fst snd] in *. apply IH; [exact HP'|]. lia.
  - assert (snd (fst (fst (load_step InvalidIndex (tms, heap, ul, kept) c))) = heap) as Hheap.
    { unfold load_step. by destruct (GetResidency tms c). }
    destruct (load_step InvalidIndex (tms, heap, ul, kept) c) as [[[tms1 heap1] ul1] kept1].
    cbn [fst snd] in *. subst heap1. by apply IH.
Qed.

(** [QueuePendingTileEvictions] is the visit of the ready bucket by
    [evict_step]. *)
Lemma QueuePendingTileEvictions_fold (InvalidIndex : Z) (r : StreamingResourceBase)
    (heap : HeapAllocator.t) (ul : UpdateList.t) :
  let ready := EvictionDelay.GetReadyToEvict (m_pendingEvictions r) in
  let st := foldl (evict_step InvalidIndex) (m_tileMappingState r, heap, ul, []) ready in
  QueuePendingTileEvictions InvalidIndex (r, heap, ul)
  = (set_pendingEvictions
       (EvictionDelay.SetReadyToEvict (snd st) (m_pendingEvictions r))
       (set_tileMappingState (fst (fst (fst st))) r),
     snd (fst (fst st)), snd (fst st)).
Proof.
  cbv zeta. unfold QueuePendingTileEvictions.
  destruct (QueuePendingTileEvictions_loop_spec InvalidIndex
              (EvictionDelay.GetReadyToEvict (m_pendingEvictions r))
              (m_tileMappingState r) heap ul
              (length (EvictionDelay.GetReadyToEvict (m_pendingEvictions r))))
    as (ev & kept & tms' & heap' & ul' & Hloop & Hfold & Htake & _); [done|].
  rewrite Hloop. rewrite firstn_all in Hfold. rewrite Hfold. simpl.
  by rewrite Htake.
Qed.

(** [QueuePendingTileLoads] is the visit of the pending loads by
    [load_walk]. *)
Lemma QueuePendingTileLoads_walk (InvalidIndex GetMaxTileCopiesPerBatch : Z)
    (r : StreamingResourceBase) (heap : HeapAllocator.t) (ul : UpdateList.t) :
  let loads := m_pendingTileLoads r in
  let budget :=
    Z.min (Z.min (Z.of_nat (length loads)) GetMaxTileCopiesPerBatch)
      (Z.of_nat (HeapAllocator.GetNumFree heap)) in
  let walk := load_walk InvalidIndex budget (m_tileMappingState r, heap, ul, []) loads in
  QueuePendingTileLoads InvalidIndex GetMaxTileCopiesPerBatch (r, heap, ul)
  = (set_pendingTileLoads (snd (fst walk) ++ snd walk)
       (set_tileMappingState (fst (fst (fst (fst walk)))) r),
     snd (fst (fst (fst walk))), snd (fst (fst walk))).
Proof.
  cbv zeta.
  set (budget := Z.min (Z.min (Z.of_nat (length (m_pendingTileLoads r)))
                           GetMaxTileCopiesPerBatch)
                   (Z.of_nat (HeapAllocator.GetNumFree heap))).
  unfold QueuePendingTileLoads. fold budget.
  destruct (QueuePendingTileLoads_loop_spec InvalidIndex (m_pendingTileLoads r) 0
              (m_pendingTileLoads r) [] budget (m_tileMappingState r) heap ul)
    as (loads' & numConsumed & budget' & Hloop & Htake & Hdrop); [done|done|done|].
  cbn [length] in Hloop. rewrite Hloop. by rewrite Htake, Hdrop.
Qed.

Lemma evict_progress_start (InvalidIndex : Z) (tms : TileMappingState)
    (heap : HeapAllocator.t) (L E : list D3D12_TILED_RESOURCE_COORDINATE)
    (ul : UpdateList.t) :
  tiles_consistent InvalidIndex tms heap
    (L ++ UpdateList.m_coords ul) (E ++ UpdateList.m_evictCoords ul) →
  evict_progress InvalidIndex tms heap L E (tms, heap, ul).
Proof.
  intros HJ. split; [done|]. split; [done|]. exists []. split; [done|].
  intros c Hin. by left.
Qed.

Lemma load_progress_start (InvalidIndex : Z) (tms : TileMappingState)
    (heap : HeapAllocator.t) (L E : list D3D12_TILED_RESOURCE_COORDINATE)
    (ul : UpdateList.t) :
  tiles_consistent InvalidIndex tms heap
    (L ++ UpdateList.m_coords ul) (E ++ UpdateList.m_evictCoords ul) →
  load_progress InvalidIndex tms heap L E (tms, heap, ul).
Proof.
  intros HJ. split; [done|]. split; [done|]. exists []. split; [done|].
  intros c Hin. by left.
Qed.

(** One call of [QueuePendingTileEvictions]. *)
Lemma QueuePendingTileEvictions_progress (InvalidIndex : Z) (r : StreamingResourceBase)
    (heap : HeapAllocator.t) (ul : UpdateList.t)
    (L E : list D3D12_TILED_RESOURCE_COORDINATE) :
  tiles_consistent InvalidIndex (m_tileMappingState r) heap
    (L ++ UpdateList.m_coords ul) (E ++ UpdateList.m_evictCoords ul) →
  let res := QueuePendingTileEvictions InvalidIndex (r, heap, ul) in
  evict_progress InvalidIndex (m_tileMappingState r) heap L E
    (m_tileMappingState (fst (fst res)), snd (fst res), snd res)
  ∧ m_pendingTileLoads (fst (fst res)) = m_pendingTileLoads r.
Proof.
  intros HJ. cbv zeta. rewrite QueuePendingTileEvictions_fold.
  pose proof (evict_fold_progress InvalidIndex (m_tileMappingState r) heap L E
                (EvictionDelay.GetReadyToEvict (m_pendingEvictions r))
                (m_tileMappingState r) heap ul []
                (evict_progress_start _ _ _ _ _ _ HJ)) as HP.
  destruct (foldl (evict_step InvalidIndex) _ _) as [[[tms1 heap1] ul1] kept1].
  done.
Qed.

(** One call of [QueuePendingTileLoads], with a batch of at least one copy,
    a pending load and a free page. *)
Lemma QueuePendingTileLoads_progress (InvalidIndex GetMaxTileCopiesPerBatch : Z)
    (r : StreamingResourceBase) (heap : HeapAllocator.t) (ul : UpdateList.t)
    (L E : list D3D12_TILED_RESOURCE_COORDINATE) :
  (0 < GetMaxTileCopiesPerBatch)%Z →
  length (m_pendingTileLoads r) ≠ 0 →
  HeapAllocator.GetNumFree heap ≠ 0 →
  tiles_consistent InvalidIndex (m_tileMappingState r) heap
    (L ++ UpdateList.m_coords ul) (E ++ UpdateList.m_evictCoords ul) →
  let res := QueuePendingTileLoads InvalidIndex GetMaxTileCopiesPerBatch (r, heap, ul) in
  load_progress InvalidIndex (m_tileMappingState r) heap L E
    (m_tileMappingState (fst (fst res)), snd (fst res), snd res).
Proof.
  intros Hmax Hloads Hfree HJ. cbv zeta. rewrite QueuePendingTileLoads_walk.
  set (budget := Z.min (Z.min (Z.of_nat (length (m_pendingTileLoads r)))
                           GetMaxTileCopiesPerBatch)
                   (Z.of_nat (HeapAllocator.GetNumFree heap))).
  pose proof (load_walk_progress InvalidIndex (m_tileMappingState r) heap L E
                (m_pendingTileLoads r) budget (m_tileMappingState r) heap ul []
                (load_progress_start _ _ _ _ _ _ HJ)) as HP.
  destruct (load_walk InvalidIndex budget _ _) as [[[[tms1 heap1] ul1] kept1] rest].
  apply HP. subst budget. lia.
Qed.

(** [QueueTiles] keeps the state consistent, the UpdateLists that it submits
    joining the UpdateLists in flight. *)
Lemma QueueTiles_consistent (InvalidIndex GetMaxTileCopiesPerBatch : Z) :
  (0 < GetMaxTileCopiesPerBatch)%Z →
  ∀ (avail : nat) (r : StreamingResourceBase) (heap : HeapAllocator.t)
    (L E : list D3D12_TILED_RESOURCE_COORDINATE),
    tiles_consistent InvalidIndex (m_tileMappingState r) heap L E →
    let res := QueueTiles InvalidIndex GetMaxTileCopiesPerBatch avail (r, heap) in
    tiles_consistent InvalidIndex (m_tileMappingState (fst (fst res))) (snd (fst res))
      (L ++ flat_map UpdateList.m_coords (snd res))
      (E ++ flat_map UpdateList.m_evictCoords (snd res)).
Proof.
  intros Hmax. induction avail as [|avail IH]; intros r heap L E HJ; cbv zeta.
  - cbn [QueueTiles]. destruct (_ || _); simpl; by rewrite !app_nil_r.
  - cbn [QueueTiles]. destruct (_ || _); [|simpl; by rewrite !app_nil_r].
    assert (∃ r1 heap1 ul1,
              (if bool_decide
                    (length (EvictionDelay.GetReadyToEvict (m_pendingEvictions r)) ≠ 0)
               then QueuePendingTileEvictions InvalidIndex (r, heap, UpdateList.empty)
               else (r, heap, UpdateList.empty)) = (r1, heap1, ul1)
              ∧ tiles_consistent InvalidIndex (m_tileMappingState r1) heap1
                  (L ++ UpdateList.m_coords ul1) (E ++ UpdateList.m_evictCoords ul1)
              ∧ m_pendingTileLoads r1 = m_pendingTileLoads r)
      as (r1 & heap1 & ul1 & -> & HJ1 & Hloads1).
    { assert (tiles_consistent InvalidIndex (m_tileMappingState r) heap
                (L ++ UpdateList.m_coords UpdateList.empty)
                (E ++ UpdateList.m_evictCoords UpdateList.empty)) as HJ0.
      { simpl. by rewrite !app_nil_r. }
      case_bool_decide.
      - destruct (QueuePendingTileEvictions_progress InvalidIndex r heap UpdateList.empty
                    L E HJ0) as [(HJ1 & _) Hloads].
        destruct (QueuePendingTileEvictions InvalidIndex (r, heap, UpdateList.empty))
          as [[r1 heap1] ul1].
        by exists r1, heap1, ul1.
      - by exists r, heap, UpdateList.empty. }
    cbn [fst snd].
    assert (∃ r2 heap2 ul2,
              (if bool_decide (length (m_pendingTileLoads r) ≠ 0)
                  && bool_decide (HeapAllocator.GetNumFree heap1 ≠ 0)
               then QueuePendingTileLoads InvalidIndex GetMaxTileCopiesPerBatch
                      (r1, heap1, ul1)
               else (r1, heap1, ul1)) = (r2, heap2, ul2)
              ∧ tiles_consistent InvalidIndex (m_tileMappingState r2) heap2
                  (L ++ UpdateList.m_coords ul2) (E ++ UpdateList.m_evictCoords ul2))
      as (r2 & heap2 & ul2 & -> & HJ2).
    { destruct (bool_decide (length (m_pendingTileLoads r) ≠ 0)) eqn:Hb1;
        [|by exists r1, heap1, ul1].
      destruct (bool_decide (HeapAllocator.GetNumFree heap1 ≠ 0)) eqn:Hb2;
        [|by exists r1, heap1, ul1].
      apply bool_decide_eq_true in Hb1, Hb2. rewrite <- Hloads1 in Hb1. cbn [andb].
      destruct (QueuePendingTileLoads_progress InvalidIndex GetMaxTileCopiesPerBatch
                  r1 heap1 ul1 L E Hmax Hb1 Hb2 HJ1) as (HJ2 & _).
      destruct (QueuePendingTileLoads InvalidIndex GetMaxTileCopiesPerBatch (r1, heap1, ul1))
        as [[r2 heap2] ul2].
      cbn [fst snd] in HJ2. by exists r2, heap2, ul2. }
    destruct (_ || _) eqn:Hnonempty.
    + specialize (IH r2 heap2 _ _ HJ2). cbv zeta in IH.
      destruct (QueueTiles InvalidIndex GetMaxTileCopiesPerBatch avail (r2, heap2))
        as [[r3 heap3] submitted].
      cbn [fst snd flat_map] in *. by rewrite !(assoc_L (++)).
    + apply orb_false_elim in Hnonempty as [Hc He].
      apply bool_decide_eq_false in Hc, He.
      assert (UpdateList.m_coords ul2 = []) as Hc0.
      { destruct (UpdateList.m_coords ul2); [done|]. exfalso. apply Hc. done. }
      assert (UpdateList.m_evictCoords ul2 = []) as He0.
      { destruct (UpdateList.m_evictCoords ul2); [done|]. exfalso. apply He. done. }
      rewrite Hc0, He0 in HJ2. done.
Qed.

(** ** The completion notices *)

Lemma SetNotResident_consistent (InvalidIndex : Z) (tms : TileMappingState)
    (heap : HeapAllocator.t) (L E : list D3D12_TILED_RESOURCE_COORDINATE)
    (c : D3D12_TILED_RESOURCE_COORDINATE) :
  tiles_consistent InvalidIndex tms heap L (c :: E) →
  tiles_consistent InvalidIndex (SetNotResident tms (X c) (Y c) (Subresource c)) heap L E.
Proof.
  intros HJ. unfold SetNotResident.
  destruct (set_residency_spec NotResident tms c (tc_aligned _ _ _ _ _ HJ))
    as (Hr & Hal & Hother & Hidx & Hc).
  assert (tile_in_range tms c → GetResidency tms c = Evicting) as Hev.
  { apply (tc_evicting _ _ _ _ _ HJ). by left. }
  pose proof (tc_evicting_once _ _ _ _ _ HJ) as Hnd. rewrite filter_cons in Hnd.
  eapply (tiles_consistent_update InvalidIndex tms _ heap heap L L (c :: E) E c HJ Hr Hal).
  - intros c' Hne. split; [by apply Hother|apply Hidx].
  - intros Hin. rewrite Hidx, (Hc Hin).
    pose proof (tc_valid _ _ _ _ _ HJ c Hin) as Hv. rewrite (Hev Hin) in Hv.
    destruct (decide (GetHeapIndex tms c = InvalidIndex)); naive_solver.
  - apply (tc_free _ _ _ _ _ HJ).
  - intros c' Hc' Hin. left. split; [|done].
    intros ->. pose proof (tc_loading _ _ _ _ _ HJ c Hc' Hin). rewrite (Hev Hin) in *. done.
  - intros c' Hc' Hin. left. split; [|by right].
    intros ->. rewrite decide_True in Hnd by done.
    apply NoDup_cons in Hnd as [Hnot _]. apply Hnot. by apply list_elem_of_filter.
  - apply (tc_loading_once _ _ _ _ _ HJ).
  - case_decide; [|done]. by apply NoDup_cons in Hnd as [_ Hnd].
  - apply (tc_pool_once _ _ _ _ _ HJ).
  - intros c' Hin' _. by apply (tc_pool_free _ _ _ _ _ HJ).
  - intros Hin. rewrite Hidx. by apply (tc_pool_free _ _ _ _ _ HJ).
  - intros Hin Hvalid c' Hin' Hne Heq. rewrite Hidx in Heq, Hvalid.
    apply Hne. symmetry. by apply (tc_index_once _ _ _ _ _ HJ c c').
Qed.

Lemma SetResident_consistent (InvalidIndex : Z) (tms : TileMappingState)
    (heap : HeapAllocator.t) (L E : list D3D12_TILED_RESOURCE_COORDINATE)
    (c : D3D12_TILED_RESOURCE_COORDINATE) :
  tiles_consistent InvalidIndex tms heap (c :: L) E →
  tiles_consistent InvalidIndex (SetResident tms (X c) (Y c) (Subresource c)) heap L E.
Proof.
  intros HJ. unfold SetResident.
  destruct (set_residency_spec Resident tms c (tc_aligned _ _ _ _ _ HJ))
    as (Hr & Hal & Hother & Hidx & Hc).
  assert (tile_in_range tms c → GetResidency tms c = Loading) as Hld.
  { apply (tc_loading _ _ _ _ _ HJ). by left. }
  pose proof (tc_loading_once _ _ _ _ _ HJ) as Hnd. rewrite filter_cons in Hnd.
  eapply (tiles_consistent_update InvalidIndex tms _ heap heap (c :: L) L E E c HJ Hr Hal).
  - intros c' Hne. split; [by apply Hother|apply Hidx].
  - intros Hin. rewrite Hidx, (Hc Hin).
    pose proof (tc_valid _ _ _ _ _ HJ c Hin) as Hv. rewrite (Hld Hin) in Hv. naive_solver.
  - apply (tc_free _ _ _ _ _ HJ).
  - intros c' Hc' Hin. left. split; [|by right].
    intros ->. rewrite decide_True in Hnd by done.
    apply NoDup_cons in Hnd as [Hnot _]. apply Hnot. by apply list_elem_of_filter.
  - intros c' Hc' Hin. left. split; [|done].
    intros ->. pose proof (tc_evicting _ _ _ _ _ HJ c Hc' Hin). rewrite (Hld Hin) in *. done.
  - case_decide; [|done]. by apply NoDup_cons in Hnd as [_ Hnd].
  - apply (tc_evicting_once _ _ _ _ _ HJ).
  - apply (tc_pool_once _ _ _ _ _ HJ).
  - intros c' Hin' _. by apply (tc_pool_free _ _ _ _ _ HJ).
  - intros Hin. rewrite Hidx. by apply (tc_pool_free _ _ _ _ _ HJ).
  - intros Hin Hvalid c' Hin' Hne Heq. rewrite Hidx in Heq, Hvalid.
    apply Hne. symmetry. by apply (tc_index_once _ _ _ _ _ HJ c c').
Qed.

Lemma NotifyEvicted_consistent (InvalidIndex : Z) (heap : HeapAllocator.t)
    (L : list D3D12_TILED_RESOURCE_COORDINATE) (C : list D3D12_TILED_RESOURCE_COORDINATE) :
  ∀ tms E,
    tiles_consistent InvalidIndex tms heap L (C ++ E) →
    tiles_consistent InvalidIndex
      (foldl (λ tms c, SetNotResident tms (X c) (Y c) (Subresource c)) tms C) heap L E.
Proof.
  induction C as [|c C IH]; intros tms E HJ; [done|].
  simpl. apply IH. by apply SetNotResident_consistent.
Qed.

Lemma NotifyCopyComplete_consistent (InvalidIndex : Z) (heap : HeapAllocator.t)
    (E : list D3D12_TILED_RESOURCE_COORDINATE) (C : list D3D12_TILED_RESOURCE_COORDINATE) :
  ∀ tms L,
    tiles_consistent InvalidIndex tms heap (C ++ L) E →
    tiles_consistent InvalidIndex
      (foldl (λ tms c, SetResident tms (X c) (Y c) (Subresource c)) tms C) heap L E.
Proof.
  induction C as [|c C IH]; intros tms L HJ; [done|].
  simpl. apply IH. by apply SetResident_consistent.
Qed.

(** The tile state after the notices of a completed UpdateList. *)
Lemma NotifyUpdateList_tiles (ul : UpdateList.t) (r : StreamingResourceBase) :
  m_tileMappingState (NotifyUpdateList ul r)
  = foldl (λ tms c, SetResident tms (X c) (Y c) (Subresource c))
      (foldl (λ tms c, SetNotResident tms (X c) (Y c) (Subresource c))
         (m_tileMappingState r) (UpdateList.m_evictCoords ul))
      (UpdateList.m_coords ul).
Proof.
  unfold NotifyUpdateList.
  destruct (UpdateList.m_evictCoords ul) as [|e evs], (UpdateList.m_coords ul) as [|c cs];
    done.
Qed.

Lemma NotifyUpdateList_consistent (InvalidIndex : Z) (r : StreamingResourceBase)
    (heap : HeapAllocator.t) (before after : list UpdateList.t) (ul : UpdateList.t) :
  tiles_consistent InvalidIndex (m_tileMappingState r) heap
    (flat_map UpdateList.m_coords (before ++ ul :: after))
    (flat_map UpdateList.m_evictCoords (before ++ ul :: after)) →
  tiles_consistent InvalidIndex (m_tileMappingState (NotifyUpdateList ul r)) heap
    (flat_map UpdateList.m_coords (before ++ after))
    (flat_map UpdateList.m_evictCoords (before ++ after)).
Proof.
  intros HJ. rewrite NotifyUpdateList_tiles.
  apply NotifyCopyComplete_consistent, NotifyEvicted_consistent.
  eapply tiles_consistent_perm; [| |exact HJ].
  - rewrite !flat_map_app. simpl. rewrite (assoc_L (++)).
    rewrite (comm (++) _ (UpdateList.m_coords ul)). by rewrite <- (assoc_L (++)).
  - rewrite !flat_map_app. simpl. rewrite (assoc_L (++)).
    rewrite (comm (++) _ (UpdateList.m_evictCoords ul)). by rewrite <- (assoc_L (++)).
Qed.

(** ** The feedback pass leaves the residencies and the heap indices alone *)

Lemma same_residency_refl (tms : TileMappingState) : same_residency tms tms.
Proof. done. Qed.

Lemma same_residency_trans (tms1 tms2 tms3 : TileMappingState) :
  same_residency tms1 tms2 → same_residency tms2 tms3 → same_residency tms1 tms3.
Proof. intros [H1 H2] [K1 K2]. split; congruence. Qed.

Lemma AddTileRef_residency (x y s : nat) (r : StreamingResourceBase) :
  same_residency (m_tileMappingState r) (m_tileMappingState (AddTileRef x y s r)).
Proof. unfold AddTileRef. by case_bool_decide. Qed.

Lemma DecTileRef_residency (x y s : nat) (r : StreamingResourceBase) :
  same_residency (m_tileMappingState r) (m_tileMappingState (DecTileRef x y s r)).
Proof. unfold DecTileRef. by case_bool_decide. Qed.

Lemma SetMinMip_addrefs_residency (u v d : nat) :
  ∀ (c : nat) (r : StreamingResourceBase),
    same_residency (m_tileMappingState r)
      (m_tileMappingState (snd (SetMinMip_addrefs c u v d r))).
Proof.
  induction c as [|c IH]; intros r; simpl; [done|].
  case_bool_decide; [|done].
  eapply same_residency_trans; [apply AddTileRef_residency|apply IH].
Qed.

Lemma SetMinMip_decrefs_residency (u v : nat) :
  ∀ (dist c : nat) (r : StreamingResourceBase),
    same_residency (m_tileMappingState r)
      (m_tileMappingState (SetMinMip_decrefs dist c u v r)).
Proof.
  induction dist as [|dist IH]; intros c r; simpl; [done|].
  eapply same_residency_trans; [apply DecTileRef_residency|apply IH].
Qed.

Lemma SetMinMip_residency (c u v d : nat) (r : StreamingResourceBase) :
  same_residency (m_tileMappingState r) (m_tileMappingState (SetMinMip c u v d r)).
Proof.
  unfold SetMinMip.
  pose proof (SetMinMip_addrefs_residency u v d c r) as H1.
  destruct (SetMinMip_addrefs c u v d r) as [s r1].
  eapply same_residency_trans; [exact H1|apply SetMinMip_decrefs_residency].
Qed.

Lemma ProcessFeedback_update_loops_residency (RESOLVE_TO_TEXTURE : bool)
    (pResolvedData : list nat) (width height : nat) (r : StreamingResourceBase) :
  same_residency (m_tileMappingState r)
    (m_tileMappingState
       (fst (ProcessFeedback_update_loops RESOLVE_TO_TEXTURE pResolvedData width height r))).
Proof.
  unfold ProcessFeedback_update_loops.
  pose proof (foldl_invariant
    (λ st : StreamingResourceBase * bool * nat * nat,
       same_residency (m_tileMappingState r) (m_tileMappingState (fst (fst (fst st)))))
    (ProcessFeedback_update_row RESOLVE_TO_TEXTURE pResolvedData width)
    (seq 0 height) (r, false, 0, 0)) as Hrows.
  destruct (foldl _ _ _) as [[[r1 ch1] t1] p1]. apply Hrows; [done|].
  intros [[[r2 ch2] t2] p2] y Hr2 _. cbn [fst] in Hr2.
  unfold ProcessFeedback_update_row.
  pose proof (foldl_invariant
    (λ st : StreamingResourceBase * bool,
       same_residency (m_tileMappingState r) (m_tileMappingState (fst st)))
    (ProcessFeedback_update_body pResolvedData p2 t2 y)
    (seq 0 width) (r2, ch2)) as Hrow.
  destruct (foldl _ _ _) as [r3 ch3]. apply Hrow; [done|].
  intros [r4 ch4] x Hr4 _. cbn [fst] in Hr4.
  unfold ProcessFeedback_update_body. cbn [fst].
  eapply same_residency_trans; [exact Hr4|]. apply SetMinMip_residency.
Qed.

Lemma ProcessFeedback_zero_loops_residency (r : StreamingResourceBase) (ch : bool) :
  same_residency (m_tileMappingState r)
    (m_tileMappingState (fst (ProcessFeedback_zero_loops (r, ch)))).
Proof.
  rewrite zero_loops_flat, zero_steps_spec by apply NoDup_tracked_tiles.
  apply zero_refcounts_resident.
Qed.

Lemma ProcessFeedback_residency (RESOLVE_TO_TEXTURE : bool) (fence : Z)
    (resolved : nat → list nat) (r : StreamingResourceBase) :
  same_residency (m_tileMappingState r)
    (m_tileMappingState (ProcessFeedback RESOLVE_TO_TEXTURE fence resolved r)).
Proof.
  unfold ProcessFeedback.
  destruct (m_setZeroRefCounts r).
  - cbn [m_refCountsZero set_setZeroRefCounts]. destruct (m_refCountsZero r); [done|].
    match goal with
    | |- context [ProcessFeedback_zero_loops (?r0, false)] =>
        pose proof (ProcessFeedback_zero_loops_residency r0 false) as Hz;
        destruct (ProcessFeedback_zero_loops (r0, false)) as [r1 ch1]
    end.
    cbn [fst] in Hz. by destruct ch1.
  - destruct (foldl (ProcessFeedback_select_body fence) _ _) as [[q feedbackIndex] latest].
    case_bool_decide; [done|].
    match goal with
    | |- context [ProcessFeedback_update_loops ?b ?d ?w ?h ?r0] =>
        pose proof (ProcessFeedback_update_loops_residency b d w h r0) as Hu;
        destruct (ProcessFeedback_update_loops b d w h r0) as [r1 ch1]
    end.
    cbn [fst] in Hu. unfold AbandonPending.
    destruct ch1; by destruct (AbandonPending_loop _ _ _ _).
Qed.

(** ** The state that the constructor builds *)

Lemma replicate_layer_lookup {A} (v : A) (dims : list (nat * nat)) (x y s : nat) :
  layer_lookup ((λ d, replicate (snd d) (replicate (fst d) v)) <$> dims) x y s
  = match dims !! s with
    | Some d => if decide (y < snd d ∧ x < fst d) then Some v else None
    | None => None
    end.
Proof.
  unfold layer_lookup. rewrite list_lookup_fmap.
  destruct (dims !! s) as [d|]; [simpl|done].
  destruct (replicate (snd d) (replicate (fst d) v) !! y) as [row|] eqn:Hrow.
  - apply lookup_replicate in Hrow as [-> Hy].
    destruct (replicate (fst d) v !! x) as [w|] eqn:Hw.
    + apply lookup_replicate in Hw as [-> Hx]. by rewrite decide_True.
    + apply lookup_replicate_None in Hw. rewrite decide_False; [done|]. lia.
  - apply lookup_replicate_None in Hrow. rewrite decide_False; [done|]. lia.
Qed.

Lemma Init_consistent (InvalidIndex : Z) (in_numMips : nat) (in_pTiling : list (nat * nat))
    (free : list Z) :
  InvalidIndex ∉ free →
  NoDup free →
  tiles_consistent InvalidIndex (Init InvalidIndex in_numMips in_pTiling)
    (HeapAllocator.Build free) [] [].
Proof.
  intros Hfree Hnd.
  assert (∀ c, tile_in_range (Init InvalidIndex in_numMips in_pTiling) c →
               GetHeapIndex (Init InvalidIndex in_numMips in_pTiling) c = InvalidIndex)
    as Hidx.
  { intros c Hin.
    unfold tile_in_range, layer_in_range, Init in Hin. cbn [m_resident] in Hin.
    rewrite replicate_layer_lookup in Hin.
    unfold GetHeapIndex, layer_get, Init. cbn [m_heapIndices].
    rewrite replicate_layer_lookup. destruct (_ !! Subresource c) as [d|]; [|by destruct Hin].
    case_decide; [done|by destruct Hin]. }
  set (dims := (λ mip, default (0, 0) (in_pTiling !! mip)) <$> seq 0 in_numMips).
  constructor.
  - intros x y s. unfold layer_in_range, Init. cbn [m_resident m_heapIndices]. fold dims.
    rewrite !replicate_layer_lookup.
    destruct (dims !! s) as [d|]; [|done]. by case_decide.
  - intros c Hin.
    assert (GetResidency (Init InvalidIndex in_numMips in_pTiling) c = NotResident) as ->.
    { unfold GetResidency, layer_get, Init. cbn [m_resident]. fold dims.
      rewrite replicate_layer_lookup. destruct (dims !! _) as [d|]; [|done].
      by case_decide. }
    rewrite (Hidx c Hin). naive_solver.
  - exact Hfree.
  - intros c Hc. by apply elem_of_nil in Hc.
  - intros c Hc. by apply elem_of_nil in Hc.
  - apply NoDup_nil_2.
  - apply NoDup_nil_2.
  - exact Hnd.
  - intros c Hin. by rewrite (Hidx c Hin).
  - intros c c' Hin _ Hvalid. by rewrite (Hidx c Hin) in Hvalid.
Qed.

(** ** The reachable states *)

Lemma tiles_consistent_heap (InvalidIndex : Z) (tms : TileMappingState)
    (heap heap' : HeapAllocator.t) (L E : list D3D12_TILED_RESOURCE_COORDINATE) :
  InvalidIndex ∉ HeapAllocator.m_free heap' →
  NoDup (HeapAllocator.m_free heap') →
  (∀ c, tile_in_range tms c → GetHeapIndex tms c ∉ HeapAllocator.m_free heap') →
  tiles_consistent InvalidIndex tms heap L E →
  tiles_consistent InvalidIndex tms heap' L E.
Proof. intros Hfree Hnd Hpool HJ. by destruct HJ. Qed.

Lemma step_consistent (InvalidIndex : Z) (RESOLVE_TO_TEXTURE : bool)
    (GetMaxTileCopiesPerBatch : Z) (sys sys' : System) :
  (0 < GetMaxTileCopiesPerBatch)%Z →
  step InvalidIndex RESOLVE_TO_TEXTURE GetMaxTileCopiesPerBatch sys sys' →
  system_consistent InvalidIndex sys →
  system_consistent InvalidIndex sys'.
Proof.
  intros Hmax Hstep HJ. unfold system_consistent in *.
  destruct Hstep as [fence resolved sys|avail sys|before ul after sys Hsub|sys|n fence sys
                     |residencyMap sys|sys|sys|i sys Hi Hnot Hheld]; cbn [sys_resource sys_heap sys_submitted].
  - destruct (ProcessFeedback_residency RESOLVE_TO_TEXTURE fence resolved (sys_resource sys))
      as [Hres Hidx].
    by apply (tiles_consistent_ext InvalidIndex (m_tileMappingState (sys_resource sys))).
  - rewrite !flat_map_app.
    apply (QueueTiles_consistent InvalidIndex GetMaxTileCopiesPerBatch Hmax avail
             (sys_resource sys) (sys_heap sys) _ _ HJ).
  - rewrite Hsub in HJ. by apply NotifyUpdateList_consistent.
  - exact HJ.
  - exact HJ.
  - assert (m_tileMappingState (fst (UpdateMinMipMap residencyMap (sys_resource sys)))
            = m_tileMappingState (sys_resource sys)) as ->; [|exact HJ].
    unfold UpdateMinMipMap. by destruct (negb _).
  - exact HJ.
  - pose proof (tc_free _ _ _ _ _ HJ) as Hfree.
    pose proof (tc_pool_once _ _ _ _ _ HJ) as Hnd.
    pose proof (tc_pool_free _ _ _ _ _ HJ) as Hpool.
    apply (tiles_consistent_heap InvalidIndex _ (sys_heap sys)); [| | |exact HJ];
      unfold HeapAllocator.Allocate;
      destruct (HeapAllocator.m_free (sys_heap sys)) as [|j rest] eqn:Hf; simpl;
      rewrite ?Hf; try done.
    + intros Hin. apply Hfree. by right.
    + by apply NoDup_cons in Hnd as [_ Hnd].
    + intros c Hin Hc. apply (Hpool c Hin). by right.
  - apply (tiles_consistent_heap InvalidIndex _ (sys_heap sys)); [| | |exact HJ]; simpl.
    + intros [Heq|Hin]%elem_of_cons; [done|]. by apply (tc_free _ _ _ _ _ HJ).
    + apply NoDup_cons. split; [done|]. apply (tc_pool_once _ _ _ _ _ HJ).
    + intros c Hin [Heq|Hf]%elem_of_cons.
      * by apply (Hheld c Hin).
      * by apply (tc_pool_free _ _ _ _ _ HJ c Hin).
Qed.

Lemma reachable_consistent (InvalidIndex : Z) (RESOLVE_TO_TEXTURE : bool)
    (GetMaxTileCopiesPerBatch : Z) (sys : System) :
  (0 < GetMaxTileCopiesPerBatch)%Z →
  reachable InvalidIndex RESOLVE_TO_TEXTURE GetMaxTileCopiesPerBatch sys →
  system_consistent InvalidIndex sys.
Proof.
  intros Hmax Hreach.
  induction Hreach as [swap mips tiling w h free Hfree Hnd|sys sys' _ IH Hstep].
  - unfold system_consistent. simpl. by apply Init_consistent.
  - by eapply step_consistent.
Qed.

(** What a call of [QueuePendingTileLoads] does to a tile, in a consistent
    state. *)
Lemma load_progress_exactly (InvalidIndex : Z) (tms0 : TileMappingState)
    (heap0 : HeapAllocator.t) (L E L0 E0 : list D3D12_TILED_RESOURCE_COORDINATE)
    (tms : TileMappingState) (heap : HeapAllocator.t) (ul : UpdateList.t) :
  tiles_consistent InvalidIndex tms0 heap0 L0 E0 →
  load_progress InvalidIndex tms0 heap0 L E (tms, heap, ul) →
  ∃ taken,
    HeapAllocator.m_free heap0 = taken ++ HeapAllocator.m_free heap
    ∧ ∀ c, tile_in_range tms0 c →
        ((GetResidency tms0 c ≠ Loading ∧ GetResidency tms c = Loading)
         ↔ (GetHeapIndex tms0 c = InvalidIndex ∧ GetHeapIndex tms c ≠ InvalidIndex))
        ∧ (GetResidency tms0 c ≠ Loading → GetResidency tms c = Loading →
           GetHeapIndex tms c ∈ taken
           ∧ (∀ c', tile_in_range tms0 c' → GetHeapIndex tms0 c' ≠ GetHeapIndex tms c)
           ∧ (∀ c', tile_in_range tms0 c' → c' ≠ c →
                    GetHeapIndex tms c' ≠ GetHeapIndex tms c))
        ∧ (¬ (GetResidency tms0 c ≠ Loading ∧ GetResidency tms c = Loading) →
           GetResidency tms c = GetResidency tms0 c
           ∧ GetHeapIndex tms c = GetHeapIndex tms0 c).
Proof.
  intros HJ0 (HJ & Hrange & taken & Htaken & Honly). cbn [fst snd] in *.
  exists taken. split; [done|]. intros c Hin.
  pose proof (tc_valid _ _ _ _ _ HJ0 c Hin) as Hv0.
  pose proof (tc_valid _ _ _ _ _ HJ c (proj2 (Hrange c) Hin)) as Hv.
  destruct (Honly c Hin) as [[H1 H2]|(H1 & H2 & H3)].
  - rewrite H1, H2. split; [naive_solver|]. split; [|naive_solver].
    intros Hne Heq. by rewrite Heq in Hne.
  - assert (GetHeapIndex tms0 c = InvalidIndex) as Hinv.
    { rewrite H1 in Hv0. destruct (decide (GetHeapIndex tms0 c = InvalidIndex)); naive_solver. }
    assert (GetHeapIndex tms c ≠ InvalidIndex) as Hval.
    { apply Hv. by right. }
    split; [rewrite H1, H2; naive_solver|]. split; [|rewrite H1, H2; naive_solver].
    intros _ _. split; [done|]. split.
    + intros c' Hin' Heq. apply (tc_pool_free _ _ _ _ _ HJ0 c' Hin').
      rewrite Htaken, Heq. apply elem_of_app. by left.
    + intros c' Hin' Hne Heq. apply Hne. symmetry.
      apply (tc_index_once _ _ _ _ _ HJ c c'); try done; by apply Hrange.
Qed.

(** What a call of [QueuePendingTileEvictions] does to a tile, in a
    consistent state. *)
Lemma evict_progress_exactly (InvalidIndex : Z) (tms0 : TileMappingState)
    (heap0 : HeapAllocator.t) (L E L0 E0 : list D3D12_TILED_RESOURCE_COORDINATE)
    (tms : TileMappingState) (heap : HeapAllocator.t) (ul : UpdateList.t) :
  tiles_consistent InvalidIndex tms0 heap0 L0 E0 →
  evict_progress InvalidIndex tms0 heap0 L E (tms, heap, ul) →
  ∃ given,
    HeapAllocator.m_free heap = given ++ HeapAllocator.m_free heap0
    ∧ ∀ c, tile_in_range tms0 c →
        ((GetResidency tms0 c ≠ Evicting ∧ GetResidency tms c = Evicting)
         ↔ (GetHeapIndex tms0 c ≠ InvalidIndex ∧ GetHeapIndex tms c = InvalidIndex))
        ∧ (GetResidency tms0 c ≠ Evicting → GetResidency tms c = Evicting →
           GetHeapIndex tms0 c ∈ given)
        ∧ (¬ (GetResidency tms0 c ≠ Evicting ∧ GetResidency tms c = Evicting) →
           GetResidency tms c = GetResidency tms0 c
           ∧ GetHeapIndex tms c = GetHeapIndex tms0 c).
Proof.
  intros HJ0 (HJ & Hrange & given & Hgiven & Honly). cbn [fst snd] in *.
  exists given. split; [done|]. intros c Hin.
  pose proof (tc_valid _ _ _ _ _ HJ0 c Hin) as Hv0.
  pose proof (tc_valid _ _ _ _ _ HJ c (proj2 (Hrange c) Hin)) as Hv.
  destruct (Honly c Hin) as [[H1 H2]|(H1 & H2 & H3 & H4)].
  - rewrite H1, H2. naive_solver.
  - rewrite H1, H2, H3 in *. naive_solver.
Qed.



(* ================================================================== *)
(** * Further properties of the engine *)

(** ** The selection of the feedback *)

(** The loop that determines the feedback to process, after [k] buffers:
    the buffers from [k] on are untouched, a buffer is changed only by the
    clearing of its flag and only if it was eligible, and the selected
    buffer is an eligible one of the greatest fence value, the last of
    them. *)
Lemma ProcessFeedback_select_spec (completed : Z) (q0 : list QueuedFeedback) (k : nat) :
  k ≤ length q0 →
  ∃ q idx latest,
    foldl (ProcessFeedback_select_body completed) (q0, 0, 0%Z) (seq 0 k) = (q, idx, latest)
    ∧ length q = length q0
    ∧ (∀ j, k ≤ j → q !! j = q0 !! j)
    ∧ (∀ j f0, q0 !! j = Some f0 →
         q !! j = Some f0
         ∨ (feedback_eligible completed f0 ∧ q !! j = Some (feedback_consumed f0)))
    ∧ (idx = 0 →
       q = q0 ∧ ∀ j f, j < k → q0 !! j = Some f → ¬ feedback_eligible completed f)
    ∧ (∀ i, idx = S i →
         i < k
         ∧ ∃ f, q0 !! i = Some f ∧ feedback_eligible completed f
                ∧ latest = m_renderFenceForFeedback f
                ∧ q !! i = Some (feedback_consumed f)
                ∧ (∀ j f', j < k → q0 !! j = Some f' → feedback_eligible completed f' →
                     (m_renderFenceForFeedback f' ≤ latest)%Z)
                ∧ (∀ j f', i < j < k → q0 !! j = Some f' → feedback_eligible completed f' →
                     (m_renderFenceForFeedback f' < latest)%Z)
                ∧ (∀ j f', j < k → q !! j = Some f' → feedback_eligible completed f' →
                     (m_renderFenceForFeedback f' < latest)%Z)).
Proof.
  induction k as [|k IH]; intros Hk.
  - exists q0, 0, 0%Z. simpl. split; [done|]. split; [done|]. split; [done|].
    split; [by left|]. split; [|done]. intros _. split; [done|]. intros j f Hj. lia.
  - destruct IH as (q & idx & latest & Hfold & Hlen & Hrest & Hchg & Hzero & Hsel); [lia|].
    rewrite seq_S, foldl_snoc, Hfold. simpl.
    destruct (lookup_lt_is_Some_2 q0 k) as [fk Hfk]; [lia|].
    assert (q !! k = Some fk) as Hqk by (rewrite Hrest by lia; done).
    rewrite Hqk.
    assert (∀ j, S k ≤ j → q !! j = q0 !! j) as Hrest' by (intros j Hj; apply Hrest; lia).
    set (taken := bool_decide (m_renderFenceForFeedback fk ≤ completed)%Z
                  && (bool_decide (idx = 0)
                      || bool_decide (latest ≤ m_renderFenceForFeedback fk)%Z)).
    destruct (m_feedbackQueued fk) eqn:Hqueued; [destruct taken eqn:Htaken|].
    + (* the buffer is selected *)
      subst taken. apply andb_true_iff in Htaken as [Hc%bool_decide_eq_true Hlate].
      assert (idx = 0 ∨ (latest ≤ m_renderFenceForFeedback fk)%Z) as Hlate'.
      { apply orb_true_iff in Hlate as [H%bool_decide_eq_true|H%bool_decide_eq_true]; auto. }
      assert (feedback_eligible completed fk) as Hel by done.
      eexists _, _, _. split; [reflexivity|].
      split; [by rewrite length_insert|].
      split; [intros j Hj; rewrite list_lookup_insert_ne by lia; by apply Hrest'|].
      split; [|split; [lia|]].
      * intros j f0 Hj. destruct (decide (j = k)) as [->|Hne].
        -- right. rewrite Hfk in Hj. injection Hj as <-. split; [done|].
           apply list_lookup_insert_eq. lia.
        -- rewrite list_lookup_insert_ne by done. by apply Hchg.
      * intros i Hi. assert (i = k) as -> by lia. split; [lia|].
        exists fk. split; [done|]. split; [done|]. split; [done|].
        split; [apply list_lookup_insert_eq; lia|].
        assert (∀ j f', j < k → q0 !! j = Some f' → feedback_eligible completed f' →
                  (m_renderFenceForFeedback f' ≤ m_renderFenceForFeedback fk)%Z) as Hmax.
        { intros j f' Hj Hf' Hel'. destruct Hlate' as [Hz|Hle].
          - destruct (Hzero Hz) as [_ Hnone]. by destruct (Hnone j f' Hj Hf').
          - destruct idx as [|i]; [destruct (Hzero eq_refl) as [_ Hnone];
                                    by destruct (Hnone j f' Hj Hf')|].
            destruct (Hsel i eq_refl) as (_ & f & _ & _ & _ & _ & Hm & _).
            pose proof (Hm j f' Hj Hf' Hel'). lia. }
        split; [|split].
        -- intros j f' Hj Hf' Hel'. destruct (decide (j = k)) as [->|Hne].
           ++ rewrite Hfk in Hf'. injection Hf' as <-. lia.
           ++ apply (Hmax j f'); [lia|done|done].
        -- intros j f' Hj. lia.
        -- intros j f' Hj Hf' Hel'. destruct (decide (j = k)) as [->|Hne].
           ++ rewrite list_lookup_insert_eq in Hf' by lia. injection Hf' as <-.
              by destruct Hel' as [Hq _].
           ++ rewrite list_lookup_insert_ne in Hf' by done.
              destruct Hlate' as [Hz|Hle].
              ** destruct (Hzero Hz) as [-> Hnone]. by destruct (Hnone j f' ltac:(lia) Hf').
              ** destruct idx as [|i].
                 { destruct (Hzero eq_refl) as [-> Hnone].
                   by destruct (Hnone j f' ltac:(lia) Hf'). }
                 destruct (Hsel i eq_refl) as (_ & f & _ & _ & _ & _ & _ & _ & Hm).
                 pose proof (Hm j f' ltac:(lia) Hf' Hel'). lia.
    + (* the buffer is queued and is not selected *)
      subst taken. apply andb_false_iff in Htaken.
      exists q, idx, latest. split; [done|]. split; [done|]. split; [done|].
      split; [done|]. split.
      * intros Hz. destruct (Hzero Hz) as [-> Hnone]. split; [done|].
        intros j f Hj Hf. destruct (decide (j = k)) as [->|Hne]; [|apply (Hnone j f); [lia|done]].
        rewrite Hfk in Hf. injection Hf as <-. intros [_ Hc].
        destruct Htaken as [H%bool_decide_eq_false|H]; [done|].
        apply orb_false_iff in H as [H%bool_decide_eq_false _]. done.
      * intros i Hi. destruct (Hsel i Hi) as (Hik & f & Hf & Hel & Hlat & Hqi & Hm1 & Hm2 & Hm3).
        split; [lia|]. exists f. split; [done|]. split; [done|]. split; [done|].
        split; [done|].
        assert (feedback_eligible completed fk →
                (m_renderFenceForFeedback fk < latest)%Z) as Hk'.
        { intros [_ Hc]. destruct Htaken as [H%bool_decide_eq_false|H]; [done|].
          apply orb_false_iff in H as [_ H%bool_decide_eq_false]. lia. }
        split; [|split].
        -- intros j f' Hj Hf' Hel'. destruct (decide (j = k)) as [->|Hne].
           ++ rewrite Hfk in Hf'. injection Hf' as <-. pose proof (Hk' Hel'). lia.
           ++ apply (Hm1 j f'); [lia|done|done].
        -- intros j f' Hj Hf' Hel'. destruct (decide (j = k)) as [->|Hne].
           ++ rewrite Hfk in Hf'. injection Hf' as <-. by apply Hk'.
           ++ apply (Hm2 j f'); [lia|done|done].
        -- intros j f' Hj Hf' Hel'. destruct (decide (j = k)) as [->|Hne].
           ++ rewrite Hqk in Hf'. injection Hf' as <-. by apply Hk'.
           ++ apply (Hm3 j f'); [lia|done|done].
    + (* the buffer is not queued *)
      assert (¬ feedback_eligible completed fk) as Hnel.
      { intros [Hq _]. congruence. }
      exists q, idx, latest. split; [done|]. split; [done|]. split; [done|].
      split; [done|]. split.
      * intros Hz. destruct (Hzero Hz) as [-> Hnone]. split; [done|].
        intros j f Hj Hf. destruct (decide (j = k)) as [->|Hne]; [|apply (Hnone j f); [lia|done]].
        rewrite Hfk in Hf. by injection Hf as <-.
      * intros i Hi. destruct (Hsel i Hi) as (Hik & f & Hf & Hel & Hlat & Hqi & Hm1 & Hm2 & Hm3).
        split; [lia|]. exists f. split; [done|]. split; [done|]. split; [done|].
        split; [done|]. split; [|split].
        -- intros j f' Hj Hf' Hel'. destruct (decide (j = k)) as [->|Hne].
           ++ rewrite Hfk in Hf'. by injection Hf' as <-.
           ++ apply (Hm1 j f'); [lia|done|done].
        -- intros j f' Hj Hf' Hel'. destruct (decide (j = k)) as [->|Hne].
           ++ rewrite Hfk in Hf'. by injection Hf' as <-.
           ++ apply (Hm2 j f'); [lia|done|done].
        -- intros j f' Hj Hf' Hel'. destruct (decide (j = k)) as [->|Hne].
           ++ rewrite Hqk in Hf'. by injection Hf' as <-.
           ++ apply (Hm3 j f'); [lia|done|done].
Qed.

(** What [AddTileRef], [DecTileRef] and the writes of the tile references
    keep, the update loops of [ProcessFeedback] keep. *)
Lemma ProcessFeedback_update_loops_ind (P : StreamingResourceBase → Prop)
    (RESOLVE_TO_TEXTURE : bool) (pResolvedData : list nat) (width height : nat)
    (r : StreamingResourceBase) :
  (∀ x y s r0, P r0 → P (AddTileRef x y s r0)) →
  (∀ x y s r0, P r0 → P (DecTileRef x y s r0)) →
  (∀ refs r0, P r0 → P (set_tileReferences refs r0)) →
  P r →
  P (fst (ProcessFeedback_update_loops RESOLVE_TO_TEXTURE pResolvedData width height r)).
Proof.
  intros Hadd Hdec Hrefs Hr.
  assert (∀ u v d c r0, P r0 → P (snd (SetMinMip_addrefs c u v d r0))) as Haddrefs.
  { intros u v d. induction c as [|c IH]; intros r0 H0; simpl; [done|].
    case_bool_decide; [|done]. by apply IH, Hadd. }
  assert (∀ u v dist c r0, P r0 → P (SetMinMip_decrefs dist c u v r0)) as Hdecrefs.
  { intros u v. induction dist as [|dist IH]; intros c r0 H0; simpl; [done|].
    by apply IH, Hdec. }
  assert (∀ c u v d r0, P r0 → P (SetMinMip c u v d r0)) as Hset.
  { intros c u v d r0 H0. unfold SetMinMip.
    pose proof (Haddrefs u v d c r0 H0) as H1.
    destruct (SetMinMip_addrefs c u v d r0) as [s r1]. by apply Hdecrefs. }
  unfold ProcessFeedback_update_loops.
  pose proof (foldl_invariant
    (λ st : StreamingResourceBase * bool * nat * nat, P (fst (fst (fst st))))
    (ProcessFeedback_update_row RESOLVE_TO_TEXTURE pResolvedData width)
    (seq 0 height) (r, false, 0, 0)) as Hrows.
  destruct (foldl _ _ _) as [[[r1 ch1] t1] p1]. apply Hrows; [done|].
  intros [[[r2 ch2] t2] p2] y Hr2 _. cbn [fst] in Hr2.
  unfold ProcessFeedback_update_row.
  pose proof (foldl_invariant
    (λ st : StreamingResourceBase * bool, P (fst st))
    (ProcessFeedback_update_body pResolvedData p2 t2 y)
    (seq 0 width) (r2, ch2)) as Hrow.
  destruct (foldl _ _ _) as [r3 ch3]. apply Hrow; [done|].
  intros [r4 ch4] x Hr4 _. cbn [fst] in Hr4.
  unfold ProcessFeedback_update_body. cbn [fst]. by apply Hrefs, Hset.
Qed.

Lemma same_settings_refl (r : StreamingResourceBase) : same_settings r r.
Proof. by repeat split. Qed.

Lemma ProcessFeedback_update_loops_settings (RESOLVE_TO_TEXTURE : bool)
    (pResolvedData : list nat) (width height : nat) (r : StreamingResourceBase) :
  same_settings r
    (fst (ProcessFeedback_update_loops RESOLVE_TO_TEXTURE pResolvedData width height r)).
Proof.
  apply (ProcessFeedback_update_loops_ind (same_settings r)).
  - intros x y s r0 H0. unfold AddTileRef. by case_bool_decide.
  - intros x y s r0 H0. unfold DecTileRef. by case_bool_decide.
  - by intros refs r0 H0.
  - apply same_settings_refl.
Qed.

(** The queue of feedback buffers after a pass without the evict-all
    signal is the queue that the selection leaves. *)
Lemma ProcessFeedback_queuedFeedback (RESOLVE_TO_TEXTURE : bool) (completed : Z)
    (resolved : nat → list nat) (r : StreamingResourceBase) :
  m_setZeroRefCounts r = false →
  m_queuedFeedback (ProcessFeedback RESOLVE_TO_TEXTURE completed resolved r)
  = fst (fst (foldl (ProcessFeedback_select_body completed)
                (m_queuedFeedback r, 0, 0%Z) (seq 0 (length (m_queuedFeedback r))))).
Proof.
  intros Hzero. unfold ProcessFeedback. rewrite Hzero.
  destruct (foldl (ProcessFeedback_select_body completed) _ _) as [[q idx] latest].
  cbn [fst]. case_bool_decide; [done|].
  match goal with
  | |- context [ProcessFeedback_update_loops ?b ?d ?w ?h ?r0] =>
      pose proof (ProcessFeedback_update_loops_settings b d w h r0) as Hs;
      destruct (ProcessFeedback_update_loops b d w h r0) as [r1 ch1]
  end.
  cbn [fst] in Hs. destruct Hs as (_ & _ & _ & _ & Hq & _).
  unfold AbandonPending. destruct ch1; by destruct (AbandonPending_loop _ _ _ _).
Qed.

(** X1.  Without the evict-all signal and with no feedback buffer that is
    both queued and reached by the frame fence, [ProcessFeedback] leaves the
    resource exactly as it is: nothing is selected, no reference count, tile
    reference, queue or flag changes. *)
Theorem ProcessFeedback_no_feedback (RESOLVE_TO_TEXTURE : bool) (completed : Z)
    (resolved : nat → list nat) (r : StreamingResourceBase) :
  m_setZeroRefCounts r = false →
  (∀ f, f ∈ m_queuedFeedback r → ¬ feedback_eligible completed f) →
  ProcessFeedback_selected completed r = 0
  ∧ ProcessFeedback RESOLVE_TO_TEXTURE completed resolved r = r.
Proof.
  intros Hzero Hnone.
  destruct (ProcessFeedback_select_spec completed (m_queuedFeedback r)
              (length (m_queuedFeedback r)))
    as (q & idx & latest & Hfold & _ & _ & _ & Hz & Hsel); [done|].
  assert (idx = 0) as ->.
  { destruct idx as [|i]; [done|].
    destruct (Hsel i eq_refl) as (_ & f & Hf & Hel & _).
    destruct (Hnone f); [by eapply list_elem_of_lookup_2|done]. }
  destruct (Hz eq_refl) as [-> _].
  unfold ProcessFeedback_selected, ProcessFeedback. rewrite Hzero, Hfold.
  split; [done|]. simpl. by destruct r.
Qed.

Lemma ProcessFeedback_no_feedback_witness :
  ProcessFeedback false 0 cold_feedback (ResolveFeedback 2 1 cold_resource)
  = ResolveFeedback 2 1 cold_resource.
Proof.
  apply (ProcessFeedback_no_feedback false 0 cold_feedback (ResolveFeedback 2 1 cold_resource)).
  - reflexivity.
  - intros f Hf [Hq Hc].
    assert (m_queuedFeedback (ResolveFeedback 2 1 cold_resource)
            = [ {| m_renderFenceForFeedback := 4294967295; m_feedbackQueued := false |};
                {| m_renderFenceForFeedback := 1; m_feedbackQueued := true |} ]) as Hqueue
      by (vm_compute; reflexivity).
    rewrite Hqueue, !elem_of_cons, elem_of_nil in Hf.
    destruct Hf as [->|[->|[]]]; simpl in *; [discriminate|lia].
Defined.





(** ** The tile references after a pass *)

Lemma foldl_seq_invariant {A} (f : A → nat → A) (P : nat → A → Prop) (n : nat) (a : A) :
  P 0 a →
  (∀ i a', i < n → P i a' → P (S i) (f a' i)) →
  P n (foldl f a (seq 0 n)).
Proof.
  intros H0 Hstep. induction n as [|n IH]; [done|].
  rewrite seq_S, foldl_snoc. apply Hstep; [lia|]. apply IH.
  intros i a' Hi. apply Hstep. lia.
Qed.

(** What [AddTileRef] and [DecTileRef] keep, [SetMinMip] keeps. *)
Lemma SetMinMip_keeps (P : StreamingResourceBase → Prop) :
  (∀ x y s r0, P r0 → P (AddTileRef x y s r0)) →
  (∀ x y s r0, P r0 → P (DecTileRef x y s r0)) →
  ∀ c u v d r, P r → P (SetMinMip c u v d r).
Proof.
  intros Hadd Hdec.
  assert (∀ u v d c r0, P r0 → P (snd (SetMinMip_addrefs c u v d r0))) as Haddrefs.
  { intros u v d. induction c as [|c IH]; intros r0 H0; simpl; [done|].
    case_bool_decide; [|done]. by apply IH, Hadd. }
  assert (∀ u v dist c r0, P r0 → P (SetMinMip_decrefs dist c u v r0)) as Hdecrefs.
  { intros u v. induction dist as [|dist IH]; intros c r0 H0; simpl; [done|].
    by apply IH, Hdec. }
  intros c u v d r0 H0. unfold SetMinMip.
  pose proof (Haddrefs u v d c r0 H0) as H1.
  destruct (SetMinMip_addrefs c u v d r0) as [s r1]. by apply Hdecrefs.
Qed.

Lemma SetMinMip_settings (c u v d : nat) (r : StreamingResourceBase) :
  same_settings r (SetMinMip c u v d r)
  ∧ m_tileReferences (SetMinMip c u v d r) = m_tileReferences r.
Proof.
  apply (SetMinMip_keeps (λ r', same_settings r r' ∧ m_tileReferences r' = m_tileReferences r)).
  - intros x y s r0 H0. unfold AddTileRef. by case_bool_decide.
  - intros x y s r0 H0. unfold DecTileRef. by case_bool_decide.
  - split; [apply same_settings_refl|done].
Qed.

Lemma SetMinMip_same (c u v : nat) (r : StreamingResourceBase) : SetMinMip c u v c r = r.
Proof.
  unfold SetMinMip. rewrite SetMinMip_addrefs_skip by done. by rewrite Nat.sub_diag.
Qed.

(** The update loops write the clamped feedback into the tile reference of
    every region and keep the number of the tile references. *)
Lemma ProcessFeedback_update_loops_references (RESOLVE_TO_TEXTURE : bool)
    (pResolvedData : list nat) (width height : nat) (r : StreamingResourceBase) :
  width * height ≤ length (m_tileReferences r) →
  let r' := fst (ProcessFeedback_update_loops RESOLVE_TO_TEXTURE pResolvedData width height r) in
  length (m_tileReferences r') = length (m_tileReferences r)
  ∧ (∀ x y, x < width → y < height →
       m_tileReferences r' !! (y * width + x)
       = Some (clamped_feedback RESOLVE_TO_TEXTURE pResolvedData width (m_maxMip r) x y))
  ∧ (∀ i, width * height ≤ i → m_tileReferences r' !! i = m_tileReferences r !! i).
Proof.
  intros Hlen. cbv zeta. unfold ProcessFeedback_update_loops.
  set (pitch := ProcessFeedback_rowPitch RESOLVE_TO_TEXTURE width).
  pose (Prow := λ (y : nat) (st : StreamingResourceBase * bool * nat * nat),
          same_settings r (fst (fst (fst st)))
          ∧ snd (fst st) = y * width ∧ snd st = y * pitch
          ∧ length (m_tileReferences (fst (fst (fst st)))) = length (m_tileReferences r)
          ∧ (∀ x y', x < width → y' < y →
               m_tileReferences (fst (fst (fst st))) !! (y' * width + x)
               = Some (clamped_feedback RESOLVE_TO_TEXTURE pResolvedData width (m_maxMip r) x y'))
          ∧ (∀ i, y * width ≤ i →
               m_tileReferences (fst (fst (fst st))) !! i = m_tileReferences r !! i)).
  assert (Prow height
            (foldl (ProcessFeedback_update_row RESOLVE_TO_TEXTURE pResolvedData width)
               (r, false, 0, 0) (seq 0 height))) as Hrows.
  { apply (foldl_seq_invariant _ Prow).
    - unfold Prow. simpl. split; [apply same_settings_refl|].
      split; [done|]. split; [done|]. split; [done|]. split; [|done]. intros x y' _ Hy. lia.
    - intros y [[[r1 ch1] t1] p1] Hy (Hs1 & Ht1 & Hp1 & Hl1 & Hdone1 & Hrest1).
      cbn [fst snd] in *. subst t1 p1.
      unfold ProcessFeedback_update_row.
      pose (Pcell := λ (x : nat) (st : StreamingResourceBase * bool),
              same_settings r (fst st)
              ∧ length (m_tileReferences (fst st)) = length (m_tileReferences r)
              ∧ (∀ x', x' < x →
                   m_tileReferences (fst st) !! (y * width + x')
                   = Some (clamped_feedback RESOLVE_TO_TEXTURE pResolvedData width
                             (m_maxMip r) x' y))
              ∧ (∀ i, i < y * width ∨ y * width + x ≤ i →
                   m_tileReferences (fst st) !! i = m_tileReferences r1 !! i)).
      assert (Pcell width
                (foldl (ProcessFeedback_update_body pResolvedData (y * pitch) (y * width) y)
                   (r1, ch1) (seq 0 width))) as Hcells.
      { apply (foldl_seq_invariant _ Pcell).
        - unfold Pcell. simpl. split; [done|]. split; [done|]. split; [|done].
          intros x' Hx'. lia.
        - intros x [r2 ch2] Hx (Hs2 & Hl2 & Hdone2 & Hrest2). cbn [fst] in *.
          unfold ProcessFeedback_update_body.
          destruct (SetMinMip_settings
                      (default 0 (m_tileReferences r2 !! (y * width + x))) x y
                      (default 0 (pResolvedData !! (y * pitch + x)) `min` m_maxMip r2) r2)
            as [Hs3 Hrefs3].
          unfold Pcell. cbn [fst m_tileReferences set_tileReferences].
          assert (m_maxMip r2 = m_maxMip r) as HM by apply Hs2.
          split.
          { destruct Hs2 as (?&?&?&?&?&?&?&?&?&?), Hs3 as (?&?&?&?&?&?&?&?&?&?).
            repeat split; simpl; congruence. }
          rewrite Hrefs3. split; [by rewrite length_insert|]. split.
          + intros x' Hx'. destruct (decide (x' = x)) as [->|Hne].
            * rewrite list_lookup_insert_eq by (rewrite Hl2; nia).
              unfold clamped_feedback. fold pitch. by rewrite HM.
            * rewrite list_lookup_insert_ne by lia. apply Hdone2. lia.
          + intros i Hi. rewrite list_lookup_insert_ne by lia. apply Hrest2. lia. }
      destruct (foldl (ProcessFeedback_update_body _ _ _ _) _ _) as [r3 ch3].
      destruct Hcells as (Hs3 & Hl3 & Hdone3 & Hrest3). cbn [fst] in *.
      unfold Prow. cbn [fst snd].
      split; [done|]. split; [lia|]. split; [fold pitch; lia|]. split; [done|]. split.
      + intros x y' Hx Hy'. destruct (decide (y' = y)) as [->|Hne]; [by apply Hdone3|].
        rewrite Hrest3 by (left; nia). apply Hdone1; [done|lia].
      + intros i Hi. rewrite Hrest3 by (right; lia). apply Hrest1. lia. }
  destruct (foldl (ProcessFeedback_update_row _ _ _) _ _) as [[[r1 ch1] t1] p1].
  destruct Hrows as (_ & _ & _ & Hl & Hdone & Hrest). cbn [fst] in *.
  split; [done|]. split; [done|]. intros i Hi. apply Hrest. lia.
Qed.

(** A pass that consumes the buffer [i], step by step. *)
Lemma ProcessFeedback_consume_unfold (RESOLVE_TO_TEXTURE : bool) (completed : Z)
    (resolved : nat → list nat) (r : StreamingResourceBase) (i : nat) :
  m_setZeroRefCounts r = false →
  ProcessFeedback_selected completed r = S i →
  ProcessFeedback RESOLVE_TO_TEXTURE completed resolved r
  = let q := fst (fst (foldl (ProcessFeedback_select_body completed)
                         (m_queuedFeedback r, 0, 0%Z)
                         (seq 0 (length (m_queuedFeedback r))))) in
    let res := ProcessFeedback_update_loops RESOLVE_TO_TEXTURE (resolved i)
                 (GetNumTilesWidth r) (GetNumTilesHeight r) (set_queuedFeedback q r) in
    let r2 := if snd res then set_refCountsZero false (fst res) else fst res in
    let r3 := AbandonPending r2 in
    let r4 := set_pendingEvictions
                (EvictionDelay.Rescue (m_tileMappingState r3) (m_pendingEvictions r3)) r3 in
    if snd res then SetResidencyChanged r4 else r4.
Proof.
  intros Hzero Hsel. unfold ProcessFeedback, ProcessFeedback_selected in *.
  rewrite Hzero.
  destruct (foldl (ProcessFeedback_select_body completed) _ _) as [[q feedbackIndex] latest].
  cbn [fst snd] in *. subst feedbackIndex.
  rewrite bool_decide_eq_false_2 by done.
  replace (S i - 1) with i by lia.
  by destruct (ProcessFeedback_update_loops RESOLVE_TO_TEXTURE _ _ _ _) as [r1 changed].
Qed.

(** X4.  A pass of [ProcessFeedback] that consumes the feedback buffer [i]
    leaves, as the tile reference of every region [(x, y)], the value of the
    buffer for the region clamped to [m_maxMip]; the number of the tile
    references, the sizes and [m_maxMip] are unchanged. *)
Theorem ProcessFeedback_writes_clamped_feedback (RESOLVE_TO_TEXTURE : bool) (completed : Z)
    (resolved : nat → list nat) (r : StreamingResourceBase) (i : nat) :
  m_setZeroRefCounts r = false →
  ProcessFeedback_selected completed r = S i →
  GetNumTilesWidth r * GetNumTilesHeight r ≤ length (m_tileReferences r) →
  let r' := ProcessFeedback RESOLVE_TO_TEXTURE completed resolved r in
  length (m_tileReferences r') = length (m_tileReferences r)
  ∧ GetNumTilesWidth r' = GetNumTilesWidth r
  ∧ GetNumTilesHeight r' = GetNumTilesHeight r
  ∧ m_maxMip r' = m_maxMip r
  ∧ ∀ x y, x < GetNumTilesWidth r → y < GetNumTilesHeight r →
      m_tileReferences r' !! (y * GetNumTilesWidth r + x)
      = Some (clamped_feedback RESOLVE_TO_TEXTURE (resolved i)
                (GetNumTilesWidth r) (m_maxMip r) x y).
Proof.
  intros Hzero Hsel Hlen r'. subst r'.
  rewrite (ProcessFeedback_consume_unfold _ _ _ _ i Hzero Hsel). cbv zeta.
  set (q := fst (fst (foldl _ _ _))).
  pose proof (ProcessFeedback_update_loops_references RESOLVE_TO_TEXTURE (resolved i)
                (GetNumTilesWidth r) (GetNumTilesHeight r) (set_queuedFeedback q r) Hlen)
    as (Hl & Hrefs & _).
  pose proof (ProcessFeedback_update_loops_settings RESOLVE_TO_TEXTURE (resolved i)
                (GetNumTilesWidth r) (GetNumTilesHeight r) (set_queuedFeedback q r))
    as (HW & HH & HM & _).
  destruct (ProcessFeedback_update_loops RESOLVE_TO_TEXTURE _ _ _ _) as [r1 changed].
  cbn [fst snd] in *. unfold AbandonPending.
  destruct changed; destruct (AbandonPending_loop _ _ _ _); done.
Qed.

Lemma ProcessFeedback_writes_clamped_feedback_witness :
  m_tileReferences cold_after_feedback !! 0 = Some 0
  ∧ m_tileReferences cold_after_feedback !! 5 = Some 4.
Proof.
  destruct (ProcessFeedback_writes_clamped_feedback false 1 cold_feedback
              (ResolveFeedback 2 1 cold_resource) 1) as (_ & _ & _ & _ & Hrefs);
    [reflexivity|reflexivity|vm_compute; lia|].
  split.
  - exact (Hrefs 0 0 ltac:(vm_compute; lia) ltac:(vm_compute; lia)).
  - exact (Hrefs 1 1 ltac:(vm_compute; lia) ltac:(vm_compute; lia)).
Defined.

(** ** Pending tiles that are all kept *)

Lemma AbandonPending_loop_fixed (tms : TileMappingState) :
  ∀ (window pre : list D3D12_TILED_RESOURCE_COORDINATE),
    Forall (referenced tms) window →
    AbandonPending_loop tms (length window) (length pre) (pre ++ window)
    = (pre ++ window, length pre + length window).
Proof.
  induction window as [|c w IH]; intros pre Hall.
  - simpl. by rewrite Nat.add_0_r.
  - apply Forall_cons in Hall as [Hc Hw]. cbn [length AbandonPending_loop].
    rewrite lookup_app_r by lia. rewrite Nat.sub_diag. cbn [lookup list_lookup].
    rewrite bool_decide_eq_true_2 by exact Hc.
    pose proof (IH (pre ++ [c]) Hw) as Heq.
    rewrite length_app in Heq. simpl in Heq. rewrite Nat.add_1_r in Heq.
    rewrite <- (assoc_L (++)) in Heq. simpl in Heq. rewrite Heq. f_equal. lia.
Qed.

Lemma AbandonPending_fixed (r : StreamingResourceBase) :
  Forall (referenced (m_tileMappingState r)) (m_pendingTileLoads r) →
  AbandonPending r = r.
Proof.
  intros Hall. unfold AbandonPending.
  pose proof (AbandonPending_loop_fixed (m_tileMappingState r) (m_pendingTileLoads r) [] Hall)
    as Heq.
  simpl in Heq. rewrite Heq. rewrite firstn_all. by destruct r.
Qed.

Lemma Rescue_bucket_fixed (tms : TileMappingState) (ev : MappingCoords) :
  Forall (λ c, ¬ referenced tms c) ev → EvictionDelay.Rescue_bucket tms ev = ev.
Proof.
  intros Hall. unfold EvictionDelay.Rescue_bucket.
  assert (foldl (EvictionDelay.Rescue_body tms) (ev, 0) (seq 0 (length ev)) = (ev, 0)) as ->.
  { apply (foldl_seq_invariant _ (λ _ st, st = (ev, 0))); [done|].
    intros j st Hj ->. unfold EvictionDelay.Rescue_body.
    destruct (ev !! j) as [c|] eqn:Hc; [|done].
    rewrite bool_decide_eq_false_2; [done|].
    rewrite Forall_forall in Hall. apply (Hall c). by eapply list_elem_of_lookup_2. }
  done.
Qed.

Lemma Rescue_fixed (tms : TileMappingState) (ed : EvictionDelay.t) :
  Forall (Forall (λ c, ¬ referenced tms c)) (EvictionDelay.m_mappings ed) →
  EvictionDelay.Rescue tms ed = ed.
Proof.
  intros Hall. destruct ed as [m]. unfold EvictionDelay.Rescue. f_equal.
  cbn [EvictionDelay.m_mappings] in *.
  induction Hall as [|b m Hb Hm IH]; [done|].
  simpl. by rewrite Rescue_bucket_fixed, IH.
Qed.


(** ** Feedback that asks for what is referenced already *)

(** The update loops change nothing when every tile reference is the
    clamped feedback already. *)
Lemma ProcessFeedback_update_loops_fixed (RESOLVE_TO_TEXTURE : bool)
    (pResolvedData : list nat) (width height : nat) (r : StreamingResourceBase) :
  (∀ x y, x < width → y < height →
     m_tileReferences r !! (y * width + x)
     = Some (clamped_feedback RESOLVE_TO_TEXTURE pResolvedData width (m_maxMip r) x y)) →
  ProcessFeedback_update_loops RESOLVE_TO_TEXTURE pResolvedData width height r = (r, false).
Proof.
  intros Hrefs. unfold ProcessFeedback_update_loops.
  set (pitch := ProcessFeedback_rowPitch RESOLVE_TO_TEXTURE width).
  assert (foldl (ProcessFeedback_update_row RESOLVE_TO_TEXTURE pResolvedData width)
            (r, false, 0, 0) (seq 0 height)
          = (r, false, height * width, height * pitch)) as ->; [|done].
  apply (foldl_seq_invariant _ (λ y st, st = (r, false, y * width, y * pitch))); [done|].
  intros y st Hy ->. unfold ProcessFeedback_update_row. fold pitch.
  assert (foldl (ProcessFeedback_update_body pResolvedData (y * pitch) (y * width) y)
            (r, false) (seq 0 width) = (r, false)) as ->.
  { apply (foldl_seq_invariant _ (λ _ st, st = (r, false))); [done|].
    intros x st Hx ->. unfold ProcessFeedback_update_body.
    pose proof (Hrefs x y Hx Hy) as Hxy. unfold clamped_feedback in Hxy. fold pitch in Hxy.
    rewrite Hxy. cbn [default].
    rewrite bool_decide_eq_false_2 by (intros Hne; by apply Hne).
    rewrite SetMinMip_same. rewrite list_insert_id by exact Hxy. by destruct r. }
  f_equal; [f_equal|]; lia.
Qed.

(** A pass over feedback that asks for what is referenced already, when no
    pending load is unreferenced and no delayed eviction is referenced,
    changes the queue of the feedback only. *)
Lemma ProcessFeedback_unchanged_feedback (RESOLVE_TO_TEXTURE : bool) (completed : Z)
    (resolved : nat → list nat) (r : StreamingResourceBase) (i : nat) :
  m_setZeroRefCounts r = false →
  ProcessFeedback_selected completed r = S i →
  (∀ x y, x < GetNumTilesWidth r → y < GetNumTilesHeight r →
     m_tileReferences r !! (y * GetNumTilesWidth r + x)
     = Some (clamped_feedback RESOLVE_TO_TEXTURE (resolved i)
               (GetNumTilesWidth r) (m_maxMip r) x y)) →
  Forall (referenced (m_tileMappingState r)) (m_pendingTileLoads r) →
  Forall (Forall (λ c, ¬ referenced (m_tileMappingState r) c))
    (EvictionDelay.m_mappings (m_pendingEvictions r)) →
  ∃ q, ProcessFeedback RESOLVE_TO_TEXTURE completed resolved r = set_queuedFeedback q r.
Proof.
  intros Hzero Hsel Hrefs Hloads Hev.
  rewrite (ProcessFeedback_consume_unfold _ _ _ _ i Hzero Hsel). cbv zeta.
  set (q := fst (fst (foldl _ _ _))). exists q.
  rewrite ProcessFeedback_update_loops_fixed by exact Hrefs. cbn [fst snd].
  rewrite AbandonPending_fixed by exact Hloads.
  change (m_tileMappingState (set_queuedFeedback q r)) with (m_tileMappingState r).
  change (m_pendingEvictions (set_queuedFeedback q r)) with (m_pendingEvictions r).
  rewrite Rescue_fixed by exact Hev. by destruct r.
Qed.

(** The pending tiles after a pass that consumes feedback: every pending
    load is referenced, no delayed eviction is. *)
Lemma ProcessFeedback_consume_pending (RESOLVE_TO_TEXTURE : bool) (completed : Z)
    (resolved : nat → list nat) (r : StreamingResourceBase) (i : nat) :
  m_setZeroRefCounts r = false →
  ProcessFeedback_selected completed r = S i →
  let r' := ProcessFeedback RESOLVE_TO_TEXTURE completed resolved r in
  m_setZeroRefCounts r' = false
  ∧ Forall (referenced (m_tileMappingState r')) (m_pendingTileLoads r')
  ∧ Forall (Forall (λ c, ¬ referenced (m_tileMappingState r') c))
      (EvictionDelay.m_mappings (m_pendingEvictions r')).
Proof.
  intros Hzero Hsel r'. subst r'.
  rewrite (ProcessFeedback_consume_unfold _ _ _ _ i Hzero Hsel). cbv zeta.
  set (q := fst (fst (foldl _ _ _))).
  pose proof (ProcessFeedback_update_loops_settings RESOLVE_TO_TEXTURE (resolved i)
                (GetNumTilesWidth r) (GetNumTilesHeight r) (set_queuedFeedback q r))
    as (_ & _ & _ & _ & _ & Hz & _).
  destruct (ProcessFeedback_update_loops RESOLVE_TO_TEXTURE _ _ _ _) as [r1 changed].
  cbn [fst snd] in *.
  set (r2 := if changed then set_refCountsZero false r1 else r1).
  assert (m_setZeroRefCounts r2 = false) as Hz2.
  { subst r2. destruct changed; cbn; rewrite Hz; exact Hzero. }
  destruct (AbandonPending_spec r2) as (Hperm & Htms & Hpe).
  set (r3 := AbandonPending r2) in *.
  assert (m_setZeroRefCounts r3 = false) as Hz3.
  { subst r3. unfold AbandonPending. by destruct (AbandonPending_loop _ _ _ _). }
  pose proof (Rescue_spec (m_tileMappingState r3) (m_pendingEvictions r3)) as Hres.
  set (ed := EvictionDelay.Rescue (m_tileMappingState r3) (m_pendingEvictions r3)) in *.
  assert (Forall (referenced (m_tileMappingState r3)) (m_pendingTileLoads r3)) as Hl3.
  { rewrite Htms, Forall_forall. intros c Hc. rewrite Hperm in Hc.
    by apply list_elem_of_filter in Hc as [Hc _]. }
  assert (Forall (Forall (λ c, ¬ referenced (m_tileMappingState r3) c))
            (EvictionDelay.m_mappings ed)) as He3.
  { clear -Hres. induction Hres as [|b' b m' m Hb Hm IH]; constructor; [|done].
    rewrite Forall_forall. intros c Hc. rewrite Hb in Hc.
    by apply list_elem_of_filter in Hc as [Hc _]. }
  destruct changed; done.
Qed.


(** The tile references and the sizes after a pass that consumes the
    buffer [i] are those the update loops leave. *)
Lemma ProcessFeedback_consume_tileReferences (RESOLVE_TO_TEXTURE : bool) (completed : Z)
    (resolved : nat → list nat) (r : StreamingResourceBase) (i : nat) :
  m_setZeroRefCounts r = false →
  ProcessFeedback_selected completed r = S i →
  GetNumTilesWidth r * GetNumTilesHeight r ≤ length (m_tileReferences r) →
  let r' := ProcessFeedback RESOLVE_TO_TEXTURE completed resolved r in
  GetNumTilesWidth r' = GetNumTilesWidth r
  ∧ GetNumTilesHeight r' = GetNumTilesHeight r
  ∧ m_maxMip r' = m_maxMip r
  ∧ ∀ x y, x < GetNumTilesWidth r → y < GetNumTilesHeight r →
      m_tileReferences r' !! (y * GetNumTilesWidth r + x)
      = Some (clamped_feedback RESOLVE_TO_TEXTURE (resolved i)
                (GetNumTilesWidth r) (m_maxMip r) x y).
Proof.
  intros Hzero Hsel Hlen r'. subst r'.
  rewrite (ProcessFeedback_consume_unfold _ _ _ _ i Hzero Hsel). cbv zeta.
  set (q := fst (fst (foldl _ _ _))).
  pose proof (ProcessFeedback_update_loops_references RESOLVE_TO_TEXTURE (resolved i)
                (GetNumTilesWidth r) (GetNumTilesHeight r) (set_queuedFeedback q r) Hlen)
    as (_ & Hrefs & _).
  pose proof (ProcessFeedback_update_loops_settings RESOLVE_TO_TEXTURE (resolved i)
                (GetNumTilesWidth r) (GetNumTilesHeight r) (set_queuedFeedback q r))
    as (HW & HH & HM & _).
  destruct (ProcessFeedback_update_loops RESOLVE_TO_TEXTURE _ _ _ _) as [r1 changed].
  cbn [fst snd] in *. unfold AbandonPending.
  destruct changed; destruct (AbandonPending_loop _ _ _ _); done.
Qed.

(** X5.  When a pass of [ProcessFeedback] has consumed a feedback buffer and,
    after a further [ResolveFeedback], a second pass consumes a buffer of
    the same content, the second pass changes the queue of the feedback
    only: no reference count, no tile reference, no pending load or
    eviction and no flag of the resource changes. *)
Theorem ProcessFeedback_same_feedback_twice (RESOLVE_TO_TEXTURE : bool)
    (completed1 completed2 frameFenceValue : Z) (numSwapBuffers : nat)
    (resolved1 resolved2 : nat → list nat) (r : StreamingResourceBase) (i j : nat) :
  m_setZeroRefCounts r = false →
  ProcessFeedback_selected completed1 r = S i →
  GetNumTilesWidth r * GetNumTilesHeight r ≤ length (m_tileReferences r) →
  let r2 := ResolveFeedback numSwapBuffers frameFenceValue
              (ProcessFeedback RESOLVE_TO_TEXTURE completed1 resolved1 r) in
  ProcessFeedback_selected completed2 r2 = S j →
  resolved2 j = resolved1 i →
  ∃ q, ProcessFeedback RESOLVE_TO_TEXTURE completed2 resolved2 r2 = set_queuedFeedback q r2.
Proof.
  intros Hzero Hsel Hlen r2 Hsel2 Hsame.
  destruct (ProcessFeedback_consume_pending RESOLVE_TO_TEXTURE completed1 resolved1 r i
              Hzero Hsel) as (Hz1 & Hloads & Hev).
  destruct (ProcessFeedback_consume_tileReferences RESOLVE_TO_TEXTURE completed1 resolved1 r i
              Hzero Hsel Hlen) as (HW & HH & HM & Hrefs).
  set (r1 := ProcessFeedback RESOLVE_TO_TEXTURE completed1 resolved1 r) in *.
  apply (ProcessFeedback_unchanged_feedback RESOLVE_TO_TEXTURE completed2 resolved2 r2 j).
  - exact Hz1.
  - exact Hsel2.
  - change (GetNumTilesWidth r2) with (GetNumTilesWidth r1).
    change (GetNumTilesHeight r2) with (GetNumTilesHeight r1).
    change (m_maxMip r2) with (m_maxMip r1).
    change (m_tileReferences r2) with (m_tileReferences r1).
    rewrite HW, HH, HM, Hsame. exact Hrefs.
  - exact Hloads.
  - exact Hev.
Qed.

Lemma ProcessFeedback_same_feedback_twice_witness :
  ∃ q, ProcessFeedback false 2 cold_feedback (ResolveFeedback 2 2 cold_after_feedback)
       = set_queuedFeedback q (ResolveFeedback 2 2 cold_after_feedback).
Proof.
  apply (ProcessFeedback_same_feedback_twice false 1 2 2 2 cold_feedback cold_feedback
           (ResolveFeedback 2 1 cold_resource) 1 0).
  - reflexivity.
  - reflexivity.
  - vm_compute. lia.
  - reflexivity.
  - reflexivity.
Defined.

(** X6.  [AbandonPending] and [EvictionDelay::Rescue] are idempotent: run
    again on their own result, with the reference counts unchanged, they
    remove nothing more and keep the order of the tiles. *)
Theorem AbandonPending_Rescue_idempotent (r : StreamingResourceBase)
    (tms : TileMappingState) (ed : EvictionDelay.t) :
  AbandonPending (AbandonPending r) = AbandonPending r
  ∧ EvictionDelay.Rescue tms (EvictionDelay.Rescue tms ed) = EvictionDelay.Rescue tms ed.
Proof.
  split.
  - destruct (AbandonPending_spec r) as (Hperm & Htms & _).
    apply AbandonPending_fixed. rewrite Htms, Forall_forall. intros c Hc.
    rewrite Hperm in Hc. by apply list_elem_of_filter in Hc as [Hc _].
  - apply Rescue_fixed. pose proof (Rescue_spec tms ed) as Hres.
    induction Hres as [|b' b m' m Hb Hm IH]; constructor; [|done].
    rewrite Forall_forall. intros c Hc. rewrite Hb in Hc.
    by apply list_elem_of_filter in Hc as [Hc _].
Qed.


(** ** UpdateMinMipMap: the values of the map *)

(** The walk stops at level 0 or above a tile that is not resident. *)
Lemma UpdateMinMipMap_walk_stop (tms : TileMappingState) (x y s : nat) :
  let m := UpdateMinMipMap_walk tms x y s s in
  m = 0 ∨ GetResident tms (Nat.shiftr x (m - 1)) (Nat.shiftr y (m - 1)) (m - 1) = false.
Proof.
  induction s as [|s IH]; cbn [UpdateMinMipMap_walk]; [by left|].
  destruct (GetResident tms (Nat.shiftr x s) (Nat.shiftr y s) s) eqn:Hres; [exact IH|].
  right. by rewrite Nat.sub_1_r.
Qed.

(** The map that a call with the residency marked as changed leaves. *)
Lemma UpdateMinMipMap_entries (residencyMap : list nat) (r : StreamingResourceBase) :
  m_tileResidencyChanged r = true →
  let tms := m_tileMappingState r in
  let width := GetNumTilesWidth r in
  let map' := m_minMipMap (fst (UpdateMinMipMap residencyMap r)) in
  length map' = length (m_minMipMap r)
  ∧ snd (UpdateMinMipMap residencyMap r)
    = list_inserts (m_residencyMapOffsetBase r) map' residencyMap
  ∧ (GetAnyRefCount tms = false → map' = (λ _, m_maxMip r) <$> m_minMipMap r)
  ∧ (GetAnyRefCount tms = true →
     (∀ x y, x < width → y < GetNumTilesHeight r →
        map' !! (y * width + x)
        = min_mip_of_region tms (GetMinResidentMip tms) (x, y)
            <$> m_minMipMap r !! (y * width + x))
     ∧ (∀ i, GetNumTilesHeight r * width ≤ i → map' !! i = m_minMipMap r !! i)).
Proof.
  intros Hch tms width map'. subst map'.
  rewrite (UpdateMinMipMap_eq residencyMap r Hch). cbn [fst snd].
  fold tms. fold width.
  change (m_minMipMap (set_minMipMap ?m _)) with m.
  destruct (GetAnyRefCount tms).
  - destruct (indexed_update_loop
                (min_mip_of_region tms (GetMinResidentMip tms))
                (grid_cells width (GetNumTilesHeight r)) (m_minMipMap r) 0)
      as (_ & Hl & Hlook).
    split; [exact Hl|]. split; [done|]. split; [done|]. intros _. split.
    + intros x y Hx Hy. rewrite Hlook, Nat.sub_0_r.
      rewrite lookup_grid_cells by done. by rewrite decide_True by lia.
    + intros i Hi. rewrite Hlook, Nat.sub_0_r.
      rewrite (proj2 (lookup_ge_None _ _)); [done|]. by rewrite length_grid_cells.
  - split; [by rewrite length_fmap|]. done.
Qed.

(** X7.  When [UpdateMinMipMap] runs with the residency marked as changed on
    a resource whose coarsest tracked mip holds a reference, the value [m]
    that it writes for a region is found by walking down from
    [s0 = max (GetMinResidentMip, previous value)]: [m <= s0], the tiles
    under the region at the levels [m .. s0 - 1] are resident, and either
    [m = 0] or the tile at level [m - 1] is not resident.  So the value
    is as fine as the residency of the chain below [s0] allows. *)
Theorem UpdateMinMipMap_finest_chain (residencyMap : list nat) (r : StreamingResourceBase)
    (x y previous : nat) :
  let tms := m_tileMappingState r in
  let index := y * GetNumTilesWidth r + x in
  let s0 := max (GetMinResidentMip tms) previous in
  m_tileResidencyChanged r = true →
  GetAnyRefCount tms = true →
  x < GetNumTilesWidth r →
  y < GetNumTilesHeight r →
  m_minMipMap r !! index = Some previous →
  ∃ m, m_minMipMap (fst (UpdateMinMipMap residencyMap r)) !! index = Some m
       ∧ m ≤ s0
       ∧ (∀ k, m ≤ k < s0 → GetResident tms (Nat.shiftr x k) (Nat.shiftr y k) k = true)
       ∧ (m = 0
          ∨ GetResident tms (Nat.shiftr x (m - 1)) (Nat.shiftr y (m - 1)) (m - 1) = false).
Proof.
  intros tms index s0 Hch Hany Hx Hy Hprev.
  destruct (UpdateMinMipMap_entries residencyMap r Hch) as (_ & _ & _ & Hloop).
  destruct (Hloop Hany) as [Hcells _].
  exists (UpdateMinMipMap_walk tms x y s0 s0). split.
  - unfold index in *. rewrite (Hcells x y Hx Hy), Hprev. done.
  - destruct (UpdateMinMipMap_walk_chain tms x y s0) as [Hle Hchain].
    split; [exact Hle|]. split; [exact Hchain|]. apply UpdateMinMipMap_walk_stop.
Qed.

Lemma UpdateMinMipMap_finest_chain_witness :
  ∃ m, m_minMipMap (fst (UpdateMinMipMap (replicate 16 4) three_tiles_resident)) !! 0 = Some m
       ∧ m ≤ 4
       ∧ (∀ k, m ≤ k < 4 →
            GetResident (m_tileMappingState three_tiles_resident)
              (Nat.shiftr 0 k) (Nat.shiftr 0 k) k = true)
       ∧ (m = 0
          ∨ GetResident (m_tileMappingState three_tiles_resident)
              (Nat.shiftr 0 (m - 1)) (Nat.shiftr 0 (m - 1)) (m - 1) = false).
Proof.
  apply (UpdateMinMipMap_finest_chain (replicate 16 4) three_tiles_resident 0 0 4).
  - reflexivity.
  - reflexivity.
  - vm_compute. lia.
  - vm_compute. lia.
  - reflexivity.
Defined.


(** ** The window of a resource in the shared residency map *)

Lemma list_inserts_outside {A} (i : nat) (k l : list A) (j : nat) :
  ¬ (i ≤ j < i + length k) → list_inserts i k l !! j = l !! j.
Proof.
  intros Hj. destruct (decide (j < i)) as [Hlt|Hge].
  - by apply list_lookup_inserts_lt.
  - apply list_lookup_inserts_ge. lia.
Qed.

(** X8.  [UpdateMinMipMap] changes [m_minMipMap] and the flag
    [m_tileResidencyChanged] only and leaves the flag clear, so that a
    second call with no notice in between does nothing.  It keeps the size
    of the map and of the shared buffer, and in the buffer it writes inside
    the window of the resource only: every entry outside
    [m_residencyMapOffsetBase .. m_residencyMapOffsetBase + size) is
    untouched. *)
Theorem UpdateMinMipMap_window (residencyMap : list nat) (r : StreamingResourceBase) :
  let r' := fst (UpdateMinMipMap residencyMap r) in
  let published := snd (UpdateMinMipMap residencyMap r) in
  r' = set_minMipMap (m_minMipMap r') (set_tileResidencyChanged false r)
  ∧ UpdateMinMipMap published r' = (r', published)
  ∧ length (m_minMipMap r') = length (m_minMipMap r)
  ∧ length published = length residencyMap
  ∧ ∀ i, ¬ (m_residencyMapOffsetBase r ≤ i
            < m_residencyMapOffsetBase r + length (m_minMipMap r)) →
         published !! i = residencyMap !! i.
Proof.
  cbv zeta. destruct (m_tileResidencyChanged r) eqn:Hch.
  - destruct (UpdateMinMipMap_entries residencyMap r Hch) as (Hlen & Hpub & _).
    rewrite Hpub. rewrite (UpdateMinMipMap_eq residencyMap r Hch) in *. cbn [fst snd] in *.
    set (minMipMap := if GetAnyRefCount _ then _ else _) in *.
    change (m_minMipMap (set_minMipMap minMipMap _)) with minMipMap in *.
    split; [done|]. split; [done|]. split; [exact Hlen|].
    split; [by rewrite length_inserts|].
    intros i Hi. apply list_inserts_outside. by rewrite Hlen.
  - unfold UpdateMinMipMap. rewrite Hch. cbn [negb fst snd].
    split; [by destruct r; simpl in *; subst|].
    rewrite Hch. done.
Qed.

(** X9.  Two resources that share the residency map: when the window given
    to the second one by [SetResidencyMapOffsetBase] starts at or after the
    end of the window of the first, neither the [SetResidencyMapOffsetBase]
    of the second nor a later [UpdateMinMipMap] of the second changes what
    the first has published, which is its own [m_minMipMap]. *)
Theorem residency_windows_disjoint (residencyMap : list nat)
    (rA rB : StreamingResourceBase) (a b : nat) :
  a + length (m_minMipMap rA) ≤ b →
  a + length (m_minMipMap rA) ≤ length residencyMap →
  let stA := SetResidencyMapOffsetBase a residencyMap rA in
  let stB := SetResidencyMapOffsetBase b (snd stA) rB in
  let stB' := UpdateMinMipMap (snd stB) (fst stB) in
  ∀ k, k < length (m_minMipMap rA) →
       snd stA !! (a + k) = m_minMipMap rA !! k
       ∧ snd stB !! (a + k) = m_minMipMap rA !! k
       ∧ snd stB' !! (a + k) = m_minMipMap rA !! k.
Proof.
  intros Hab Hfit stA stB stB' k Hk.
  assert (snd stA !! (a + k) = m_minMipMap rA !! k) as HA.
  { subst stA. unfold SetResidencyMapOffsetBase. cbn [snd m_residencyMapOffsetBase m_minMipMap].
    rewrite list_lookup_inserts by lia. f_equal. lia. }
  assert (snd stB !! (a + k) = m_minMipMap rA !! k) as HB.
  { rewrite <- HA. subst stB. unfold SetResidencyMapOffsetBase at 1.
    cbn [snd m_residencyMapOffsetBase m_minMipMap].
    apply list_inserts_outside. lia. }
  split; [exact HA|]. split; [exact HB|].
  rewrite <- HB. subst stB'.
  destruct (m_tileResidencyChanged (fst stB)) eqn:Hch.
  - destruct (UpdateMinMipMap_entries (snd stB) (fst stB) Hch) as (Hlen & Hpub & _).
    rewrite Hpub. apply list_inserts_outside. rewrite Hlen.
    subst stB. unfold SetResidencyMapOffsetBase at 1 2 3. cbn [fst m_residencyMapOffsetBase].
    lia.
  - unfold UpdateMinMipMap. by rewrite Hch.
Qed.

Lemma residency_windows_disjoint_witness :
  let stA := SetResidencyMapOffsetBase 0 (replicate 40 9) three_tiles_resident in
  let stB := SetResidencyMapOffsetBase 16 (snd stA) cold_after_feedback in
  let stB' := UpdateMinMipMap (snd stB) (fst stB) in
  snd stB' !! (0 + 0) = m_minMipMap three_tiles_resident !! 0
  ∧ snd stB' !! (0 + 15) = m_minMipMap three_tiles_resident !! 15.
Proof.
  pose proof (residency_windows_disjoint (replicate 40 9) three_tiles_resident
                cold_after_feedback 0 16 ltac:(vm_compute; lia) ltac:(vm_compute; lia))
    as Hwindow.
  split.
  - apply (Hwindow 0). vm_compute. lia.
  - apply (Hwindow 15). vm_compute. lia.
Defined.


(** ** The reference counts along the mip chain *)

(** [ProcessFeedback] keeps the shape of the resource and the count of the
    references. *)
Lemma ProcessFeedback_keeps_invariants (RESOLVE_TO_TEXTURE : bool) (fence : Z)
    (resolved : nat → list nat) (r : StreamingResourceBase) :
  well_formed r → refcount_invariant r →
  well_formed (ProcessFeedback RESOLVE_TO_TEXTURE fence resolved r)
  ∧ refcount_invariant (ProcessFeedback RESOLVE_TO_TEXTURE fence resolved r).
Proof.
  intros Hwf Hinv. destruct (m_setZeroRefCounts r) eqn:Hset.
  - destruct (m_refCountsZero r) eqn:Hz.
    + assert (ProcessFeedback RESOLVE_TO_TEXTURE fence resolved r
              = set_setZeroRefCounts false r) as ->.
      { unfold ProcessFeedback. rewrite Hset.
        cbn [m_refCountsZero set_setZeroRefCounts]. by rewrite Hz. }
      apply (same_counts_invariants r); [by repeat split|done|done].
    + by apply ProcessFeedback_evict_all_invariant.
  - unfold ProcessFeedback. rewrite Hset.
    destruct (foldl (ProcessFeedback_select_body fence) _ _) as [[q feedbackIndex] latest].
    set (r1 := set_queuedFeedback q r).
    destruct (same_counts_invariants r r1) as [Hwf1 Hinv1]; [by repeat split|done|done|].
    case_bool_decide; [done|].
    change (GetNumTilesWidth r) with (GetNumTilesWidth r1).
    change (GetNumTilesHeight r) with (GetNumTilesHeight r1).
    destruct (ProcessFeedback_update_loops_invariant RESOLVE_TO_TEXTURE
                (resolved (feedbackIndex - 1)) r1 Hwf1 Hinv1) as (_ & Hwf2 & Hinv2 & _).
    destruct (ProcessFeedback_update_loops RESOLVE_TO_TEXTURE _ _ _ _) as [r2 changed].
    cbn [fst] in Hwf2, Hinv2.
    apply (same_counts_invariants r2); [|done|done].
    unfold same_counts, SetResidencyChanged, AbandonPending.
    destruct changed; by destruct (AbandonPending_loop _ _ _ _).
Qed.

(** A region that lies over a tile lies over the tiles above it in the mip
    chain, so these are referred to by as many regions at least. *)
Lemma region_count_monotone (refs : list nat) (width height x y s d : nat) :
  (region_count refs width height x y s
   ≤ region_count refs width height (Nat.shiftr x d) (Nat.shiftr y d) (s + d))%Z.
Proof.
  unfold region_count. apply inj_le. apply filter_length_le.
  intros cell _ [[Hx Hy] Href]. unfold covers.
  rewrite <- !Nat.shiftr_shiftr, Hx, Hy. split; [done|lia].
Qed.

(** A tile that a region refers to has a region over it. *)
Lemma region_count_pos (refs : list nat) (width height x y s : nat) :
  region_count refs width height x y s ≠ 0%Z →
  ∃ u v, u < width ∧ v < height ∧ Nat.shiftr u s = x ∧ Nat.shiftr v s = y.
Proof.
  unfold region_count. intros Hne.
  destruct (filter _ (grid_cells width height)) as [|cell l] eqn:Hf; [done|].
  assert (cell ∈ cell :: l) as Hin by left. rewrite <- Hf in Hin.
  apply list_elem_of_filter in Hin as [[Hx Hy] [Hu Hv]%elem_of_grid_cells].
  by exists (fst cell), (snd cell).
Qed.

(** The count of a tracked tile and the count of a tile over it. *)
Lemma refcount_chain (r : StreamingResourceBase) (x y s d : nat) :
  well_formed r → refcount_invariant r →
  s + d < m_maxMip r →
  layer_in_range (m_refcounts (m_tileMappingState r)) x y s →
  (0 ≤ GetRefCount (m_tileMappingState r) x y s
   ≤ GetRefCount (m_tileMappingState r) (Nat.shiftr x d) (Nat.shiftr y d) (s + d))%Z.
Proof.
  intros Hwf Hinv Hd Hin.
  rewrite (Hinv x y s) by (lia || done).
  pose proof (region_count_bounds (m_tileReferences r) (GetNumTilesWidth r)
                (GetNumTilesHeight r) x y s) as [H0 _].
  split; [exact H0|].
  destruct (decide (region_count (m_tileReferences r) (GetNumTilesWidth r)
                      (GetNumTilesHeight r) x y s = 0%Z)) as [Hz|Hnz].
  - rewrite Hz.
    destruct (decide (layer_in_range (m_refcounts (m_tileMappingState r))
                        (Nat.shiftr x d) (Nat.shiftr y d) (s + d))) as [Hin'|Hout].
    + rewrite (Hinv _ _ _ Hd Hin'). apply region_count_bounds.
    + rewrite GetRefCount_out_of_range; done.
  - destruct (region_count_pos _ _ _ _ _ _ Hnz) as (u & v & Hu & Hv & <- & <-).
    pose proof (wf_covering r Hwf u v (s + d) Hu Hv Hd) as Hin'.
    rewrite !Nat.shiftr_shiftr. rewrite (Hinv _ _ _ Hd Hin').
    rewrite <- !Nat.shiftr_shiftr. apply region_count_monotone.
Qed.

Lemma existsb_refcount (plane : list (list Z)) :
  existsb (λ y, existsb (λ x, bool_decide (x ≠ 0%Z)) y) plane = false
  ↔ Forall (Forall (λ c, c = 0%Z)) plane.
Proof.
  induction plane as [|row plane IH]; simpl.
  - split; [constructor|done].
  - rewrite orb_false_iff, IH, Forall_cons. apply and_iff_compat_r.
    clear IH. induction row as [|c row IH]; simpl.
    + split; [constructor|done].
    + rewrite orb_false_iff, IH, Forall_cons, bool_decide_eq_false.
      apply and_iff_compat_r. destruct (decide (c = 0%Z)); naive_solver.
Qed.

(** [GetAnyRefCount] is false exactly when the coarsest tracked mip holds
    no reference. *)
Lemma GetAnyRefCount_last (tms : TileMappingState) :
  0 < length (m_refcounts tms) →
  GetAnyRefCount tms = false
  ↔ ∀ x y, GetRefCount tms x y (length (m_refcounts tms) - 1) = 0%Z.
Proof.
  intros HM. unfold GetAnyRefCount. rewrite existsb_refcount, back_lookup.
  unfold GetRefCount, layer_get, layer_lookup.
  destruct (m_refcounts tms !! (length (m_refcounts tms) - 1)) as [plane|] eqn:Hp.
  - cbn [default]. rewrite Forall_lookup. split.
    + intros Hall x y. destruct (plane !! y) as [row|] eqn:Hrow; [|done].
      destruct (row !! x) as [c|] eqn:Hc; [|done].
      pose proof (Hall y row Hrow) as Hr. rewrite Forall_lookup in Hr. exact (Hr x c Hc).
    + intros Hall y row Hrow. rewrite Forall_lookup. intros x c Hc.
      specialize (Hall x y). unfold id in Hrow. by rewrite Hrow, Hc in Hall.
  - apply lookup_ge_None in Hp. lia.
Qed.

(** X10.  On a resource whose reference counts count the regions, the count
    of a tile is never above the count of a tile over it in the mip chain:
    for a tracked tile [(x, y, s)] and [s + d] a tracked mip,
    [0 <= refcount (x, y, s) <= refcount (x >> d, y >> d, s + d)], and the
    latter is at most the number of the regions. *)
Theorem refcount_monotone (r : StreamingResourceBase) (x y s d : nat) :
  well_formed r → refcount_invariant r →
  s + d < m_maxMip r →
  layer_in_range (m_refcounts (m_tileMappingState r)) x y s →
  (0 ≤ GetRefCount (m_tileMappingState r) x y s
   ≤ GetRefCount (m_tileMappingState r) (Nat.shiftr x d) (Nat.shiftr y d) (s + d)
   ≤ Z.of_nat (GetNumTilesWidth r * GetNumTilesHeight r))%Z.
Proof.
  intros Hwf Hinv Hd Hin.
  destruct (refcount_chain r x y s d Hwf Hinv Hd Hin) as [H0 Hle].
  split; [exact H0|]. split; [exact Hle|].
  destruct (decide (layer_in_range (m_refcounts (m_tileMappingState r))
                      (Nat.shiftr x d) (Nat.shiftr y d) (s + d))) as [Hin'|Hout].
  - rewrite (Hinv _ _ _ Hd Hin'). apply region_count_bounds.
  - rewrite GetRefCount_out_of_range by done. lia.
Qed.

Lemma refcount_monotone_witness :
  (0 ≤ GetRefCount (m_tileMappingState cold_after_feedback) 0 0 0
   ≤ GetRefCount (m_tileMappingState cold_after_feedback)
       (Nat.shiftr 0 2) (Nat.shiftr 0 2) (0 + 2)
   ≤ Z.of_nat (GetNumTilesWidth cold_after_feedback
               * GetNumTilesHeight cold_after_feedback))%Z.
Proof.
  destruct (ProcessFeedback_keeps_invariants false 1 cold_feedback
              (ResolveFeedback 2 1 cold_resource)) as [Hwf Hinv].
  - apply (same_counts_invariants cold_resource); [by repeat split| |];
      apply cold_resource_invariant.
  - apply (same_counts_invariants cold_resource); [by repeat split| |];
      apply cold_resource_invariant.
  - apply (refcount_monotone cold_after_feedback 0 0 0 2 Hwf Hinv).
    + vm_compute. lia.
    + vm_compute. eauto.
Defined.


(** X11.  On a resource whose reference counts count the regions and whose
    [m_maxMip] is the number of the tracked mips, [GetAnyRefCount], which
    looks at the coarsest tracked mip only, is false exactly when no tile
    of any tracked mip is referenced.  This is what lets [UpdateMinMipMap]
    write [m_maxMip] everywhere when it is false. *)
Theorem GetAnyRefCount_no_reference (r : StreamingResourceBase) :
  let tms := m_tileMappingState r in
  well_formed r → refcount_invariant r →
  0 < m_maxMip r →
  m_maxMip r = GetNumSubresources tms →
  GetAnyRefCount tms = false
  ↔ ∀ x y s, s < m_maxMip r → GetRefCount tms x y s = 0%Z.
Proof.
  intros tms Hwf Hinv HM Hsub. unfold GetNumSubresources in Hsub.
  rewrite GetAnyRefCount_last by (fold tms; lia). fold tms. rewrite <- Hsub. split.
  - intros Hlast x y s Hs.
    destruct (decide (layer_in_range (m_refcounts tms) x y s)) as [Hin|Hout];
      [|by apply GetRefCount_out_of_range].
    destruct (refcount_chain r x y s (m_maxMip r - 1 - s) Hwf Hinv) as [H0 Hle];
      [lia|exact Hin|]. fold tms in H0, Hle.
    replace (s + (m_maxMip r - 1 - s)) with (m_maxMip r - 1) in Hle by lia.
    rewrite Hlast in Hle. lia.
  - intros Hall x y. apply Hall. lia.
Qed.

Lemma GetAnyRefCount_no_reference_witness :
  GetAnyRefCount (m_tileMappingState cold_resource) = false
  ↔ ∀ x y s, s < m_maxMip cold_resource →
             GetRefCount (m_tileMappingState cold_resource) x y s = 0%Z.
Proof.
  apply (GetAnyRefCount_no_reference cold_resource).
  - apply cold_resource_invariant.
  - apply cold_resource_invariant.
  - vm_compute. lia.
  - reflexivity.
Defined.


(** ** FreeHeapAllocations *)

Lemma map_fmap {A B} (f : A → B) (l : list A) : map f l = f <$> l.
Proof. induction l as [|a l IH]; [done|]. simpl. by rewrite IH. Qed.

Lemma layer_lookup_map {A B} (f : A → B) (l : TileLayer A) (x y s : nat) :
  layer_lookup (map (map (map f)) l) x y s = f <$> layer_lookup l x y s.
Proof.
  unfold layer_lookup. rewrite map_fmap, list_lookup_fmap.
  destruct (l !! s) as [plane|]; [|done]. cbn [fmap option_fmap option_map].
  rewrite map_fmap, list_lookup_fmap.
  destruct (plane !! y) as [row|]; [|done]. cbn [fmap option_fmap option_map].
  by rewrite map_fmap, list_lookup_fmap.
Qed.

Lemma Free_fold (h : HeapAllocator.t) (l : list Z) :
  HeapAllocator.m_free (foldl (λ h i, HeapAllocator.Free i h) h l)
  = reverse l ++ HeapAllocator.m_free h.
Proof.
  revert h. induction l as [|i l IH]; intros h; [done|].
  cbn [foldl]. rewrite IH, reverse_cons. cbn [HeapAllocator.Free HeapAllocator.m_free].
  by rewrite <- (assoc_L (++)).
Qed.

Lemma concat_const {A B} (d : B) (ls : list (list A)) :
  Forall (λ v, v = d) (concat (map (map (λ _, d)) ls)).
Proof.
  induction ls as [|l ls IH]; [constructor|]. simpl. apply Forall_app. split; [|done].
  clear. induction l; constructor; done.
Qed.

Lemma concat_concat_const {A B} (d : B) (L : list (list (list A))) :
  Forall (λ v, v = d) (concat (concat (map (map (map (λ _, d))) L))).
Proof.
  induction L as [|plane L IH]; [constructor|]. simpl. rewrite concat_app.
  apply Forall_app. split; [apply concat_const|done].
Qed.

Lemma map_const_twice {A B} (d : B) (L : list (list (list A))) :
  map (map (map (λ _ : B, d))) (map (map (map (λ _ : A, d))) L)
  = map (map (map (λ _, d))) L.
Proof.
  rewrite map_map. apply map_ext. intros plane.
  rewrite map_map. apply map_ext. intros row. by rewrite map_map.
Qed.

(** X12.  [FreeHeapAllocations] leaves the residencies and the reference
    counts as they are and keeps the shape of the grid of heap indices, all
    of which are [InvalidIndex] afterwards.  The pool receives the heap
    indices that were valid, each pushed in the order of the loops, and
    nothing else: its size grows by their number and the sentinel is never
    put into it.  A second call frees nothing. *)
Theorem FreeHeapAllocations_releases (InvalidIndex : Z) (in_pHeap : HeapAllocator.t)
    (tms : TileMappingState) :
  let tms' := fst (FreeHeapAllocations InvalidIndex in_pHeap tms) in
  let heap' := snd (FreeHeapAllocations InvalidIndex in_pHeap tms) in
  let valid := filter (λ i, InvalidIndex ≠ i) (concat (concat (m_heapIndices tms))) in
  m_resident tms' = m_resident tms
  ∧ m_refcounts tms' = m_refcounts tms
  ∧ (∀ x y s, layer_in_range (m_heapIndices tms') x y s
              ↔ layer_in_range (m_heapIndices tms) x y s)
  ∧ (∀ c, layer_in_range (m_heapIndices tms) (X c) (Y c) (Subresource c) →
          GetHeapIndex tms' c = InvalidIndex)
  ∧ HeapAllocator.m_free heap' = reverse valid ++ HeapAllocator.m_free in_pHeap
  ∧ HeapAllocator.GetNumFree heap' = length valid + HeapAllocator.GetNumFree in_pHeap
  ∧ (InvalidIndex ∈ HeapAllocator.m_free heap' →
     InvalidIndex ∈ HeapAllocator.m_free in_pHeap)
  ∧ FreeHeapAllocations InvalidIndex heap' tms' = (tms', heap').
Proof.
  cbv zeta. unfold FreeHeapAllocations. cbn [fst snd m_resident m_refcounts m_heapIndices].
  set (valid := filter (λ i, InvalidIndex ≠ i) (concat (concat (m_heapIndices tms)))).
  split; [done|]. split; [done|]. split.
  { intros x y s. unfold layer_in_range. rewrite layer_lookup_map, fmap_is_Some. done. }
  split.
  { intros c [v Hv]. unfold GetHeapIndex, layer_get. cbn [m_heapIndices].
    by rewrite layer_lookup_map, Hv. }
  split; [apply Free_fold|]. split.
  { unfold HeapAllocator.GetNumFree. by rewrite Free_fold, length_app, length_reverse. }
  split.
  { rewrite Free_fold, elem_of_app, elem_of_reverse. intros [Hin|Hin]; [|done].
    apply list_elem_of_filter in Hin as [Hne _]. done. }
  rewrite map_const_twice.
  assert (filter (λ i, InvalidIndex ≠ i)
            (concat (concat (map (map (map (λ _ : Z, InvalidIndex))) (m_heapIndices tms))))
          = []) as ->; [|done].
  pose proof (concat_concat_const InvalidIndex (m_heapIndices tms)) as Hall.
  induction Hall as [|v l Hv Hl IH]; [done|].
  rewrite filter_cons. rewrite decide_False by (intros Hne; by apply Hne). exact IH.
Qed.


Lemma NoDup_filter_lookup {A} (P : A → Prop) `{∀ a, Decision (P a)} (l : list A) :
  (∀ i j v, l !! i = Some v → l !! j = Some v → P v → i = j) → NoDup (filter P l).
Proof.
  induction l as [|a l IH]; intros Hinj; [constructor|].
  assert (NoDup (filter P l)) as Hnd.
  { apply IH. intros i j v Hi Hj Hv.
    assert (S i = S j) by (by apply (Hinj (S i) (S j) v)). lia. }
  rewrite filter_cons. case_decide as Ha; [|done].
  apply NoDup_cons. split; [|done].
  intros [_ Hin]%list_elem_of_filter. apply list_elem_of_lookup_1 in Hin as [j Hj].
  assert (0 = S j) by (by apply (Hinj 0 (S j) a)). lia.
Qed.

Lemma NoDup_filter_concat {A} (P : A → Prop) `{∀ a, Decision (P a)} (ls : list (list A)) :
  (∀ i l, ls !! i = Some l → NoDup (filter P l)) →
  (∀ i j l1 l2 v, ls !! i = Some l1 → ls !! j = Some l2 → v ∈ l1 → v ∈ l2 → P v → i = j) →
  NoDup (filter P (concat ls)).
Proof.
  induction ls as [|l ls IH]; intros Hrows Hcross; [constructor|].
  simpl. rewrite filter_app. apply NoDup_app. split; [by apply (Hrows 0)|]. split.
  - intros v [Hv Hin]%list_elem_of_filter [_ Hin']%list_elem_of_filter.
    apply elem_of_concat in Hin' as (l' & Hv' & Hl').
    apply list_elem_of_lookup_1 in Hl' as [j Hj].
    assert (0 = S j) by (by apply (Hcross 0 (S j) l l' v)). lia.
  - apply IH.
    + intros i l' Hi. by apply (Hrows (S i)).
    + intros i j l1 l2 v Hi Hj H1 H2 Hv.
      assert (S i = S j) by (by apply (Hcross (S i) (S j) l1 l2 v)). lia.
Qed.

Lemma concat_concat_fmap {A} (L : list (list (list A))) :
  concat (concat L) = concat ((λ plane, concat plane) <$> L).
Proof.
  induction L as [|plane L IH]; [done|]. simpl. by rewrite concat_app, IH.
Qed.

Lemma elem_of_concat_lookup {A} (v : A) (ls : list (list A)) :
  v ∈ concat ls ↔ ∃ i j l, ls !! i = Some l ∧ l !! j = Some v.
Proof.
  rewrite elem_of_concat. split.
  - intros (l & [j Hj]%list_elem_of_lookup_1 & [i Hi]%list_elem_of_lookup_1). by exists i, j, l.
  - intros (i & j & l & Hi & Hj). exists l.
    split; by eapply list_elem_of_lookup_2.
Qed.

Lemma elem_of_concat_concat {A} (v : A) (L : TileLayer A) :
  v ∈ concat (concat L) ↔ ∃ x y s, layer_lookup L x y s = Some v.
Proof.
  rewrite concat_concat_fmap, elem_of_concat_lookup. unfold layer_lookup. split.
  - intros (s & j & l & Hl & Hj). rewrite list_lookup_fmap in Hl.
    destruct (L !! s) as [plane|] eqn:Hp; [|done]. injection Hl as <-.
    assert (v ∈ concat plane) as Hin by (by eapply list_elem_of_lookup_2).
    apply elem_of_concat_lookup in Hin as (y & x & row & Hrow & Hx).
    exists x, y, s. by rewrite Hp, Hrow.
  - intros (x & y & s & Hv).
    destruct (L !! s) as [plane|] eqn:Hp; [|done].
    destruct (plane !! y) as [row|] eqn:Hrow; [|done].
    assert (v ∈ concat plane) as [j Hj]%list_elem_of_lookup_1.
    { apply elem_of_concat_lookup. by exists y, x, row. }
    exists s, j, (concat plane). by rewrite list_lookup_fmap, Hp.
Qed.

(** The entries of a grid that satisfy [P] are distinct when no two tiles
    hold the same one. *)
Lemma NoDup_filter_layer {A} (P : A → Prop) `{∀ a, Decision (P a)} (L : TileLayer A) :
  (∀ x1 y1 s1 x2 y2 s2 v,
     layer_lookup L x1 y1 s1 = Some v → layer_lookup L x2 y2 s2 = Some v → P v →
     x1 = x2 ∧ y1 = y2 ∧ s1 = s2) →
  NoDup (filter P (concat (concat L))).
Proof.
  intros Hinj. rewrite concat_concat_fmap. apply NoDup_filter_concat.
  - intros s l Hl. rewrite list_lookup_fmap in Hl.
    destruct (L !! s) as [plane|] eqn:Hp; [|done]. injection Hl as <-.
    apply NoDup_filter_concat.
    + intros y row Hrow. apply NoDup_filter_lookup. intros x1 x2 v H1 H2 Hv.
      destruct (Hinj x1 y s x2 y s v) as (Hx & _); unfold layer_lookup;
        by rewrite ?Hp, ?Hrow.
    + intros y1 y2 row1 row2 v Hr1 Hr2 [x1 H1]%list_elem_of_lookup_1
        [x2 H2]%list_elem_of_lookup_1 Hv.
      destruct (Hinj x1 y1 s x2 y2 s v) as (_ & Hy & _); unfold layer_lookup;
        by rewrite ?Hp, ?Hr1, ?Hr2.
  - intros s1 s2 l1 l2 v Hl1 Hl2 Hin1 Hin2 Hv. rewrite list_lookup_fmap in Hl1, Hl2.
    destruct (L !! s1) as [plane1|] eqn:Hp1; [|done]. injection Hl1 as <-.
    destruct (L !! s2) as [plane2|] eqn:Hp2; [|done]. injection Hl2 as <-.
    apply elem_of_concat_lookup in Hin1 as (y1 & x1 & row1 & Hr1 & H1).
    apply elem_of_concat_lookup in Hin2 as (y2 & x2 & row2 & Hr2 & H2).
    destruct (Hinj x1 y1 s1 x2 y2 s2 v) as (_ & _ & Hs); unfold layer_lookup;
      by rewrite ?Hp1, ?Hp2, ?Hr1, ?Hr2.
Qed.

Lemma cold_system_queued_reachable : reachable 4294967295 false 32 cold_system_queued.
Proof.
  apply reachable_step with (sys := cold_system_feedback);
    [|exact (step_QueueTiles 4294967295 false 32 1 cold_system_feedback)].
  apply reachable_step with (sys := cold_system_resolved);
    [|exact (step_ProcessFeedback 4294967295 false 32 1 cold_feedback cold_system_resolved)].
  apply reachable_step with (sys := cold_system);
    [|exact (step_ResolveFeedback 4294967295 false 32 2 1 cold_system)].
  apply (reachable_create 4294967295 false 32 2 4 cold_tiling 4 4 [0; 1; 2; 3; 4; 5; 6; 7]%Z).
  - rewrite !elem_of_cons, elem_of_nil. lia.
  - repeat (apply NoDup_cons; split; [rewrite ?elem_of_cons, elem_of_nil; lia|]).
    apply NoDup_nil_2.
Qed.

(** X13.  No page is freed twice.  When the tile state and the pool agree (as
    they do in every state that the engine reaches), the pool that
    [FreeHeapAllocations] leaves holds no page twice and does not hold the
    sentinel: the pages that the tiles held were distinct and none of them
    was in the pool. *)
Theorem FreeHeapAllocations_no_double_free (InvalidIndex : Z) (heap : HeapAllocator.t)
    (tms : TileMappingState) (loading evicting : list D3D12_TILED_RESOURCE_COORDINATE) :
  tiles_consistent InvalidIndex tms heap loading evicting →
  let heap' := snd (FreeHeapAllocations InvalidIndex heap tms) in
  NoDup (HeapAllocator.m_free heap') ∧ InvalidIndex ∉ HeapAllocator.m_free heap'.
Proof.
  intros HJ heap'. subst heap'. unfold FreeHeapAllocations. cbn [snd].
  rewrite Free_fold.
  assert (∀ x y s v, layer_lookup (m_heapIndices tms) x y s = Some v →
                     tile_in_range tms (Coord x y s) ∧ GetHeapIndex tms (Coord x y s) = v)
    as Htile.
  { intros x y s v Hv. split.
    - unfold tile_in_range. cbn [X Y Subresource].
      apply (tc_aligned _ _ _ _ _ HJ). unfold layer_in_range. by rewrite Hv.
    - unfold GetHeapIndex, layer_get. cbn [X Y Subresource]. by rewrite Hv. }
  split.
  - rewrite reverse_Permutation. apply NoDup_app. split; [|split].
    + apply NoDup_filter_layer.
      intros x1 y1 s1 x2 y2 s2 v H1 H2 Hv.
      destruct (Htile _ _ _ _ H1) as [Hin1 Hi1], (Htile _ _ _ _ H2) as [Hin2 Hi2].
      assert (Coord x1 y1 s1 = Coord x2 y2 s2) as Heq.
      { apply (tc_index_once _ _ _ _ _ HJ); [done|done| |congruence]. congruence. }
      by injection Heq.
    + intros v [_ Hin]%list_elem_of_filter Hpool.
      apply elem_of_concat_concat in Hin as (x & y & s & Hv).
      destruct (Htile _ _ _ _ Hv) as [Hin Hi].
      apply (tc_pool_free _ _ _ _ _ HJ _ Hin). by rewrite Hi.
    + apply (tc_pool_once _ _ _ _ _ HJ).
  - rewrite elem_of_app, elem_of_reverse. intros [Hin|Hin].
    + by apply list_elem_of_filter in Hin as [Hne _].
    + by apply (tc_free _ _ _ _ _ HJ).
Qed.

Lemma FreeHeapAllocations_no_double_free_witness :
  let heap' := snd (FreeHeapAllocations 4294967295 (sys_heap cold_system_queued)
                      (m_tileMappingState (sys_resource cold_system_queued))) in
  NoDup (HeapAllocator.m_free heap') ∧ 4294967295%Z ∉ HeapAllocator.m_free heap'.
Proof.
  apply (FreeHeapAllocations_no_double_free 4294967295 (sys_heap cold_system_queued)
           (m_tileMappingState (sys_resource cold_system_queued))
           (flat_map UpdateList.m_coords (sys_submitted cold_system_queued))
           (flat_map UpdateList.m_evictCoords (sys_submitted cold_system_queued))).
  apply (reachable_consistent 4294967295 false 32 cold_system_queued); [lia|].
  apply cold_system_queued_reachable.
Defined.


(** ** QueueTiles: the UpdateLists and the pages *)

Lemma GetReadyToEvict_SetReadyToEvict (b : MappingCoords) (ed : EvictionDelay.t) :
  EvictionDelay.m_mappings ed ≠ [] →
  EvictionDelay.GetReadyToEvict (EvictionDelay.SetReadyToEvict b ed) = b.
Proof.
  intros Hne. unfold EvictionDelay.GetReadyToEvict, EvictionDelay.SetReadyToEvict.
  cbn [EvictionDelay.m_mappings]. rewrite back_lookup, length_insert.
  rewrite list_lookup_insert_eq; [done|].
  destruct (EvictionDelay.m_mappings ed); [done|]. simpl. lia.
Qed.

Lemma GetReadyToEvict_nonempty (ed : EvictionDelay.t) :
  length (EvictionDelay.GetReadyToEvict ed) ≠ 0 → EvictionDelay.m_mappings ed ≠ [].
Proof.
  unfold EvictionDelay.GetReadyToEvict, back. by destruct (EvictionDelay.m_mappings ed).
Qed.

(** What a visit of the ready bucket does to the UpdateList, to the pool
    and to the reference counts. *)
Lemma evict_fold_account (InvalidIndex : Z) (coords : MappingCoords) :
  ∀ (tms : TileMappingState) (heap : HeapAllocator.t) (ul : UpdateList.t)
    (kept : MappingCoords),
    let st := foldl (evict_step InvalidIndex) (tms, heap, ul, kept) coords in
    m_refcounts (fst (fst (fst st))) = m_refcounts tms
    ∧ UpdateList.m_coords (snd (fst st)) = UpdateList.m_coords ul
    ∧ UpdateList.m_heapIndices (snd (fst st)) = UpdateList.m_heapIndices ul
    ∧ ∃ evicted,
        UpdateList.m_evictCoords (snd (fst st)) = UpdateList.m_evictCoords ul ++ evicted
        ∧ HeapAllocator.GetNumFree (snd (fst (fst st)))
          = HeapAllocator.GetNumFree heap + length evicted
        ∧ length (snd st) + length evicted ≤ length kept + length coords.
Proof.
  induction coords as [|c coords IH]; intros tms heap ul kept; cbv zeta.
  - cbn [foldl fst snd]. split; [done|]. split; [done|]. split; [done|].
    exists []. rewrite app_nil_r.
    repeat split; simpl; lia.
  - cbn [foldl].
    remember (evict_step InvalidIndex (tms, heap, ul, kept) c) as st1 eqn:Hst1.
    unfold evict_step in Hst1.
    destruct (GetResidency tms c); subst st1.
    + destruct (IH tms heap ul kept) as (H1 & H2 & H3 & ev & H4 & H5 & H6).
      split; [done|]. split; [done|]. split; [done|]. exists ev.
      split; [done|]. split; [done|]. simpl. lia.
    + destruct (IH (SetHeapIndex (SetEvicting tms (X c) (Y c) (Subresource c)) c InvalidIndex)
                  (HeapAllocator.Free (GetHeapIndex tms c) heap)
                  (UpdateList.AddEviction c ul) kept)
        as (H1 & H2 & H3 & ev & H4 & H5 & H6).
      split; [done|]. split; [done|]. split; [done|]. exists (c :: ev).
      split; [rewrite H4; cbn; by rewrite <- (assoc_L (++))|].
      split; [rewrite H5; unfold HeapAllocator.GetNumFree; simpl; lia|].
      simpl. lia.
    + destruct (IH tms heap ul kept) as (H1 & H2 & H3 & ev & H4 & H5 & H6).
      split; [done|]. split; [done|]. split; [done|]. exists ev.
      split; [done|]. split; [done|]. simpl. lia.
    + destruct (IH tms heap ul (kept ++ [c])) as (H1 & H2 & H3 & ev & H4 & H5 & H6).
      split; [done|]. split; [done|]. split; [done|]. exists ev.
      split; [done|]. split; [done|]. rewrite length_app in H6. simpl in *. lia.
Qed.

(** What a visit of the pending loads does to the UpdateList and to the
    reference counts, whatever the budget. *)
Lemma load_walk_account (InvalidIndex : Z) (coords : list D3D12_TILED_RESOURCE_COORDINATE) :
  ∀ (budget : Z) (tms : TileMappingState) (heap : HeapAllocator.t) (ul : UpdateList.t)
    (kept : list D3D12_TILED_RESOURCE_COORDINATE),
    let walk := load_walk InvalidIndex budget (tms, heap, ul, kept) coords in
    m_refcounts (fst (fst (fst (fst walk)))) = m_refcounts tms
    ∧ ∃ loaded,
        UpdateList.m_coords (snd (fst (fst walk))) = UpdateList.m_coords ul ++ loaded
        ∧ length (UpdateList.m_heapIndices (snd (fst (fst walk))))
          = length (UpdateList.m_heapIndices ul) + length loaded
        ∧ length (snd (fst walk)) + length (snd walk) + length loaded
          ≤ length kept + length coords.
Proof.
  induction coords as [|c coords IH]; intros budget tms heap ul kept; cbv zeta.
  - cbn [load_walk fst snd]. split; [done|]. exists []. rewrite app_nil_r.
    repeat split; simpl; lia.
  - cbn [load_walk fst snd].
    remember (load_step InvalidIndex (tms, heap, ul, kept) c) as st1 eqn:Hst1.
    unfold load_step in Hst1.
    destruct (GetResidency tms c) eqn:Hres; subst st1.
    + rewrite decide_True by done. cbn [fst snd]. case_decide.
      * cbn [fst snd]. split; [done|]. exists [c]. cbn. rewrite length_app.
        split; [done|]. split; [done|]. simpl. lia.
      * destruct (IH (u32 (budget - 1))
                    (SetHeapIndex (SetLoading tms (X c) (Y c) (Subresource c)) c
                       (fst (HeapAllocator.Allocate InvalidIndex heap)))
                    (snd (HeapAllocator.Allocate InvalidIndex heap))
                    (UpdateList.AddUpdate c (fst (HeapAllocator.Allocate InvalidIndex heap)) ul)
                    kept) as (H1 & loaded & H2 & H3 & H4).
        split; [done|]. exists (c :: loaded).
        split; [rewrite H2; cbn; by rewrite <- (assoc_L (++))|].
        split; [rewrite H3; cbn; rewrite length_app; simpl; lia|].
        simpl. lia.
    + rewrite decide_False by done.
      destruct (IH budget tms heap ul kept) as (H1 & loaded & H2 & H3 & H4).
      split; [done|]. exists loaded. split; [done|]. split; [done|]. simpl. lia.
    + rewrite decide_False by done.
      destruct (IH budget tms heap ul (kept ++ [c])) as (H1 & loaded & H2 & H3 & H4).
      split; [done|]. exists loaded. split; [done|]. split; [done|].
      rewrite length_app in H4. simpl in *. lia.
    + rewrite decide_False by done.
      destruct (IH budget tms heap ul kept) as (H1 & loaded & H2 & H3 & H4).
      split; [done|]. exists loaded. split; [done|]. split; [done|]. simpl. lia.
Qed.


(** One call of [QueuePendingTileEvictions] on a fresh UpdateList. *)
Lemma QueuePendingTileEvictions_account (InvalidIndex : Z) (r : StreamingResourceBase)
    (heap : HeapAllocator.t) :
  let st1 :=
    if bool_decide (length (EvictionDelay.GetReadyToEvict (m_pendingEvictions r)) ≠ 0)
    then QueuePendingTileEvictions InvalidIndex (r, heap, UpdateList.empty)
    else (r, heap, UpdateList.empty) in
  same_settings r (fst (fst st1))
  ∧ m_refcounts (m_tileMappingState (fst (fst st1))) = m_refcounts (m_tileMappingState r)
  ∧ m_tileReferences (fst (fst st1)) = m_tileReferences r
  ∧ m_pendingTileLoads (fst (fst st1)) = m_pendingTileLoads r
  ∧ UpdateList.m_coords (snd st1) = []
  ∧ UpdateList.m_heapIndices (snd st1) = []
  ∧ HeapAllocator.GetNumFree (snd (fst st1))
    = HeapAllocator.GetNumFree heap + length (UpdateList.m_evictCoords (snd st1))
  ∧ length (EvictionDelay.GetReadyToEvict (m_pendingEvictions (fst (fst st1))))
    + length (UpdateList.m_evictCoords (snd st1))
    ≤ length (EvictionDelay.GetReadyToEvict (m_pendingEvictions r)).
Proof.
  cbv zeta. case_bool_decide as Hready.
  - rewrite QueuePendingTileEvictions_fold.
    destruct (evict_fold_account InvalidIndex
                (EvictionDelay.GetReadyToEvict (m_pendingEvictions r))
                (m_tileMappingState r) heap UpdateList.empty [])
      as (H1 & H2 & H3 & ev & H4 & H5 & H6).
    destruct (foldl (evict_step InvalidIndex) _ _) as [[[tms1 heap1] ul1] kept1].
    cbn [fst snd] in *.
    cbn [m_pendingEvictions set_pendingEvictions m_tileMappingState set_tileMappingState
         m_tileReferences m_pendingTileLoads].
    rewrite GetReadyToEvict_SetReadyToEvict by by apply GetReadyToEvict_nonempty.
    split; [by repeat split|]. split; [done|]. split; [done|]. split; [done|].
    split; [done|]. split; [done|]. rewrite H4. cbn. split; [done|]. simpl in H6. lia.
  - cbn [fst snd]. split; [by repeat split|]. repeat split; simpl; lia.
Qed.

(** One turn of the loop of [QueueTiles], with batches of at least one
    copy: the UpdateList that it fills pairs each load with a heap index and
    holds at most a batch of loads; the pool loses a page for each load and
    gains one for each eviction; what is recorded in the UpdateList is taken
    off the pending loads and the ready bucket; the reference counts, the
    tile references and the settings of the resource are untouched. *)
Lemma QueueTiles_pass (InvalidIndex GetMaxTileCopiesPerBatch : Z) (r : StreamingResourceBase)
    (heap : HeapAllocator.t) :
  (0 < GetMaxTileCopiesPerBatch)%Z →
  let st1 :=
    if bool_decide (length (EvictionDelay.GetReadyToEvict (m_pendingEvictions r)) ≠ 0)
    then QueuePendingTileEvictions InvalidIndex (r, heap, UpdateList.empty)
    else (r, heap, UpdateList.empty) in
  let st2 :=
    if bool_decide (length (m_pendingTileLoads r) ≠ 0)
       && bool_decide (HeapAllocator.GetNumFree (snd (fst st1)) ≠ 0)
    then QueuePendingTileLoads InvalidIndex GetMaxTileCopiesPerBatch st1
    else st1 in
  same_settings r (fst (fst st2))
  ∧ m_refcounts (m_tileMappingState (fst (fst st2))) = m_refcounts (m_tileMappingState r)
  ∧ m_tileReferences (fst (fst st2)) = m_tileReferences r
  ∧ length (UpdateList.m_heapIndices (snd st2)) = length (UpdateList.m_coords (snd st2))
  ∧ (Z.of_nat (length (UpdateList.m_coords (snd st2))) ≤ GetMaxTileCopiesPerBatch)%Z
  ∧ HeapAllocator.GetNumFree (snd (fst st2)) + length (UpdateList.m_coords (snd st2))
    = HeapAllocator.GetNumFree heap + length (UpdateList.m_evictCoords (snd st2))
  ∧ length (m_pendingTileLoads (fst (fst st2)))
    + length (EvictionDelay.GetReadyToEvict (m_pendingEvictions (fst (fst st2))))
    + length (UpdateList.m_coords (snd st2)) + length (UpdateList.m_evictCoords (snd st2))
    ≤ length (m_pendingTileLoads r)
      + length (EvictionDelay.GetReadyToEvict (m_pendingEvictions r)).
Proof.
  intros Hmax st1.
  destruct (QueuePendingTileEvictions_account InvalidIndex r heap)
    as (Hset & Hrc & Hrefs & Hloads & Hc & Hh & Hfree & Hm).
  fold st1 in Hset, Hrc, Hrefs, Hloads, Hc, Hh, Hfree, Hm.
  destruct st1 as [[r1 heap1] ul1]. cbn [fst snd] in *. cbv zeta.
  destruct (bool_decide (length (m_pendingTileLoads r) ≠ 0)
            && bool_decide (HeapAllocator.GetNumFree heap1 ≠ 0)) eqn:Hcond.
  - apply andb_true_iff in Hcond as [Hl%bool_decide_eq_true Hf%bool_decide_eq_true].
    rewrite QueuePendingTileLoads_walk. rewrite Hloads.
    set (budget := Z.min (Z.min (Z.of_nat (length (m_pendingTileLoads r)))
                             GetMaxTileCopiesPerBatch)
                     (Z.of_nat (HeapAllocator.GetNumFree heap1))).
    destruct (load_walk_account InvalidIndex (m_pendingTileLoads r) budget
                (m_tileMappingState r1) heap1 ul1 []) as (Hrc2 & loaded & Hc2 & Hh2 & Hm2).
    destruct (load_walk_budget InvalidIndex (m_pendingTileLoads r) budget
                (m_tileMappingState r1) heap1 ul1 []) as (loaded' & Hc3 & Hb3 & _ & Hf3 & He3);
      [subst budget; lia|].
    destruct (load_walk InvalidIndex budget _ _) as [[[[tms2 heap2] ul2] kept2] rest2].
    cbn [fst snd] in *.
    assert (loaded' = loaded) as -> by (rewrite Hc3 in Hc2; by apply app_inv_head in Hc2).
    cbn [m_pendingEvictions set_pendingTileLoads m_tileMappingState set_tileMappingState
         m_tileReferences m_pendingTileLoads].
    rewrite Hc in Hc2. rewrite Hh in Hh2. simpl in Hc2, Hh2, Hm2.
    rewrite Hc2, Hh2, He3, length_app.
    assert (HeapAllocator.GetNumFree heap2 + length loaded = HeapAllocator.GetNumFree heap1)
      as Hpool.
    { unfold HeapAllocator.GetNumFree in *. rewrite Hf3, length_drop. subst budget. lia. }
    split; [destruct Hset as (?&?&?&?&?&?&?&?&?&?); by repeat split|].
    split; [congruence|]. split; [done|]. split; [done|].
    split; [subst budget; lia|]. split; lia.
  - cbn [fst snd]. rewrite Hc, Hh, Hloads. cbn [length].
    split; [exact Hset|]. split; [done|]. split; [done|]. split; [done|].
    split; [lia|]. split; lia.
Qed.


Lemma same_settings_trans (r1 r2 r3 : StreamingResourceBase) :
  same_settings r1 r2 → same_settings r2 r3 → same_settings r1 r3.
Proof.
  intros (?&?&?&?&?&?&?&?&?&?) (?&?&?&?&?&?&?&?&?&?). repeat split; congruence.
Qed.

(** X14.  [QueueTiles] with batches of at least one copy, when
    [AllocateUpdateList] succeeds at most [avail] times: it submits at most
    [avail] UpdateLists, none of them empty, each pairing every load with a
    heap index and holding at most a batch of loads.  The pool of pages is
    accounted for: it loses one page for each load submitted and gains one
    for each eviction submitted.  The reference counts, the tile references
    and the settings of the resource are untouched. *)
Theorem QueueTiles_submitted (InvalidIndex GetMaxTileCopiesPerBatch : Z) (avail : nat)
    (r : StreamingResourceBase) (heap : HeapAllocator.t) :
  (0 < GetMaxTileCopiesPerBatch)%Z →
  let res := QueueTiles InvalidIndex GetMaxTileCopiesPerBatch avail (r, heap) in
  same_settings r (fst (fst res))
  ∧ m_refcounts (m_tileMappingState (fst (fst res))) = m_refcounts (m_tileMappingState r)
  ∧ m_tileReferences (fst (fst res)) = m_tileReferences r
  ∧ length (snd res) ≤ avail
  ∧ Forall (λ ul, (UpdateList.m_coords ul ≠ [] ∨ UpdateList.m_evictCoords ul ≠ [])
                  ∧ length (UpdateList.m_heapIndices ul) = length (UpdateList.m_coords ul)
                  ∧ (Z.of_nat (length (UpdateList.m_coords ul))
                     ≤ GetMaxTileCopiesPerBatch)%Z) (snd res)
  ∧ HeapAllocator.GetNumFree (snd (fst res))
    + length (flat_map UpdateList.m_coords (snd res))
    = HeapAllocator.GetNumFree heap
      + length (flat_map UpdateList.m_evictCoords (snd res)).
Proof.
  intros Hmax. revert r heap. induction avail as [|avail IH]; intros r heap; cbv zeta.
  - cbn [QueueTiles]. destruct (_ || _); cbn [fst snd flat_map length];
      (split; [apply same_settings_refl|]); repeat split; try done; lia.
  - cbn [QueueTiles]. destruct (_ && _ || _).
    2:{ cbn [fst snd flat_map length].
        split; [apply same_settings_refl|]. repeat split; try done; lia. }
    pose proof (QueueTiles_pass InvalidIndex GetMaxTileCopiesPerBatch r heap Hmax) as Hpass.
    cbv zeta in Hpass.
    match type of Hpass with
    | context [if ?b then QueuePendingTileLoads ?i ?m ?st1 else ?e] =>
        set (st2 := if b then QueuePendingTileLoads i m st1 else e) in *
    end.
    destruct st2 as [[r2 heap2] ul]. cbn [fst snd] in Hpass.
    destruct Hpass as (Hset & Hrc & Hrefs & Hidx & Hbatch & Hpool & _).
    destruct (bool_decide (length (UpdateList.m_coords ul) ≠ 0)
              || bool_decide (length (UpdateList.m_evictCoords ul) ≠ 0)) eqn:Hsub.
    + specialize (IH r2 heap2). cbv zeta in IH.
      destruct (QueueTiles InvalidIndex GetMaxTileCopiesPerBatch avail (r2, heap2))
        as [[r3 heap3] submitted].
      cbn [fst snd] in *. destruct IH as (Hset' & Hrc' & Hrefs' & Hlen' & Hall' & Hpool').
      split; [by eapply same_settings_trans|]. split; [congruence|]. split; [congruence|].
      split; [simpl; lia|]. split.
      * constructor; [|done]. split; [|done].
        apply orb_true_iff in Hsub as [H%bool_decide_eq_true|H%bool_decide_eq_true].
        -- left. by destruct (UpdateList.m_coords ul).
        -- right. by destruct (UpdateList.m_evictCoords ul).
      * cbn [flat_map]. rewrite !length_app. lia.
    + cbn [fst snd flat_map length].
      apply orb_false_iff in Hsub as [Hc%bool_decide_eq_false He%bool_decide_eq_false].
      split; [done|]. split; [done|]. split; [done|]. split; [lia|]. split; [done|]. lia.
Qed.

Lemma QueueTiles_submitted_witness :
  let res := QueueTiles 4294967295 32 1
               (sys_resource cold_system_feedback, sys_heap cold_system_feedback) in
  length (snd res) ≤ 1
  ∧ HeapAllocator.GetNumFree (snd (fst res))
    + length (flat_map UpdateList.m_coords (snd res))
    = HeapAllocator.GetNumFree (sys_heap cold_system_feedback)
      + length (flat_map UpdateList.m_evictCoords (snd res)).
Proof.
  destruct (QueueTiles_submitted 4294967295 32 1 (sys_resource cold_system_feedback)
              (sys_heap cold_system_feedback)) as (_ & _ & _ & Hlen & _ & Hpool); [lia|].
  split; [exact Hlen|exact Hpool].
Defined.


(** One turn of the loop of [QueueTiles]. *)
Lemma QueueTiles_unfold (InvalidIndex GetMaxTileCopiesPerBatch : Z) (avail : nat)
    (r : StreamingResourceBase) (heap : HeapAllocator.t) :
  QueueTiles InvalidIndex GetMaxTileCopiesPerBatch (S avail) (r, heap)
  = let st1 :=
      if bool_decide (length (EvictionDelay.GetReadyToEvict (m_pendingEvictions r)) ≠ 0)
      then QueuePendingTileEvictions InvalidIndex (r, heap, UpdateList.empty)
      else (r, heap, UpdateList.empty) in
    let st2 :=
      if bool_decide (length (m_pendingTileLoads r) ≠ 0)
         && bool_decide (HeapAllocator.GetNumFree (snd (fst st1)) ≠ 0)
      then QueuePendingTileLoads InvalidIndex GetMaxTileCopiesPerBatch st1
      else st1 in
    if bool_decide (length (m_pendingTileLoads r) ≠ 0)
       && bool_decide (HeapAllocator.GetNumFree heap ≠ 0)
       || bool_decide (length (EvictionDelay.GetReadyToEvict (m_pendingEvictions r)) ≠ 0)
    then
      if bool_decide (length (UpdateList.m_coords (snd st2)) ≠ 0)
         || bool_decide (length (UpdateList.m_evictCoords (snd st2)) ≠ 0)
      then
        let res := QueueTiles InvalidIndex GetMaxTileCopiesPerBatch avail (fst st2) in
        (fst (fst res), snd (fst res), snd st2 :: snd res)
      else (fst st2, [])
    else (r, heap, []).
Proof.
  cbn [QueueTiles]. cbv zeta. destruct (_ && _ || _); [|done].
  match goal with
  | |- context [if ?b then QueuePendingTileLoads ?i ?m ?st1 else ?e] =>
      destruct (if b then QueuePendingTileLoads i m st1 else e) as [[r2 heap2] ul]
  end.
  cbn [fst snd]. destruct (_ || _); [|done].
  by destruct (QueueTiles InvalidIndex GetMaxTileCopiesPerBatch avail (r2, heap2))
    as [[r3 heap3] submitted].
Qed.

(** With one more UpdateList than there are pending loads and tiles ready
    to evict, the loop of [QueueTiles] ends by itself. *)
Lemma QueueTiles_saturated (InvalidIndex GetMaxTileCopiesPerBatch : Z) :
  (0 < GetMaxTileCopiesPerBatch)%Z →
  ∀ (avail : nat) (r : StreamingResourceBase) (heap : HeapAllocator.t),
    length (m_pendingTileLoads r)
    + length (EvictionDelay.GetReadyToEvict (m_pendingEvictions r)) < avail →
    QueueTiles InvalidIndex GetMaxTileCopiesPerBatch (S avail) (r, heap)
    = QueueTiles InvalidIndex GetMaxTileCopiesPerBatch avail (r, heap).
Proof.
  intros Hmax. induction avail as [|avail IH]; intros r heap Hm; [lia|].
  rewrite (QueueTiles_unfold _ _ (S avail)), (QueueTiles_unfold _ _ avail). cbv zeta.
  pose proof (QueueTiles_pass InvalidIndex GetMaxTileCopiesPerBatch r heap Hmax) as Hpass.
  cbv zeta in Hpass.
  match type of Hpass with
  | context [if ?b then QueuePendingTileLoads ?i ?m ?st1 else ?e] =>
      set (st2 := if b then QueuePendingTileLoads i m st1 else e) in *
  end.
  destruct st2 as [[r2 heap2] ul]. cbn [fst snd] in *.
  destruct Hpass as (_ & _ & _ & _ & _ & _ & Hless).
  destruct (_ && _ || _); [|done].
  destruct (bool_decide (length (UpdateList.m_coords ul) ≠ 0)
            || bool_decide (length (UpdateList.m_evictCoords ul) ≠ 0)) eqn:Hsub; [|done].
  rewrite IH; [done|].
  apply orb_true_iff in Hsub as [H%bool_decide_eq_true|H%bool_decide_eq_true]; lia.
Qed.




(** ** The life cycle of a tile *)

Lemma queue_move_trans (a b c : Residency) :
  queue_move a b → queue_move b c → queue_move a c.
Proof. unfold queue_move. destruct a, b, c; naive_solver. Qed.

(** One turn of the loop of [QueueTiles] in a consistent state. *)
Lemma QueueTiles_pass_moves (InvalidIndex GetMaxTileCopiesPerBatch : Z)
    (r : StreamingResourceBase) (heap : HeapAllocator.t)
    (L E : list D3D12_TILED_RESOURCE_COORDINATE) :
  (0 < GetMaxTileCopiesPerBatch)%Z →
  tiles_consistent InvalidIndex (m_tileMappingState r) heap L E →
  let st1 :=
    if bool_decide (length (EvictionDelay.GetReadyToEvict (m_pendingEvictions r)) ≠ 0)
    then QueuePendingTileEvictions InvalidIndex (r, heap, UpdateList.empty)
    else (r, heap, UpdateList.empty) in
  let st2 :=
    if bool_decide (length (m_pendingTileLoads r) ≠ 0)
       && bool_decide (HeapAllocator.GetNumFree (snd (fst st1)) ≠ 0)
    then QueuePendingTileLoads InvalidIndex GetMaxTileCopiesPerBatch st1
    else st1 in
  tiles_consistent InvalidIndex (m_tileMappingState (fst (fst st2))) (snd (fst st2))
    (L ++ UpdateList.m_coords (snd st2)) (E ++ UpdateList.m_evictCoords (snd st2))
  ∧ (∀ c, tile_in_range (m_tileMappingState (fst (fst st2))) c
          ↔ tile_in_range (m_tileMappingState r) c)
  ∧ ∀ c, tile_in_range (m_tileMappingState r) c →
         queue_move (GetResidency (m_tileMappingState r) c)
           (GetResidency (m_tileMappingState (fst (fst st2))) c).
Proof.
  intros Hmax HJ st1.
  assert (tiles_consistent InvalidIndex (m_tileMappingState (fst (fst st1))) (snd (fst st1))
            (L ++ UpdateList.m_coords (snd st1)) (E ++ UpdateList.m_evictCoords (snd st1))
          ∧ (∀ c, tile_in_range (m_tileMappingState (fst (fst st1))) c
                  ↔ tile_in_range (m_tileMappingState r) c)
          ∧ (∀ c, tile_in_range (m_tileMappingState r) c →
                  queue_move (GetResidency (m_tileMappingState r) c)
                    (GetResidency (m_tileMappingState (fst (fst st1))) c))
          ∧ m_pendingTileLoads (fst (fst st1)) = m_pendingTileLoads r)
    as (HJ1 & Hr1 & Hm1 & Hloads1).
  { assert (tiles_consistent InvalidIndex (m_tileMappingState r) heap
              (L ++ UpdateList.m_coords UpdateList.empty)
              (E ++ UpdateList.m_evictCoords UpdateList.empty)) as HJ0.
    { simpl. by rewrite !app_nil_r. }
    subst st1. case_bool_decide.
    - destruct (QueuePendingTileEvictions_progress InvalidIndex r heap UpdateList.empty
                  L E HJ0) as [(HJ1 & Hr1 & given & _ & Honly) Hloads].
      destruct (QueuePendingTileEvictions InvalidIndex (r, heap, UpdateList.empty))
        as [[r1 heap1] ul1].
      cbn [fst snd] in *. split; [done|]. split; [done|]. split; [|done].
      intros c Hc. unfold queue_move. destruct (Honly c Hc) as [[-> _]|(-> & -> & _)]; eauto.
    - cbn [fst snd]. split; [done|]. split; [done|]. split; [|done]. intros c _. by left. }
  destruct st1 as [[r1 heap1] ul1]. cbn [fst snd] in *. cbv zeta.
  destruct (bool_decide (length (m_pendingTileLoads r) ≠ 0)
            && bool_decide (HeapAllocator.GetNumFree heap1 ≠ 0)) eqn:Hcond.
  - apply andb_true_iff in Hcond as [Hl%bool_decide_eq_true Hf%bool_decide_eq_true].
    rewrite <- Hloads1 in Hl.
    destruct (QueuePendingTileLoads_progress InvalidIndex GetMaxTileCopiesPerBatch r1 heap1
                ul1 L E Hmax Hl Hf HJ1) as (HJ2 & Hr2 & taken & _ & Honly).
    destruct (QueuePendingTileLoads InvalidIndex GetMaxTileCopiesPerBatch (r1, heap1, ul1))
      as [[r2 heap2] ul2].
    cbn [fst snd] in *. split; [done|]. split; [intros c; by rewrite Hr2, Hr1|].
    intros c Hc. apply (queue_move_trans _ (GetResidency (m_tileMappingState r1) c));
      [by apply Hm1|].
    unfold queue_move. destruct (Honly c) as [[-> _]|(-> & -> & _)]; [by apply Hr1| |]; eauto.
  - cbn [fst snd]. done.
Qed.

(** [QueueTiles] in a consistent state starts loads and evictions only. *)
Lemma QueueTiles_moves (InvalidIndex GetMaxTileCopiesPerBatch : Z) :
  (0 < GetMaxTileCopiesPerBatch)%Z →
  ∀ (avail : nat) (r : StreamingResourceBase) (heap : HeapAllocator.t)
    (L E : list D3D12_TILED_RESOURCE_COORDINATE),
    tiles_consistent InvalidIndex (m_tileMappingState r) heap L E →
    let res := QueueTiles InvalidIndex GetMaxTileCopiesPerBatch avail (r, heap) in
    (∀ c, tile_in_range (m_tileMappingState (fst (fst res))) c
          ↔ tile_in_range (m_tileMappingState r) c)
    ∧ ∀ c, tile_in_range (m_tileMappingState r) c →
           queue_move (GetResidency (m_tileMappingState r) c)
             (GetResidency (m_tileMappingState (fst (fst res))) c).
Proof.
  intros Hmax. induction avail as [|avail IH]; intros r heap L E HJ; cbv zeta.
  - cbn [QueueTiles]. destruct (_ || _); cbn [fst snd]; (split; [done|]); by left.
  - rewrite QueueTiles_unfold. cbv zeta.
    pose proof (QueueTiles_pass_moves InvalidIndex GetMaxTileCopiesPerBatch r heap L E Hmax HJ)
      as Hpass.
    cbv zeta in Hpass.
    match type of Hpass with
    | context [if ?b then QueuePendingTileLoads ?i ?m ?st1 else ?e] =>
        set (st2 := if b then QueuePendingTileLoads i m st1 else e) in *
    end.
    destruct st2 as [[r2 heap2] ul]. cbn [fst snd] in *.
    destruct Hpass as (HJ2 & Hr2 & Hm2).
    destruct (_ && _ || _); [|cbn [fst snd]; split; [done|]; by left].
    destruct (_ || _); [|cbn [fst snd]; by split].
    destruct (IH r2 heap2 _ _ HJ2) as [Hr3 Hm3]. cbn [fst snd].
    split; [intros c; by rewrite Hr3, Hr2|].
    intros c Hc. apply (queue_move_trans _ (GetResidency (m_tileMappingState r2) c)).
    + by apply Hm2.
    + apply Hm3. by apply Hr2.
Qed.

Lemma NotifyEvicted_moves (InvalidIndex : Z) (heap : HeapAllocator.t)
    (L : list D3D12_TILED_RESOURCE_COORDINATE) (C : list D3D12_TILED_RESOURCE_COORDINATE) :
  ∀ tms E,
    tiles_consistent InvalidIndex tms heap L (C ++ E) →
    let tms' := foldl (λ tms c, SetNotResident tms (X c) (Y c) (Subresource c)) tms C in
    (∀ c, tile_in_range tms' c ↔ tile_in_range tms c)
    ∧ ∀ c, tile_in_range tms c →
           GetResidency tms' c = GetResidency tms c
           ∨ (GetResidency tms c = Evicting ∧ GetResidency tms' c = NotResident).
Proof.
  induction C as [|c0 C IH]; intros tms E HJ; cbv zeta; [split; [done|]; by left|].
  cbn [foldl]. simpl in HJ.
  destruct (IH _ E (SetNotResident_consistent _ _ _ _ _ _ HJ)) as [Hr Hm].
  destruct (set_residency_spec NotResident tms c0 (tc_aligned _ _ _ _ _ HJ))
    as (Hr0 & _ & Hother & _ & Hc0).
  fold (SetNotResident tms (X c0) (Y c0) (Subresource c0)) in Hr0, Hother, Hc0.
  split; [intros c; by rewrite Hr, Hr0|].
  intros c Hc. pose proof (Hm c (proj2 (Hr0 c) Hc)) as Hmc.
  destruct (decide (c = c0)) as [->|Hne].
  - assert (GetResidency tms c0 = Evicting) as Hev.
    { apply (tc_evicting _ _ _ _ _ HJ); [by left|done]. }
    rewrite (Hc0 Hc) in Hmc. right. split; [done|]. by destruct Hmc as [->|[? _]].
  - rewrite (Hother c Hne) in Hmc. exact Hmc.
Qed.


Lemma NotifyCopyComplete_moves (InvalidIndex : Z) (heap : HeapAllocator.t)
    (E : list D3D12_TILED_RESOURCE_COORDINATE) (C : list D3D12_TILED_RESOURCE_COORDINATE) :
  ∀ tms L,
    tiles_consistent InvalidIndex tms heap (C ++ L) E →
    let tms' := foldl (λ tms c, SetResident tms (X c) (Y c) (Subresource c)) tms C in
    (∀ c, tile_in_range tms' c ↔ tile_in_range tms c)
    ∧ ∀ c, tile_in_range tms c →
           GetResidency tms' c = GetResidency tms c
           ∨ (GetResidency tms c = Loading ∧ GetResidency tms' c = Resident).
Proof.
  induction C as [|c0 C IH]; intros tms L HJ; cbv zeta; [split; [done|]; by left|].
  cbn [foldl]. simpl in HJ.
  destruct (IH _ L (SetResident_consistent _ _ _ _ _ _ HJ)) as [Hr Hm].
  destruct (set_residency_spec Resident tms c0 (tc_aligned _ _ _ _ _ HJ))
    as (Hr0 & _ & Hother & _ & Hc0).
  fold (SetResident tms (X c0) (Y c0) (Subresource c0)) in Hr0, Hother, Hc0.
  split; [intros c; by rewrite Hr, Hr0|].
  intros c Hc. pose proof (Hm c (proj2 (Hr0 c) Hc)) as Hmc.
  destruct (decide (c = c0)) as [->|Hne].
  - assert (GetResidency tms c0 = Loading) as Hld.
    { apply (tc_loading _ _ _ _ _ HJ); [by left|done]. }
    rewrite (Hc0 Hc) in Hmc. right. split; [done|]. by destruct Hmc as [->|[? _]].
  - rewrite (Hother c Hne) in Hmc. exact Hmc.
Qed.

(** The notices of a completed UpdateList that was in flight end loads and
    evictions only. *)
Lemma NotifyUpdateList_moves (InvalidIndex : Z) (r : StreamingResourceBase)
    (heap : HeapAllocator.t) (before after : list UpdateList.t) (ul : UpdateList.t) :
  tiles_consistent InvalidIndex (m_tileMappingState r) heap
    (flat_map UpdateList.m_coords (before ++ ul :: after))
    (flat_map UpdateList.m_evictCoords (before ++ ul :: after)) →
  let tms' := m_tileMappingState (NotifyUpdateList ul r) in
  (∀ c, tile_in_range tms' c ↔ tile_in_range (m_tileMappingState r) c)
  ∧ ∀ c, tile_in_range (m_tileMappingState r) c →
         notify_move (GetResidency (m_tileMappingState r) c) (GetResidency tms' c).
Proof.
  intros HJ. cbv zeta. rewrite NotifyUpdateList_tiles.
  assert (tiles_consistent InvalidIndex (m_tileMappingState r) heap
            (UpdateList.m_coords ul ++ flat_map UpdateList.m_coords (before ++ after))
            (UpdateList.m_evictCoords ul
             ++ flat_map UpdateList.m_evictCoords (before ++ after))) as HJ0.
  { eapply tiles_consistent_perm; [| |exact HJ].
    - rewrite !flat_map_app. simpl. rewrite (assoc_L (++)).
      rewrite (comm (++) _ (UpdateList.m_coords ul)). by rewrite <- (assoc_L (++)).
    - rewrite !flat_map_app. simpl. rewrite (assoc_L (++)).
      rewrite (comm (++) _ (UpdateList.m_evictCoords ul)). by rewrite <- (assoc_L (++)). }
  destruct (NotifyEvicted_moves InvalidIndex heap _ (UpdateList.m_evictCoords ul) _ _ HJ0)
    as [Hr1 Hm1].
  pose proof (NotifyEvicted_consistent InvalidIndex heap _ (UpdateList.m_evictCoords ul)
                _ _ HJ0) as HJ1.
  destruct (NotifyCopyComplete_moves InvalidIndex heap _ (UpdateList.m_coords ul) _ _ HJ1)
    as [Hr2 Hm2].
  split; [intros c; by rewrite Hr2, Hr1|].
  intros c Hc. unfold notify_move.
  destruct (Hm1 c Hc) as [Heq1|[Hev Hn]], (Hm2 c (proj2 (Hr1 c) Hc)) as [Heq2|[Hld Hres]].
  - left. congruence.
  - right. left. split; congruence.
  - right. right. split; congruence.
  - congruence.
Qed.




(** ** The count of the references along a run of the engine *)

Lemma fmap_alter_same {A B} (g : A → B) (f : A → A) (i : nat) (l : list A) :
  (∀ a, g (f a) = g a) → g <$> alter f i l = g <$> l.
Proof.
  intros Hg. revert i. induction l as [|a l IH]; intros [|i]; simpl; [done|done| |].
  - by rewrite Hg.
  - f_equal. apply IH.
Qed.

Lemma layer_shape_set {A} (l : TileLayer A) (x y s : nat) (v : A) :
  layer_shape (layer_set l x y s v) = layer_shape l.
Proof.
  unfold layer_shape, layer_set. apply fmap_alter_same. intros plane.
  apply fmap_alter_same. intros row. apply length_insert.
Qed.

Lemma same_grid_refl (tms : TileMappingState) : same_grid tms tms.
Proof. done. Qed.

Lemma same_grid_trans (tms1 tms2 tms3 : TileMappingState) :
  same_grid tms1 tms2 → same_grid tms2 tms3 → same_grid tms1 tms3.
Proof. intros [? ?] [? ?]. split; congruence. Qed.

Lemma same_grid_set_residency (res : Residency) (tms : TileMappingState) (x y s : nat) :
  same_grid tms (set_residency res tms x y s).
Proof. split; [done|]. apply layer_shape_set. Qed.

Lemma same_grid_SetHeapIndex (tms : TileMappingState) (c : D3D12_TILED_RESOURCE_COORDINATE)
    (v : Z) :
  same_grid tms (SetHeapIndex tms c v).
Proof. done. Qed.

Lemma same_grid_sizes (tms tms' : TileMappingState) (s : nat) :
  same_grid tms tms' → GetWidth tms' s = GetWidth tms s ∧ GetHeight tms' s = GetHeight tms s.
Proof.
  intros [_ Hshape]. unfold GetWidth, GetHeight.
  assert (layer_shape (m_resident tms') !! s = layer_shape (m_resident tms) !! s) as Hs
    by by rewrite Hshape.
  unfold layer_shape in Hs. rewrite !list_lookup_fmap in Hs.
  destruct (m_resident tms' !! s) as [plane'|], (m_resident tms !! s) as [plane|];
    try done; cbn in Hs.
  injection Hs as Hs. cbn. split.
  - pose proof (f_equal (λ l : list nat, l !! 0) Hs) as H0. cbn beta in H0.
    rewrite !list_lookup_fmap in H0.
    destruct (plane' !! 0), (plane !! 0); try done. by injection H0.
  - pose proof (f_equal length Hs) as Hl. by rewrite !length_fmap in Hl.
Qed.

Lemma same_tracking_refl (r : StreamingResourceBase) : same_tracking r r.
Proof. by repeat split. Qed.

Lemma same_tracking_trans (r1 r2 r3 : StreamingResourceBase) :
  same_tracking r1 r2 → same_tracking r2 r3 → same_tracking r1 r3.
Proof.
  intros (Hg & ? & ? & ? & ?) (Hg' & ? & ? & ? & ?).
  split; [by eapply same_grid_trans|]. repeat split; congruence.
Qed.

(** The shape of a resource and the count of the references carry over to
    a resource that holds the same counts on grids of the same shape. *)
Lemma same_tracking_invariants (r r' : StreamingResourceBase) :
  same_tracking r r' → well_formed r → refcount_invariant r →
  well_formed r' ∧ refcount_invariant r'.
Proof.
  intros (Hgrid & Hrefs & HW & HH & HM) Hwf Hinv.
  pose proof Hgrid as [Hrc _].
  assert (tracked_tiles r' = tracked_tiles r) as Htr.
  { unfold tracked_tiles. rewrite HM. apply flat_map_ext. intros s. unfold tiles_of_mip.
    by destruct (same_grid_sizes _ _ s Hgrid) as [-> ->]. }
  split.
  - constructor.
    + rewrite Hrefs, HW, HH. apply (wf_references_length r Hwf).
    + rewrite Hrefs, HM. apply (wf_references_bound r Hwf).
    + rewrite Hrc, HW, HH, HM. apply (wf_covering r Hwf).
    + rewrite Hrc, HM, Htr. apply (wf_tracked r Hwf).
    + rewrite HW, HH. apply (wf_regions r Hwf).
  - unfold refcount_invariant, GetRefCount. rewrite Hrc, Hrefs, HW, HH, HM. apply Hinv.
Qed.

Lemma evict_fold_grid (InvalidIndex : Z) (coords : MappingCoords) :
  ∀ st, same_grid (fst (fst (fst st)))
          (fst (fst (fst (foldl (evict_step InvalidIndex) st coords)))).
Proof.
  induction coords as [|c coords IH]; intros st; [done|]. cbn [foldl].
  eapply same_grid_trans; [|apply IH].
  destruct st as [[[tms heap] ul] kept]. unfold evict_step. cbn [fst snd].
  destruct (GetResidency tms c); cbn [fst]; try done.
  eapply same_grid_trans; [apply same_grid_set_residency|apply same_grid_SetHeapIndex].
Qed.

Lemma load_walk_grid (InvalidIndex : Z) (coords : list D3D12_TILED_RESOURCE_COORDINATE) :
  ∀ budget st, same_grid (fst (fst (fst st)))
                 (fst (fst (fst (fst (load_walk InvalidIndex budget st coords))))).
Proof.
  induction coords as [|c coords IH]; intros budget st; [done|]. cbn [load_walk].
  assert (same_grid (fst (fst (fst st))) (fst (fst (fst (load_step InvalidIndex st c)))))
    as Hstep.
  { destruct st as [[[tms heap] ul] kept]. unfold load_step. cbn [fst snd].
    destruct (GetResidency tms c); cbn [fst]; try done.
    eapply same_grid_trans; [apply same_grid_set_residency|apply same_grid_SetHeapIndex]. }
  repeat case_decide; cbn [fst]; try done; (eapply same_grid_trans; [exact Hstep|apply IH]).
Qed.


Lemma QueueTiles_pass_tracking (InvalidIndex GetMaxTileCopiesPerBatch : Z)
    (r : StreamingResourceBase) (heap : HeapAllocator.t) :
  let st1 :=
    if bool_decide (length (EvictionDelay.GetReadyToEvict (m_pendingEvictions r)) ≠ 0)
    then QueuePendingTileEvictions InvalidIndex (r, heap, UpdateList.empty)
    else (r, heap, UpdateList.empty) in
  let st2 :=
    if bool_decide (length (m_pendingTileLoads r) ≠ 0)
       && bool_decide (HeapAllocator.GetNumFree (snd (fst st1)) ≠ 0)
    then QueuePendingTileLoads InvalidIndex GetMaxTileCopiesPerBatch st1
    else st1 in
  same_tracking r (fst (fst st2)).
Proof.
  intros st1.
  assert (same_tracking r (fst (fst st1))) as H1.
  { subst st1. case_bool_decide; [|apply same_tracking_refl].
    rewrite QueuePendingTileEvictions_fold. cbn [fst].
    split; [|done]. apply (evict_fold_grid InvalidIndex _ (m_tileMappingState r, heap, _, _)). }
  destruct st1 as [[r1 heap1] ul1]. cbn [fst snd] in *. cbv zeta.
  destruct (_ && _); [|done].
  eapply same_tracking_trans; [exact H1|].
  rewrite QueuePendingTileLoads_walk. cbn [fst].
  split; [|done].
  apply (load_walk_grid InvalidIndex _ _ (m_tileMappingState r1, heap1, ul1, [])).
Qed.

(** [QueueTiles] keeps what the count of the references depends on. *)
Lemma QueueTiles_tracking (InvalidIndex GetMaxTileCopiesPerBatch : Z) (avail : nat) :
  ∀ (r : StreamingResourceBase) (heap : HeapAllocator.t),
    same_tracking r
      (fst (fst (QueueTiles InvalidIndex GetMaxTileCopiesPerBatch avail (r, heap)))).
Proof.
  induction avail as [|avail IH]; intros r heap.
  - cbn [QueueTiles]. destruct (_ || _); apply same_tracking_refl.
  - rewrite QueueTiles_unfold. cbv zeta.
    pose proof (QueueTiles_pass_tracking InvalidIndex GetMaxTileCopiesPerBatch r heap)
      as Hpass.
    cbv zeta in Hpass.
    match type of Hpass with
    | context [if ?b then QueuePendingTileLoads ?i ?m ?st1 else ?e] =>
        set (st2 := if b then QueuePendingTileLoads i m st1 else e) in *
    end.
    destruct st2 as [[r2 heap2] ul]. cbn [fst snd] in *.
    destruct (_ && _ || _); [|apply same_tracking_refl].
    destruct (_ || _); [|exact Hpass].
    cbn [fst]. eapply same_tracking_trans; [exact Hpass|apply IH].
Qed.

Lemma set_residency_fold_grid (res : Residency)
    (coords : list D3D12_TILED_RESOURCE_COORDINATE) :
  ∀ tms, same_grid tms
           (foldl (λ tms c, set_residency res tms (X c) (Y c) (Subresource c)) tms coords).
Proof.
  induction coords as [|c coords IH]; intros tms; [done|]. cbn [foldl].
  eapply same_grid_trans; [apply same_grid_set_residency|apply IH].
Qed.

Lemma NotifyUpdateList_tracking (ul : UpdateList.t) (r : StreamingResourceBase) :
  same_tracking r (NotifyUpdateList ul r).
Proof.
  split.
  - rewrite NotifyUpdateList_tiles.
    eapply same_grid_trans; [apply (set_residency_fold_grid NotResident)|].
    apply (set_residency_fold_grid Resident).
  - unfold NotifyUpdateList. by repeat case_bool_decide.
Qed.

Lemma step_tracking (InvalidIndex : Z) (RESOLVE_TO_TEXTURE : bool)
    (GetMaxTileCopiesPerBatch : Z) (sys sys' : System) :
  step InvalidIndex RESOLVE_TO_TEXTURE GetMaxTileCopiesPerBatch sys sys' →
  well_formed (sys_resource sys) → refcount_invariant (sys_resource sys) →
  well_formed (sys_resource sys') ∧ refcount_invariant (sys_resource sys').
Proof.
  intros Hstep Hwf Hinv.
  destruct Hstep as [fence resolved sys|avail sys|before ul after sys Hsub|sys|n fence sys
                     |residencyMap sys|sys|sys|i sys Hi Hnot Hheld];
    cbn [sys_resource sys_heap sys_submitted].
  - by apply ProcessFeedback_keeps_invariants.
  - apply (same_tracking_invariants (sys_resource sys)); [|done|done].
    apply QueueTiles_tracking.
  - apply (same_tracking_invariants (sys_resource sys)); [|done|done].
    apply NotifyUpdateList_tracking.
  - by apply (same_tracking_invariants (sys_resource sys)).
  - by apply (same_tracking_invariants (sys_resource sys)).
  - apply (same_tracking_invariants (sys_resource sys)); [|done|done].
    unfold UpdateMinMipMap. by destruct (negb _).
  - by apply (same_tracking_invariants (sys_resource sys)).
  - done.
  - done.
Qed.

(** X17.  The count of the references holds along every run of the engine.
    From a resource of the shape that the constructor establishes, in which
    the reference count of every tracked tile is the number of the regions
    over it that refer to its mip or to a finer one, every sequence of calls
    of the engine ([ProcessFeedback], [QueueTiles], the notices of the
    DataUploader, [NextFrame], [ResolveFeedback], [UpdateMinMipMap],
    [QueueEviction]) leads to such a resource: only [ProcessFeedback]
    changes a reference count or a tile reference. *)
Theorem run_refcount_invariant (InvalidIndex : Z) (RESOLVE_TO_TEXTURE : bool)
    (GetMaxTileCopiesPerBatch : Z) (sys sys' : System) :
  well_formed (sys_resource sys) → refcount_invariant (sys_resource sys) →
  run InvalidIndex RESOLVE_TO_TEXTURE GetMaxTileCopiesPerBatch sys sys' →
  well_formed (sys_resource sys') ∧ refcount_invariant (sys_resource sys').
Proof.
  intros Hwf Hinv Hrun. induction Hrun as [sys|sys sys' sys'' _ IH Hstep]; [done|].
  destruct (IH Hwf Hinv) as [Hwf' Hinv']. by eapply step_tracking.
Qed.

Lemma run_refcount_invariant_witness :
  well_formed (sys_resource cold_system_queued)
  ∧ refcount_invariant (sys_resource cold_system_queued).
Proof.
  apply (run_refcount_invariant 4294967295 false 32 cold_system cold_system_queued).
  - apply cold_resource_invariant.
  - apply cold_resource_invariant.
  - apply run_step with (sys' := cold_system_feedback);
      [|exact (step_QueueTiles 4294967295 false 32 1 cold_system_feedback)].
    apply run_step with (sys' := cold_system_resolved);
      [|exact (step_ProcessFeedback 4294967295 false 32 1 cold_feedback
                 cold_system_resolved)].
    apply run_step with (sys' := cold_system);
      [|exact (step_ResolveFeedback 4294967295 false 32 2 1 cold_system)].
    apply run_refl.
Defined.


(** ** PadPackedMips *)

Lemma PadPackedMips_flat (packedBits : list Z) (footprints : list Footprint)
    (st : list Z * nat * nat) :
  foldl (λ st f, foldl (PadPackedMips_row packedBits f) st (seq 0 (numRows f))) st footprints
  = foldl (λ st f, PadPackedMips_row packedBits f st 0) st (packed_rows footprints).
Proof.
  unfold packed_rows. rewrite foldl_flat_map. apply foldl_ext_in. intros st' f _.
  assert (∀ n a st0,
            foldl (PadPackedMips_row packedBits f) st0 (seq a n)
            = foldl (λ st f', PadPackedMips_row packedBits f' st 0) st0 (replicate n f))
    as Hrows; [|apply Hrows].
  induction n as [|n IH]; intros a st0; [done|].
  cbn [seq replicate foldl]. rewrite IH. by destruct st0 as [[? ?] ?].
Qed.

Lemma sum_take_lt {A} (g : A → nat) (l : list A) :
  ∀ a b fa, a < b → l !! a = Some fa →
            sum_list_with g (take a l) + g fa ≤ sum_list_with g (take b l).
Proof.
  induction l as [|x l IH]; intros [|a] [|b] fa Hab Ha; try done; try lia.
  - simpl in *. injection Ha as ->. lia.
  - simpl in *. pose proof (IH a b fa ltac:(lia) Ha). lia.
Qed.

(** The state of the copy after the rows [rows]: every row lies in the
    padded vector at the sum of the pitches of the rows before it, and the
    bytes that no row covers are zero. *)
Lemma PadPackedMips_rows_spec (packedBits : list Z) (totalBytes : nat)
    (rows : list Footprint) :
  Forall (λ f, rowSizeBytes f ≤ RowPitch f) rows →
  sum_list_with rowSizeBytes rows ≤ length packedBits →
  (∀ k f, rows !! k = Some f →
          sum_list_with RowPitch (take k rows) + rowSizeBytes f ≤ totalBytes) →
  let st := foldl (λ st f, PadPackedMips_row packedBits f st 0)
              (replicate totalBytes 0%Z, 0, 0) rows in
  snd (fst st) = sum_list_with RowPitch rows
  ∧ snd st = sum_list_with rowSizeBytes rows
  ∧ length (fst (fst st)) = totalBytes
  ∧ (∀ k f j, rows !! k = Some f → j < rowSizeBytes f →
       fst (fst st) !! (sum_list_with RowPitch (take k rows) + j)
       = packedBits !! (sum_list_with rowSizeBytes (take k rows) + j))
  ∧ (∀ p, p < totalBytes →
       (∀ k f, rows !! k = Some f →
               ¬ (sum_list_with RowPitch (take k rows) ≤ p
                  < sum_list_with RowPitch (take k rows) + rowSizeBytes f)) →
       fst (fst st) !! p = Some 0%Z).
Proof.
  induction rows as [|f rows IH] using rev_ind; intros Hpitch Hsrc Hfit; cbv zeta.
  - cbn [foldl fst snd]. split; [done|]. split; [done|].
    split; [by rewrite length_replicate|]. split; [done|].
    intros p Hp _. by apply lookup_replicate_2.
  - apply Forall_app in Hpitch as [Hpitch Hf%Forall_singleton].
    rewrite sum_list_with_app in Hsrc. cbn in Hsrc.
    destruct IH as (Hd & Hs & Hlen & Hrows & Hzero); [done|lia| |].
    { intros k f' Hk. specialize (Hfit k f').
      rewrite lookup_app_l in Hfit by by eapply lookup_lt_Some.
      rewrite take_app_le in Hfit by (apply Nat.lt_le_incl; by eapply lookup_lt_Some).
      by apply Hfit. }
    pose proof (Hfit (length rows) f) as Hlast.
    rewrite lookup_app_r, Nat.sub_diag in Hlast by done.
    rewrite take_app_length in Hlast. specialize (Hlast eq_refl).
    rewrite foldl_snoc.
    destruct (foldl _ _ rows) as [[padded pDst] pSrc]. cbn [fst snd] in *. subst pDst pSrc.
    unfold PadPackedMips_row, memcpy. cbn [fst snd].
    rewrite !sum_list_with_app. cbn [sum_list_with].
    split; [lia|]. split; [lia|]. split; [by rewrite length_inserts|].
    assert (length (take (rowSizeBytes f) (drop (sum_list_with rowSizeBytes rows) packedBits))
            = rowSizeBytes f) as Hcopy.
    { rewrite length_take, length_drop. lia. }
    assert (∀ k f', rows !! k = Some f' →
                    sum_list_with RowPitch (take k rows) + RowPitch f'
                    ≤ sum_list_with RowPitch rows) as Hbelow.
    { intros k f' Hk. rewrite <- (take_drop k rows) at 2.
      rewrite sum_list_with_app. rewrite (drop_S _ _ _ Hk). cbn. lia. }
    split.
    + intros k f' j Hk Hj. destruct (decide (k < length rows)) as [Hlt|Hge].
      * rewrite lookup_app_l in Hk by done. rewrite take_app_le by lia.
        pose proof (Hbelow k f' Hk). rewrite Forall_forall in Hpitch.
        pose proof (Hpitch f' (list_elem_of_lookup_2 _ _ _ Hk)).
        rewrite list_lookup_inserts_lt by lia. by apply (Hrows k f').
      * assert (k = length rows) as ->.
        { apply lookup_lt_Some in Hk. rewrite length_app in Hk. simpl in Hk. lia. }
        rewrite lookup_app_r, Nat.sub_diag in Hk by done. injection Hk as <-.
        rewrite take_app_length.
        rewrite list_lookup_inserts by lia.
        rewrite lookup_take_lt by lia. rewrite lookup_drop. f_equal. lia.
    + intros p Hp Hfree.
      assert (¬ (sum_list_with RowPitch rows ≤ p
                 < sum_list_with RowPitch rows + rowSizeBytes f)) as Hout.
      { pose proof (Hfree (length rows) f) as Hl.
        rewrite lookup_app_r, Nat.sub_diag, take_app_length in Hl by done. by apply Hl. }
      rewrite list_inserts_outside by (rewrite Hcopy; exact Hout).
      apply Hzero; [done|]. intros k f' Hk. specialize (Hfree k f').
      rewrite lookup_app_l in Hfree by by eapply lookup_lt_Some.
      rewrite take_app_le in Hfree by (apply Nat.lt_le_incl; by eapply lookup_lt_Some).
      by apply Hfree.
Qed.

(** X18.  [PadPackedMips] copies the rows of the packed mips one after the
    other from the packed bits into the padded vector, the row [k] to the
    sum of the row pitches of the rows before it.  When no row is longer
    than its pitch, the packed bits hold all the rows and no row is written
    past the end of the padded vector: the padded vector has [totalBytes]
    bytes, every byte [j] of every row is the byte of the packed bits at
    the sum of the sizes of the rows before plus [j], and the bytes of the
    padding between the rows are zero. *)
Theorem PadPackedMips_rows_padded (footprints : list Footprint) (totalBytes : nat)
    (packedBits : list Z) (k : nat) (f : Footprint) :
  let rows := packed_rows footprints in
  let padded := PadPackedMips footprints totalBytes packedBits in
  let pDst := sum_list_with RowPitch (take k rows) in
  let pSrc := sum_list_with rowSizeBytes (take k rows) in
  Forall (λ f, rowSizeBytes f ≤ RowPitch f) footprints →
  sum_list_with rowSizeBytes rows ≤ length packedBits →
  (∀ k f, rows !! k = Some f →
          sum_list_with RowPitch (take k rows) + rowSizeBytes f ≤ totalBytes) →
  rows !! k = Some f →
  length padded = totalBytes
  ∧ (∀ j, j < rowSizeBytes f → padded !! (pDst + j) = packedBits !! (pSrc + j))
  ∧ (∀ j, rowSizeBytes f ≤ j < RowPitch f → pDst + j < totalBytes →
          padded !! (pDst + j) = Some 0%Z).
Proof.
  intros rows padded pDst pSrc Hpitch Hsrc Hfit Hk.
  assert (Forall (λ f, rowSizeBytes f ≤ RowPitch f) rows) as Hpitch'.
  { rewrite Forall_forall in Hpitch |- *. intros f' Hf'.
    apply elem_of_flat_map in Hf' as (f0 & Hf0 & Hrep).
    apply elem_of_replicate in Hrep as [-> _]. by apply Hpitch. }
  destruct (PadPackedMips_rows_spec packedBits totalBytes rows Hpitch' Hsrc Hfit)
    as (_ & _ & Hlen & Hrows & Hzero).
  subst padded. unfold PadPackedMips. rewrite PadPackedMips_flat. fold rows.
  split; [exact Hlen|]. split; [intros j Hj; by apply (Hrows k f j)|].
  intros j Hj Hp. apply Hzero; [done|]. intros k' f' Hk' Hin.
  pose proof (sum_take_lt RowPitch rows) as Hmono.
  rewrite Forall_forall in Hpitch'.
  pose proof (Hpitch' f (list_elem_of_lookup_2 _ _ _ Hk)).
  pose proof (Hpitch' f' (list_elem_of_lookup_2 _ _ _ Hk')).
  destruct (Nat.lt_trichotomy k k') as [Hlt|[->|Hgt]].
  - pose proof (Hmono k k' f Hlt Hk). fold pDst in H1. lia.
  - rewrite Hk in Hk'. injection Hk' as <-. fold pDst in Hin. lia.
  - pose proof (Hmono k' k f' Hgt Hk'). fold pDst in H1. lia.
Qed.

Lemma PadPackedMips_rows_padded_witness :
  PadPackedMips [ {| numRows := 2; rowSizeBytes := 3; RowPitch := 4 |};
                  {| numRows := 1; rowSizeBytes := 2; RowPitch := 4 |} ] 10
    [1; 2; 3; 4; 5; 6; 7; 8]%Z
  = [1; 2; 3; 0; 4; 5; 6; 0; 7; 8]%Z
  ∧ length (PadPackedMips [ {| numRows := 2; rowSizeBytes := 3; RowPitch := 4 |};
                            {| numRows := 1; rowSizeBytes := 2; RowPitch := 4 |} ] 10
              [1; 2; 3; 4; 5; 6; 7; 8]%Z) = 10.
Proof.
  split; [reflexivity|].
  apply (PadPackedMips_rows_padded
           [ {| numRows := 2; rowSizeBytes := 3; RowPitch := 4 |};
             {| numRows := 1; rowSizeBytes := 2; RowPitch := 4 |} ] 10
           [1; 2; 3; 4; 5; 6; 7; 8]%Z 1 {| numRows := 2; rowSizeBytes := 3; RowPitch := 4 |}).
  - repeat constructor; simpl; lia.
  - simpl. lia.
  - intros [|[|[|k]]] f; simpl; intros Hf; try done; injection Hf as <-; simpl; lia.
  - reflexivity.
Defined.


(** ** InitPackedMips *)

(** The loop that reserves the pages of the packed mips takes pages from
    the pool until it has them all or the pool is empty. *)
Lemma InitPackedMips_reserve_spec (InvalidIndex : Z) (dist : nat) :
  ∀ (indices : list Z) (heap : HeapAllocator.t),
    InvalidIndex ∉ HeapAllocator.m_free heap →
    let res := InitPackedMips_reserve InvalidIndex dist indices heap in
    ∃ taken,
      HeapAllocator.m_free heap = taken ++ HeapAllocator.m_free (snd res)
      ∧ snd (fst res) = indices ++ taken
      ∧ (fst (fst res) = true → length taken = dist)
      ∧ (fst (fst res) = false → length taken < dist ∧ HeapAllocator.m_free (snd res) = [])
      ∧ (dist ≤ HeapAllocator.GetNumFree heap → fst (fst res) = true).
Proof.
  induction dist as [|dist IH]; intros indices heap Hfree; cbv zeta.
  - exists []. cbn. rewrite app_nil_r. repeat split; try done; lia.
  - cbn [InitPackedMips_reserve]. unfold HeapAllocator.Allocate, HeapAllocator.GetNumFree.
    destruct heap as [[|i rest]]; cbn [HeapAllocator.m_free] in *.
    + rewrite bool_decide_eq_false_2 by (intros Hne; by apply Hne).
      exists []. cbn. rewrite app_nil_r. repeat split; try done; lia.
    + apply not_elem_of_cons in Hfree as [Hi Hrest].
      rewrite bool_decide_eq_true_2 by done.
      destruct (IH (indices ++ [i]) (HeapAllocator.Build rest) Hrest)
        as (taken & Hpool & Hidx & Hok & Hfail & Hfit).
      exists (i :: taken). cbn [HeapAllocator.m_free] in *.
      split; [simpl; by f_equal|]. split; [by rewrite Hidx, <- (assoc_L (++))|].
      split; [intros H; simpl; by rewrite Hok|].
      split; [intros H; destruct (Hfail H); simpl; split; [lia|done]|].
      intros Hle. apply Hfit. unfold HeapAllocator.GetNumFree. simpl in *. lia.
Qed.

(** X19.  [InitPackedMips] on a resource that holds at most the pages that
    its packed mips need (exactly these once the heap space is reserved),
    with a pool that does not hold the sentinel: the [ASSERT] of the debug
    build holds; no page is lost, every page taken from the pool being
    appended to [m_packedMipHeapIndices], also when the pool runs dry half
    way; the status never steps back and the call returns true exactly when
    the copy is requested or done; an UpdateList is submitted only on the
    step to [REQUESTED] and carries exactly the pages of the packed mips;
    and the call succeeds when it is still needed, the pool holds the
    missing pages and an UpdateList is available. *)
Theorem InitPackedMips_reserves (InvalidIndex : Z) (NumTilesForPackedMips NumPackedMips : nat)
    (updateListAvailable : bool) (pm : PackedMips) (heap : HeapAllocator.t) :
  packed_ok NumTilesForPackedMips pm →
  InvalidIndex ∉ HeapAllocator.m_free heap →
  let res := InitPackedMips InvalidIndex NumTilesForPackedMips NumPackedMips
               updateListAvailable pm heap in
  let pm' := snd (fst (fst res)) in
  let heap' := snd (fst res) in
  snd (InitPackedMips_flagged InvalidIndex NumTilesForPackedMips NumPackedMips
         updateListAvailable pm heap) = true
  ∧ packed_ok NumTilesForPackedMips pm'
  ∧ (∃ taken,
       HeapAllocator.m_free heap = taken ++ HeapAllocator.m_free heap'
       ∧ m_packedMipHeapIndices pm' = m_packedMipHeapIndices pm ++ taken)
  ∧ PackedMipStatus_value (m_packedMipStatus pm)
    ≤ PackedMipStatus_value (m_packedMipStatus pm')
  ∧ (fst (fst (fst res)) = true
     ↔ PackedMipStatus_value REQUESTED ≤ PackedMipStatus_value (m_packedMipStatus pm'))
  ∧ (∀ ul, snd res = Some ul →
           PackedMipStatus_value (m_packedMipStatus pm) < PackedMipStatus_value REQUESTED
           ∧ m_packedMipStatus pm' = REQUESTED
           ∧ ul = (m_packedMipHeapIndices pm', NumPackedMips)
           ∧ length (m_packedMipHeapIndices pm') = NumTilesForPackedMips)
  ∧ (NumTilesForPackedMips - length (m_packedMipHeapIndices pm)
     ≤ HeapAllocator.GetNumFree heap →
     updateListAvailable = true →
     fst (fst (fst res)) = true).
Proof.
  intros Hok Hfree. cbv zeta. unfold InitPackedMips, InitPackedMips_flagged.
  destruct (decide (PackedMipStatus_value REQUESTED
                    ≤ PackedMipStatus_value (m_packedMipStatus pm))) as [Hreq|Hreq].
  { rewrite bool_decide_eq_true_2 by done. cbn [fst snd].
    split; [done|]. split; [done|]. split; [exists []; by rewrite app_nil_r|].
    split; [done|]. split; [done|]. split; [done|]. done. }
  rewrite bool_decide_eq_false_2 by done.
  destruct (decide (PackedMipStatus_value (m_packedMipStatus pm)
                    < PackedMipStatus_value HEAP_RESERVED)) as [Hres|Hres].
  - rewrite bool_decide_eq_true_2 by done.
    unfold packed_ok in Hok. rewrite bool_decide_eq_true_2 in Hok by done.
    destruct (InitPackedMips_reserve_spec InvalidIndex
                (NumTilesForPackedMips - length (m_packedMipHeapIndices pm))
                (m_packedMipHeapIndices pm) heap Hfree)
      as (taken & Hpool & Hidx & Hgot & Hfail & Hfit).
    destruct (InitPackedMips_reserve InvalidIndex _ _ heap) as [[reserved indices] heap1].
    cbn [fst snd] in *. subst indices.
    destruct reserved.
    + specialize (Hgot eq_refl).
      assert (length (m_packedMipHeapIndices pm ++ taken) = NumTilesForPackedMips) as Hlen.
      { rewrite length_app. lia. }
      rewrite bool_decide_eq_true_2 by done.
      destruct updateListAvailable; cbn [fst snd m_packedMipStatus m_packedMipHeapIndices];
        unfold packed_ok; cbn [m_packedMipStatus m_packedMipHeapIndices];
        rewrite bool_decide_eq_false_2 by (simpl; lia).
      * split; [done|]. split; [done|]. split; [by exists taken|].
        split; [simpl in *; lia|]. split; [simpl; split; [lia|done]|].
        split; [|done]. intros ul Hul. injection Hul as <-. simpl in *. repeat split; lia.
      * split; [done|]. split; [done|]. split; [by exists taken|].
        split; [simpl in *; lia|]. split; [simpl; split; [done|lia]|].
        split; [done|]. intros _ Hav. done.
    + destruct (Hfail eq_refl) as [Hless Hempty].
      cbn [fst snd m_packedMipStatus m_packedMipHeapIndices].
      unfold packed_ok; cbn [m_packedMipStatus m_packedMipHeapIndices].
      rewrite bool_decide_eq_true_2 by done.
      split; [done|]. split; [rewrite length_app; lia|]. split; [by exists taken|].
      split; [done|]. split; [split; [done|simpl in *; lia]|].
      split; [done|]. intros Hle _. by apply Hfit.
  - rewrite bool_decide_eq_false_2 by done.
    unfold packed_ok in Hok. rewrite bool_decide_eq_false_2 in Hok by done.
    rewrite bool_decide_eq_true_2 by done.
    assert (m_packedMipStatus pm = HEAP_RESERVED) as Hst.
    { destruct (m_packedMipStatus pm); simpl in *; try done; lia. }
    destruct updateListAvailable; cbn [fst snd m_packedMipStatus m_packedMipHeapIndices];
      unfold packed_ok; cbn [m_packedMipStatus m_packedMipHeapIndices];
      rewrite bool_decide_eq_false_2 by (simpl; lia).
    + split; [done|]. split; [done|]. split; [exists []; by rewrite app_nil_r|].
      split; [rewrite Hst; simpl; lia|]. split; [simpl; split; [lia|done]|].
      split; [|done]. intros ul Hul. injection Hul as <-. simpl in *. repeat split; lia.
    + split; [done|]. split; [done|]. split; [exists []; by rewrite app_nil_r|].
      split; [rewrite Hst; simpl; lia|]. split; [simpl; split; [done|lia]|].
      split; [done|]. intros _ Hav. done.
Qed.

Lemma InitPackedMips_reserves_witness :
  InitPackedMips 4294967295 2 3 true
    {| m_packedMipStatus := UNINITIALIZED; m_packedMipHeapIndices := [] |}
    (HeapAllocator.Build [5; 6; 7]%Z)
  = (true, {| m_packedMipStatus := REQUESTED; m_packedMipHeapIndices := [5; 6]%Z |},
     HeapAllocator.Build [7]%Z, Some ([5; 6]%Z, 3))
  ∧ snd (InitPackedMips_flagged 4294967295 2 3 true
           {| m_packedMipStatus := UNINITIALIZED; m_packedMipHeapIndices := [] |}
           (HeapAllocator.Build [5; 6; 7]%Z)) = true.
Proof.
  split; [reflexivity|].
  destruct (InitPackedMips_reserves 4294967295 2 3 true
              {| m_packedMipStatus := UNINITIALIZED; m_packedMipHeapIndices := [] |}
              (HeapAllocator.Build [5; 6; 7]%Z)) as (Hassert & _).
  - vm_compute. lia.
  - cbn. rewrite !elem_of_cons, elem_of_nil. lia.
  - exact Hassert.
Defined.


(** X20.  [GetPackedMipsNeedTransition] returns true exactly when the
    status is [NEEDS_TRANSITION], and then only once: it leaves the status
    [RESIDENT], so that the next call returns false and [InitPackedMips]
    returns true without touching the pool or submitting an UpdateList.
    The status never steps back and the pages of the packed mips are kept. *)
Theorem GetPackedMipsNeedTransition_once (InvalidIndex : Z)
    (NumTilesForPackedMips NumPackedMips : nat) (updateListAvailable : bool)
    (pm : PackedMips) (heap : HeapAllocator.t) :
  let res := GetPackedMipsNeedTransition pm in
  (fst res = true ↔ m_packedMipStatus pm = NEEDS_TRANSITION)
  ∧ fst (GetPackedMipsNeedTransition (snd res)) = false
  ∧ PackedMipStatus_value (m_packedMipStatus pm)
    ≤ PackedMipStatus_value (m_packedMipStatus (snd res))
  ∧ m_packedMipHeapIndices (snd res) = m_packedMipHeapIndices pm
  ∧ (packed_ok NumTilesForPackedMips pm → packed_ok NumTilesForPackedMips (snd res))
  ∧ (fst res = true →
     InitPackedMips InvalidIndex NumTilesForPackedMips NumPackedMips updateListAvailable
       (snd res) heap
     = (true, snd res, heap, None)).
Proof.
  cbv zeta. unfold GetPackedMipsNeedTransition.
  destruct (decide (NEEDS_TRANSITION = m_packedMipStatus pm)) as [Heq|Hne].
  - rewrite bool_decide_eq_true_2 by done. cbn [fst snd m_packedMipStatus].
    rewrite bool_decide_eq_false_2 by done. rewrite <- Heq.
    split; [done|]. split; [done|]. split; [simpl; lia|]. split; [done|].
    split; [|done]. unfold packed_ok. rewrite <- Heq. done.
  - rewrite bool_decide_eq_false_2 by done. cbn [fst snd].
    rewrite bool_decide_eq_false_2 by done.
    split; [split; [done|intros Heq; by rewrite Heq in Hne]|]. done.
Qed.


(** ** QueueTiles: what is left pending *)

(** A visit of the ready bucket that records no eviction changes nothing
    and keeps the tiles that are being loaded. *)
Lemma evict_fold_quiet (InvalidIndex : Z) (coords : MappingCoords) :
  ∀ (tms : TileMappingState) (heap : HeapAllocator.t) (ul : UpdateList.t)
    (kept : MappingCoords),
    let st := foldl (evict_step InvalidIndex) (tms, heap, ul, kept) coords in
    length (UpdateList.m_evictCoords (snd (fst st))) = length (UpdateList.m_evictCoords ul) →
    st = (tms, heap, ul, kept ++ filter (λ c, GetResidency tms c = Loading) coords).
Proof.
  induction coords as [|c coords IH]; intros tms heap ul kept; cbv zeta.
  - intros _. cbn. by rewrite app_nil_r.
  - cbn [foldl]. rewrite filter_cons.
    remember (evict_step InvalidIndex (tms, heap, ul, kept) c) as st1 eqn:Hst1.
    unfold evict_step in Hst1.
    destruct (GetResidency tms c) eqn:Hres; subst st1.
    + rewrite decide_False by done. apply IH.
    + intros Hlen. exfalso.
      destruct (evict_fold_account InvalidIndex coords
                  (SetHeapIndex (SetEvicting tms (X c) (Y c) (Subresource c)) c InvalidIndex)
                  (HeapAllocator.Free (GetHeapIndex tms c) heap)
                  (UpdateList.AddEviction c ul) kept) as (_ & _ & _ & ev & Hev & _).
      rewrite Hev in Hlen. cbn in Hlen. rewrite !length_app in Hlen. simpl in Hlen. lia.
    + rewrite decide_False by done. apply IH.
    + rewrite decide_True by done. intros Hlen.
      rewrite (IH tms heap ul (kept ++ [c]) Hlen). by rewrite <- (assoc_L (++)).
Qed.

(** A visit of the pending loads that records no load changes nothing,
    visits every tile and keeps the tiles that are being evicted. *)
Lemma load_walk_quiet (InvalidIndex : Z) (coords : list D3D12_TILED_RESOURCE_COORDINATE) :
  ∀ (budget : Z) (tms : TileMappingState) (heap : HeapAllocator.t) (ul : UpdateList.t)
    (kept : list D3D12_TILED_RESOURCE_COORDINATE),
    let walk := load_walk InvalidIndex budget (tms, heap, ul, kept) coords in
    length (UpdateList.m_coords (snd (fst (fst walk)))) = length (UpdateList.m_coords ul) →
    walk = (tms, heap, ul, kept ++ filter (λ c, GetResidency tms c = Evicting) coords, []).
Proof.
  induction coords as [|c coords IH]; intros budget tms heap ul kept; cbv zeta.
  - intros _. cbn. by rewrite app_nil_r.
  - cbn [load_walk fst snd]. rewrite filter_cons.
    remember (load_step InvalidIndex (tms, heap, ul, kept) c) as st1 eqn:Hst1.
    unfold load_step in Hst1.
    destruct (GetResidency tms c) eqn:Hres; subst st1.
    + rewrite decide_True by done. intros Hlen. exfalso. case_decide.
      * cbn in Hlen. rewrite length_app in Hlen. simpl in Hlen. lia.
      * destruct (load_walk_account InvalidIndex coords (u32 (budget - 1))
                    (SetHeapIndex (SetLoading tms (X c) (Y c) (Subresource c)) c
                       (fst (HeapAllocator.Allocate InvalidIndex heap)))
                    (snd (HeapAllocator.Allocate InvalidIndex heap))
                    (UpdateList.AddUpdate c (fst (HeapAllocator.Allocate InvalidIndex heap)) ul)
                    kept) as (_ & loaded & Hc & _).
        rewrite Hc in Hlen. cbn in Hlen. rewrite !length_app in Hlen. simpl in Hlen. lia.
    + rewrite !decide_False by done. apply IH.
    + rewrite decide_False by done. rewrite decide_True by done. intros Hlen.
      rewrite (IH budget tms heap ul (kept ++ [c]) Hlen). by rewrite <- (assoc_L (++)).
    + rewrite !decide_False by done. apply IH.
Qed.


Lemma Forall_filter_self {A} (P : A → Prop) `{∀ a, Decision (P a)} (l : list A) :
  Forall P (filter P l).
Proof. rewrite Forall_forall. intros a Ha. by apply list_elem_of_filter in Ha as [Ha _]. Qed.

(** A turn of the loop of [QueueTiles] that leaves the UpdateList empty. *)
Lemma QueueTiles_pass_quiet (InvalidIndex GetMaxTileCopiesPerBatch : Z)
    (r : StreamingResourceBase) (heap : HeapAllocator.t) :
  (0 < GetMaxTileCopiesPerBatch)%Z →
  let st1 :=
    if bool_decide (length (EvictionDelay.GetReadyToEvict (m_pendingEvictions r)) ≠ 0)
    then QueuePendingTileEvictions InvalidIndex (r, heap, UpdateList.empty)
    else (r, heap, UpdateList.empty) in
  let st2 :=
    if bool_decide (length (m_pendingTileLoads r) ≠ 0)
       && bool_decide (HeapAllocator.GetNumFree (snd (fst st1)) ≠ 0)
    then QueuePendingTileLoads InvalidIndex GetMaxTileCopiesPerBatch st1
    else st1 in
  length (UpdateList.m_coords (snd st2)) = 0 →
  length (UpdateList.m_evictCoords (snd st2)) = 0 →
  nothing_to_queue (fst st2).
Proof.
  intros Hmax st1.
  assert (length (UpdateList.m_evictCoords (snd st1)) = 0 →
          UpdateList.m_coords (snd st1) = []
          ∧ m_pendingTileLoads (fst (fst st1)) = m_pendingTileLoads r
          ∧ Forall (λ c, GetResidency (m_tileMappingState (fst (fst st1))) c = Loading)
              (EvictionDelay.GetReadyToEvict (m_pendingEvictions (fst (fst st1))))) as H1.
  { subst st1. case_bool_decide as Hready.
    - rewrite QueuePendingTileEvictions_fold. cbn [fst snd]. intros Hev.
      rewrite (evict_fold_quiet InvalidIndex _ (m_tileMappingState r) heap UpdateList.empty [])
        by (rewrite Hev; done).
      cbn [fst snd app m_pendingEvictions set_pendingEvictions m_tileMappingState
           set_tileMappingState m_pendingTileLoads].
      rewrite GetReadyToEvict_SetReadyToEvict by by apply GetReadyToEvict_nonempty.
      split; [done|]. split; [done|]. apply Forall_filter_self.
    - cbn [fst snd]. intros _. split; [done|]. split; [done|].
      destruct (EvictionDelay.GetReadyToEvict (m_pendingEvictions r)); [constructor|].
      simpl in Hready. lia. }
  destruct st1 as [[r1 heap1] ul1]. cbn [fst snd] in *. cbv zeta.
  destruct (bool_decide (length (m_pendingTileLoads r) ≠ 0)
            && bool_decide (HeapAllocator.GetNumFree heap1 ≠ 0)) eqn:Hcond.
  - apply andb_true_iff in Hcond as [Hl%bool_decide_eq_true Hf%bool_decide_eq_true].
    rewrite QueuePendingTileLoads_walk. cbn [fst snd].
    set (budget := Z.min (Z.min (Z.of_nat (length (m_pendingTileLoads r1)))
                             GetMaxTileCopiesPerBatch)
                     (Z.of_nat (HeapAllocator.GetNumFree heap1))).
    intros Hc He.
    destruct (load_walk_account InvalidIndex (m_pendingTileLoads r1) budget
                (m_tileMappingState r1) heap1 ul1 []) as (_ & loaded & Hc2 & _).
    assert (UpdateList.m_evictCoords
              (snd (fst (fst (load_walk InvalidIndex budget
                                (m_tileMappingState r1, heap1, ul1, [])
                                (m_pendingTileLoads r1)))))
            = UpdateList.m_evictCoords ul1) as He2.
    { clear. generalize (@nil D3D12_TILED_RESOURCE_COORDINATE) as kept.
      generalize budget (m_tileMappingState r1) heap1 ul1.
      induction (m_pendingTileLoads r1) as [|c coords IH]; intros b tms heap ul kept; [done|].
      cbn [load_walk fst snd].
      remember (load_step InvalidIndex (tms, heap, ul, kept) c) as st1 eqn:Hst1.
      unfold load_step in Hst1.
      destruct (GetResidency tms c); subst st1; repeat case_decide; cbn [fst snd];
        try done; rewrite IH; done. }
    rewrite He2 in He. destruct (H1 He) as (Hc1 & Hloads & Hready).
    rewrite Hc2, Hc1 in Hc. simpl in Hc.
    rewrite (load_walk_quiet InvalidIndex _ budget (m_tileMappingState r1) heap1 ul1 [])
      by (rewrite Hc2, Hc1; simpl; lia).
    unfold nothing_to_queue.
    cbn [fst snd app m_pendingEvictions set_pendingTileLoads m_tileMappingState
         set_tileMappingState m_pendingTileLoads].
    split; [exact Hready|]. left. rewrite app_nil_r. apply Forall_filter_self.
  - cbn [fst snd]. intros Hc He. destruct (H1 He) as (Hc1 & Hloads & Hready).
    split; [exact Hready|]. cbn [fst snd]. rewrite Hloads.
    apply andb_false_iff in Hcond as [Hl%bool_decide_eq_false|Hf%bool_decide_eq_false].
    + left. destruct (m_pendingTileLoads r); [constructor|]. exfalso. apply Hl. simpl. lia.
    + right. lia.
Qed.

(** X21.  [QueueTiles] queues all that can be queued.  With batches of at
    least one copy and more UpdateLists available than there are pending
    loads and tiles ready to evict, when it returns every tile left in the
    ready bucket is [Loading] (its eviction waits for the load in flight),
    and every pending load that is left is [Evicting] (it waits for the
    eviction in flight) unless the pool of pages is empty. *)
Theorem QueueTiles_exhaustive (InvalidIndex GetMaxTileCopiesPerBatch : Z) (avail : nat)
    (r : StreamingResourceBase) (heap : HeapAllocator.t) :
  (0 < GetMaxTileCopiesPerBatch)%Z →
  length (m_pendingTileLoads r)
  + length (EvictionDelay.GetReadyToEvict (m_pendingEvictions r)) < avail →
  nothing_to_queue (fst (QueueTiles InvalidIndex GetMaxTileCopiesPerBatch avail (r, heap))).
Proof.
  intros Hmax. revert r heap. induction avail as [|avail IH]; intros r heap Hm; [lia|].
  rewrite QueueTiles_unfold. cbv zeta.
  pose proof (QueueTiles_pass InvalidIndex GetMaxTileCopiesPerBatch r heap Hmax) as Hpass.
  pose proof (QueueTiles_pass_quiet InvalidIndex GetMaxTileCopiesPerBatch r heap Hmax)
    as Hquiet.
  cbv zeta in Hpass, Hquiet.
  match type of Hpass with
  | context [if ?b then QueuePendingTileLoads ?i ?m ?st1 else ?e] =>
      set (st2 := if b then QueuePendingTileLoads i m st1 else e) in *
  end.
  destruct st2 as [[r2 heap2] ul]. cbn [fst snd] in *.
  destruct Hpass as (_ & _ & _ & _ & _ & _ & Hless).
  destruct (bool_decide (length (m_pendingTileLoads r) ≠ 0)
            && bool_decide (HeapAllocator.GetNumFree heap ≠ 0)
            || bool_decide (length (EvictionDelay.GetReadyToEvict (m_pendingEvictions r)) ≠ 0))
    eqn:Hcond.
  - destruct (bool_decide (length (UpdateList.m_coords ul) ≠ 0)
              || bool_decide (length (UpdateList.m_evictCoords ul) ≠ 0)) eqn:Hsub.
    + cbn [fst]. specialize (IH r2 heap2).
      destruct (QueueTiles InvalidIndex GetMaxTileCopiesPerBatch avail (r2, heap2))
        as [[r3 heap3] submitted].
      cbn [fst snd] in *. apply IH.
      apply orb_true_iff in Hsub as [H%bool_decide_eq_true|H%bool_decide_eq_true]; lia.
    + cbn [fst].
      apply orb_false_iff in Hsub as [Hc%bool_decide_eq_false He%bool_decide_eq_false].
      apply Hquiet; lia.
  - cbn [fst]. apply orb_false_iff in Hcond as [Hloads He%bool_decide_eq_false].
    split; cbn [fst snd].
    + destruct (EvictionDelay.GetReadyToEvict (m_pendingEvictions r)); [constructor|].
      exfalso. apply He. simpl. lia.
    + apply andb_false_iff in Hloads as [Hl%bool_decide_eq_false|Hf%bool_decide_eq_false].
      * left. destruct (m_pendingTileLoads r); [constructor|]. exfalso. apply Hl. simpl. lia.
      * right. lia.
Qed.

Lemma QueueTiles_exhaustive_witness :
  nothing_to_queue
    (fst (QueueTiles 4294967295 32 5
            (sys_resource cold_system_feedback, sys_heap cold_system_feedback))).
Proof.
  apply (QueueTiles_exhaustive 4294967295 32 5 (sys_resource cold_system_feedback)
           (sys_heap cold_system_feedback)).
  - lia.
  - vm_compute. lia.
Defined.


(** ** DataUploader: the pool of UpdateLists *)

Section pool.
Import DataUploader.
Variable Reset : UL.t → UL.t.
Variable spurious : nat → bool.

Lemma filter_length_insert {A} (P : A → Prop) `{∀ a, Decision (P a)} (l : list A)
    (i : nat) (a b : A) :
  l !! i = Some a →
  length (filter P (<[i := b]> l)) + (if decide (P a) then 1 else 0)
  = length (filter P l) + (if decide (P b) then 1 else 0).
Proof.
  revert i. induction l as [|x l IH]; intros [|i] Hi; try done.
  - injection Hi as ->. simpl. rewrite !filter_cons.
    destruct (decide (P a)), (decide (P b)); simpl; lia.
  - simpl. rewrite !filter_cons. specialize (IH i Hi).
    destruct (decide (P x)); simpl; lia.
Qed.

(** The loop of [AllocateUpdateList]: it takes the first UpdateList, in
    the rotation after [m_updateListAllocIndex], that is free and on which
    the exchange does not fail. *)
Lemma AllocateUpdateList_loop_spec (n : nat) :
  ∀ (k : nat) (du : t),
    0 < length (m_updateLists du) →
    let N := length (m_updateLists du) in
    let res := AllocateUpdateList_loop Reset spurious n k du in
    let taken (j : nat) :=
      list_state du ((m_updateListAllocIndex du + 1 + j) `mod` N) = Some STATE_FREE
      ∧ spurious (k + j) = false in
    m_updateListFreeCount (snd res) = m_updateListFreeCount du
    ∧ m_mappingFenceValue (snd res) = m_mappingFenceValue du
    ∧ match fst res with
      | Some i =>
          ∃ j p, j < n ∧ i = (m_updateListAllocIndex du + 1 + j) `mod` N
                 ∧ taken j ∧ (∀ j', j' < j → ¬ taken j')
                 ∧ m_updateLists du !! i = Some p
                 ∧ m_updateLists (snd res)
                   = <[i := Reset (UL.set_executionState STATE_ALLOCATED p)]> (m_updateLists du)
                 ∧ m_updateListAllocIndex (snd res) = i
      | None =>
          m_updateLists (snd res) = m_updateLists du ∧ ∀ j, j < n → ¬ taken j
      end.
Proof.
  induction n as [|n IH]; intros k du HN; cbv zeta.
  - cbn. repeat split; try done. intros j Hj. lia.
  - cbn [AllocateUpdateList_loop].
    cbn [m_updateLists set_updateListAllocIndex m_updateListAllocIndex].
    set (N := length (m_updateLists du)) in *.
    set (a := (m_updateListAllocIndex du + 1) `mod` N).
    assert (a < N) as Ha by (apply Nat.mod_upper_bound; lia).
    destruct (lookup_lt_is_Some_2 (m_updateLists du) a Ha) as [p Hp]. rewrite Hp.
    assert (∀ j, (a + 1 + j) `mod` N = (m_updateListAllocIndex du + 1 + S j) `mod` N) as Hrot.
    { intros j. unfold a.
      replace (m_updateListAllocIndex du + 1 + S j)
        with ((m_updateListAllocIndex du + 1) + (1 + j)) by lia.
      rewrite <- (Nat.Div0.add_mod_idemp_l (m_updateListAllocIndex du + 1) (1 + j) N).
      f_equal. lia. }
    destruct (bool_decide (UL.m_executionState p = STATE_FREE) && negb (spurious k)) eqn:Hcas.
    + apply andb_true_iff in Hcas as [Hfree%bool_decide_eq_true Hsp%negb_true_iff].
      cbn [fst snd m_updateLists set_updateLists m_updateListFreeCount m_mappingFenceValue
           m_updateListAllocIndex set_updateListAllocIndex].
      split; [done|]. split; [done|]. exists 0, p.
      rewrite !Nat.add_0_r. fold a. split; [lia|]. split; [done|].
      split; [split; [unfold list_state; by rewrite Hp; simpl; rewrite Hfree|done]|].
      split; [intros j' Hj'; lia|]. done.
    + specialize (IH (S k) (set_updateListAllocIndex a du)).
      cbn [m_updateLists set_updateListAllocIndex m_updateListAllocIndex
           m_updateListFreeCount m_mappingFenceValue] in IH.
      fold N in IH. specialize (IH HN). cbv zeta in IH.
      destruct IH as (Hc & Hf & IH). split; [exact Hc|]. split; [exact Hf|].
      assert (¬ (list_state du ((m_updateListAllocIndex du + 1 + 0) `mod` N) = Some STATE_FREE
                 ∧ spurious (k + 0) = false)) as H0.
      { rewrite !Nat.add_0_r. fold a. unfold list_state. rewrite Hp. simpl.
        intros [Hfree Hsp]. injection Hfree as Hfree.
        rewrite Hfree, Hsp in Hcas. by rewrite bool_decide_eq_true_2 in Hcas. }
      destruct (fst (AllocateUpdateList_loop Reset spurious n (S k) _)) as [i|].
      * destruct IH as (j & p' & Hj & Hi & [Hst Hsp] & Hfirst & Hp' & Hl & Hidx).
        exists (S j), p'. split; [lia|]. split; [by rewrite <- Hrot|].
        split; [split; [by rewrite <- Hrot|by replace (k + S j) with (S k + j) by lia]|].
        split; [|done].
        intros [|j'] Hj'; [exact H0|].
        rewrite <- Hrot. replace (k + S j') with (S k + j') by lia.
        apply Hfirst. lia.
      * destruct IH as [Hl Hnone]. split; [done|].
        intros [|j] Hj; [exact H0|].
        rewrite <- Hrot. replace (k + S j) with (S k + j) by lia. apply Hnone. lia.
Qed.

End pool.


Lemma rotation_covers (b N i : nat) : i < N → ∃ j, j < N ∧ (b + j) `mod` N = i.
Proof.
  intros Hi. pose proof (Nat.mod_upper_bound b N ltac:(lia)) as Hb.
  destruct (decide (b `mod` N ≤ i)) as [Hle|Hgt].
  - exists (i - b `mod` N). split; [lia|].
    rewrite <- Nat.Div0.add_mod_idemp_l.
    replace (b `mod` N + (i - b `mod` N)) with i by lia. by apply Nat.mod_small.
  - exists (i + N - b `mod` N). split; [lia|].
    rewrite <- Nat.Div0.add_mod_idemp_l.
    replace (b `mod` N + (i + N - b `mod` N)) with (i + 1 * N) by lia.
    rewrite Nat.Div0.mod_add. by apply Nat.mod_small.
Qed.

Lemma free_lists_pos (du : DataUploader.t) :
  0 < free_lists du →
  ∃ i, i < length (DataUploader.m_updateLists du)
       ∧ list_state du i = Some DataUploader.STATE_FREE.
Proof.
  unfold free_lists, list_state. intros Hpos.
  destruct (filter _ (DataUploader.m_updateLists du)) as [|u l] eqn:Hf; [simpl in Hpos; lia|].
  assert (u ∈ u :: l) as Hin by left. rewrite <- Hf in Hin.
  apply list_elem_of_filter in Hin as [Hu [i Hi]%list_elem_of_lookup_1].
  exists i. split; [by eapply lookup_lt_Some|]. by rewrite Hi; simpl; rewrite Hu.
Qed.

(** What a call of [AllocateUpdateList] that enters the loop does to the
    pool. *)
Lemma AllocateUpdateList_pool (Reset : DataUploader.UL.t → DataUploader.UL.t)
    (spurious : nat → bool) (du : DataUploader.t) :
  (∀ p, DataUploader.UL.m_executionState (Reset p) = DataUploader.UL.m_executionState p) →
  let res := DataUploader.AllocateUpdateList Reset spurious du in
  length (DataUploader.m_updateLists (snd res)) = length (DataUploader.m_updateLists du)
  ∧ match fst res with
    | Some i =>
        list_state du i = Some DataUploader.STATE_FREE
        ∧ list_state (snd res) i = Some DataUploader.STATE_ALLOCATED
        ∧ (∀ j, j ≠ i → DataUploader.m_updateLists (snd res) !! j
                        = DataUploader.m_updateLists du !! j)
        ∧ (0 < DataUploader.m_updateListFreeCount du)%Z
        ∧ DataUploader.m_updateListFreeCount (snd res)
          = (DataUploader.m_updateListFreeCount du - 1)%Z
        ∧ free_lists (snd res) + 1 = free_lists du
    | None =>
        DataUploader.m_updateLists (snd res) = DataUploader.m_updateLists du
        ∧ DataUploader.m_updateListFreeCount (snd res)
          = (if bool_decide (0 < DataUploader.m_updateListFreeCount du)%Z
             then DataUploader.m_updateListFreeCount du - 1
             else DataUploader.m_updateListFreeCount du)%Z
    end.
Proof.
  intros HReset. cbv zeta. unfold DataUploader.AllocateUpdateList.
  case_bool_decide as Hcount; [|done].
  set (du1 := DataUploader.set_updateListFreeCount _ du).
  destruct (decide (length (DataUploader.m_updateLists du) = 0)) as [Hz|Hnz].
  { change (DataUploader.m_updateLists du1) with (DataUploader.m_updateLists du).
    rewrite Hz. done. }
  pose proof (AllocateUpdateList_loop_spec Reset spurious
                (length (DataUploader.m_updateLists du1)) 0 du1 ltac:(simpl; lia)) as Hloop.
  cbv zeta in Hloop. destruct Hloop as (Hc & _ & Hloop).
  destruct (DataUploader.AllocateUpdateList_loop Reset spurious _ 0 du1) as [[i|] du2];
    cbn [fst snd] in *.
  - destruct Hloop as (j & p & Hj & Hi & [Hst _] & _ & Hp & Hl & _).
    change (DataUploader.m_updateLists du1) with (DataUploader.m_updateLists du) in *.
    change (list_state du1) with (list_state du) in *.
    rewrite <- Hi in Hst. rewrite Hl.
    split; [by rewrite length_insert|]. split; [exact Hst|].
    assert (i < length (DataUploader.m_updateLists du)) as Hlt by by eapply lookup_lt_Some.
    split; [unfold list_state; rewrite Hl, list_lookup_insert_eq by done; simpl;
            by rewrite HReset|].
    split; [intros j' Hne; by rewrite list_lookup_insert_ne|].
    split; [done|]. split; [by rewrite Hc|].
    unfold free_lists. rewrite Hl.
    pose proof (filter_length_insert
                  (λ u, DataUploader.UL.m_executionState u = DataUploader.STATE_FREE)
                  (DataUploader.m_updateLists du) i p
                  (Reset (DataUploader.UL.set_executionState DataUploader.STATE_ALLOCATED p))
                  Hp) as Hf.
    unfold list_state in Hst. rewrite Hp in Hst. simpl in Hst. injection Hst as Hst.
    rewrite decide_True in Hf by done.
    rewrite decide_False in Hf by (rewrite HReset; done). lia.
  - destruct Hloop as [Hl _]. split; [by rewrite Hl|]. split; [done|]. by rewrite Hc.
Qed.

(** X22.  [AllocateUpdateList] never hands out an UpdateList that is in use:
    the UpdateList that it returns was [STATE_FREE] and is
    [STATE_ALLOCATED] afterwards, no other UpdateList changes, and the free
    count drops by one.  When it returns none the UpdateLists are
    untouched, but the free count has dropped by one all the same if it was
    positive.  In either case the free count stays a lower bound of the
    number of the free UpdateLists. *)
Theorem AllocateUpdateList_safe (Reset : DataUploader.UL.t → DataUploader.UL.t)
    (spurious : nat → bool) (du : DataUploader.t) :
  (∀ p, DataUploader.UL.m_executionState (Reset p) = DataUploader.UL.m_executionState p) →
  pool_ok du →
  let res := DataUploader.AllocateUpdateList Reset spurious du in
  pool_ok (snd res)
  ∧ length (DataUploader.m_updateLists (snd res)) = length (DataUploader.m_updateLists du)
  ∧ match fst res with
    | Some i =>
        list_state du i = Some DataUploader.STATE_FREE
        ∧ list_state (snd res) i = Some DataUploader.STATE_ALLOCATED
        ∧ (∀ j, j ≠ i → DataUploader.m_updateLists (snd res) !! j
                        = DataUploader.m_updateLists du !! j)
        ∧ DataUploader.m_updateListFreeCount (snd res)
          = (DataUploader.m_updateListFreeCount du - 1)%Z
    | None =>
        DataUploader.m_updateLists (snd res) = DataUploader.m_updateLists du
        ∧ DataUploader.m_updateListFreeCount (snd res)
          = (if bool_decide (0 < DataUploader.m_updateListFreeCount du)%Z
             then DataUploader.m_updateListFreeCount du - 1
             else DataUploader.m_updateListFreeCount du)%Z
    end.
Proof.
  intros HReset Hok. cbv zeta.
  destruct (AllocateUpdateList_pool Reset spurious du HReset) as [Hlen Hres].
  unfold pool_ok in *.
  destruct (fst (DataUploader.AllocateUpdateList Reset spurious du)) as [i|].
  - destruct Hres as (Hfree & Halloc & Hother & Hpos & Hcount & Hlists).
    split; [lia|]. split; [done|]. done.
  - destruct Hres as [Hl Hcount].
    split; [|done]. unfold free_lists in *. rewrite Hl, Hcount. case_bool_decide; lia.
Qed.

Lemma AllocateUpdateList_safe_witness :
  let u := {| DataUploader.UL.m_executionState := DataUploader.STATE_FREE;
              DataUploader.UL.m_mappingFenceValue := 0;
              DataUploader.UL.m_copyFenceValid := false;
              DataUploader.UL.GetNumStandardUpdates := 0;
              DataUploader.UL.GetNumEvictions := 0;
              DataUploader.UL.GetNumPackedUpdates := 0 |} in
  let du := {| DataUploader.m_updateLists := [u; u];
               DataUploader.m_updateListFreeCount := 2;
               DataUploader.m_updateListAllocIndex := 0;
               DataUploader.m_mappingFenceValue := 1 |} in
  fst (DataUploader.AllocateUpdateList id (λ k, bool_decide (k = 0)) du) = Some 0
  ∧ pool_ok (snd (DataUploader.AllocateUpdateList id (λ k, bool_decide (k = 0)) du)).
Proof.
  intros u du. split; [reflexivity|].
  destruct (AllocateUpdateList_safe id (λ k, bool_decide (k = 0)) du) as (Hok & _).
  - done.
  - unfold pool_ok. vm_compute. split; discriminate.
  - exact Hok.
Defined.

(** X23.  When the exchange of [AllocateUpdateList] never fails on a free
    UpdateList and the free count is the number of the free UpdateLists, a
    call keeps it so, returns none exactly when no UpdateList is free, and
    otherwise returns the first free UpdateList in the rotation after
    [m_updateListAllocIndex]. *)
Theorem AllocateUpdateList_next_free (Reset : DataUploader.UL.t → DataUploader.UL.t)
    (du : DataUploader.t) :
  (∀ p, DataUploader.UL.m_executionState (Reset p) = DataUploader.UL.m_executionState p) →
  pool_exact du →
  let N := length (DataUploader.m_updateLists du) in
  let res := DataUploader.AllocateUpdateList Reset (λ _, false) du in
  pool_exact (snd res)
  ∧ (fst res = None ↔ free_lists du = 0)
  ∧ ∀ i, fst res = Some i →
         ∃ j, j < N
              ∧ i = (DataUploader.m_updateListAllocIndex du + 1 + j) `mod` N
              ∧ list_state du i = Some DataUploader.STATE_FREE
              ∧ ∀ j', j' < j →
                  list_state du ((DataUploader.m_updateListAllocIndex du + 1 + j') `mod` N)
                  ≠ Some DataUploader.STATE_FREE.
Proof.
  intros HReset Hex. cbv zeta.
  destruct (AllocateUpdateList_pool Reset (λ _, false) du HReset) as [Hlen Hres].
  unfold pool_exact in *. unfold DataUploader.AllocateUpdateList in *.
  case_bool_decide as Hcount.
  2:{ cbn [fst snd]. split; [done|]. split; [split; [lia|done]|]. done. }
  set (du1 := DataUploader.set_updateListFreeCount _ du) in *.
  destruct (free_lists_pos du ltac:(lia)) as (i0 & Hi0 & Hfree0).
  pose proof (AllocateUpdateList_loop_spec Reset (λ _, false)
                (length (DataUploader.m_updateLists du1)) 0 du1 ltac:(simpl; lia)) as Hloop.
  cbv zeta in Hloop. destruct Hloop as (_ & _ & Hloop).
  change (DataUploader.m_updateLists du1) with (DataUploader.m_updateLists du) in *.
  change (DataUploader.m_updateListAllocIndex du1)
    with (DataUploader.m_updateListAllocIndex du) in *.
  change (list_state du1) with (list_state du) in *.
  destruct (DataUploader.AllocateUpdateList_loop Reset (λ _, false) _ 0 du1) as [[i|] du2];
    cbn [fst snd] in *.
  - destruct Hres as (_ & _ & _ & _ & Hc & Hlists).
    split; [lia|]. split; [split; [done|lia]|].
    intros i' Hi'. injection Hi' as <-.
    destruct Hloop as (j & p & Hj & Hi & [Hst _] & Hfirst & _).
    exists j. split; [done|]. split; [done|]. split; [by rewrite Hi|].
    intros j' Hj' Hst'. by apply (Hfirst j' Hj').
  - exfalso. destruct Hloop as [_ Hnone].
    destruct (rotation_covers (DataUploader.m_updateListAllocIndex du + 1)
                (length (DataUploader.m_updateLists du)) i0 Hi0) as (j & Hj & Hrot).
    apply (Hnone j Hj). by rewrite Hrot.
Qed.

Lemma AllocateUpdateList_next_free_witness :
  let u s := {| DataUploader.UL.m_executionState := s;
                DataUploader.UL.m_mappingFenceValue := 0;
                DataUploader.UL.m_copyFenceValid := false;
                DataUploader.UL.GetNumStandardUpdates := 0;
                DataUploader.UL.GetNumEvictions := 0;
                DataUploader.UL.GetNumPackedUpdates := 0 |} in
  let du := {| DataUploader.m_updateLists :=
                 [u DataUploader.STATE_FREE; u DataUploader.STATE_SUBMITTED;
                  u DataUploader.STATE_FREE];
               DataUploader.m_updateListFreeCount := 2;
               DataUploader.m_updateListAllocIndex := 0;
               DataUploader.m_mappingFenceValue := 1 |} in
  fst (DataUploader.AllocateUpdateList id (λ _, false) du) = Some 2
  ∧ pool_exact (snd (DataUploader.AllocateUpdateList id (λ _, false) du)).
Proof.
  intros u du. split; [reflexivity|].
  destruct (AllocateUpdateList_next_free id du) as (Hex & _).
  - done.
  - reflexivity.
  - exact Hex.
Defined.


(** ** DataUploader: the fence monitor and the submit pass *)

Lemma filter_all {A} (P : A → Prop) `{∀ a, Decision (P a)} (l : list A) :
  Forall P l → filter P l = l.
Proof.
  induction 1 as [|a l Ha Hl IH]; [done|]. rewrite filter_cons, decide_True by done.
  by rewrite IH.
Qed.

Lemma filter_none {A} (P : A → Prop) `{∀ a, Decision (P a)} (l : list A) :
  Forall (λ a, ¬ P a) l → filter P l = [].
Proof.
  induction 1 as [|a l Ha Hl IH]; [done|]. by rewrite filter_cons, decide_False.
Qed.

(** The notices about one UpdateList, out of the notices of a pass in which
    the notices of the UpdateList [j] are [f j u]. *)
Lemma filter_notices {A} (l : list A) :
  ∀ (k : nat) (f : nat → A → list DataUploader.Notice),
    (∀ j u, Forall (λ n, notice_list n = k + j) (f j u)) →
    ∀ m, filter (λ n, notice_list n = m) (concat (imap f l))
         = if decide (k ≤ m) then from_option (f (m - k)) [] (l !! (m - k)) else [].
Proof.
  induction l as [|x l IH]; intros k f Hf m.
  - cbn. by case_decide.
  - rewrite imap_cons. cbn [concat]. rewrite filter_app.
    rewrite (IH (S k) (f ∘ S)).
    2:{ intros j u. cbn. replace (S (k + j)) with (k + S j) by lia. apply Hf. }
    pose proof (Hf 0 x) as H0. rewrite Nat.add_0_r in H0.
    destruct (decide (m = k)) as [->|Hne].
    + rewrite filter_all by done. rewrite decide_False by lia.
      rewrite decide_True by lia. rewrite Nat.sub_diag. cbn. by rewrite app_nil_r.
    + rewrite filter_none.
      2:{ eapply Forall_impl; [exact H0|]. intros n Hn. cbn in *. lia. }
      cbn [app]. destruct (decide (S k ≤ m)) as [Hle|Hgt].
      * rewrite decide_True by lia. replace (m - k) with (S (m - S k)) by lia. done.
      * by rewrite decide_False by lia.
Qed.

(** What the fence monitor does with one UpdateList. *)
Lemma FenceMonitorThread_body_spec (completedValue : Z) (GetCompleted : nat → bool)
    (i : nat) (u : DataUploader.UL.t) :
  let res := DataUploader.FenceMonitorThread_body completedValue GetCompleted i u in
  let u' := fst (fst (fst res)) in
  let freed := DataUploader.UL.m_executionState u = DataUploader.STATE_COPY_PENDING
               ∧ DataUploader.UL.m_executionState u' = DataUploader.STATE_FREE in
  u' = DataUploader.UL.set_executionState (DataUploader.UL.m_executionState u') u
  ∧ lifecycle_move (DataUploader.UL.m_executionState u) (DataUploader.UL.m_executionState u')
  ∧ (snd (fst (fst res)) = true ↔ freed)
  ∧ snd (fst res) = (if decide freed then completion_notices i u else [])
  ∧ (DataUploader.UL.m_executionState u = DataUploader.STATE_FREE →
     DataUploader.UL.m_executionState u' = DataUploader.STATE_FREE)
  ∧ (DataUploader.UL.m_executionState u' = DataUploader.STATE_FREE →
     DataUploader.UL.m_executionState u = DataUploader.STATE_FREE ∨ freed).
Proof.
  cbv zeta. unfold DataUploader.FenceMonitorThread_body, lifecycle_move, completion_notices.
  destruct u as [st fence valid nstd nev npk].
  cbn [DataUploader.UL.m_executionState DataUploader.UL.GetNumEvictions
       DataUploader.UL.GetNumStandardUpdates DataUploader.UL.GetNumPackedUpdates
       DataUploader.UL.m_mappingFenceValue DataUploader.UL.m_copyFenceValid].
  destruct st; cbn [fst snd DataUploader.UL.m_executionState];
    repeat match goal with
           | |- context [if ?b then _ else _] =>
               lazymatch b with
               | decide _ => fail
               | _ => destruct b eqn:?
               end
           end;
    cbn [fst snd DataUploader.UL.m_executionState DataUploader.UL.set_executionState];
    try (rewrite decide_True by done); try (rewrite decide_False by (intros [? ?]; done));
    repeat split; try done; try naive_solver.
Qed.


Lemma filter_fmap_length {A B} (g : A → B) (P : B → Prop) `{∀ b, Decision (P b)}
    (l : list A) :
  length (filter P (g <$> l)) = length (filter (λ a, P (g a)) l).
Proof.
  induction l as [|a l IH]; [done|]. cbn [fmap list_fmap]. rewrite !filter_cons.
  destruct (decide (P (g a))); simpl; by rewrite IH.
Qed.

Lemma imap_count {A B} (P : A → Prop) (Q R : B → Prop) `{∀ a, Decision (P a)}
    `{∀ b, Decision (Q b)} `{∀ b, Decision (R b)} (l : list A) :
  ∀ f : nat → A → B,
    (∀ i u, (Q (f i u) ↔ P u ∨ R (f i u)) ∧ ¬ (P u ∧ R (f i u))) →
    length (filter Q (imap f l)) = length (filter P l) + length (filter R (imap f l)).
Proof.
  induction l as [|x l IH]; intros f Hf; [done|].
  rewrite imap_cons, !filter_cons. specialize (IH (f ∘ S) (λ i u, Hf (S i) u)).
  destruct (Hf 0 x) as [Hq Hnot].
  destruct (decide (Q (f 0 x))), (decide (P x)), (decide (R (f 0 x)));
    simpl; try lia; naive_solver.
Qed.

(** X24.  One pass of [FenceMonitorThread].  Every UpdateList keeps its
    content and its state stays or moves along the life cycle; the free
    count stays the number of the free UpdateLists (and stays a lower bound
    of it).  The resource of an UpdateList is notified exactly when the
    pass frees the UpdateList, which it does only from
    [STATE_COPY_PENDING]: then the notices about it are, once each and in
    this order, [NotifyEvicted] if it holds evictions, [NotifyCopyComplete]
    if it holds standard updates and [NotifyPackedMips] if it holds packed
    updates; for every other UpdateList there is no notice. *)
Theorem FenceMonitorThread_notices (completedValue : Z) (GetCompleted : nat → bool)
    (du : DataUploader.t) :
  let res := DataUploader.FenceMonitorThread completedValue GetCompleted du in
  let du' := fst (fst res) in
  let notices := snd (fst res) in
  length (DataUploader.m_updateLists du') = length (DataUploader.m_updateLists du)
  ∧ (pool_exact du → pool_exact du')
  ∧ (pool_ok du → pool_ok du')
  ∧ ∀ i u, DataUploader.m_updateLists du !! i = Some u →
      ∃ s', DataUploader.m_updateLists du' !! i
            = Some (DataUploader.UL.set_executionState s' u)
            ∧ lifecycle_move (DataUploader.UL.m_executionState u) s'
            ∧ filter (λ n, notice_list n = i) notices
              = if decide (DataUploader.UL.m_executionState u = DataUploader.STATE_COPY_PENDING
                           ∧ s' = DataUploader.STATE_FREE)
                then completion_notices i u else [].
Proof.
  cbv zeta. unfold DataUploader.FenceMonitorThread. cbn [fst snd].
  set (body := DataUploader.FenceMonitorThread_body completedValue GetCompleted).
  cbn [DataUploader.m_updateLists DataUploader.set_updateLists
       DataUploader.set_updateListFreeCount DataUploader.m_updateListFreeCount].
  assert (free_lists
            (DataUploader.set_updateListFreeCount
               (DataUploader.m_updateListFreeCount du
                + Z.of_nat (length (filter (λ x, snd (fst (fst x)) = true)
                                      (imap body (DataUploader.m_updateLists du)))))
               (DataUploader.set_updateLists
                  ((λ x, fst (fst (fst x))) <$> imap body (DataUploader.m_updateLists du)) du))
          = free_lists du
            + length (filter (λ x, snd (fst (fst x)) = true)
                        (imap body (DataUploader.m_updateLists du)))) as Hfree.
  { unfold free_lists. cbn [DataUploader.m_updateLists DataUploader.set_updateLists
                            DataUploader.set_updateListFreeCount].
    rewrite filter_fmap_length. apply imap_count. intros i u.
    destruct (FenceMonitorThread_body_spec completedValue GetCompleted i u)
      as (_ & _ & Hfreed & _ & Hstay & Hback).
    fold body in Hfreed, Hstay, Hback. split; [split|].
    - intros Hq. destruct (Hback Hq) as [?|?]; [by left|right; by apply Hfreed].
    - intros [Hp|Hr]; [by apply Hstay|]. by apply Hfreed in Hr as [_ ?].
    - intros [Hp Hr]. apply Hfreed in Hr as [Hr _]. by rewrite Hp in Hr. }
  split; [by rewrite length_fmap, length_imap|].
  split; [unfold pool_exact; rewrite Hfree; cbn; intros ->; lia|].
  split; [unfold pool_ok; rewrite Hfree; cbn; lia|].
  intros i u Hu.
  destruct (FenceMonitorThread_body_spec completedValue GetCompleted i u)
    as (Hu' & Hmove & _ & Hnotes & _). fold body in Hu', Hmove, Hnotes.
  exists (DataUploader.UL.m_executionState (fst (fst (fst (body i u))))).
  split; [by rewrite list_lookup_fmap, list_lookup_imap, Hu; simpl; rewrite <- Hu'|].
  split; [exact Hmove|].
  rewrite fmap_imap.
  rewrite (filter_notices _ 0).
  2:{ intros j u0. cbn.
      destruct (FenceMonitorThread_body_spec completedValue GetCompleted j u0)
        as (_ & _ & _ & Hn & _). fold body in Hn. rewrite Hn.
      case_decide; [|constructor]. unfold completion_notices.
      repeat case_bool_decide; repeat constructor. }
  rewrite decide_True by lia. rewrite Nat.sub_0_r, Hu. cbn. exact Hnotes.
Qed.


(** The UpdateList [i] and the notices about it after a pass of the fence
    monitor. *)
Lemma FenceMonitorThread_list (completedValue : Z) (GetCompleted : nat → bool)
    (du : DataUploader.t) (i : nat) (u : DataUploader.UL.t) :
  DataUploader.m_updateLists du !! i = Some u →
  let res := DataUploader.FenceMonitorThread completedValue GetCompleted du in
  let body := DataUploader.FenceMonitorThread_body completedValue GetCompleted i u in
  DataUploader.m_updateLists (fst (fst res)) !! i = Some (fst (fst (fst body)))
  ∧ filter (λ n, notice_list n = i) (snd (fst res)) = snd (fst body).
Proof.
  intros Hu. cbv zeta. unfold DataUploader.FenceMonitorThread. cbn [fst snd].
  cbn [DataUploader.m_updateLists DataUploader.set_updateLists
       DataUploader.set_updateListFreeCount].
  split; [by rewrite list_lookup_fmap, list_lookup_imap, Hu|].
  rewrite fmap_imap. rewrite (filter_notices _ 0).
  2:{ intros j u0. cbn.
      destruct (FenceMonitorThread_body_spec completedValue GetCompleted j u0)
        as (_ & _ & _ & Hn & _). rewrite Hn.
      case_decide; [|constructor]. unfold completion_notices.
      repeat case_bool_decide; repeat constructor. }
  rewrite decide_True by lia. by rewrite Nat.sub_0_r, Hu.
Qed.

Lemma SubmitThread_list (du : DataUploader.t) (i : nat) (u : DataUploader.UL.t) :
  DataUploader.m_updateLists du !! i = Some u →
  DataUploader.m_updateLists (DataUploader.SubmitThread du) !! i
  = Some (fst (DataUploader.SubmitThread_body (DataUploader.m_mappingFenceValue du) u)).
Proof.
  intros Hu. unfold DataUploader.SubmitThread. cbv zeta.
  destruct (existsb snd _); cbn [DataUploader.m_updateLists DataUploader.set_updateLists
                                 DataUploader.set_mappingFenceValue];
    by rewrite <- list_fmap_compose, list_lookup_fmap, Hu.
Qed.

Lemma FenceMonitorThread_body_packed_mapping (completedValue : Z)
    (GetCompleted : nat → bool) (i : nat) (u : DataUploader.UL.t) :
  DataUploader.UL.m_executionState u = DataUploader.STATE_PACKED_MAPPING →
  (DataUploader.UL.m_mappingFenceValue u ≤ completedValue)%Z →
  DataUploader.FenceMonitorThread_body completedValue GetCompleted i u
  = (DataUploader.UL.set_executionState DataUploader.STATE_UPLOADING u, false, [], false).
Proof.
  intros Hst Hf. unfold DataUploader.FenceMonitorThread_body. rewrite Hst.
  by rewrite bool_decide_eq_true_2.
Qed.

Lemma FenceMonitorThread_body_uploading (completedValue : Z)
    (GetCompleted : nat → bool) (i : nat) (u : DataUploader.UL.t) :
  DataUploader.UL.m_executionState u = DataUploader.STATE_UPLOADING →
  DataUploader.UL.m_copyFenceValid u = true →
  DataUploader.FenceMonitorThread_body completedValue GetCompleted i u
  = (DataUploader.UL.set_executionState DataUploader.STATE_COPY_PENDING u, false, [], true).
Proof.
  intros Hst Hv. unfold DataUploader.FenceMonitorThread_body. by rewrite Hst, Hv.
Qed.

Lemma FenceMonitorThread_body_copy_pending (completedValue : Z)
    (GetCompleted : nat → bool) (i : nat) (u : DataUploader.UL.t) :
  DataUploader.UL.m_executionState u = DataUploader.STATE_COPY_PENDING →
  (DataUploader.UL.m_mappingFenceValue u ≤ completedValue)%Z →
  GetCompleted i = true →
  DataUploader.FenceMonitorThread_body completedValue GetCompleted i u
  = (DataUploader.UL.set_executionState DataUploader.STATE_FREE u, true,
     completion_notices i u, false).
Proof.
  intros Hst Hf HG. unfold DataUploader.FenceMonitorThread_body. rewrite Hst, HG.
  cbn [negb]. rewrite andb_false_r.
  case_bool_decide; [by rewrite bool_decide_eq_false_2 by lia|done].
Qed.

Lemma FenceMonitorThread_body_free (completedValue : Z)
    (GetCompleted : nat → bool) (i : nat) (u : DataUploader.UL.t) :
  DataUploader.UL.m_executionState u = DataUploader.STATE_FREE →
  DataUploader.FenceMonitorThread_body completedValue GetCompleted i u = (u, false, [], false).
Proof. intros Hst. unfold DataUploader.FenceMonitorThread_body. by rewrite Hst. Qed.

(** X25.  A submitted UpdateList completes.  After [SubmitThread] no
    UpdateList is [STATE_SUBMITTED].  When the mapping fence has reached
    the value that [SubmitThread] records, the file streamer reports the
    copy of the UpdateList as completed and its copy fence as valid, three
    passes of [FenceMonitorThread] bring an UpdateList that was submitted
    back to [STATE_FREE], and in the course of them its resource receives
    the notices of its completion once: [NotifyEvicted] if it holds
    evictions, then [NotifyCopyComplete] if it holds standard updates, then
    [NotifyPackedMips] if it holds packed updates. *)
Theorem UpdateList_completes (completedValue : Z) (GetCompleted : nat → bool)
    (du : DataUploader.t) (i : nat) (u : DataUploader.UL.t) :
  DataUploader.m_updateLists du !! i = Some u →
  DataUploader.UL.m_executionState u = DataUploader.STATE_SUBMITTED →
  (DataUploader.m_mappingFenceValue du ≤ completedValue)%Z →
  GetCompleted i = true →
  DataUploader.UL.m_copyFenceValid u = true →
  let du1 := DataUploader.SubmitThread du in
  let pass2 := DataUploader.FenceMonitorThread completedValue GetCompleted du1 in
  let pass3 := DataUploader.FenceMonitorThread completedValue GetCompleted (fst (fst pass2)) in
  let pass4 := DataUploader.FenceMonitorThread completedValue GetCompleted (fst (fst pass3)) in
  (∀ j, list_state du1 j ≠ Some DataUploader.STATE_SUBMITTED)
  ∧ DataUploader.m_mappingFenceValue du1 = (DataUploader.m_mappingFenceValue du + 1)%Z
  ∧ list_state (fst (fst pass4)) i = Some DataUploader.STATE_FREE
  ∧ filter (λ n, notice_list n = i) (snd (fst pass2) ++ snd (fst pass3) ++ snd (fst pass4))
    = completion_notices i u.
Proof.
  intros Hu Hst Hfence HG Hvalid. cbv zeta.
  split; [|split].
  { intros j Hj. unfold list_state in Hj.
    destruct (DataUploader.m_updateLists (DataUploader.SubmitThread du) !! j) as [uj|] eqn:Huj;
      [|done].
    destruct (DataUploader.m_updateLists du !! j) as [u0|] eqn:Hu0.
    - rewrite (SubmitThread_list du j u0 Hu0) in Huj. injection Huj as <-.
      simpl in Hj. injection Hj as Hj. unfold DataUploader.SubmitThread_body in Hj.
      destruct (DataUploader.UL.m_executionState u0) eqn:Hs0; cbn in Hj;
        try congruence; repeat case_bool_decide; cbn in Hj; congruence.
    - apply lookup_lt_Some in Huj. apply lookup_ge_None in Hu0.
      unfold DataUploader.SubmitThread in Huj. cbv zeta in Huj.
      destruct (existsb snd _);
        cbn [DataUploader.m_updateLists DataUploader.set_updateLists
             DataUploader.set_mappingFenceValue] in Huj;
        rewrite !length_fmap in Huj; lia. }
  { unfold DataUploader.SubmitThread. cbv zeta.
    assert (existsb snd (DataUploader.SubmitThread_body (DataUploader.m_mappingFenceValue du)
                           <$> DataUploader.m_updateLists du) = true) as ->; [|done].
    apply existsb_exists.
    exists (DataUploader.SubmitThread_body (DataUploader.m_mappingFenceValue du) u).
    split.
    - apply list_elem_of_In, list_elem_of_fmap. exists u.
      split; [done|]. by eapply list_elem_of_lookup_2.
    - unfold DataUploader.SubmitThread_body. by rewrite Hst. }
  pose proof (SubmitThread_list du i u Hu) as H1.
  destruct (FenceMonitorThread_list completedValue GetCompleted _ i _ H1) as [H2 N2].
  destruct (FenceMonitorThread_list completedValue GetCompleted _ i _ H2) as [H3 N3].
  destruct (FenceMonitorThread_list completedValue GetCompleted _ i _ H3) as [H4 N4].
  rewrite !filter_app, N2, N3, N4. unfold list_state. rewrite H4. clear H1 H2 H3 H4 N2 N3 N4.
  unfold DataUploader.SubmitThread_body. rewrite Hst. cbn [fst].
  set (u1 := DataUploader.UL.set_mappingFenceValue (DataUploader.m_mappingFenceValue du) u).
  assert (∀ s, completion_notices i (DataUploader.UL.set_executionState s u1)
               = completion_notices i u) as Hnotes by done.
  assert (DataUploader.UL.m_copyFenceValid u1 = true) as Hvalid1 by done.
  assert (DataUploader.UL.m_mappingFenceValue u1 ≤ completedValue)%Z as Hfence1 by done.
  clearbody u1.
  assert (∀ s s' u0, DataUploader.UL.set_executionState s
                       (DataUploader.UL.set_executionState s' u0)
                     = DataUploader.UL.set_executionState s u0) as Hset by done.
  destruct (bool_decide (DataUploader.UL.GetNumStandardUpdates u1 ≠ 0)).
  - rewrite (FenceMonitorThread_body_uploading completedValue GetCompleted i
               (DataUploader.UL.set_executionState DataUploader.STATE_UPLOADING u1))
      by (cbn; done).
    cbn [fst snd]. rewrite Hset.
    rewrite (FenceMonitorThread_body_copy_pending completedValue GetCompleted i
               (DataUploader.UL.set_executionState DataUploader.STATE_COPY_PENDING u1))
      by (cbn; done).
    cbn [fst snd]. rewrite Hset.
    rewrite (FenceMonitorThread_body_free completedValue GetCompleted i
               (DataUploader.UL.set_executionState DataUploader.STATE_FREE u1))
      by (cbn; done).
    cbn [fst snd]. split; [done|]. by rewrite app_nil_r, Hnotes.
  - destruct (bool_decide (0 = DataUploader.UL.GetNumPackedUpdates u1)).
    + rewrite (FenceMonitorThread_body_copy_pending completedValue GetCompleted i
                 (DataUploader.UL.set_executionState DataUploader.STATE_COPY_PENDING u1))
        by (cbn; done).
      cbn [fst snd].
      rewrite !(FenceMonitorThread_body_free completedValue GetCompleted i
                  (DataUploader.UL.set_executionState DataUploader.STATE_FREE
                     (DataUploader.UL.set_executionState DataUploader.STATE_COPY_PENDING u1)))
        by (cbn; done).
      cbn [fst snd].
      rewrite !(FenceMonitorThread_body_free completedValue GetCompleted i
                  (DataUploader.UL.set_executionState DataUploader.STATE_FREE
                     (DataUploader.UL.set_executionState DataUploader.STATE_COPY_PENDING u1)))
        by (cbn; done).
      cbn [fst snd]. split; [done|]. by rewrite !app_nil_r, Hnotes.
    + rewrite (FenceMonitorThread_body_packed_mapping completedValue GetCompleted i
                 (DataUploader.UL.set_executionState DataUploader.STATE_PACKED_MAPPING u1))
        by (cbn; done).
      cbn [fst snd]. rewrite Hset.
      rewrite (FenceMonitorThread_body_uploading completedValue GetCompleted i
                 (DataUploader.UL.set_executionState DataUploader.STATE_UPLOADING u1))
        by (cbn; done).
      cbn [fst snd]. rewrite Hset.
      rewrite (FenceMonitorThread_body_copy_pending completedValue GetCompleted i
                 (DataUploader.UL.set_executionState DataUploader.STATE_COPY_PENDING u1))
        by (cbn; done).
      cbn [fst snd]. split; [done|]. by rewrite Hnotes.
Qed.


Lemma UpdateList_completes_witness :
  let u := {| DataUploader.UL.m_executionState := DataUploader.STATE_SUBMITTED;
              DataUploader.UL.m_mappingFenceValue := 0;
              DataUploader.UL.m_copyFenceValid := true;
              DataUploader.UL.GetNumStandardUpdates := 3;
              DataUploader.UL.GetNumEvictions := 1;
              DataUploader.UL.GetNumPackedUpdates := 0 |} in
  let du := {| DataUploader.m_updateLists := [u];
               DataUploader.m_updateListFreeCount := 0;
               DataUploader.m_updateListAllocIndex := 0;
               DataUploader.m_mappingFenceValue := 1 |} in
  let du1 := DataUploader.SubmitThread du in
  let pass2 := DataUploader.FenceMonitorThread 1 (λ _, true) du1 in
  let pass3 := DataUploader.FenceMonitorThread 1 (λ _, true) (fst (fst pass2)) in
  let pass4 := DataUploader.FenceMonitorThread 1 (λ _, true) (fst (fst pass3)) in
  list_state (fst (fst pass4)) 0 = Some DataUploader.STATE_FREE
  ∧ filter (λ n, notice_list n = 0) (snd (fst pass2) ++ snd (fst pass3) ++ snd (fst pass4))
    = [DataUploader.NotifyEvicted 0; DataUploader.NotifyCopyComplete 0].
Proof.
  intros u du.
  destruct (UpdateList_completes 1 (λ _, true) du 0 u) as (_ & _ & Hfree & Hnotes);
    [reflexivity|reflexivity|cbn; lia|reflexivity|reflexivity|].
  split; [exact Hfree|exact Hnotes].
Defined.


Lemma alter_insert {A} (f : A → A) (l : list A) (i : nat) (a : A) :
  l !! i = Some a → alter f i l = <[i := f a]> l.
Proof.
  revert i. induction l as [|x l IH]; intros [|i] Hi; try done.
  - by injection Hi as ->.
  - simpl. f_equal. by apply IH.
Qed.

(** X26.  An UpdateList goes out of the pool and back.  When the free count
    is the number of the free UpdateLists and [AllocateUpdateList] returns
    an UpdateList, the count is still exact; [FreeUpdateList] of that
    UpdateList (as for an UpdateList that stayed empty) gives back the
    states and the free count that the pool had, and [SubmitUpdateList]
    marks it [STATE_SUBMITTED], changes no other UpdateList and keeps the
    count exact. *)
Theorem UpdateList_pool_round_trip (Reset : DataUploader.UL.t → DataUploader.UL.t)
    (spurious : nat → bool) (du : DataUploader.t) (i : nat) :
  (∀ p, DataUploader.UL.m_executionState (Reset p) = DataUploader.UL.m_executionState p) →
  pool_exact du →
  fst (DataUploader.AllocateUpdateList Reset spurious du) = Some i →
  let du1 := snd (DataUploader.AllocateUpdateList Reset spurious du) in
  let du2 := DataUploader.FreeUpdateList i du1 in
  let du3 := DataUploader.SubmitUpdateList i du1 in
  pool_exact du1 ∧ pool_exact du2 ∧ pool_exact du3
  ∧ (∀ j, list_state du2 j = list_state du j)
  ∧ DataUploader.m_updateListFreeCount du2 = DataUploader.m_updateListFreeCount du
  ∧ list_state du3 i = Some DataUploader.STATE_SUBMITTED
  ∧ (∀ j, j ≠ i → list_state du3 j = list_state du j).
Proof.
  intros HReset Hex Hsome. cbv zeta.
  destruct (AllocateUpdateList_pool Reset spurious du HReset) as [Hlen Hres].
  rewrite Hsome in Hres. destruct Hres as (Hfree & Halloc & Hother & Hpos & Hcount & Hlists).
  set (du1 := snd (DataUploader.AllocateUpdateList Reset spurious du)) in *.
  unfold pool_exact in *.
  assert (∃ p1, DataUploader.m_updateLists du1 !! i = Some p1
                ∧ DataUploader.UL.m_executionState p1 = DataUploader.STATE_ALLOCATED)
    as (p1 & Hp1 & Hs1).
  { unfold list_state in Halloc.
    destruct (DataUploader.m_updateLists du1 !! i) as [p1|]; [|done].
    exists p1. split; [done|]. by injection Halloc. }
  assert (∀ s, free_lists (DataUploader.set_updateLists
                             (alter (DataUploader.UL.set_executionState s) i
                                (DataUploader.m_updateLists du1)) du1)
               + 0
               = free_lists du1
                 + (if decide (s = DataUploader.STATE_FREE) then 1 else 0)) as Halter.
  { intros s. unfold free_lists. cbn [DataUploader.m_updateLists DataUploader.set_updateLists].
    rewrite (alter_insert _ _ _ _ Hp1).
    pose proof (filter_length_insert
                  (λ u, DataUploader.UL.m_executionState u = DataUploader.STATE_FREE)
                  (DataUploader.m_updateLists du1) i p1
                  (DataUploader.UL.set_executionState s p1) Hp1) as Hf.
    assert (DataUploader.UL.m_executionState (DataUploader.UL.set_executionState s p1) = s)
      as Hs by (by destruct p1).
    cbv beta in Hf. rewrite Hs, Hs1 in Hf.
    destruct (decide (DataUploader.STATE_ALLOCATED = DataUploader.STATE_FREE)); [done|].
    destruct (decide (s = DataUploader.STATE_FREE)); lia. }
  split; [lia|]. split.
  { unfold DataUploader.FreeUpdateList.
    cbn [DataUploader.m_updateListFreeCount DataUploader.set_updateListFreeCount].
    change (free_lists (DataUploader.set_updateListFreeCount _ ?d)) with (free_lists d).
    pose proof (Halter DataUploader.STATE_FREE) as Hf. rewrite decide_True in Hf by done.
    cbn [DataUploader.m_updateListFreeCount DataUploader.set_updateLists]. lia. }
  split.
  { unfold DataUploader.SubmitUpdateList.
    pose proof (Halter DataUploader.STATE_SUBMITTED) as Hf.
    rewrite decide_False in Hf by done.
    cbn [DataUploader.m_updateListFreeCount DataUploader.set_updateLists]. lia. }
  split.
  { intros j. unfold list_state, DataUploader.FreeUpdateList.
    cbn [DataUploader.m_updateLists DataUploader.set_updateLists
         DataUploader.set_updateListFreeCount].
    destruct (decide (j = i)) as [->|Hne].
    - rewrite list_lookup_alter_eq, Hp1. cbn. by rewrite <- Hfree.
    - rewrite list_lookup_alter_ne by done. by rewrite Hother. }
  split.
  { unfold DataUploader.FreeUpdateList.
    cbn [DataUploader.m_updateListFreeCount DataUploader.set_updateListFreeCount
         DataUploader.set_updateLists]. lia. }
  split.
  { unfold list_state, DataUploader.SubmitUpdateList.
    cbn [DataUploader.m_updateLists DataUploader.set_updateLists].
    by rewrite list_lookup_alter_eq, Hp1. }
  intros j Hne. unfold list_state, DataUploader.SubmitUpdateList.
  cbn [DataUploader.m_updateLists DataUploader.set_updateLists].
  rewrite list_lookup_alter_ne by done. by rewrite Hother.
Qed.

Lemma UpdateList_pool_round_trip_witness :
  let u s := {| DataUploader.UL.m_executionState := s;
                DataUploader.UL.m_mappingFenceValue := 0;
                DataUploader.UL.m_copyFenceValid := false;
                DataUploader.UL.GetNumStandardUpdates := 0;
                DataUploader.UL.GetNumEvictions := 0;
                DataUploader.UL.GetNumPackedUpdates := 0 |} in
  let du := {| DataUploader.m_updateLists :=
                 [u DataUploader.STATE_FREE; u DataUploader.STATE_SUBMITTED;
                  u DataUploader.STATE_FREE];
               DataUploader.m_updateListFreeCount := 2;
               DataUploader.m_updateListAllocIndex := 0;
               DataUploader.m_mappingFenceValue := 1 |} in
  let du1 := snd (DataUploader.AllocateUpdateList id (λ _, false) du) in
  pool_exact (DataUploader.FreeUpdateList 2 du1)
  ∧ DataUploader.m_updateListFreeCount (DataUploader.FreeUpdateList 2 du1)
    = DataUploader.m_updateListFreeCount du.
Proof.
  intros u du.
  destruct (UpdateList_pool_round_trip id (λ _, false) du 2) as (_ & Hex & _ & _ & Hc & _);
    [done|reflexivity|reflexivity|].
  split; [exact Hex|exact Hc].
Defined.


(** ** The depth of the eviction delay *)

Lemma ProcessFeedback_depth (RESOLVE_TO_TEXTURE : bool) (fence : Z)
    (resolved : nat → list nat) (r : StreamingResourceBase) :
  ring_depth (ProcessFeedback RESOLVE_TO_TEXTURE fence resolved r) = ring_depth r.
Proof.
  unfold ProcessFeedback.
  destruct (m_setZeroRefCounts r).
  - destruct (m_refCountsZero (set_setZeroRefCounts false r)); [done|].
    match goal with
    | |- context [ProcessFeedback_zero_loops (?r0, false)] =>
        assert (ring_depth (fst (ProcessFeedback_zero_loops (r0, false))) = ring_depth r)
          as Hloops;
        [|destruct (ProcessFeedback_zero_loops (r0, false)) as [r1 ch]]
    end.
    + rewrite zero_loops_flat.
      apply (foldl_invariant (λ st, ring_depth (fst st) = ring_depth r)); [done|].
      intros [r1 ch] c H1 _. unfold ProcessFeedback_zero_step, ProcessFeedback_zero_body.
      case_bool_decide; [|done]. cbn [fst] in *. rewrite <- H1.
      unfold ring_depth, EvictionDelay.Append. simpl. by rewrite length_alter.
    + cbn [fst] in Hloops. by destruct ch.
  - destruct (foldl _ _ _) as [[q feedbackIndex] latest].
    case_bool_decide; [done|].
    pose proof (ProcessFeedback_update_loops_ind
                  (λ r', ring_depth r' = ring_depth r) RESOLVE_TO_TEXTURE
                  (resolved (feedbackIndex - 1)) (GetNumTilesWidth r) (GetNumTilesHeight r)
                  (set_queuedFeedback q r)) as Hloops.
    destruct (ProcessFeedback_update_loops _ _ _ _ _) as [r1 ch]. cbn [fst] in Hloops.
    assert (ring_depth r1 = ring_depth r) as H1.
    { apply Hloops; [| | |done].
      - intros x y s r0 H0. rewrite <- H0. unfold AddTileRef. by case_bool_decide.
      - intros x y s r0 H0. rewrite <- H0. unfold DecTileRef.
        case_bool_decide; [|done].
        unfold ring_depth, EvictionDelay.Append. simpl. by rewrite length_alter.
      - intros refs r0 H0. by rewrite <- H0. }
    assert (∀ r0, ring_depth (AbandonPending r0) = ring_depth r0) as Habandon.
    { intros r0. unfold ring_depth.
      by destruct (AbandonPending_spec r0) as (_ & _ & ->). }
    assert (∀ r0 tms, ring_depth (set_pendingEvictions
                                    (EvictionDelay.Rescue tms (m_pendingEvictions r0)) r0)
                      = ring_depth r0) as Hrescue.
    { intros r0 tms. unfold ring_depth, EvictionDelay.Rescue. simpl.
      by rewrite length_map. }
    destruct ch.
    + change (ring_depth (SetResidencyChanged ?r0)) with (ring_depth r0).
      rewrite Hrescue, Habandon. exact H1.
    + rewrite Hrescue, Habandon. exact H1.
Qed.

Lemma QueueTiles_pass_depth (InvalidIndex GetMaxTileCopiesPerBatch : Z)
    (r : StreamingResourceBase) (heap : HeapAllocator.t) :
  let st1 :=
    if bool_decide (length (EvictionDelay.GetReadyToEvict (m_pendingEvictions r)) ≠ 0)
    then QueuePendingTileEvictions InvalidIndex (r, heap, UpdateList.empty)
    else (r, heap, UpdateList.empty) in
  let st2 :=
    if bool_decide (length (m_pendingTileLoads r) ≠ 0)
       && bool_decide (HeapAllocator.GetNumFree (snd (fst st1)) ≠ 0)
    then QueuePendingTileLoads InvalidIndex GetMaxTileCopiesPerBatch st1
    else st1 in
  ring_depth (fst (fst st2)) = ring_depth r.
Proof.
  intros st1.
  assert (ring_depth (fst (fst st1)) = ring_depth r) as H1.
  { subst st1. case_bool_decide; [|done].
    rewrite QueuePendingTileEvictions_fold. cbn [fst].
    unfold ring_depth, EvictionDelay.SetReadyToEvict. simpl. by rewrite length_insert. }
  destruct st1 as [[r1 heap1] ul1]. cbn [fst snd] in *. cbv zeta.
  destruct (_ && _); [|done].
  by rewrite QueuePendingTileLoads_walk.
Qed.

Lemma QueueTiles_depth (InvalidIndex GetMaxTileCopiesPerBatch : Z) (avail : nat) :
  ∀ (r : StreamingResourceBase) (heap : HeapAllocator.t),
    ring_depth (fst (fst (QueueTiles InvalidIndex GetMaxTileCopiesPerBatch avail (r, heap))))
    = ring_depth r.
Proof.
  induction avail as [|avail IH]; intros r heap.
  - cbn [QueueTiles]. by destruct (_ || _).
  - rewrite QueueTiles_unfold. cbv zeta.
    pose proof (QueueTiles_pass_depth InvalidIndex GetMaxTileCopiesPerBatch r heap)
      as Hpass.
    cbv zeta in Hpass.
    match type of Hpass with
    | context [if ?b then QueuePendingTileLoads ?i ?m ?st1 else ?e] =>
        set (st2 := if b then QueuePendingTileLoads i m st1 else e) in *
    end.
    destruct st2 as [[r2 heap2] ul]. cbn [fst snd] in *.
    destruct (_ && _ || _); [|done].
    destruct (_ || _); [|exact Hpass].
    cbn [fst]. by rewrite IH.
Qed.

Lemma step_depth (InvalidIndex : Z) (RESOLVE_TO_TEXTURE : bool)
    (GetMaxTileCopiesPerBatch : Z) (sys sys' : System) :
  step InvalidIndex RESOLVE_TO_TEXTURE GetMaxTileCopiesPerBatch sys sys' →
  ring_depth (sys_resource sys') = ring_depth (sys_resource sys).
Proof.
  intros Hstep.
  destruct Hstep as [fence resolved sys|avail sys|before ul after sys Hsub|sys|n fence sys
                     |residencyMap sys|sys|sys|i sys Hi Hnot Hheld];
    cbn [sys_resource sys_heap sys_submitted].
  - apply ProcessFeedback_depth.
  - apply QueueTiles_depth.
  - unfold NotifyUpdateList. by repeat case_bool_decide.
  - unfold ring_depth, NextFrame. simpl. apply NextFrame_length.
  - done.
  - unfold UpdateMinMipMap. by destruct (negb _).
  - done.
  - done.
  - done.
Qed.

(** X27.  The eviction delay keeps its depth.  Along every run of the engine
    ([ProcessFeedback], [QueueTiles], the notices of the DataUploader,
    [NextFrame], [ResolveFeedback], [UpdateMinMipMap], [QueueEviction]) the
    number of the buckets of [m_pendingEvictions] stays what it was; for a
    resource made by the constructor it is the number of the swap buffers
    plus one in every state of the run, so that the bucket that
    [GetReadyToEvict] reads, the last one, exists. *)
Theorem run_ring_depth (InvalidIndex : Z) (RESOLVE_TO_TEXTURE : bool)
    (GetMaxTileCopiesPerBatch : Z) (sys sys' : System) :
  run InvalidIndex RESOLVE_TO_TEXTURE GetMaxTileCopiesPerBatch sys sys' →
  ring_depth (sys_resource sys') = ring_depth (sys_resource sys)
  ∧ ∀ numSwapBuffers numStandardMips tiling numTilesWidth numTilesHeight,
      sys_resource sys
      = create InvalidIndex numSwapBuffers numStandardMips tiling numTilesWidth numTilesHeight →
      ring_depth (sys_resource sys') = numSwapBuffers + 1
      ∧ EvictionDelay.m_mappings (m_pendingEvictions (sys_resource sys')) !! numSwapBuffers
        = Some (EvictionDelay.GetReadyToEvict (m_pendingEvictions (sys_resource sys'))).
Proof.
  intros Hrun.
  assert (ring_depth (sys_resource sys') = ring_depth (sys_resource sys)) as Hdepth.
  { induction Hrun as [sys|sys sys' sys'' _ IH Hstep]; [done|].
    rewrite <- IH. by eapply step_depth. }
  split; [exact Hdepth|].
  intros n mips tiling w h Hcreate.
  assert (ring_depth (sys_resource sys') = n + 1) as Hn.
  { rewrite Hdepth, Hcreate. unfold ring_depth, create, EvictionDelay.create. simpl.
    by rewrite length_replicate. }
  split; [exact Hn|].
  unfold ring_depth in Hn. unfold EvictionDelay.GetReadyToEvict.
  destruct (EvictionDelay.m_mappings (m_pendingEvictions (sys_resource sys')))
    as [|b m] using rev_ind; [simpl in Hn; lia|].
  rewrite length_app in Hn. simpl in Hn.
  rewrite lookup_app_r by lia.
  replace (n - length m) with 0 by lia.
  unfold back. by rewrite last_snoc.
Qed.

Lemma run_ring_depth_witness :
  ring_depth (sys_resource cold_system_queued) = 3.
Proof.
  destruct (run_ring_depth 4294967295 false 32 cold_system cold_system_queued) as [_ Hc].
  - apply run_step with (sys' := cold_system_feedback);
      [|exact (step_QueueTiles 4294967295 false 32 1 cold_system_feedback)].
    apply run_step with (sys' := cold_system_resolved);
      [|exact (step_ProcessFeedback 4294967295 false 32 1 cold_feedback
                 cold_system_resolved)].
    apply run_step with (sys' := cold_system);
      [|exact (step_ResolveFeedback 4294967295 false 32 2 1 cold_system)].
    apply run_refl.
  - exact (proj1 (Hc 2 4 cold_tiling 4 4 eq_refl)).
Defined.


(** ** An idle resource *)

Lemma swap_buckets_empty (i j : nat) (m : list (list D3D12_TILED_RESOURCE_COORDINATE)) :
  Forall (λ b, b = []) m → EvictionDelay.swap_buckets i j m = m.
Proof.
  intros Hall. unfold EvictionDelay.swap_buckets.
  assert (∀ k, default [] (m !! k) = []) as Hdef.
  { intros k. destruct (m !! k) as [b|] eqn:Hk; [|done].
    by apply (Forall_lookup_1 _ _ _ _ Hall Hk). }
  assert (∀ k, <[k := []]> m = m) as Hins.
  { intros k. destruct (m !! k) as [b|] eqn:Hk.
    - apply list_insert_id. rewrite Hk. f_equal.
      by apply (Forall_lookup_1 _ _ _ _ Hall Hk).
    - apply list_insert_ge. by apply lookup_ge_None. }
  by rewrite !Hdef, !Hins.
Qed.

Lemma NextFrame_empty (ed : EvictionDelay.t) :
  Forall (λ b, b = []) (EvictionDelay.m_mappings ed) → EvictionDelay.NextFrame ed = ed.
Proof.
  destruct ed as [m]. cbn [EvictionDelay.m_mappings]. intros Hall.
  unfold EvictionDelay.NextFrame. cbn [EvictionDelay.m_mappings]. f_equal.
  assert (∀ i, EvictionDelay.swap_down i m = m) as Hdown.
  { induction i as [|i IH]; [done|]. simpl. by rewrite swap_buckets_empty. }
  rewrite Hdown.
  assert (default [] (m !! 0) = []) as ->.
  { destruct (m !! 0) as [b|] eqn:Hk; [|done].
    by apply (Forall_lookup_1 _ _ _ _ Hall Hk). }
  assert (alter (λ b, b ++ []) (length m - 1) m = m) as ->.
  { apply list_eq. intros k. destruct (decide (k = length m - 1)) as [->|Hne].
    - rewrite list_lookup_alter_eq. destruct (m !! (length m - 1)); [|done].
      simpl. by rewrite app_nil_r.
    - by rewrite list_lookup_alter_ne. }
  destruct (m !! 0) as [b|] eqn:Hk.
  - apply list_insert_id. rewrite Hk. f_equal. by apply (Forall_lookup_1 _ _ _ _ Hall Hk).
  - apply list_insert_ge. by apply lookup_ge_None.
Qed.

Lemma create_idle (InvalidIndex : Z) (numSwapBuffers numStandardMips : nat)
    (tiling : list (nat * nat)) (numTilesWidth numTilesHeight : nat) :
  idle (create InvalidIndex numSwapBuffers numStandardMips tiling numTilesWidth numTilesHeight).
Proof.
  unfold idle, create, EvictionDelay.create. simpl. repeat split.
  - by intros f [-> _]%elem_of_replicate.
  - apply Forall_replicate. done.
Qed.

(** X28.  An idle frame changes nothing.  When no eviction of everything is
    asked for, no feedback is queued, no tile waits for a load or in the
    eviction delay and no residency changed since the last
    [UpdateMinMipMap] (the state in which the constructor leaves the
    resource), the calls of a frame do nothing: [ProcessFeedback] leaves
    the resource as it is, [QueueTiles] submits no UpdateList and touches
    neither the resource nor the pool of pages, [NextFrame] keeps the
    eviction delay and [UpdateMinMipMap] writes nothing into the residency
    map. *)
Theorem idle_frame_unchanged (InvalidIndex : Z) (RESOLVE_TO_TEXTURE : bool)
    (GetMaxTileCopiesPerBatch : Z) (r : StreamingResourceBase) :
  idle r →
  ∀ (completed : Z) (resolved : nat → list nat) (avail : nat) (heap : HeapAllocator.t)
    (residencyMap : list nat),
    ProcessFeedback RESOLVE_TO_TEXTURE completed resolved r = r
    ∧ QueueTiles InvalidIndex GetMaxTileCopiesPerBatch avail (r, heap) = (r, heap, [])
    ∧ NextFrame r = r
    ∧ UpdateMinMipMap residencyMap r = (r, residencyMap).
Proof.
  intros (Hzero & Hqueue & Hloads & Hring & Hchanged) completed resolved avail heap
    residencyMap.
  split; [|split; [|split]].
  - destruct (ProcessFeedback_select_spec completed (m_queuedFeedback r)
                (length (m_queuedFeedback r)))
      as (q & idx & latest & Hfold & _ & _ & _ & Hz & Hsel); [done|].
    assert (idx = 0) as ->.
    { destruct idx as [|i]; [done|].
      destruct (Hsel i eq_refl) as (_ & f & Hf & [Hq _] & _).
      rewrite (Hqueue f) in Hq; [done|]. by eapply list_elem_of_lookup_2. }
    destruct (Hz eq_refl) as [-> _].
    unfold ProcessFeedback. rewrite Hzero, Hfold. simpl. by destruct r.
  - assert (EvictionDelay.GetReadyToEvict (m_pendingEvictions r) = []) as Hready.
    { unfold EvictionDelay.GetReadyToEvict, back.
      destruct (last _) as [b|] eqn:Hlast; [|done]. simpl.
      apply last_Some in Hlast as [m' Hm']. rewrite Hm' in Hring.
      by apply Forall_app in Hring as [_ [-> _]%Forall_cons]. }
    destruct avail; cbn [QueueTiles]; by rewrite Hloads, Hready.
  - unfold NextFrame. rewrite NextFrame_empty by done. by destruct r.
  - unfold UpdateMinMipMap. by rewrite Hchanged.
Qed.

Lemma idle_frame_unchanged_witness :
  QueueTiles 4294967295 32 4 (cold_resource, HeapAllocator.Build [0; 1]%Z)
  = (cold_resource, HeapAllocator.Build [0; 1]%Z, [])
  ∧ NextFrame cold_resource = cold_resource.
Proof.
  destruct (idle_frame_unchanged 4294967295 false 32 cold_resource
              (create_idle 4294967295 2 4 cold_tiling 4 4)
              0%Z cold_feedback 4 (HeapAllocator.Build [0; 1]%Z) [])
    as (_ & Hq & Hn & _).
  split; [exact Hq|exact Hn].
Defined.
